(* ===== verification/_CoqProject ===== *)
-Q . S2P
Prelude.v
BMap.v
Json.v
ModelTypes.v
Refs.v
JsonSchema.v
SchemaJson.v
TestKit.v
ApiDocument.v
Message.v
Utf8.v
Framed.v
Outbound.v
ServerConfig.v
Limits.v
ErrorCode.v
LogLevel.v
Peer.v
Basics.v
Toolbox.v
Mcp.v
Handler.v
Headers.v
Request.v
Session.v
Keeps.v
Slots.v
Connection.v
Server.v
Push.v
Subs.v
Upgrade.v
Aggregation.v
Signal.v
Scheduler.v
Accept.v
Whole.v
Listen.v
Client.v
Connect.v
Builder.v
McpWire.v
McpInterop.v
Types.v
LogReader.v
Transport.v
Config.v
Small.v
Deserializer.v
LogSetup.v
EndToEnd.v
Echo.v
EchoWire.v
ModelTests.v
WireTests.v
ServerTests.v
LogTests.v
SeamTests.v
