(* ===== verification/Prelude.v ===== *)
(** * Verification of endpoint-libs

    endpoint-libs is the library that a family of services shares to describe their
    endpoints and to serve them over WebSocket (or any framed channel), in a native
    protocol and in MCP (JSON-RPC 2.0).  This development translates its own logic
    into executable definitions and proves what makes it correct.

    ** How the program fits together

    A service registers handlers by endpoint code ([src/libs/ws/server.rs]) and
    listens: one thread per shard, each with its own accept loop, all sharing the
    connection table and the limits.  A connection is accepted under a limit, upgraded
    within a handshake budget, and served by
    [serve_connection]: [OnConnect] hooks, registration in the connection table with
    a bounded outbound queue and a policy flag, authentication, then the session
    loop ([src/libs/ws/session.rs]).  The loop polls, in strict priority, the running
    requests, the outbound queue, the peer and the policy flag.  An inbound frame is
    routed to a handler by [handle_message], in either protocol, if the roles of the
    connection and the in-flight limit allow it; the request is then a future (hooks,
    handler, hooks, under a timeout) that answers through the toolbox, which reaches
    connections through the table.  Beside this, the model of endpoint types is
    converted to JSON Schema for MCP tools and API documents.

    ** The files, and the source each models

    The endpoint model and its schemas:
    - [ModelTypes]: [src/model/types.rs], [endpoint.rs], [service.rs], [pg_func.rs];
    - [SchemaJson]: the same types as JSON, by their [Serialize] and [Deserialize], as
      they are committed and loaded;
    - [JsonSchema]: [src/model/json_schema.rs]; [Refs] and [ApiDocument]:
      [src/model/api_document.rs].

    The transports:
    - [Message]: [src/libs/ws/message.rs], [tungstenite/message.rs]; [Utf8] checks its
      UTF-8 test against an encoder of code points;
    - [Framed]: [src/libs/ws/transport/framed.rs], the length-delimited framing;
    - [Outbound]: [src/libs/ws/outbound.rs], the queue of a connection, with wakers;
    - [Upgrade]: [src/libs/ws/tungstenite/upgrader.rs], the HTTP side of the handshake;
    - [Transport]: [src/libs/ws/transport.rs], [transport/nagoya.rs], [traits.rs], the
      adapters, and the channel made of a framed sink and a framed stream.

    The server:
    - [ServerConfig] and [Limits]: the configuration and limits of
      [src/libs/ws/server.rs];
    - [Basics]: [src/libs/ws/basics.rs] and the errors of [toolbox.rs];
      [Toolbox]: [toolbox.rs] and [conn.rs], with the shared state ([world]);
    - [Mcp]: [src/libs/ws/mcp.rs]; [Handler]: [handler.rs] and [hooks.rs];
      [Headers]: [headers.rs];
    - [Request]: the future of one request; [Session]: the session loop of
      [session.rs]; [Slots]: the accounting of in-flight slots over a session;
      [Connection]: [serve_connection] and its clean-up;
      [Server]: any number of connections over the shared state; [Keeps]: what user
      code must respect for the accounts of the server to hold ([Respected]);
    - [Push] and [Subs]: [push.rs] and [subs.rs], publish and subscribe;
    - [Builder]: [WebsocketServer::new] and its setters; [Listen]: [listener.rs] and
      [listen_on], the threads of the shards; [Accept]: the loops of [serve_shard] and
      [serve_with] and the future of one accepted connection; [Whole]: the accept
      loops of all shards together with the connections they serve.

    The client: [Client] and [Connect] model [src/libs/ws/client.rs], the requests and
    the connection; [McpWire] models [mcp_wire.rs], the JSON-RPC types of local
    protocols, [McpInterop] checks them against the server's, and [EndToEnd] follows a
    call from the client's types through the server and back.  [Echo] models a whole
    service, [examples/ws-echo/main.rs], and what it answers; [EchoWire] puts a byte pipe
    between it and its client.

    The rest: [ErrorCode], [Peer], [Signal], [Scheduler], [Types], [LogLevel],
    [Aggregation], [LogSetup], [LogReader], [Config] and [Deserializer] model
    [src/libs/error_code.rs], [peer.rs], [signal.rs], [scheduler.rs], [types.rs],
    [log/level_filter.rs], [log/error_aggregation.rs], [log.rs], [log_reader.rs],
    [config.rs] and [deserializer_wrapper.rs]; [Small] the small utilities.  [BMap] and
    [Json] are the ordered maps and JSON values of the libraries the code uses; this
    file holds what all share.

    The tests: [ModelTests], [WireTests], [ServerTests], [LogTests] and [SeamTests] run
    the repository's own tests on the model, with the concrete JSON text and case
    conversion of [TestKit] (which [Echo] uses too).  They check the definitions against the expectations of the
    code's authors: each unit test is the conjunction of its assertions, and the
    integration tests of [SeamTests] execute the whole composition, from the bytes a
    client writes into a pipe to the handlers and back.

    ** How it is modelled

    - Pure code is a Gallina function of the same name.  [Result] is [result], the
      [?] operator [let*].  Integers are [Z], with the wrap-around of their width
      written out where the code can reach it; bytes and strings are sequences of
      8-bit characters; sizes and indices are [nat].
    - State shared by connections and tasks is the record [world] (table, connections,
      limits).  A poll of the library's code is an [act]: it takes the world to a new
      world and lists the frames it handed to the toolbox.
    - A future is a state advanced by polls ([step]); user code is an arbitrary such
      state machine acting on the world.  What the executor decides (which task is
      polled, whether a timer has fired, what a socket answers) is an input, so a
      theorem about all inputs is about all schedules.  Runs are lists of inputs
      with an arbitrary change of the world between them.
    - Atomic and locked operations of the limits and the queue are separate steps,
      interleaved by a step relation or an execution; their theorems are invariants
      of the reachable states.
    - Fuel: [to_json_schema] and [collect] recurse through the type registry.
      [None] is "out of fuel", and [to_json_schema_total] and [collect_total] prove
      that the fuel the code's callers are given ([schema_fuel], [collect_fuel])
      always suffices.  Other fuel is a length that each step shortens, as in
      [trim_start].
    - Code of other crates is a parameter: JSON text, case conversion, URL encoding,
      regular expressions, the HTTP parser, the iteration order of hash maps.  A
      hypothesis about one is stated where it is used (for example [head_end_local]).
      A library object with operations is a class with its laws: [Notify] of nagoya
      ([Signal]), the connection of nago-wss ([Client]), the hex codec ([Types]); each
      has a concrete instance in the witnesses.  [Respected] states what the accounts of
      the server ask of handlers, hooks and authentication; [Echo] shows that its service
      keeps it.

    ** What is proved

    - Framing: the reader recovers the messages from any fragmentation, the writer
      conserves them under any partial writes, encoding and decoding are inverse,
      and buffers are bounded ([reader_recovers], [writer_conserves],
      [decode_encode_iff], [poll_next_bounded]); end to end, what goes into a channel
      comes out, in order and once ([channel_delivers]).  The UTF-8 test accepts exactly
      the encodings of code points ([utf8_try_from_exact]).
    - The queue: no lost wakeup, first in first out, bounded ([no_lost_wakeup],
      [queue_fifo_bounded]).
    - Requests: at most one answer, of an intended kind, under every schedule; a
      fired timeout ends the request ([answered_once], [timeout_finishes]).
    - Dispatch: nothing runs without a role and a slot, in either protocol; what can
      be called is what is listed ([handle_message_dispatch], [route_authorized],
      [call_iff_listed], [mcp_build_spec]).
    - Sessions and connections: queued frames are sent before a policy close, answers
      go before new requests, idle connections end, clean-up happens once, a refused
      authentication is never served ([end_after_drain], [inbound_last], [idle_ends],
      [serve_cleans_up], [flagged_only_drains]).
    - Connections together: each behaves as [serve_connection] does, however they are
      interleaved ([connection_refines]), and at every moment the in-flight counter is
      the number of running requests and the table holds the connections being served
      ([server_books]).  With the accept loops, the table stays within the connection
      limit, and a stopped server has returned everything ([whole_server_bounded]).
      A whole service answers any conversation as a short specification says
      ([echo_serves]), also when the bytes are cut anywhere on the way
      ([echo_over_wire]).
    - Limits hold under every interleaving ([limit_never_exceeded]), and the accept
      loops of all shards implement the connection limit ([connection_cap]); a slow
      handshake loses its slot ([handshake_budget]); failed accepts are spaced out
      ([accept_retries_spaced]).
    - Start and stop: a server is well formed however it is built ([built_server_wf]);
      a shutdown is never missed ([cancel_not_lost]); every shard thread is joined
      ([listen_joins_all]).
    - The client: a value is only ever the answer to the last request, and a request
      gets the answer of its own handler ([recv_resp_spec], [request_answered]); a
      secure URL stays secure ([secure_stays_secure]).
    - JSON-RPC: messages survive the wire ([wire_roundtrip]), and the client's and the
      server's implementations are one protocol ([jsonrpc_interop]); every call is
      answered to its own id in a form its client reads ([rpc_call_answered]).
    - Delivery: responses reach only their connection, publications reach each
      subscriber once and in sequence ([send_isolated], [enqueue_policy],
      [stream_numbers], [publish_spec], [publish_to_keys_once]).
    - Schemas: every reference resolves, and conversion terminates
      ([collect_closed], [endpoint_schemas_resolve], [mcp_schema_self_contained],
      [to_json_schema_total], [collect_total]); a stored schema is read back as it was
      written, and an older one as a newer library means it ([schema_roundtrip],
      [schema_forward_compat]).
    - HTTP and credentials: no response splitting, the head is read whole, the CORS
      policy, the round trip of credentials ([no_response_splitting],
      [read_head_any_split], [cors_policy], [header_auth_roundtrip]).
    - Behaviour that differs from what is documented or meant is proved as it is:
      [control_frames], [tenth_parameter_refused], [off_divergence], [enqueue_policy],
      [ready_accepts_starve], [parse_accepts], [u256_text], [log_query],
      [setup_warning_lost], [prefix_lost], [prefix_collision], [code_ref_forms].

    ** What is not modelled

    The sockets, threads, timers and reactors themselves, which are inputs; the layers
    of the tracing crates behind [LogSetup]; the formatting of floats; the
    derived [Debug] of the types, and [Hash] but for that of [MetaMap]; the limit of
    serde_json on the nesting of a text; and the module roots, which declare and
    re-export. *)

From Stdlib Require Export ZArith Lia String Ascii.
From stdpp Require Export base tactics option list list_numbers numbers gmap strings fin_maps pretty.

(** ** Result values

    [Result<T, E>] of the source.  [Ok]/[Err] keep Rust's names; the notation
    [let* x := e in k] is the [?] operator: it returns the error unchanged. *)
Inductive result (A E : Type) : Type :=
  | Ok (a : A)
  | Err (e : E).
Arguments Ok {A E} _.
Arguments Err {A E} _.

Definition rbind {A B E} (r : result A E) (k : A -> result B E) : result B E :=
  match r with Ok a => k a | Err e => Err e end.

Definition rmap {A B E} (f : A -> B) (r : result A E) : result B E :=
  match r with Ok a => Ok (f a) | Err e => Err e end.

Definition map_err {A E F} (f : E -> F) (r : result A E) : result A F :=
  match r with Ok a => Ok a | Err e => Err (f e) end.

Definition ok_or {A E} (o : option A) (e : E) : result A E :=
  match o with Some a => Ok a | None => Err e end.

Definition is_ok {A E} (r : result A E) : bool :=
  match r with Ok _ => true | Err _ => false end.

Declare Scope ep_scope.
Delimit Scope ep_scope with ep.
Notation "'let*' x ':=' e 'in' k" := (rbind e (fun x => k))
  (at level 10, x name, e at level 100, k at level 200) : ep_scope.
Notation "'let*' ' p ':=' e 'in' k" := (rbind e (fun p => k))
  (at level 10, p pattern, e at level 100, k at level 200) : ep_scope.
#[global] Open Scope ep_scope.

(** ** Automation *)

(** [dm] splits on the scrutinee of a match in the goal, [dmh] in a hypothesis;
    both keep the equation. *)
Ltac dm :=
  match goal with
  | |- context [match ?x with _ => _ end] => destruct x eqn:?
  end.

Ltac dmh :=
  match goal with
  | H : context [match ?x with _ => _ end] |- _ => destruct x eqn:?
  end.

Create HintDb ep.
Create Rewrite HintDb ep_rw.

(** ** Fixed-width integers *)

Definition u16_max : Z := 65535.
Definition u32_max : Z := 4294967295.
Definition i32_min : Z := -2147483648.
Definition i32_max : Z := 2147483647.
Definition i64_max : Z := 9223372036854775807.
Definition i64_min : Z := -9223372036854775808.

(** [fetch_add] and the other wrapping operations on [u32]. *)
Definition wrap32 (z : Z) : Z := z mod 4294967296.

Lemma wrap32_range z : (0 <= wrap32 z <= u32_max)%Z.
Proof. unfold wrap32, u32_max. pose proof (Z.mod_pos_bound z 4294967296). lia. Qed.

Lemma wrap32_small z : (0 <= z <= u32_max)%Z -> wrap32 z = z.
Proof. unfold wrap32, u32_max. intros. apply Z.mod_small. lia. Qed.

(** ** Bytes and strings

    A Rust [String] is a sequence of bytes; [string] has one [ascii] per byte,
    so [String.length] is [str::len].  [Bytes] and [Vec<u8>] are [list ascii]. *)
Abbreviation bytes := (list ascii).

Definition byte_val (a : ascii) : Z := Z.of_N (N_of_ascii a).
Definition byte_of (z : Z) : ascii := ascii_of_N (Z.to_N (z mod 256)).

Lemma byte_val_range a : (0 <= byte_val a < 256)%Z.
Proof.
  unfold byte_val. pose proof (N_ascii_bounded a). lia.
Qed.

Lemma byte_val_of z : byte_val (byte_of z) = (z mod 256)%Z.
Proof.
  unfold byte_val, byte_of.
  pose proof (Z.mod_pos_bound z 256).
  rewrite N_ascii_embedding; lia.
Qed.

Lemma byte_of_val a : byte_of (byte_val a) = a.
Proof.
  unfold byte_of. rewrite Z.mod_small by apply byte_val_range.
  unfold byte_val. rewrite N2Z.id. apply ascii_N_embedding.
Qed.
#[export] Hint Rewrite byte_val_of byte_of_val : ep_rw.

(** The little-endian bytes of a word, and back. *)
Fixpoint le_bytes (n : nat) (z : Z) : bytes :=
  match n with O => [] | S n => byte_of z :: le_bytes n (z / 256) end.
Fixpoint of_le (b : bytes) : Z :=
  match b with [] => 0 | a :: b => byte_val a + 256 * of_le b end.

Lemma length_le_bytes n z : length (le_bytes n z) = n.
Proof. revert z. induction n; intros z; simpl; [done|by f_equal]. Qed.

Lemma of_le_le_bytes n : forall z, of_le (le_bytes n z) = (z mod 256 ^ Z.of_nat n)%Z.
Proof.
  induction n as [|n IH]; intros z; cbn [le_bytes of_le]; [by rewrite Z.mod_1_r|].
  rewrite byte_val_of, IH, Nat2Z.inj_succ, Z.pow_succ_r by lia.
  rewrite Z.rem_mul_r; [done|lia|]. apply Z.pow_pos_nonneg; lia.
Qed.

Lemma of_le_range b : (0 <= of_le b < 256 ^ Z.of_nat (length b))%Z.
Proof.
  induction b as [|a b IH]; [done|]. cbn [of_le length]. pose proof (byte_val_range a).
  rewrite Nat2Z.inj_succ, Z.pow_succ_r by lia. lia.
Qed.

Lemma le_bytes_of_le b : le_bytes (length b) (of_le b) = b.
Proof.
  induction b as [|a b IH]; simpl; [done|]. pose proof (byte_val_range a). f_equal.
  - rewrite <- (byte_of_val a) at 2. unfold byte_of. do 2 f_equal.
    by rewrite Z.mul_comm, Z_mod_plus_full.
  - replace ((byte_val a + 256 * of_le b) / 256)%Z with (of_le b); [done|].
    rewrite Z.mul_comm, Z.div_add, Z.div_small by lia. lia.
Qed.

Definition bytes_of_string (s : string) : bytes := list_ascii_of_string s.
Definition string_of_bytes (b : bytes) : string := string_of_list_ascii b.

Lemma string_of_bytes_of_string s : string_of_bytes (bytes_of_string s) = s.
Proof. apply string_of_list_ascii_of_string. Qed.

Lemma bytes_of_string_of_bytes b : bytes_of_string (string_of_bytes b) = b.
Proof. apply list_ascii_of_string_of_list_ascii. Qed.
#[export] Hint Rewrite string_of_bytes_of_string bytes_of_string_of_bytes : ep_rw.

Lemma length_bytes_of_string s : length (bytes_of_string s) = String.length s.
Proof. induction s; simpl; [done|]. by f_equal. Qed.

Lemma append_assoc' (a b c : string) : (a +:+ b) +:+ c = a +:+ (b +:+ c).
Proof.
  induction a as [|x a IH]; [done|]. change (String x ((a +:+ b) +:+ c) = String x (a +:+ (b +:+ c))). by rewrite IH.
Qed.

Lemma append_nil_r (a : string) : a +:+ EmptyString = a.
Proof. induction a as [|x a IH]; [done|]. change (String x (a +:+ EmptyString) = String x a). by rewrite IH. Qed.

Lemma append_length (a b : string) : String.length (a +:+ b) = String.length a + String.length b.
Proof.
  induction a as [|x a IH]; [done|]. change (S (String.length (a +:+ b)) = S (String.length a + String.length b)). by rewrite IH.
Qed.

Lemma append_cons x (a b : string) : String x a +:+ b = String x (a +:+ b).
Proof. done. Qed.

(** Character classes of [u8]/[char], on ASCII. *)
Definition in_range (lo hi : Z) (a : ascii) : bool :=
  ((lo <=? byte_val a) && (byte_val a <=? hi))%Z.
Definition is_digit : ascii -> bool := in_range 48 57.
Definition is_upper : ascii -> bool := in_range 65 90.
Definition is_lower : ascii -> bool := in_range 97 122.
Definition is_alnum (a : ascii) : bool := is_digit a || is_upper a || is_lower a.
Definition to_lower (a : ascii) : ascii :=
  if is_upper a then byte_of (byte_val a + 32) else a.
Definition to_upper (a : ascii) : ascii :=
  if is_lower a then byte_of (byte_val a - 32) else a.

Fixpoint string_map (f : ascii -> ascii) (s : string) : string :=
  match s with
  | EmptyString => EmptyString
  | String a s => String (f a) (string_map f s)
  end.

Fixpoint string_filter (f : ascii -> bool) (s : string) : string :=
  match s with
  | EmptyString => EmptyString
  | String a s => if f a then String a (string_filter f s) else string_filter f s
  end.

Fixpoint string_forallb (f : ascii -> bool) (s : string) : bool :=
  match s with
  | EmptyString => true
  | String a s => f a && string_forallb f s
  end.

Definition to_ascii_lowercase : string -> string := string_map to_lower.

Definition is_empty_str (s : string) : bool :=
  match s with EmptyString => true | _ => false end.

(** [str::starts_with] and [str::strip_prefix] on a string pattern. *)
Definition starts_with (p s : string) : bool := String.prefix p s.

Fixpoint strip_prefix (p s : string) : option string :=
  match p, s with
  | EmptyString, _ => Some s
  | String a p, String b s => if ascii_dec a b then strip_prefix p s else None
  | String _ _, EmptyString => None
  end.

Lemma strip_prefix_append p s : strip_prefix p (p +:+ s) = Some s.
Proof.
  induction p as [|a p IH]; simpl; [done|].
  destruct (ascii_dec a a); congruence.
Qed.

Lemma strip_prefix_Some p s r : strip_prefix p s = Some r -> s = p +:+ r.
Proof.
  revert s. induction p as [|a p IH]; intros s; simpl; intros H.
  - by injection H as <-.
  - destruct s as [|b s]; [done|]. destruct (ascii_dec a b); [|done].
    subst. by rewrite (IH _ H).
Qed.

Lemma starts_with_strip p s : starts_with p s = bool_decide (is_Some (strip_prefix p s)).
Proof.
  unfold starts_with. revert s.
  induction p as [|a p IH]; intros [|b s]; simpl; try done.
  destruct (ascii_dec a b); [apply IH|done].
Qed.

(** [str::parse::<uN>]: an optional [+], then one or more digits, refused above
    [max].  The accumulator is checked at every digit, as the library does, so
    leading zeros are accepted and an overflow is an error. *)
Fixpoint parse_digits (max acc : Z) (s : string) : option Z :=
  match s with
  | EmptyString => Some acc
  | String a s =>
      if is_digit a then
        let acc := (acc * 10 + (byte_val a - 48))%Z in
        if (acc <=? max)%Z then parse_digits max acc s else None
      else None
  end.

Definition parse_unsigned (max : Z) (s : string) : option Z :=
  match s with
  | EmptyString => None
  | String a r =>
      if ascii_dec a "+" then
        match r with EmptyString => None | _ => parse_digits max 0 r end
      else parse_digits max 0 s
  end.

(** [str::parse::<i64>]: as above with an optional [-] whose magnitude may reach
    [2^63]. *)
Definition parse_i64 (s : string) : option Z :=
  match s with
  | String "-" (String _ _ as r) => option_map Z.opp (parse_digits (- i64_min) 0 r)
  | _ => parse_unsigned i64_max s
  end.

Lemma parse_digits_range max acc s n :
  (0 <= acc)%Z -> parse_digits max acc s = Some n -> (0 <= n)%Z /\ (acc <= max -> n <= max)%Z.
Proof.
  revert acc. induction s as [|a s IH]; intros acc Hacc; simpl; intros H.
  - inv H. lia.
  - destruct (is_digit a) eqn:Hd; [|done].
    destruct (Z.leb_spec (acc * 10 + (byte_val a - 48)) max); [|done].
    unfold is_digit, in_range in Hd.
    apply andb_true_iff in Hd as [H1 H2].
    apply Z.leb_le in H1, H2. apply IH in H; lia.
Qed.

Lemma parse_unsigned_range max s n :
  (0 <= max)%Z -> parse_unsigned max s = Some n -> (0 <= n <= max)%Z.
Proof.
  intros Hm H. unfold parse_unsigned in H. repeat dmh; try done.
  all: apply parse_digits_range in H; lia.
Qed.

(** [str::split] on one byte. *)
Fixpoint split_on (c : ascii) (s : string) : list string :=
  match s with
  | EmptyString => [EmptyString]
  | String a s =>
      if ascii_dec a c then EmptyString :: split_on c s
      else match split_on c s with
           | h :: t => String a h :: t
           | [] => [String a EmptyString]
           end
  end.

Lemma split_on_ne c s : split_on c s <> [].
Proof. destruct s as [|a s]; simpl; [done|]. destruct (ascii_dec a c); [done|]. by destruct (split_on c s). Qed.

Lemma split_on_app c s1 s2 : split_on c (s1 +:+ String c s2) = split_on c s1 ++ split_on c s2.
Proof.
  induction s1 as [|a s1 IH]; simpl.
  - by destruct (ascii_dec c c).
  - destruct (ascii_dec a c); [by rewrite IH|]. rewrite IH. by destruct (split_on c s1) eqn:E; [destruct (split_on_ne c s1)|].
Qed.

Lemma split_on_none c s : string_forallb (fun a => negb (bool_decide (a = c))) s = true -> split_on c s = [s].
Proof.
  induction s as [|a s IH]; [done|]. cbn [string_forallb split_on]. intros [Ha Hs]%andb_true_iff.
  apply negb_true_iff, bool_decide_eq_false in Ha. destruct (ascii_dec a c); [done|]. by rewrite IH.
Qed.

(** [<[&str]>::join] and [itertools::join]. *)
Fixpoint join (sep : string) (l : list string) : string :=
  match l with
  | [] => EmptyString
  | [x] => x
  | x :: l => x +:+ sep +:+ join sep l
  end.

(** [str::split_once] and [str::contains] on a string pattern. *)
Fixpoint split_once (p s : string) : option (string * string) :=
  match strip_prefix p s with
  | Some r => Some (EmptyString, r)
  | None =>
      match s with
      | EmptyString => None
      | String a s =>
          match split_once p s with
          | Some (h, t) => Some (String a h, t)
          | None => None
          end
      end
  end.

Definition contains_str (p s : string) : bool :=
  match split_once p s with Some _ => true | None => false end.

(** [str::trim]: the UTF-8 encodings of the characters with the Unicode
    [White_Space] property. *)
Definition str_of_codes (l : list Z) : string := string_of_bytes (map byte_of l).

Definition white_space : list string :=
  map str_of_codes
    ([[9]; [10]; [11]; [12]; [13]; [32]; [194; 133]; [194; 160]; [225; 154; 128];
      [226; 128; 168]; [226; 128; 169]; [226; 128; 175]; [226; 129; 159]; [227; 128; 128]]
     ++ map (fun k => [226; 128; k]) (seqZ 128 11))%Z.

Definition strip_space (s : string) : option string :=
  foldr (fun w o => match strip_prefix w s with Some r => Some r | None => o end)
    None white_space.

Fixpoint trim_start_fuel (fuel : nat) (s : string) : string :=
  match fuel with
  | O => s
  | S n => match strip_space s with Some r => trim_start_fuel n r | None => s end
  end.

(** Every step removes at least one byte, so the length is enough fuel. *)
Definition trim_start (s : string) : string := trim_start_fuel (String.length s) s.

Fixpoint trim_end (s : string) : string :=
  match s with
  | EmptyString => EmptyString
  | String a r =>
      if is_empty_str (trim_start s) then EmptyString else String a (trim_end r)
  end.

Definition trim (s : string) : string := trim_end (trim_start s).

(** ** Lists *)

Lemma existsb_app' {A} (f : A -> bool) l1 l2 :
  existsb f (l1 ++ l2) = existsb f l1 || existsb f l2.
Proof. apply existsb_app. Qed.

Lemma Forall_fold_left {A S} (P : S -> Prop) (f : S -> A -> S) (l : list A) s :
  P s -> (forall s a, a ∈ l -> P s -> P (f s a)) -> P (fold_left f l s).
Proof.
  revert s. induction l as [|a l IH]; intros s Hs Hf; simpl; [done|].
  apply IH; [apply Hf; [left|done] | intros; apply Hf; [by right|done]].
Qed.

Lemma filter_bool_perm {A} (f : A -> bool) (l1 l2 : list A) :
  l1 ≡ₚ l2 -> List.filter f l1 ≡ₚ List.filter f l2.
Proof. induction 1; simpl; repeat case_match; eauto using Permutation. Qed.
