(* ===== verification/BMap.v ===== *)
(** * [BTreeMap<String, V>]

    The ordered map of the Rust standard library, which is also what
    [serde_json::Map] is in this build (the [preserve_order] feature is off).
    A map is the list of its entries in iteration order, that is in increasing
    byte order of the keys; [bm_insert] keeps that order and replaces the value
    of a key already present. *)

From S2P Require Import Prelude.

Definition str_lt (a b : string) : Prop := String.compare a b = Lt.

Lemma ascii_compare_lt a b : Ascii.compare a b = Lt <-> (byte_val a < byte_val b)%Z.
Proof. unfold Ascii.compare, byte_val. rewrite N.compare_lt_iff. lia. Qed.

Lemma ascii_compare_refl a : Ascii.compare a a = Eq.
Proof. unfold Ascii.compare. apply N.compare_refl. Qed.

Lemma str_lt_trans a b c : str_lt a b -> str_lt b c -> str_lt a c.
Proof.
  unfold str_lt. revert b c.
  induction a as [|x a IH]; intros [|y b] [|z c]; simpl; try done.
  destruct (Ascii.compare x y) eqn:Hxy; try done;
    destruct (Ascii.compare y z) eqn:Hyz; try done; intros Hab Hbc.
  - apply Ascii.compare_eq_iff in Hxy, Hyz. subst.
    rewrite ascii_compare_refl. eauto.
  - apply Ascii.compare_eq_iff in Hxy. subst. by rewrite Hyz.
  - apply Ascii.compare_eq_iff in Hyz. subst. by rewrite Hxy.
  - apply ascii_compare_lt in Hxy, Hyz.
    rewrite (proj2 (ascii_compare_lt x z)); [done|lia].
Qed.

Lemma str_compare_refl a : String.compare a a = Eq.
Proof. induction a as [|x a IH]; simpl; [done|]. by rewrite ascii_compare_refl. Qed.

Lemma str_lt_irrefl a : ~ str_lt a a.
Proof. unfold str_lt. by rewrite str_compare_refl. Qed.

Lemma str_compare_gt a b : String.compare a b = Gt -> str_lt b a.
Proof. unfold str_lt. intros H. rewrite String.compare_antisym, H. done. Qed.

Section bmap.
Context {V : Type}.
Implicit Types (k : string) (v : V) (m : list (string * V)).

Fixpoint bm_get k m : option V :=
  match m with
  | [] => None
  | (k', v) :: m => if decide (k = k') then Some v else bm_get k m
  end.

Definition bm_contains k m : bool :=
  match bm_get k m with Some _ => true | None => false end.

Fixpoint bm_insert k v m : list (string * V) :=
  match m with
  | [] => [(k, v)]
  | (k', v') :: r =>
      match String.compare k k' with
      | Lt => (k, v) :: m
      | Eq => (k, v) :: r
      | Gt => (k', v') :: bm_insert k v r
      end
  end.

Fixpoint bm_remove k m : list (string * V) :=
  match m with
  | [] => []
  | (k', v') :: r => if decide (k = k') then r else (k', v') :: bm_remove k r
  end.

Definition bm_keys m : list string := map fst m.

(** The invariant: strictly increasing keys. *)
Inductive bm_wf : list (string * V) -> Prop :=
  | bm_wf_nil : bm_wf []
  | bm_wf_cons k v m :
      (forall k', k' ∈ bm_keys m -> str_lt k k') -> bm_wf m -> bm_wf ((k, v) :: m).

Lemma bm_get_insert_eq k v m : bm_get k (bm_insert k v m) = Some v.
Proof.
  induction m as [|[k' v'] m IH]; simpl; [by rewrite decide_True|].
  destruct (String.compare k k') eqn:Hc; simpl.
  - by rewrite decide_True.
  - by rewrite decide_True.
  - rewrite decide_False; [done|].
    intros ->. by rewrite str_compare_refl in Hc.
Qed.

Lemma bm_get_insert_ne k k' v m : k <> k' -> bm_get k (bm_insert k' v m) = bm_get k m.
Proof.
  intros Hne. induction m as [|[k2 v2] m IH]; simpl; [by rewrite decide_False|].
  destruct (String.compare k' k2) eqn:Hc; simpl.
  - apply String.compare_eq_iff in Hc as ->. by rewrite !decide_False.
  - by rewrite (decide_False (P := k = k')).
  - by rewrite IH.
Qed.

Lemma bm_get_insert k k' v m :
  bm_get k (bm_insert k' v m) = if decide (k = k') then Some v else bm_get k m.
Proof.
  destruct (decide (k = k')) as [->|Hne];
    [apply bm_get_insert_eq | by apply bm_get_insert_ne].
Qed.

Lemma bm_keys_insert k k' v m : k ∈ bm_keys (bm_insert k' v m) <-> k = k' \/ k ∈ bm_keys m.
Proof.
  unfold bm_keys.
  induction m as [|[k2 v2] m IH]; simpl; [set_solver|].
  destruct (String.compare k' k2) eqn:Hc; simpl.
  - apply String.compare_eq_iff in Hc as ->. set_solver.
  - set_solver.
  - rewrite !elem_of_cons, IH. tauto.
Qed.

Lemma bm_insert_wf k v m : bm_wf m -> bm_wf (bm_insert k v m).
Proof.
  induction 1 as [|k' v' m Hlt Hwf IH]; simpl.
  - constructor; [set_solver|constructor].
  - destruct (String.compare k k') eqn:Hc.
    + apply String.compare_eq_iff in Hc as ->. by constructor.
    + constructor; [|by constructor]. intros k2 [->|Hk2]%elem_of_cons; [done|].
      by eapply str_lt_trans; [|apply Hlt].
    + constructor; [|done]. intros k2 [->|Hk2]%bm_keys_insert; [by apply str_compare_gt|].
      by apply Hlt.
Qed.

Lemma bm_get_Some_keys k v m : bm_get k m = Some v -> k ∈ bm_keys m.
Proof.
  unfold bm_keys. induction m as [|[k' v'] m IH]; simpl; [done|].
  destruct (decide (k = k')) as [->|]; [left|right; auto].
Qed.

Lemma bm_get_elem k v m : bm_get k m = Some v -> (k, v) ∈ m.
Proof.
  induction m as [|[k' v'] m IH]; simpl; [done|].
  destruct (decide (k = k')) as [->|]; [intros [= ->]; left|right; auto].
Qed.

Lemma bm_keys_get k m : k ∈ bm_keys m <-> is_Some (bm_get k m).
Proof.
  split; [|intros [v Hv]; by eapply bm_get_Some_keys].
  unfold bm_keys. induction m as [|[k' v'] m IH]; simpl; [set_solver|].
  intros [->|Hk]%elem_of_cons.
  - by rewrite decide_True.
  - destruct (decide (k = k')); eauto.
Qed.

Lemma bm_contains_keys k m : bm_contains k m = true <-> k ∈ bm_keys m.
Proof.
  rewrite bm_keys_get. unfold bm_contains.
  destruct (bm_get k m); split; [eauto|done|done|by intros []].
Qed.

Lemma bm_elem_insert p k v m :
  p ∈ bm_insert k v m -> p = (k, v) \/ p ∈ m.
Proof.
  induction m as [|[k2 v2] m IH]; simpl; [set_solver|].
  destruct (String.compare k k2) eqn:Hc; [set_solver|set_solver|].
  rewrite !elem_of_cons. intuition.
Qed.
End bmap.

#[export] Hint Constructors bm_wf : ep.
#[export] Hint Resolve bm_insert_wf : ep.
#[export] Hint Rewrite @bm_get_insert_eq : ep_rw.

(** [BTreeMap::from_iter]/repeated [insert]: later entries win. *)
Definition bm_of_list {V} (l : list (string * V)) : list (string * V) :=
  fold_left (fun m p => bm_insert p.1 p.2 m) l [].

Lemma bm_of_list_wf {V} (l : list (string * V)) : bm_wf (bm_of_list l).
Proof. unfold bm_of_list. apply (Forall_fold_left bm_wf); eauto with ep. Qed.
#[export] Hint Resolve bm_of_list_wf : ep.

(** Updating every value in place ([values_mut]). *)
Definition bm_map {V W} (f : V -> W) (m : list (string * V)) : list (string * W) :=
  map (fun p => (p.1, f p.2)) m.

Lemma bm_keys_map {V W} (f : V -> W) (m : list (string * V)) : bm_keys (bm_map f m) = bm_keys m.
Proof. unfold bm_keys, bm_map. rewrite map_map. done. Qed.

Lemma bm_get_map {V W} (f : V -> W) k (m : list (string * V)) :
  bm_get k (bm_map f m) = f <$> bm_get k m.
Proof.
  induction m as [|[k' v] m IH]; simpl; [done|]. by destruct (decide (k = k')).
Qed.

Lemma bm_map_wf {V W} (f : V -> W) (m : list (string * V)) : bm_wf m -> bm_wf (bm_map f m).
Proof.
  induction 1; simpl; constructor; [|done]. by rewrite bm_keys_map.
Qed.

(** Inserting the entries of another map: its values win. *)
Lemma fold_insert_get {V} (extra : list (string * V)) : forall m k, bm_wf extra ->
  bm_get k (fold_left (fun m p => bm_insert p.1 p.2 m) extra m)
  = match bm_get k extra with Some v => Some v | None => bm_get k m end.
Proof.
  induction extra as [|[k' v] extra IH]; intros m k Hwf; simpl; [done|].
  inversion Hwf as [|? ? ? Hlt Hwf']; subst. rewrite IH, bm_get_insert by done.
  destruct (decide (k = k')) as [->|]; [|done].
  destruct (bm_get k' extra) eqn:Hg; [|done].
  apply bm_get_Some_keys, Hlt in Hg. by apply str_lt_irrefl in Hg.
Qed.
