(* ===== verification/Json.v ===== *)
(** * JSON values

    [serde_json::Value] and the accessors of it that the source uses.  Numbers
    are integers or an [f64] by its bit pattern: no code of this crate computes
    with a float inside a [Value].  Objects are [BMap] entries in key order. *)

From S2P Require Import Prelude BMap.

Inductive json : Type :=
  | JNull
  | JBool (b : bool)
  | JInt (n : Z)
  | JFloat (bits : Z)
  | JStr (s : string)
  | JArr (l : list json)
  | JObj (m : list (string * json)).

(** Induction that reaches the elements of arrays and the values of objects. *)
Section json_ind.
Variable P : json -> Prop.
Hypothesis Hnull : P JNull.
Hypothesis Hbool : forall b, P (JBool b).
Hypothesis Hint : forall n, P (JInt n).
Hypothesis Hfloat : forall n, P (JFloat n).
Hypothesis Hstr : forall s, P (JStr s).
Hypothesis Harr : forall l, Forall P l -> P (JArr l).
Hypothesis Hobj : forall m, Forall (fun p => P p.2) m -> P (JObj m).

Fixpoint json_rect' (v : json) : P v :=
  match v with
  | JNull => Hnull
  | JBool b => Hbool b
  | JInt n => Hint n
  | JFloat n => Hfloat n
  | JStr s => Hstr s
  | JArr l =>
      Harr l ((fix go l : Forall P l :=
                 match l with
                 | [] => Forall_nil_2 P
                 | x :: l => Forall_cons_2 P x l (json_rect' x) (go l)
                 end) l)
  | JObj m =>
      Hobj m ((fix go m : Forall (fun p => P p.2) m :=
                 match m with
                 | [] => Forall_nil_2 _
                 | p :: m => Forall_cons_2 _ p m (json_rect' p.2) (go m)
                 end) m)
  end.
End json_ind.

(** [Value::get] with a string index: [None] on anything but an object. *)
Definition jget (k : string) (v : json) : option json :=
  match v with JObj m => bm_get k m | _ => None end.

(** [Value::as_str], [Value::is_null]. *)
Definition as_str (v : json) : option string :=
  match v with JStr s => Some s | _ => None end.
Definition is_null (v : json) : bool :=
  match v with JNull => true | _ => false end.

(** [json!({...})]: entries inserted one by one in the order written. *)
Definition jobj (l : list (string * json)) : json := JObj (bm_of_list l).

Lemma jget_jobj_insert k k' v m :
  jget k (JObj (bm_insert k' v m)) = if decide (k = k') then Some v else jget k (JObj m).
Proof. apply bm_get_insert. Qed.

Lemma jget_bm_elem k v x : jget k x = Some v -> exists m, x = JObj m /\ (k, v) ∈ m.
Proof. destruct x; simpl; try done. intros H%bm_get_elem. eauto. Qed.

(** [derive(Deserialize)] of a struct: an object, by the names of its fields, or an
    array, by their order. *)
Definition member (i : nat) (key : string) (v : json) : option json :=
  match v with JObj m => bm_get key m | JArr l => l !! i | _ => None end.
Definition struct_of (fields : nat) (v : json) : bool :=
  match v with JObj _ => true | JArr l => Nat.leb (length l) fields | _ => false end.
