(* ===== verification/ModelTypes.v ===== *)
(** * The endpoint model: [src/model/types.rs], [endpoint.rs], [service.rs],
    [pg_func.rs]

    The data of a schema ([Type], [Field], [EndpointSchema], ...) with its
    constructors and builders, the [ErrorCode::Variant] path syntax of
    [EndpointErrorCodeRef], the SQL parameter ordering of [ProceduralFunction]
    and the subprotocol header written by [encode_header].

    [convert_case], [urlencoding] and the JSON printer are other crates: they are
    arguments. *)

From S2P Require Import Prelude BMap Json.

(** ** [MetaMap] *)

Abbreviation metamap := (list (string * json)).

Definition meta_is_empty (m : metamap) : bool :=
  match m with [] => true | _ => false end.
Definition meta_get (m : metamap) (key : string) : option json := bm_get key m.
Definition meta_insert (m : metamap) (key : string) (value : json) : metamap :=
  bm_insert key value m.

(** [impl Ord for MetaMap]: the entries, values by their JSON text, compared
    lexicographically.  [render] is [Value::to_string]. *)
Fixpoint meta_cmp (render : json -> string) (a b : metamap) : comparison :=
  match a, b with
  | [], [] => Eq
  | [], _ => Lt
  | _, [] => Gt
  | (k1, v1) :: a, (k2, v2) :: b =>
      match String.compare k1 k2 with
      | Eq => match String.compare (render v1) (render v2) with
              | Eq => meta_cmp render a b
              | c => c
              end
      | c => c
      end
  end.

(** [impl Hash for MetaMap]: what is fed to the hasher. *)
Definition meta_hash (render : json -> string) (m : metamap) : list string :=
  concat (map (fun e => [e.1; render e.2]) m).

(** The order and the hash agree: equal by one is equal by the other. *)
Lemma meta_cmp_hash render a : forall b, meta_cmp render a b = Eq <-> meta_hash render a = meta_hash render b.
Proof.
  induction a as [|[k v] a IH]; intros [|[k' v'] b]; try done.
  change (meta_hash render ((k, v) :: a)) with (k :: render v :: meta_hash render a).
  change (meta_hash render ((k', v') :: b)) with (k' :: render v' :: meta_hash render b). cbn [meta_cmp].
  destruct (String.compare k k') eqn:Ek;
    [apply String.compare_eq_iff in Ek as -> | split; [done|intros [= E _]; rewrite E, str_compare_refl in Ek; done]..].
  destruct (String.compare (render v) (render v')) eqn:Ev;
    [apply String.compare_eq_iff in Ev | split; [done|intros [= E _]; rewrite E, str_compare_refl in Ev; done]..].
  rewrite IH, Ev. split; [by intros ->|by intros [= ->]].
Qed.

(** ** [Type], [Field], [EnumVariant] *)

Record enum_variant := EnumVariant {
  ev_name : string;
  ev_description : string;
  ev_value : Z;   (* i64 *)
}.

Inductive type : Type :=
  | UInt32 | Int32 | Int64 | Float64 | Boolean | TString | Bytea | UUID
  | NanoId (len : Z)
  | IpAddr
  | Struct (name : string) (fields : list field)
  | StructRef (name : string)
  | TObject
  | StructTable (struct_ref : string)
  | TVec (inner : type)
  | TUnit
  | Optional (inner : type)
  | Enum (name : string) (variants : list enum_variant)
  | EnumRef (name : string) (prefixed_name : bool)
  | TimeStampMs | BlockchainDecimal | BlockchainAddress | BlockchainTransactionHash
with field : Type :=
  | MkField (name description : string) (ty : type) (meta : metamap).

Definition f_name (f : field) : string := let 'MkField n _ _ _ := f in n.
Definition f_description (f : field) : string := let 'MkField _ d _ _ := f in d.
Definition f_ty (f : field) : type := let 'MkField _ _ t _ := f in t.
Definition f_meta (f : field) : metamap := let 'MkField _ _ _ m := f in m.

Definition is_compound (t : type) : bool :=
  match t with Struct _ _ | TVec _ | Optional _ => true | _ => false end.

(** Induction that reaches the types of a struct's fields. *)
Section type_ind.
Variable P : type -> Prop.
Hypothesis Hleaf : forall t, is_compound t = false -> P t.
Hypothesis Hstruct : forall name fields, Forall (fun f => P (f_ty f)) fields -> P (Struct name fields).
Hypothesis Hvec : forall t, P t -> P (TVec t).
Hypothesis Hopt : forall t, P t -> P (Optional t).

Fixpoint type_ind' (t : type) : P t :=
  match t as t0 return P t0 with
  | Struct name fields =>
      Hstruct name fields
        ((fix go fs : Forall (fun f => P (f_ty f)) fs :=
            match fs with
            | [] => Forall_nil_2 _
            | f :: fs =>
                Forall_cons_2 (fun f => P (f_ty f)) f fs
                  (match f as f0 return P (f_ty f0) with MkField _ _ t _ => type_ind' t end)
                  (go fs)
            end) fields)
  | TVec t => Hvec t (type_ind' t)
  | Optional t => Hopt t (type_ind' t)
  | t => Hleaf t eq_refl
  end.
End type_ind.

(** [Field::new], [new_with_description], [with_meta]; [EnumVariant::new]. *)
Definition field_new (name : string) (ty : type) : field := MkField name "" ty [].
Definition field_new_with_description (name description : string) (ty : type) : field :=
  MkField name description ty [].
Definition field_with_meta (f : field) (meta : metamap) : field :=
  MkField (f_name f) (f_description f) (f_ty f) meta.
Definition variant_new (name : string) (value : Z) : enum_variant := EnumVariant name "" value.
Definition variant_new_with_description (name description : string) (value : Z) : enum_variant :=
  EnumVariant name description value.

Definition is_optional (t : type) : bool := match t with Optional _ => true | _ => false end.

(** The constructors of [Type]. *)
Definition struct_ (name : string) (fields : list field) : type := Struct name fields.
Definition struct_ref (name : string) : type := StructRef name.
Definition struct_table (struct_ref : string) : type := StructTable struct_ref.
Definition vec (ty : type) : type := TVec ty.
Definition optional (ty : type) : type := Optional ty.
Definition enum_ref (name : string) (prefixed_name : bool) : type := EnumRef name prefixed_name.
Definition enum_ (name : string) (fields : list enum_variant) : type := Enum name fields.

(** The attributes the generators put before a definition. *)
Definition dquote : string := String (byte_of 34) EmptyString.
Definition newline : string := String (byte_of 10) EmptyString.
Definition add_default_enum_derives (input : string) : string :=
  "#[derive(Debug, Clone, Copy, Serialize, Deserialize, FromPrimitive, PartialEq, Eq, PartialOrd, Ord, EnumString, Display, Hash)]"
  +:+ input.
Definition add_default_struct_derives (input : string) : string :=
  " #[derive(Serialize, Deserialize, Debug, Clone)]" +:+ newline
  +:+ "                #[serde(rename_all = " +:+ dquote +:+ "camelCase" +:+ dquote +:+ ")]" +:+ newline
  +:+ "                " +:+ input +:+ newline +:+ "            ".

(** [Type::try_unwrap]: the element type of a [Vec]; nothing for a table;
    any other type is its own element. *)
Definition try_unwrap (t : type) : option type :=
  match t with
  | TVec v => Some v
  | StructTable _ => None
  | _ => Some t
  end.

(** ** [EndpointErrorCodeRef] *)

Record code_ref := CodeRef { cr_ty : type; cr_variant : string }.

Definition ENUM_NAME : string := "ErrorCode".

Definition code_ref_new (variant : string) : code_ref :=
  CodeRef (EnumRef ENUM_NAME true) variant.

Definition code_ref_path (c : code_ref) : string :=
  ENUM_NAME +:+ "::" +:+ cr_variant c.

Definition validate_ty (ty : type) : result type string :=
  match ty with
  | EnumRef name _ =>
      if decide (name = ENUM_NAME) then Ok ty
      else Err ("expected " +:+ ENUM_NAME +:+ " enum ref, got " +:+ name)
  | _ => Err ("expected " +:+ ENUM_NAME +:+ " enum ref")
  end.

Definition parse_path (path : string) : result code_ref string :=
  match split_once "::" path with
  | None => Err ("expected " +:+ ENUM_NAME +:+ "::Variant")
  | Some (enum_name, variant) =>
      if negb (bool_decide (enum_name = ENUM_NAME)) then
        Err ("expected " +:+ ENUM_NAME +:+ " enum path, got " +:+ enum_name)
      else if is_empty_str variant || contains_str "::" variant then
        Err ("expected " +:+ ENUM_NAME +:+ "::Variant")
      else Ok (code_ref_new variant)
  end.

(** The two shapes the untagged [Helper] accepts. *)
Inductive code_ref_helper :=
  | HPath (path : string)
  | HStructured (ty : type) (variant : string).

Definition code_ref_deserialize (h : code_ref_helper) : result code_ref string :=
  match h with
  | HPath path => parse_path path
  | HStructured ty variant =>
      let* ty := validate_ty ty in Ok (CodeRef ty variant)
  end.

(** [Display], and [Serialize] as the fields it writes. *)
Definition code_ref_fmt (c : code_ref) : string := code_ref_path c.
Definition code_ref_serialize (c : code_ref) : code_ref_helper := HStructured (cr_ty c) (cr_variant c).

(** What [new] and [deserialize] build: the type is the error enum. *)
Definition code_ref_wf (c : code_ref) : bool :=
  match cr_ty c with EnumRef name _ => bool_decide (name = ENUM_NAME) | _ => false end.

Lemma code_ref_deserialize_wf h c : code_ref_deserialize h = Ok c -> code_ref_wf c = true.
Proof.
  destruct h as [path|ty variant]; simpl.
  - unfold parse_path. destruct (split_once "::" path) as [[e v]|]; [|done].
    destruct (negb _); [done|]. destruct (_ || _); [done|]. by intros [= <-].
  - destruct ty; simpl; try done. destruct (decide _) as [->|]; [|done]. by intros [= <-].
Qed.

(** A reference survives its structured form exactly when it is well formed. *)
Lemma code_ref_roundtrip c : code_ref_deserialize (code_ref_serialize c) = Ok c <-> code_ref_wf c = true.
Proof.
  split; [apply code_ref_deserialize_wf|]. destruct c as [ty variant]. unfold code_ref_wf. simpl.
  destruct ty; try done. intros ->%bool_decide_eq_true. reflexivity.
Qed.

Record error_schema := ErrorSchema {
  es_name : string;
  es_code : code_ref;
  es_message : string;
  es_fields : list field;
}.

Definition error_schema_new (name : string) (code : code_ref) : error_schema :=
  ErrorSchema name code "" [].
Definition error_with_message (e : error_schema) (m : string) : error_schema :=
  ErrorSchema (es_name e) (es_code e) m (es_fields e).
Definition error_with_fields (e : error_schema) (fs : list field) : error_schema :=
  ErrorSchema (es_name e) (es_code e) (es_message e) fs.

(** ** [EndpointSchema] *)

Record endpoint_schema := EndpointSchema {
  ep_name : string;
  ep_code : Z;   (* u32 *)
  ep_parameters : list field;
  ep_returns : list field;
  ep_stream_response : option type;
  ep_description : string;
  ep_json_schema : json;
  ep_roles : list string;
  ep_errors : list error_schema;
  ep_meta : metamap;
}.

Definition endpoint_new (name : string) (code : Z) (parameters returns : list field) : endpoint_schema :=
  EndpointSchema name code parameters returns None "" JNull [] [] [].

Definition with_stream_response_type (e : endpoint_schema) (t : type) : endpoint_schema :=
  EndpointSchema (ep_name e) (ep_code e) (ep_parameters e) (ep_returns e) (Some t)
    (ep_description e) (ep_json_schema e) (ep_roles e) (ep_errors e) (ep_meta e).
Definition with_description (e : endpoint_schema) (d : string) : endpoint_schema :=
  EndpointSchema (ep_name e) (ep_code e) (ep_parameters e) (ep_returns e) (ep_stream_response e)
    d (ep_json_schema e) (ep_roles e) (ep_errors e) (ep_meta e).
Definition with_roles (e : endpoint_schema) (r : list string) : endpoint_schema :=
  EndpointSchema (ep_name e) (ep_code e) (ep_parameters e) (ep_returns e) (ep_stream_response e)
    (ep_description e) (ep_json_schema e) r (ep_errors e) (ep_meta e).
Definition with_errors (e : endpoint_schema) (er : list error_schema) : endpoint_schema :=
  EndpointSchema (ep_name e) (ep_code e) (ep_parameters e) (ep_returns e) (ep_stream_response e)
    (ep_description e) (ep_json_schema e) (ep_roles e) er (ep_meta e).
Definition endpoint_with_meta (e : endpoint_schema) (m : metamap) : endpoint_schema :=
  EndpointSchema (ep_name e) (ep_code e) (ep_parameters e) (ep_returns e) (ep_stream_response e)
    (ep_description e) (ep_json_schema e) (ep_roles e) (ep_errors e) m.

Record service := Service { sv_name : string; sv_id : Z; sv_endpoints : list endpoint_schema }.

(** ** [encode_header]

    The subprotocol string of a header-authenticated request: [0<name>], then
    [, <i><value>] for the [i]-th parameter unless its value is null.  [v] is the
    outcome of [serde_json::to_value]. *)
Section encode_header.
Variable to_camel : string -> string.
Variable urlencode : string -> string.
Variable render : json -> string.

Fixpoint encode_params (i : nat) (v : json) (ps : list field) (s : string) : result string string :=
  match ps with
  | [] => Ok s
  | f :: ps =>
      let key := to_camel (f_name f) in
      match jget key v with
      | None => Err ("key: " +:+ key)
      | Some value =>
          if is_null value then encode_params (S i) v ps s
          else encode_params (S i) v ps
                 (s +:+ ", " +:+ pretty (Z.of_nat i + 1)%Z
                    +:+ urlencode (string_filter (fun c => negb (bool_decide (c = byte_of 34))) (render value)))
      end
  end.

Definition encode_header (v : result json string) (schema : endpoint_schema) : result string string :=
  let* v := v in
  encode_params 0 v (ep_parameters schema) ("0" +:+ to_ascii_lowercase (ep_name schema)).
End encode_header.

(** ** [ProceduralFunction] *)

Record procedural_function := ProceduralFunction {
  pf_name : string;
  pf_parameters : list field;
  pf_return_row_type : type;
  pf_body : string;
}.

(** [sorted_by_cached_key] with a boolean key is a stable sort, so it is the
    parameters with key [false], then those with key [true]. *)
Fixpoint insert_by_key (f : field) (l : list field) : list field :=
  match l with
  | [] => [f]
  | g :: l' =>
      if is_optional (f_ty f) && negb (is_optional (f_ty g))
      then g :: insert_by_key f l'
      else f :: l
  end.

Definition sort_parameters (parameters : list field) : list field :=
  foldr insert_by_key [] parameters.

Definition procedural_function_new (to_pascal : string -> string)
    (name : string) (parameters returns : list field) (body : string) : procedural_function :=
  ProceduralFunction name (sort_parameters parameters)
    (Struct (to_pascal name +:+ "RespRow") returns) body.

Definition procedural_function_new_with_row_type
    (name : string) (parameters : list field) (return_row_type : type) (body : string) : procedural_function :=
  ProceduralFunction name (sort_parameters parameters) return_row_type body.

(** ** Lemmas *)

Lemma split_once_Some p s h t : split_once p s = Some (h, t) -> s = h +:+ p +:+ t.
Proof.
  revert h. induction s as [|a s IH]; intros h; simpl.
  - destruct (strip_prefix p "") eqn:Hp; [|done]. intros [= <- <-].
    by apply strip_prefix_Some in Hp.
  - destruct (strip_prefix p (String a s)) eqn:Hp.
    + intros [= <- <-]. by apply strip_prefix_Some in Hp.
    + destruct (split_once p s) as [[h' t']|]; [|done]. intros [= <- <-].
      by rewrite (IH h' eq_refl).
Qed.

Lemma split_error_code_path v : split_once "::" ("ErrorCode::" +:+ v) = Some ("ErrorCode", v).
Proof. reflexivity. Qed.

Lemma is_empty_str_false s : is_empty_str s = false <-> s <> EmptyString.
Proof. destruct s; simpl; split; congruence. Qed.

(** ** Properties *)

(** [EndpointErrorCodeRef::parse_path] accepts exactly the
    printed paths: [ErrorCode::] followed by a non-empty variant without [::],
    and it gives back the reference whose path was printed. *)
Theorem parse_path_spec path c :
  parse_path path = Ok c <->
  exists v, path = code_ref_path (code_ref_new v) /\ c = code_ref_new v
            /\ v <> EmptyString /\ contains_str "::" v = false.
Proof.
  unfold parse_path. split.
  - destruct (split_once "::" path) as [[e v]|] eqn:Hs; [|done].
    apply split_once_Some in Hs. case_bool_decide as He; [|done]. simpl.
    destruct (is_empty_str v) eqn:Hv; [done|].
    destruct (contains_str "::" v) eqn:Hc; [done|]. intros [= <-].
    apply is_empty_str_false in Hv. exists v. by subst.
  - intros (v & -> & -> & Hv%is_empty_str_false & Hc).
    unfold code_ref_path. simpl cr_variant. change (ENUM_NAME +:+ "::" +:+ v) with ("ErrorCode::" +:+ v).
    rewrite split_error_code_path. by rewrite bool_decide_true, Hv, Hc by done.
Qed.

Definition required_fields (fs : list field) : list field :=
  List.filter (fun f => negb (is_optional (f_ty f))) fs.
Definition optional_fields (fs : list field) : list field :=
  List.filter (fun f => is_optional (f_ty f)) fs.

Lemma insert_by_key_spec f r o :
  (forall g, g ∈ r -> is_optional (f_ty g) = false) ->
  (forall g, g ∈ o -> is_optional (f_ty g) = true) ->
  insert_by_key f (r ++ o) =
    if is_optional (f_ty f) then r ++ f :: o else f :: r ++ o.
Proof.
  intros Hr Ho. destruct (is_optional (f_ty f)) eqn:Hf.
  - induction r as [|g r IH]; simpl.
    + destruct o as [|g o]; simpl; [done|]. rewrite Hf, (Ho g) by left. done.
    + rewrite Hf, (Hr g) by left. simpl. rewrite IH; [done|]. intros; apply Hr; by right.
  - destruct (r ++ o); simpl; [done|]. by rewrite Hf.
Qed.

(** [sort_parameters] is the stable partition that puts
    the non-optional parameters first: nothing is lost, duplicated or reordered
    inside either group. *)
Theorem sort_parameters_partition fs :
  sort_parameters fs = required_fields fs ++ optional_fields fs.
Proof.
  unfold required_fields, optional_fields.
  induction fs as [|f fs IH]; [done|]. simpl. rewrite IH, insert_by_key_spec.
  - by destruct (is_optional (f_ty f)).
  - intros g [Hg Hn]%list_elem_of_In%filter_In. by destruct (is_optional (f_ty g)).
  - intros g [Hg Hn]%list_elem_of_In%filter_In. done.
Qed.
