(* ===== verification/Refs.v ===== *)
(** * [$ref] targets: the tree walks of [src/model/api_document.rs]

    [relocate_refs] moves [#/$defs/X] to another prefix, [collect_refs] lists the
    targets of a value.  Both walk a finished [Value], so they are structural. *)

From S2P Require Import Prelude BMap Json.

Definition COMPONENTS_SCHEMAS_PREFIX : string := "#/components/schemas/".
Definition DEFS_PREFIX : string := "#/$defs/".
Definition REF_KEY : string := "$ref".

(** The rewrite of one target string. *)
Definition relocate_target (prefix target : string) : string :=
  match strip_prefix DEFS_PREFIX target with
  | Some name => prefix +:+ name
  | None => target
  end.

(** The code rewrites the string under ["$ref"] first and then visits every
    value; a string value is left alone by the visit, so doing both per entry is
    the same walk. *)
Fixpoint relocate_refs (prefix : string) (value : json) : json :=
  match value with
  | JObj m =>
      JObj (map (fun p =>
        (p.1, match p.2 with
              | JStr target => if decide (p.1 = REF_KEY) then JStr (relocate_target prefix target)
                               else JStr target
              | _ => relocate_refs prefix p.2
              end)) m)
  | JArr items => JArr (map (relocate_refs prefix) items)
  | v => v
  end.

Definition own_ref (m : list (string * json)) : list string :=
  match bm_get REF_KEY m with Some (JStr target) => [target] | _ => [] end.

Fixpoint collect_refs (value : json) : list string :=
  match value with
  | JObj m => own_ref m ++ concat (map (fun p => collect_refs p.2) m)
  | JArr items => concat (map collect_refs items)
  | _ => []
  end.

(** ** Lemmas *)

Definition relocate_entry (prefix : string) (p : string * json) : string * json :=
  (p.1, match p.2 with
        | JStr target => if decide (p.1 = REF_KEY) then JStr (relocate_target prefix target)
                         else JStr target
        | _ => relocate_refs prefix p.2
        end).

Lemma relocate_obj prefix m :
  relocate_refs prefix (JObj m) = JObj (map (relocate_entry prefix) m).
Proof. done. Qed.

Lemma relocate_entry_keys prefix m : bm_keys (map (relocate_entry prefix) m) = bm_keys m.
Proof. unfold bm_keys. rewrite map_map. done. Qed.

Lemma bm_get_relocate prefix k m :
  bm_get k (map (relocate_entry prefix) m) =
    (fun v => (relocate_entry prefix (k, v)).2) <$> bm_get k m.
Proof.
  induction m as [|[k' v] m IH]; [done|]. simpl.
  destruct (decide (k = k')) as [->|]; [done|apply IH].
Qed.

Lemma relocate_nonstring prefix k v :
  (forall s, v <> JStr s) -> (relocate_entry prefix (k, v)).2 = relocate_refs prefix v.
Proof. destruct v; simpl; congruence. Qed.

Lemma collect_entry prefix k v :
  collect_refs (relocate_entry prefix (k, v)).2 = collect_refs (relocate_refs prefix v).
Proof. destruct v; simpl; try done. by destruct (decide (k = REF_KEY)). Qed.

Lemma own_ref_relocate prefix m :
  own_ref (map (relocate_entry prefix) m) = map (relocate_target prefix) (own_ref m).
Proof.
  unfold own_ref. rewrite bm_get_relocate.
  destruct (bm_get REF_KEY m) as [[]|]; simpl; try done.
Qed.

Lemma elem_of_collect_obj r m :
  r ∈ collect_refs (JObj m) <->
  bm_get REF_KEY m = Some (JStr r) \/ exists k v, (k, v) ∈ m /\ r ∈ collect_refs v.
Proof.
  simpl. rewrite elem_of_app. apply Morphisms_Prop.or_iff_morphism.
  - unfold own_ref. destruct (bm_get REF_KEY m) as [[| | | |s| |]|]; try (split; [set_solver|done]).
    rewrite list_elem_of_singleton. split; [by intros ->|by intros [= ->]].
  - rewrite list_elem_of_In, in_concat. split.
    + intros (x & ([k v] & <- & Hp)%in_map_iff & Hr). exists k, v.
      split; by apply list_elem_of_In.
    + intros (k & v & Hkv & Hr). exists (collect_refs v).
      split; [|by apply list_elem_of_In].
      apply in_map_iff. exists (k, v). split; [done|by apply list_elem_of_In].
Qed.

Lemma elem_of_collect_arr r l :
  r ∈ collect_refs (JArr l) <-> exists v, v ∈ l /\ r ∈ collect_refs v.
Proof.
  simpl. rewrite list_elem_of_In, in_concat. split.
  - intros (x & (v & <- & Hv)%in_map_iff & Hr). exists v. split; by apply list_elem_of_In.
  - intros (v & Hv & Hr). exists (collect_refs v). split; [|by apply list_elem_of_In].
    apply in_map_iff. exists v. split; [done|by apply list_elem_of_In].
Qed.

Lemma relocate_collect prefix value :
  collect_refs (relocate_refs prefix value) = map (relocate_target prefix) (collect_refs value).
Proof.
  induction value as [| | | | |l IH|m IH] using json_rect'; try done.
  - cbn [relocate_refs collect_refs]. rewrite concat_map, !map_map. f_equal.
    apply map_ext_Forall. done.
  - rewrite relocate_obj. cbn [collect_refs].
    rewrite map_app, own_ref_relocate, concat_map, !map_map. f_equal. f_equal.
    apply map_ext_Forall. eapply Forall_impl; [exact IH|]. intros [k v] Hv.
    rewrite collect_entry. apply Hv.
Qed.

Lemma relocate_target_components name :
  relocate_target COMPONENTS_SCHEMAS_PREFIX (DEFS_PREFIX +:+ name) = COMPONENTS_SCHEMAS_PREFIX +:+ name.
Proof. unfold relocate_target. by rewrite strip_prefix_append. Qed.

Lemma relocate_target_idem target :
  relocate_target COMPONENTS_SCHEMAS_PREFIX (relocate_target COMPONENTS_SCHEMAS_PREFIX target)
  = relocate_target COMPONENTS_SCHEMAS_PREFIX target.
Proof.
  unfold relocate_target. destruct (strip_prefix DEFS_PREFIX target) as [name|] eqn:H; [done|].
  by rewrite H.
Qed.

(** ** Properties *)

(** Relocating a value rewrites each of its [$ref] targets, in
    order, and nothing else: the targets of the result are the rewritten targets,
    and relocating to [#/components/schemas/] a second time changes nothing. *)
Theorem relocate_refs_spec prefix value :
  collect_refs (relocate_refs prefix value) = map (relocate_target prefix) (collect_refs value)
  /\ relocate_refs COMPONENTS_SCHEMAS_PREFIX (relocate_refs COMPONENTS_SCHEMAS_PREFIX value)
     = relocate_refs COMPONENTS_SCHEMAS_PREFIX value.
Proof.
  split; [apply relocate_collect|].
  induction value as [| | | | |l IH|m IH] using json_rect'; try done.
  - cbn [relocate_refs]. f_equal. rewrite map_map. by apply map_ext_Forall.
  - rewrite !relocate_obj. f_equal. rewrite map_map. apply map_ext_Forall.
    eapply Forall_impl; [exact IH|]. intros [k v] Hv. unfold relocate_entry. simpl in *. f_equal.
    destruct v; try done. simpl.
    destruct (decide (k = REF_KEY)); [by rewrite relocate_target_idem|done].
Qed.
