(* ===== verification/JsonSchema.v ===== *)
(** * JSON Schema conversion: [src/model/json_schema.rs]

    [TypeRegistry], [Type::to_json_schema] and the MCP schemas of an endpoint.
    The [&mut defs] map is threaded as state.  [to_json_schema] recurses through
    the registry (a [StructRef] is replaced by the struct it names), so it takes
    fuel; [None] is "out of fuel" and [to_json_schema_total] gives a fuel that is
    always enough.  The case conversions are those of the [convert_case] crate. *)

From S2P Require Import Prelude BMap Json ModelTypes Refs.

(** [Casing::to_case] for the cases in use. *)
Record casing := Casing {
  to_camel : string -> string;
  to_pascal : string -> string;
  to_snake : string -> string;
}.

(** ** [TypeRegistry] *)

Record registry := Registry {
  structs : list (string * type);
  enums : list (string * type);
}.

Definition registry_new : registry := Registry [] [].

Fixpoint registry_add (ty : type) (r : registry) : registry :=
  match ty with
  | Struct name fields =>
      (fix go fs r :=
         match fs with
         | [] => r
         | MkField _ _ t _ :: fs => go fs (registry_add t r)
         end) fields (Registry (bm_insert name ty (structs r)) (enums r))
  | Enum name _ => Registry (structs r) (bm_insert name ty (enums r))
  | TVec inner | Optional inner => registry_add inner r
  | _ => r
  end.

Definition registry_add_all (tys : list type) (r : registry) : registry :=
  fold_left (fun r t => registry_add t r) tys r.

Definition registry_add_endpoint (schema : endpoint_schema) (r : registry) : registry :=
  let r := registry_add_all (map f_ty (ep_parameters schema)) r in
  let r := registry_add_all (map f_ty (ep_returns schema)) r in
  match ep_stream_response schema with
  | Some stream => registry_add stream r
  | None => r
  end.

Definition get_struct (r : registry) (name : string) : option type := bm_get name (structs r).
Definition get_enum (r : registry) (name : string) : option type := bm_get name (enums r).

(** ** Conversion *)

Abbreviation defs := (list (string * json)).
Abbreviation outcome A := (option (result (A * defs) string)).

Definition done_with {A} (a : A) (d : defs) : outcome A := Some (Ok (a, d)).
Definition failed {A} (e : string) : outcome A := Some (Err e).
Definition obind {A B} (o : outcome A) (k : A -> defs -> outcome B) : outcome B :=
  match o with
  | None => None
  | Some (Err e) => Some (Err e)
  | Some (Ok (a, d)) => k a d
  end.

Definition ref_to (def_name : string) : json :=
  jobj [(REF_KEY, JStr (DEFS_PREFIX +:+ def_name))].

(** The object returned by [fields_to_object_schema] once its fields are known. *)
Definition object_schema_value (properties : list (string * json)) (required : list json) : json :=
  jobj [("type", JStr "object"); ("properties", JObj properties);
        ("required", JArr required); ("additionalProperties", JBool false)].

(** [map.entry("description").or_insert_with(..)] for a described field. *)
Definition describe (f : field) (schema : json) : json :=
  if is_empty_str (f_description f) then schema
  else match schema with
       | JObj m => if bm_contains "description" m then schema
                   else JObj (bm_insert "description" (JStr (f_description f)) m)
       | _ => schema
       end.

Definition variant_entry (v : enum_variant) : json :=
  let entry := bm_insert "const" (JInt (ev_value v)) [] in
  let entry := bm_insert "title" (JStr (ev_name v)) entry in
  JObj (if is_empty_str (ev_description v) then entry
        else bm_insert "description" (JStr (ev_description v)) entry).

Definition enum_to_schema (name : string) (variants : list enum_variant) : json :=
  jobj [("type", JStr "integer"); ("title", JStr name); ("oneOf", JArr (map variant_entry variants))].

(** The schema of a scalar type. *)
Definition scalar_schema (t : type) : option json :=
  match t with
  | UInt32 => Some (jobj [("type", JStr "integer"); ("minimum", JInt 0); ("maximum", JInt u32_max)])
  | Int32 => Some (jobj [("type", JStr "integer"); ("minimum", JInt i32_min); ("maximum", JInt i32_max)])
  | Int64 => Some (jobj [("type", JStr "integer")])
  | TimeStampMs => Some (jobj [("type", JStr "integer"); ("description", JStr "Unix timestamp in milliseconds")])
  | Float64 => Some (jobj [("type", JStr "number")])
  | Boolean => Some (jobj [("type", JStr "boolean")])
  | TString => Some (jobj [("type", JStr "string")])
  | Bytea => Some (jobj [("type", JStr "string"); ("contentEncoding", JStr "base64")])
  | UUID => Some (jobj [("type", JStr "string"); ("format", JStr "uuid")])
  | NanoId len => Some (jobj [("type", JStr "string"); ("minLength", JInt len);
                              ("maxLength", JInt len); ("pattern", JStr "^[0-9A-Za-z]+$")])
  | IpAddr => Some (jobj [("type", JStr "string"); ("description", JStr "IPv4 or IPv6 address")])
  | TObject => Some (jobj [("type", JStr "object")])
  | TUnit => Some (jobj [("type", JStr "null")])
  | BlockchainDecimal => Some (jobj [("type", JStr "string"); ("description", JStr "Decimal number as string")])
  | BlockchainAddress => Some (jobj [("type", JStr "string"); ("pattern", JStr "^0x[0-9a-fA-F]{40}$")])
  | BlockchainTransactionHash => Some (jobj [("type", JStr "string"); ("pattern", JStr "^0x[0-9a-fA-F]{64}$")])
  | _ => None
  end.

Section conversion.
Context (cc : casing).

Definition struct_def_name (name : string) : string := to_pascal cc name.
Definition enum_def_name (name : string) (prefixed_name : bool) : string :=
  if prefixed_name then "Enum" +:+ to_pascal cc name else to_pascal cc name.

(** The loop of [fields_to_object_schema]; [rec] is [to_json_schema]. *)
Fixpoint fields_loop (rec : type -> defs -> outcome json) (fields : list field)
    (properties : list (string * json)) (required : list json) (d : defs) : outcome json :=
  match fields with
  | [] => done_with (object_schema_value properties required) d
  | f :: fields =>
      let key := to_camel cc (f_name f) in
      let '(inner, required) :=
        match f_ty f with
        | Optional inner => (inner, required)
        | other => (other, required ++ [JStr key])
        end in
      obind (rec inner d) (fun schema d =>
        fields_loop rec fields (bm_insert key (describe f schema) properties) required d)
  end.

Fixpoint to_json_schema (fuel : nat) (reg : registry) (t : type) (d : defs) : outcome json :=
  match fuel with
  | O => None
  | S n =>
      match t with
      | TVec inner =>
          obind (to_json_schema n reg inner d) (fun items d =>
            done_with (jobj [("type", JStr "array"); ("items", items)]) d)
      | Optional inner =>
          obind (to_json_schema n reg inner d) (fun inner d =>
            done_with (jobj [("anyOf", JArr [inner; jobj [("type", JStr "null")]])]) d)
      | Struct name fields =>
          let def_name := struct_def_name name in
          if bm_contains def_name d then done_with (ref_to def_name) d
          else
            (* Reserve the slot first so recursive references terminate. *)
            let d := bm_insert def_name JNull d in
            obind (fields_loop (to_json_schema n reg) fields [] [] d) (fun schema d =>
              done_with (ref_to def_name) (bm_insert def_name schema d))
      | StructRef name =>
          match get_struct reg name with
          | None => failed ("unresolved StructRef: " +:+ name +:+ " (not present in TypeRegistry)")
          | Some ty => to_json_schema n reg ty d
          end
      | StructTable struct_ref =>
          match get_struct reg struct_ref with
          | None => failed ("unresolved StructTable ref: " +:+ struct_ref +:+ " (not present in TypeRegistry)")
          | Some ty =>
              obind (to_json_schema n reg ty d) (fun items d =>
                done_with (jobj [("type", JStr "array"); ("items", items)]) d)
          end
      | Enum name variants =>
          let def_name := enum_def_name name false in
          done_with (ref_to def_name)
            (if bm_contains def_name d then d
             else bm_insert def_name (enum_to_schema def_name variants) d)
      | EnumRef name prefixed_name =>
          match get_enum reg name with
          | Some (Enum _ variants) =>
              let def_name := enum_def_name name prefixed_name in
              done_with (ref_to def_name)
                (if bm_contains def_name d then d
                 else bm_insert def_name (enum_to_schema def_name variants) d)
          | _ => failed ("unresolved EnumRef: " +:+ name +:+ " (not present in TypeRegistry)")
          end
      | t => match scalar_schema t with Some s => done_with s d | None => None end
      end
  end.

Definition fields_to_object_schema (fuel : nat) (fields : list field) (reg : registry) (d : defs) : outcome json :=
  fields_loop (to_json_schema fuel reg) fields [] [] d.

(** [attach_defs] *)
Definition attach_defs (root : json) (d : defs) : json :=
  match d, root with
  | [], _ => root
  | _, JObj m => JObj (bm_insert "$defs" (JObj d) m)
  | _, _ => root
  end.

Definition tool_name (e : endpoint_schema) : string := to_snake cc (ep_name e).

Definition mcp_schema (fuel : nat) (fields : list field) (reg : registry) : option (result json string) :=
  match fields_to_object_schema fuel fields reg [] with
  | None => None
  | Some (Err e) => Some (Err e)
  | Some (Ok (root, d)) => Some (Ok (attach_defs root d))
  end.

Definition to_mcp_input_schema (fuel : nat) (e : endpoint_schema) (reg : registry) :=
  mcp_schema fuel (ep_parameters e) reg.
Definition to_mcp_output_schema (fuel : nat) (e : endpoint_schema) (reg : registry) :=
  mcp_schema fuel (ep_returns e) reg.
End conversion.

(** ** Registry invariant

    A registered struct or enum is stored under its own name. *)
Definition registry_wf (r : registry) : Prop :=
  (forall k t, bm_get k (structs r) = Some t -> exists fields, t = Struct k fields)
  /\ (forall k t, bm_get k (enums r) = Some t -> exists variants, t = Enum k variants).

Lemma registry_new_wf : registry_wf registry_new.
Proof. split; done. Qed.

Lemma registry_wf_insert_struct r name fields :
  registry_wf r -> registry_wf (Registry (bm_insert name (Struct name fields) (structs r)) (enums r)).
Proof.
  intros [Hs He]. split; [|exact He]. intros k t. simpl. rewrite bm_get_insert.
  destruct (decide (k = name)) as [->|]; [|apply Hs]. intros [= <-]. eauto.
Qed.

Lemma registry_wf_insert_enum r name variants :
  registry_wf r -> registry_wf (Registry (structs r) (bm_insert name (Enum name variants) (enums r))).
Proof.
  intros [Hs He]. split; [exact Hs|]. intros k t. simpl. rewrite bm_get_insert.
  destruct (decide (k = name)) as [->|]; [|apply He]. intros [= <-]. eauto.
Qed.

Lemma registry_add_wf' ty : forall r, registry_wf r -> registry_wf (registry_add ty r).
Proof.
  induction ty as [t Hl|name fields IH|t IH|t IH] using type_ind'.
  - destruct t; try done; simpl; auto using registry_wf_insert_enum.
  - intros r Hr%(registry_wf_insert_struct _ name fields). simpl. revert Hr.
    generalize (Registry (bm_insert name (Struct name fields) (structs r)) (enums r)).
    clear r. induction IH as [|[n0 d0 t0 m0] fs Hf _ IHfs]; intros r Hr; [done|].
    apply IHfs. by apply Hf.
  - simpl. auto.
  - simpl. auto.
Qed.

Lemma registry_add_all_wf tys r : registry_wf r -> registry_wf (registry_add_all tys r).
Proof.
  intros Hr. apply (Forall_fold_left registry_wf); [done|]. intros; by apply registry_add_wf'.
Qed.
#[export] Hint Resolve registry_new_wf registry_add_wf' registry_add_all_wf : ep.

(** ** References of the emitted schemas *)

Definition is_obj (v : json) : bool := match v with JObj _ => true | _ => false end.

(** Every [$ref] of [v] names a definition of [d]. *)
Definition closed (d : defs) (v : json) : Prop :=
  forall r, r ∈ collect_refs v -> exists X, r = DEFS_PREFIX +:+ X /\ X ∈ bm_keys d.

Definition defs_ok (d : defs) : Prop :=
  forall k v, (k, v) ∈ d -> (v = JNull \/ is_obj v = true) /\ closed d v.

Lemma closed_mono d d' v : bm_keys d ⊆ bm_keys d' -> closed d v -> closed d' v.
Proof. intros Hsub Hc r Hr. destruct (Hc r Hr) as (X & -> & HX). eauto. Qed.

Lemma closed_nil d v : collect_refs v = [] -> closed d v.
Proof. intros H r. rewrite H. set_solver. Qed.

Lemma bm_keys_insert_sub {V} k (v : V) m : bm_keys m ⊆ bm_keys (bm_insert k v m).
Proof. intros x Hx. apply bm_keys_insert. by right. Qed.

Lemma bm_keys_insert_new {V} k (v : V) m : k ∈ bm_keys (bm_insert k v m).
Proof. apply bm_keys_insert. by left. Qed.
#[export] Hint Resolve bm_keys_insert_sub bm_keys_insert_new closed_nil closed_mono : ep.

Lemma defs_ok_insert d k v :
  defs_ok d -> (v = JNull \/ is_obj v = true) -> closed (bm_insert k v d) v ->
  defs_ok (bm_insert k v d).
Proof.
  intros Hd Hv Hc k' v' [[= -> ->]|Hin]%bm_elem_insert; [done|].
  destruct (Hd k' v' Hin). eauto with ep.
Qed.

Lemma defs_ok_nil : defs_ok [].
Proof. intros k v. set_solver. Qed.

Lemma closed_ref_to d X : X ∈ bm_keys d -> closed d (ref_to X).
Proof.
  intros HX r. change (collect_refs (ref_to X)) with [DEFS_PREFIX +:+ X].
  intros ->%list_elem_of_singleton. eauto.
Qed.

Lemma collect_array items :
  collect_refs (jobj [("type", JStr "array"); ("items", items)]) = collect_refs items.
Proof. simpl. by rewrite app_nil_r. Qed.

Lemma collect_anyof inner :
  collect_refs (jobj [("anyOf", JArr [inner; jobj [("type", JStr "null")]])]) = collect_refs inner.
Proof. simpl. by rewrite !app_nil_r. Qed.

Lemma collect_variant v : collect_refs (variant_entry v) = [].
Proof. unfold variant_entry. by destruct (is_empty_str _). Qed.

Lemma collect_enum name variants : collect_refs (enum_to_schema name variants) = [].
Proof.
  simpl. rewrite app_nil_r. induction variants as [|v vs IH]; [done|].
  cbn [map concat]. by rewrite collect_variant, IH.
Qed.

Lemma scalar_obj t s : scalar_schema t = Some s -> is_obj s = true /\ collect_refs s = [].
Proof. destruct t; simpl; intros [= <-]; split; reflexivity. Qed.

Lemma describe_refs f s r :
  is_obj s = true -> is_obj (describe f s) = true /\ (r ∈ collect_refs (describe f s) -> r ∈ collect_refs s).
Proof.
  intros Ho. unfold describe. destruct (is_empty_str _); [done|].
  destruct s as [| | | | | |m]; try done. destruct (bm_contains _ m); [done|]. split; [done|].
  rewrite !elem_of_collect_obj, bm_get_insert_ne by done.
  intros [H|(k & v & Hkv & Hr)]; [by left|].
  apply bm_elem_insert in Hkv as [[= -> ->]|Hkv]; [simpl in Hr; set_solver|eauto].
Qed.

(** What a run leaves behind: the map only grows, stays closed, and the schema
    is an object whose references it defines. *)
Definition good_post (d d' : defs) (v : json) : Prop :=
  defs_ok d' /\ bm_keys d ⊆ bm_keys d' /\ is_obj v = true /\ closed d' v.

Definition good (rec : type -> defs -> outcome json) : Prop :=
  forall t d v d', rec t d = Some (Ok (v, d')) -> defs_ok d -> good_post d d' v.

Definition props_ok (d : defs) (props : list (string * json)) : Prop :=
  forall k v, (k, v) ∈ props -> is_obj v = true /\ closed d v.

Lemma props_ok_nil d : props_ok d [].
Proof. intros k v. set_solver. Qed.

Lemma closed_object_schema d props req :
  props_ok d props -> (forall x, x ∈ req -> collect_refs x = []) ->
  closed d (object_schema_value props req).
Proof.
  intros Hp Hq r. change (object_schema_value props req) with
    (JObj [("additionalProperties", JBool false); ("properties", JObj props);
           ("required", JArr req); ("type", JStr "object")]).
  rewrite elem_of_collect_obj. intros [|(k & v & Hkv & Hr)]; [done|].
  rewrite !elem_of_cons in Hkv. destruct Hkv as [E|[E|[E|[E|E]]]]; try (inv E; simpl in Hr; set_solver).
  - injection E as -> ->. apply elem_of_collect_obj in Hr as [Hg|(k & v & Hkv & Hr)].
    + apply bm_get_elem in Hg. by destruct (Hp _ _ Hg).
    + destruct (Hp _ _ Hkv) as [_ Hc]. by apply Hc.
  - injection E as -> ->. apply elem_of_collect_arr in Hr as (v & Hv & Hr).
    rewrite (Hq v Hv) in Hr. set_solver.
Qed.

Lemma fields_loop_good cc rec fields props req d v d' :
  good rec -> defs_ok d -> props_ok d props -> (forall x, x ∈ req -> collect_refs x = []) ->
  fields_loop cc rec fields props req d = Some (Ok (v, d')) -> good_post d d' v.
Proof.
  intros Hrec. revert props req d. induction fields as [|f fields IH]; intros props req d Hd Hp Hq.
  - simpl. intros [= <- <-]. split_and!; [done|done|done|by apply closed_object_schema].
  - cbn [fields_loop].
    set (inner := match f_ty f with Optional inner => (inner, req)
                  | other => (other, req ++ [JStr (to_camel cc (f_name f))]) end).
    assert (Hq' : forall x, x ∈ inner.2 -> collect_refs x = []).
    { subst inner. intros x. destruct (f_ty f); simpl; try apply Hq;
        rewrite elem_of_app, list_elem_of_singleton; (intros [Hx| ->]; [by apply Hq|done]). }
    destruct inner as [t req']. simpl in Hq'.
    destruct (rec t d) as [[[schema d1]|]|] eqn:Hr; simpl; try done. intros Hl.
    destruct (Hrec _ _ _ _ Hr Hd) as (Hd1 & Hk1 & Ho & Hc).
    apply IH in Hl as (H1 & H2 & H3 & H4); [|done| |done].
    + split_and!; [done|by etrans|done|done].
    + intros k x [[= -> ->]|Hin]%bm_elem_insert.
      * split; [by apply (describe_refs f schema "")|].
        intros r Hr'. apply Hc. by apply (describe_refs f schema r).
      * destruct (Hp _ _ Hin). eauto with ep.
Qed.

Lemma enum_step_good d X variants d' :
  defs_ok d ->
  d' = (if bm_contains X d then d else bm_insert X (enum_to_schema X variants) d) ->
  good_post d d' (ref_to X).
Proof.
  intros Hd ->. destruct (bm_contains X d) eqn:HX.
  - apply bm_contains_keys in HX. split_and!; [done|done|done|by apply closed_ref_to].
  - split_and!; [|apply bm_keys_insert_sub|done|apply closed_ref_to, bm_keys_insert_new].
    apply defs_ok_insert; [done|by right|apply closed_nil, collect_enum].
Qed.

Lemma to_json_schema_good cc n reg : good (to_json_schema cc n reg).
Proof.
  induction n as [|n IH]; [done|]. intros t d v d' Hrun Hd.
  assert (Hscalar : forall s, scalar_schema t = Some s -> done_with s d = Some (Ok (v, d')) -> good_post d d' v).
  { intros s Hs [= <- <-]. apply scalar_obj in Hs as [Ho Hc]. split_and!; try done. by apply closed_nil. }
  destruct t; try (by eapply Hscalar); clear Hscalar; cbn [to_json_schema] in Hrun.
  - destruct (bm_contains _ d) eqn:HX.
    + injection Hrun as <- <-. apply bm_contains_keys in HX.
      split_and!; [done|done|done|by apply closed_ref_to].
    + destruct (fields_loop _ _ _ _ _ _) as [[[schema d1]|]|] eqn:Hl; simpl in Hrun; try done.
      injection Hrun as <- <-.
      apply fields_loop_good in Hl as (H1 & H2 & H3 & H4); [|done| |apply props_ok_nil|set_solver].
      * split_and!; [|by (etrans; [|apply bm_keys_insert_sub]; etrans; [apply bm_keys_insert_sub|])|done
                     |apply closed_ref_to, bm_keys_insert_new].
        apply defs_ok_insert; eauto with ep.
      * apply defs_ok_insert; [done|by left|by apply closed_nil].
  - destruct (get_struct reg name); [by eapply IH|done].
  - destruct (get_struct reg struct_ref); [|done].
    destruct (to_json_schema _ _ _ _ _) as [[[items d1]|]|] eqn:Hr; simpl in Hrun; try done.
    injection Hrun as <- <-. destruct (IH _ _ _ _ Hr Hd) as (H1 & H2 & H3 & H4).
    split_and!; try done. intros r. rewrite collect_array. apply H4.
  - destruct (to_json_schema _ _ _ _ _) as [[[items d1]|]|] eqn:Hr; simpl in Hrun; try done.
    injection Hrun as <- <-. destruct (IH _ _ _ _ Hr Hd) as (H1 & H2 & H3 & H4).
    split_and!; try done. intros r. rewrite collect_array. apply H4.
  - destruct (to_json_schema _ _ _ _ _) as [[[items d1]|]|] eqn:Hr; simpl in Hrun; try done.
    injection Hrun as <- <-. destruct (IH _ _ _ _ Hr Hd) as (H1 & H2 & H3 & H4).
    split_and!; try done. intros r. rewrite collect_anyof. apply H4.
  - injection Hrun as <- <-. by eapply enum_step_good.
  - destruct (get_enum reg name) as [[]|]; try done. injection Hrun as <- <-. by eapply enum_step_good.
Qed.

(** ** Termination

    [type_size] counts nodes; [undefined] counts the registered structs whose
    definition has not been started yet.  Going through a [StructRef] either
    stops (the definition exists) or starts one of them, so
    [type_size t + undefined * (M + 2)], with [M] the largest registered struct,
    bounds the depth. *)
Fixpoint type_size (t : type) : nat :=
  match t with
  | Struct _ fields =>
      S ((fix go fs := match fs with
                       | [] => 0
                       | MkField _ _ t _ :: fs => type_size t + go fs
                       end) fields)
  | TVec t | Optional t => S (type_size t)
  | _ => 1
  end.

Definition fields_size (fs : list field) : nat := sum_list (map (fun f => type_size (f_ty f)) fs).

Lemma type_size_struct name fs : type_size (Struct name fs) = S (fields_size fs).
Proof.
  unfold fields_size. simpl. f_equal. induction fs as [|[n d t m] fs IH]; [done|].
  simpl. by rewrite IH.
Qed.

Definition registry_size (reg : registry) : nat :=
  max_list (map (fun p => type_size p.2) (structs reg)).

Definition undefined (cc : casing) (reg : registry) (d : defs) : nat :=
  length (List.filter (fun k => negb (bm_contains (struct_def_name cc k) d)) (bm_keys (structs reg))).

Definition schema_fuel (cc : casing) (reg : registry) (t : type) (d : defs) : nat :=
  type_size t + undefined cc reg d * (registry_size reg + 2) + 2.

Definition fields_fuel (cc : casing) (reg : registry) (fs : list field) (d : defs) : nat :=
  fields_size fs + undefined cc reg d * (registry_size reg + 2) + 2.

Lemma registry_size_get reg k t : bm_get k (structs reg) = Some t -> type_size t <= registry_size reg.
Proof.
  intros Hg%bm_get_elem. unfold registry_size. apply max_list_elem_of_le.
  apply list_elem_of_In, in_map_iff. exists (k, t). split; [done|by apply list_elem_of_In].
Qed.

Lemma filter_length_le {A} (f g : A -> bool) l :
  (forall x, g x = true -> f x = true) -> length (List.filter g l) <= length (List.filter f l).
Proof.
  intros Himp. induction l as [|x l IH]; simpl; [lia|].
  destruct (g x) eqn:Hg; [rewrite (Himp x Hg); simpl; lia|]. destruct (f x); simpl; lia.
Qed.

Lemma filter_length_lt {A} (f g : A -> bool) l x :
  (forall x, g x = true -> f x = true) -> x ∈ l -> f x = true -> g x = false ->
  length (List.filter g l) < length (List.filter f l).
Proof.
  intros Himp Hin Hf Hg. induction Hin as [x l|x y l Hin IH]; simpl.
  - rewrite Hf, Hg. simpl. pose proof (filter_length_le f g l Himp). lia.
  - specialize (IH Hf Hg). destruct (g y) eqn:Hgy; [rewrite (Himp y Hgy); simpl; lia|].
    destruct (f y); simpl; lia.
Qed.

Lemma bm_contains_sub (d d' : defs) X :
  bm_keys d ⊆ bm_keys d' -> negb (bm_contains X d') = true -> negb (bm_contains X d) = true.
Proof.
  intros Hsub. rewrite !negb_true_iff, <- !not_true_iff_false, !bm_contains_keys. auto.
Qed.

Lemma undefined_mono cc reg d d' :
  bm_keys d ⊆ bm_keys d' -> undefined cc reg d' <= undefined cc reg d.
Proof. intros Hsub. apply filter_length_le. intros k. by apply bm_contains_sub. Qed.

Lemma undefined_insert_lt cc reg d k v :
  k ∈ bm_keys (structs reg) -> bm_contains (struct_def_name cc k) d = false ->
  undefined cc reg (bm_insert (struct_def_name cc k) v d) < undefined cc reg d.
Proof.
  intros Hk Hc. eapply filter_length_lt; [|exact Hk|by rewrite Hc|].
  - intros x. apply bm_contains_sub, bm_keys_insert_sub.
  - apply negb_false_iff, bm_contains_keys, bm_keys_insert_new.
Qed.

(** Keys only grow, without the closedness hypothesis. *)
Definition grows (rec : type -> defs -> outcome json) : Prop :=
  forall t d v d', rec t d = Some (Ok (v, d')) -> bm_keys d ⊆ bm_keys d'.

Lemma fields_loop_grows cc rec fields props req d v d' :
  grows rec -> fields_loop cc rec fields props req d = Some (Ok (v, d')) -> bm_keys d ⊆ bm_keys d'.
Proof.
  intros Hrec. revert props req d. induction fields as [|f fields IH]; intros props req d.
  - by intros [= <- <-].
  - cbn [fields_loop]. destruct (match f_ty f with Optional _ => _ | _ => _ end) as [t req'].
    destruct (rec t d) as [[[s d1]|]|] eqn:Hr; simpl; try done. intros Hl%IH.
    etrans; [by eapply Hrec|done].
Qed.

Lemma to_json_schema_grows cc n reg : grows (to_json_schema cc n reg).
Proof.
  induction n as [|n IH]; [done|]. intros t d v d' Hrun.
  assert (Henum : forall X e, done_with (ref_to X)
             (if bm_contains X d then d else bm_insert X e d) = Some (Ok (v, d')) -> bm_keys d ⊆ bm_keys d').
  { intros X e [= <- <-]. destruct (bm_contains X d); [done|apply bm_keys_insert_sub]. }
  destruct t; cbn [to_json_schema] in Hrun; try (by injection Hrun as <- <-); try (by eapply Henum).
  - destruct (bm_contains _ d); [by injection Hrun as <- <-|].
    destruct (fields_loop _ _ _ _ _ _) as [[[s d1]|]|] eqn:Hl; simpl in Hrun; try done.
    injection Hrun as <- <-. apply fields_loop_grows in Hl; [|done].
    etrans; [|apply bm_keys_insert_sub]. etrans; [apply bm_keys_insert_sub|done].
  - destruct (get_struct reg name); [by eapply IH|done].
  - destruct (get_struct reg struct_ref); [|done].
    destruct (to_json_schema _ _ _ _ _) as [[[s d1]|]|] eqn:Hr; simpl in Hrun; try done.
    injection Hrun as <- <-. by eapply IH.
  - destruct (to_json_schema _ _ _ _ _) as [[[s d1]|]|] eqn:Hr; simpl in Hrun; try done.
    injection Hrun as <- <-. by eapply IH.
  - destruct (to_json_schema _ _ _ _ _) as [[[s d1]|]|] eqn:Hr; simpl in Hrun; try done.
    injection Hrun as <- <-. by eapply IH.
  - destruct (get_enum reg name) as [[]|]; try done. by eapply Henum.
Qed.

(** The loop over fields is total when each field's type is. *)
Lemma fields_loop_total cc reg rec n fields props req d :
  grows rec ->
  (forall t d, schema_fuel cc reg t d <= n -> rec t d <> None) ->
  fields_fuel cc reg fields d <= n ->
  fields_loop cc rec fields props req d <> None.
Proof.
  intros Hg Hrec. unfold schema_fuel, fields_fuel, fields_size in *.
  revert props req d. induction fields as [|f fields IH]; intros props req d Hn; [done|].
  cbn [fields_loop]. simpl in Hn.
  set (inner := match f_ty f with Optional inner => (inner, req)
                | other => (other, req ++ [JStr (to_camel cc (f_name f))]) end).
  assert (Hsz : type_size inner.1 <= type_size (f_ty f))
    by (subst inner; destruct (f_ty f); simpl; lia).
  destruct inner as [t req']. simpl in Hsz.
  destruct (rec t d) as [[[s d1]|]|] eqn:Hr; simpl; try done.
  - apply IH. pose proof (undefined_mono cc reg d d1 (Hg _ _ _ _ Hr)). nia.
  - apply (Hrec t d) in Hr; [done|lia].
Qed.

(** A struct that is started consumes one of the undefined registry entries. *)
Lemma struct_total cc reg n name fields d :
  (forall t d, schema_fuel cc reg t d <= n -> to_json_schema cc n reg t d <> None) ->
  (bm_contains (struct_def_name cc name) d = false ->
   fields_fuel cc reg fields (bm_insert (struct_def_name cc name) JNull d) <= n) ->
  to_json_schema cc (S n) reg (Struct name fields) d <> None.
Proof.
  intros IH Hn. cbn [to_json_schema]. destruct (bm_contains _ d) eqn:HX; [done|].
  pose proof (fields_loop_total cc reg (to_json_schema cc n reg) n fields [] []
    (bm_insert (struct_def_name cc name) JNull d) (to_json_schema_grows cc n reg) IH (Hn eq_refl)) as Hl.
  destruct (fields_loop _ _ _ _ _ _) as [[[s d1]|]|]; done.
Qed.

Lemma to_json_schema_enough cc reg : registry_wf reg -> forall n t d,
  schema_fuel cc reg t d <= n -> to_json_schema cc n reg t d <> None.
Proof.
  intros [Hwf _]. induction n as [n IH] using lt_wf_ind. intros t d Hn.
  destruct n as [|n]; [unfold schema_fuel in Hn; lia|].
  assert (IH' : forall t d, schema_fuel cc reg t d <= n -> to_json_schema cc n reg t d <> None)
    by (intros; apply IH; [lia|done]).
  assert (Hstored : forall name ty, get_struct reg name = Some ty -> type_size t = 1 ->
            to_json_schema cc n reg ty d <> None).
  { intros name ty Hg Hsz. destruct (Hwf _ _ Hg) as [fields ->].
    pose proof (registry_size_get _ _ _ Hg) as HM. rewrite type_size_struct in HM.
    unfold schema_fuel in Hn. rewrite Hsz in Hn. destruct n as [|n]; [lia|].
    apply struct_total; [intros; apply IH; [lia|done]|]. intros HX.
    pose proof (undefined_insert_lt cc reg d name JNull (bm_get_Some_keys _ _ _ Hg) HX).
    unfold fields_fuel. nia. }
  destruct t; try done.
  - apply struct_total; [done|]. intros _. unfold schema_fuel in Hn. rewrite type_size_struct in Hn.
    pose proof (undefined_mono cc reg d (bm_insert (struct_def_name cc name) JNull d)
                  (bm_keys_insert_sub _ _ _)). unfold fields_fuel. nia.
  - cbn [to_json_schema]. destruct (get_struct reg name) eqn:Hg; [by eapply Hstored|done].
  - cbn [to_json_schema]. destruct (get_struct reg struct_ref) eqn:Hg; [|done].
    pose proof (Hstored _ _ Hg eq_refl). by destruct (to_json_schema _ _ _ _ _) as [[[]|]|].
  - cbn [to_json_schema]. pose proof (IH' t d). unfold schema_fuel in *. simpl in Hn.
    destruct (to_json_schema _ _ _ _ _) as [[[]|]|]; try done. apply H; lia.
  - cbn [to_json_schema]. pose proof (IH' t d). unfold schema_fuel in *. simpl in Hn.
    destruct (to_json_schema _ _ _ _ _) as [[[]|]|]; try done. apply H; lia.
  - cbn [to_json_schema]. by destruct (get_enum reg name) as [[]|].
Qed.

(** ** Properties *)

(** No dangling reference.  When the conversion succeeds from the
    empty [defs], every [$ref] of the returned schema, and every [$ref] inside
    the collected definitions, names one of those definitions. *)
Theorem to_json_schema_closed cc n reg t v d :
  to_json_schema cc n reg t [] = Some (Ok (v, d)) ->
  closed d v /\ (forall X s, (X, s) ∈ d -> closed d s).
Proof.
  intros Hrun. destruct (to_json_schema_good _ _ _ _ _ _ _ Hrun defs_ok_nil) as (Hd & _ & _ & Hc).
  split; [done|]. intros X s HX. by apply (Hd X s).
Qed.

(** C40: termination.  On every registry that [TypeRegistry::add] can
    build, recursive structs included, [schema_fuel] bounds the recursion: the
    conversion returns a schema or an error. *)
Theorem to_json_schema_total cc tys t d :
  let reg := registry_add_all tys registry_new in
  exists r, to_json_schema cc (schema_fuel cc reg t d) reg t d = Some r.
Proof.
  intros reg. destruct (to_json_schema _ _ _ _ _) as [r|] eqn:Hr; [eauto|].
  exfalso. eapply to_json_schema_enough; [|reflexivity|exact Hr].
  subst reg. apply registry_add_all_wf, registry_new_wf.
Qed.

Lemma fields_to_object_schema_enough cc reg n fs d :
  registry_wf reg -> fields_fuel cc reg fs d <= n -> fields_to_object_schema cc n fs reg d <> None.
Proof.
  intros Hwf Hn. eapply fields_loop_total; [apply to_json_schema_grows| |exact Hn].
  intros t d' Ht. by apply to_json_schema_enough.
Qed.

Lemma fields_to_object_schema_good cc n fs reg d v d' :
  fields_to_object_schema cc n fs reg d = Some (Ok (v, d')) -> defs_ok d -> good_post d d' v.
Proof.
  intros Hl Hd. eapply fields_loop_good;
    [apply to_json_schema_good|done|apply props_ok_nil| |exact Hl]. set_solver.
Qed.

Lemma fields_loop_shape cc rec fs : forall props req d v d',
  fields_loop cc rec fs props req d = Some (Ok (v, d')) ->
  exists props' req', v = object_schema_value props' req'.
Proof.
  induction fs as [|f fs IH]; intros props req d v d'; cbn [fields_loop].
  - intros [= <- <-]. eauto.
  - destruct (match f_ty f with Optional _ => _ | _ => _ end) as [t req'].
    destruct (rec t d) as [[[s d1]|]|]; simpl; try done. apply IH.
Qed.

Lemma attach_defs_shape d props req :
  d <> [] ->
  attach_defs (object_schema_value props req) d =
  JObj [("$defs", JObj d); ("additionalProperties", JBool false); ("properties", JObj props);
        ("required", JArr req); ("type", JStr "object")].
Proof. by destruct d. Qed.

(** An MCP tool schema is self-contained.  Every [$ref] of the
    [inputSchema] (or [outputSchema]) points into the [$defs] object attached to
    that same schema. *)
Theorem mcp_schema_self_contained cc n fs reg v :
  mcp_schema cc n fs reg = Some (Ok v) ->
  forall r, r ∈ collect_refs v ->
  exists d X, jget "$defs" v = Some (JObj d) /\ r = DEFS_PREFIX +:+ X /\ X ∈ bm_keys d.
Proof.
  unfold mcp_schema. destruct (fields_to_object_schema _ _ _ _ _) as [[[root d]|]|] eqn:Hl; try done.
  intros [= <-] r Hr.
  pose proof (fields_loop_shape _ _ _ _ _ _ _ _ Hl) as (props & req & ->).
  apply fields_to_object_schema_good in Hl as (Hd & _ & _ & Hc); [|apply defs_ok_nil].
  destruct (decide (d = [])) as [->|Hne].
  - simpl in Hr. destruct (Hc r Hr) as (X & _ & HX). set_solver.
  - rewrite attach_defs_shape in Hr |- * by done. exists d.
    assert (Hr' : r ∈ collect_refs (object_schema_value props req) \/ r ∈ collect_refs (JObj d)).
    { apply elem_of_collect_obj in Hr as [|(k & w & Hkw & Hr)]; [done|].
      rewrite elem_of_cons in Hkw. destruct Hkw as [[= -> ->]|Hkw]; [by right|left].
      change (object_schema_value props req) with
        (JObj [("additionalProperties", JBool false); ("properties", JObj props);
               ("required", JArr req); ("type", JStr "object")]).
      apply elem_of_collect_obj. eauto. }
    destruct Hr' as [Hr'|Hr'].
    + destruct (Hc r Hr') as (X & -> & HX). eauto.
    + apply elem_of_collect_obj in Hr' as [Hg|(k & w & Hkw & Hr')].
      * apply bm_get_elem in Hg. by destruct (Hd _ _ Hg) as [[|] _].
      * destruct (Hd _ _ Hkw) as [_ Hcw]. destruct (Hcw r Hr') as (X & -> & HX). eauto.
Qed.

(** *** Witnesses: a recursive struct *)

Definition w_casing : casing := Casing id id id.
Definition w_tree : type :=
  Struct "Tree" [field_new "label" TString; field_new "children" (TVec (StructRef "Tree"))].
Definition w_tree_reg : registry := registry_add w_tree registry_new.
Definition w_tree_run : outcome json := to_json_schema w_casing 10 w_tree_reg w_tree [].
Definition w_tree_schema : json := match w_tree_run with Some (Ok (v, _)) => v | _ => JNull end.
Definition w_tree_defs : defs := match w_tree_run with Some (Ok (_, d)) => d | _ => [] end.
Definition w_tree_input : json :=
  match mcp_schema w_casing 10 [field_new "root" w_tree] w_tree_reg with Some (Ok v) => v | _ => JNull end.

Lemma to_json_schema_closed_witness :
  closed w_tree_defs w_tree_schema /\ (forall X s, (X, s) ∈ w_tree_defs -> closed w_tree_defs s).
Proof. apply (to_json_schema_closed w_casing 10 w_tree_reg w_tree). vm_compute. reflexivity. Defined.

Lemma mcp_schema_self_contained_witness :
  exists d X, jget "$defs" w_tree_input = Some (JObj d) /\ "#/$defs/Tree" = DEFS_PREFIX +:+ X /\ X ∈ bm_keys d.
Proof.
  apply (mcp_schema_self_contained w_casing 10 [field_new "root" w_tree] w_tree_reg).
  - vm_compute. reflexivity.
  - vm_compute. left.
Defined.
