(* ===== verification/SchemaJson.v ===== *)
(** * Schemas as JSON: the [Serialize] and [Deserialize] of [src/model]

    Endpoint schemas are committed as JSON and loaded by the server
    ([serde_json::from_str] in [add_handler]).  This file writes out what the derives
    on [MetaMap], [Field], [EnumVariant], [Type], [EndpointSchema],
    [EndpointErrorSchema] and [Service] say, attribute by attribute, and the
    hand-written pair of [EndpointErrorCodeRef].

    The value of a text is what [serde_json] reads; its members are distinct.  A struct
    is an object, by the names of its fields, or an array, by their order; members no
    field names are ignored.  An enum is tagged externally: a unit variant is its name
    (or its name over [null]), any other the single member of an object.  The messages
    of serde's errors are not kept. *)

From S2P Require Import Prelude BMap Json ModelTypes Refs JsonSchema.

(** ** Values of the fields *)

Definition int_of (lo hi : Z) (v : json) : option Z :=
  match v with JInt n => if (lo <=? n)%Z && (n <=? hi)%Z then Some n else None | _ => None end.
Definition bool_of (v : json) : option bool :=
  match v with JBool b => Some b | _ => None end.
Definition arr_of {A} (f : json -> option A) (v : json) : option (list A) :=
  match v with JArr l => mapM f l | _ => None end.
Definition option_of {A} (f : json -> option A) (v : json) : option (option A) :=
  match v with JNull => Some None | v => Some <$> f v end.
(** [#[serde(default)]]. *)
Definition default_member {A} (d : A) (f : json -> option A) (v : option json) : option A :=
  match v with None => Some d | Some v => f v end.
Definition guard_struct {A} (fields : nat) (v : json) (k : option A) : option A :=
  if struct_of fields v then k else None.

Definition usize_max : Z := 18446744073709551615.

(** ** [MetaMap]: [#[serde(transparent)]] over the map *)

Definition meta_to_json (m : metamap) : json := JObj m.
Definition meta_from_json (v : json) : option metamap :=
  match v with JObj m => Some m | _ => None end.
(** [#[serde(default, skip_serializing_if = "MetaMap::is_empty")]]. *)
Definition ser_meta (m : metamap) : list (string * json) :=
  if meta_is_empty m then [] else [("meta", meta_to_json m)].
Definition de_meta (v : option json) : option metamap := default_member [] meta_from_json v.

(** ** [EnumVariant] *)

Definition variant_to_json (v : enum_variant) : json :=
  jobj [("name", JStr (ev_name v)); ("description", JStr (ev_description v)); ("value", JInt (ev_value v))].
Definition variant_from_json (v : json) : option enum_variant :=
  guard_struct 3 v (
    name ← member 0 "name" v ≫= as_str;
    description ← member 1 "description" v ≫= as_str;
    value ← member 2 "value" v ≫= int_of i64_min i64_max;
    Some (EnumVariant name description value)).

(** ** [Type] and [Field] *)

Definition unit_types : list (string * type) :=
  [("UInt32", UInt32); ("Int32", Int32); ("Int64", Int64); ("Float64", Float64); ("Boolean", Boolean);
   ("String", TString); ("Bytea", Bytea); ("UUID", UUID); ("IpAddr", IpAddr); ("Object", TObject);
   ("Unit", TUnit); ("TimeStampMs", TimeStampMs); ("BlockchainDecimal", BlockchainDecimal);
   ("BlockchainAddress", BlockchainAddress); ("BlockchainTransactionHash", BlockchainTransactionHash)].

Definition tagged (tag : string) (content : json) : json := JObj [(tag, content)].

(** [Field::description] is [#[serde(skip)]]; [EnumRef::prefixed_name] is
    [#[serde(default, skip_serializing)]]. *)
Fixpoint type_to_json (t : type) : json :=
  match t with
  | UInt32 => JStr "UInt32" | Int32 => JStr "Int32" | Int64 => JStr "Int64"
  | Float64 => JStr "Float64" | Boolean => JStr "Boolean" | TString => JStr "String"
  | Bytea => JStr "Bytea" | UUID => JStr "UUID"
  | NanoId len => tagged "NanoId" (jobj [("len", JInt len)])
  | IpAddr => JStr "IpAddr"
  | Struct name fields =>
      tagged "Struct" (jobj [("name", JStr name); ("fields", JArr (map field_to_json fields))])
  | StructRef name => tagged "StructRef" (JStr name)
  | TObject => JStr "Object"
  | StructTable struct_ref => tagged "StructTable" (jobj [("struct_ref", JStr struct_ref)])
  | TVec inner => tagged "Vec" (type_to_json inner)
  | TUnit => JStr "Unit"
  | Optional inner => tagged "Optional" (type_to_json inner)
  | Enum name variants =>
      tagged "Enum" (jobj [("name", JStr name); ("variants", JArr (map variant_to_json variants))])
  | EnumRef name _ => tagged "EnumRef" (jobj [("name", JStr name)])
  | TimeStampMs => JStr "TimeStampMs" | BlockchainDecimal => JStr "BlockchainDecimal"
  | BlockchainAddress => JStr "BlockchainAddress"
  | BlockchainTransactionHash => JStr "BlockchainTransactionHash"
  end
with field_to_json (f : field) : json :=
  match f with
  | MkField name _ ty meta => jobj ([("name", JStr name); ("ty", type_to_json ty)] ++ ser_meta meta)
  end.

(** The members of a field, given the reader of types. *)
Definition field_from_with (type_from : json -> option type) (v : json) : option field :=
  guard_struct 3 v (
    name ← member 0 "name" v ≫= as_str;
    ty ← member 1 "ty" v ≫= type_from;
    meta ← de_meta (member 2 "meta" v);
    Some (MkField name "" ty meta)).

(** The content of a variant that has one. *)
Definition content_from (type_from : json -> option type) (tag : string) (v : json) : option type :=
  if decide (tag = "NanoId") then
    guard_struct 1 v (len ← member 0 "len" v ≫= int_of 0 usize_max; Some (NanoId len))
  else if decide (tag = "Struct") then
    guard_struct 2 v (
      name ← member 0 "name" v ≫= as_str;
      fields ← member 1 "fields" v ≫= arr_of (field_from_with type_from);
      Some (Struct name fields))
  else if decide (tag = "StructRef") then StructRef <$> as_str v
  else if decide (tag = "StructTable") then
    guard_struct 1 v (struct_ref ← member 0 "struct_ref" v ≫= as_str; Some (StructTable struct_ref))
  else if decide (tag = "Vec") then TVec <$> type_from v
  else if decide (tag = "Optional") then Optional <$> type_from v
  else if decide (tag = "Enum") then
    guard_struct 2 v (
      name ← member 0 "name" v ≫= as_str;
      variants ← member 1 "variants" v ≫= arr_of variant_from_json;
      Some (Enum name variants))
  else if decide (tag = "EnumRef") then
    guard_struct 2 v (
      name ← member 0 "name" v ≫= as_str;
      prefixed_name ← default_member false bool_of (member 1 "prefixed_name" v);
      Some (EnumRef name prefixed_name))
  else None.

(** Fuel: the depth of the type; [type_from_fuel] shows that the height of the value
    is always enough. *)
Fixpoint type_from (fuel : nat) (v : json) : option type :=
  match fuel with
  | O => None
  | S fuel =>
      match v with
      | JStr tag => bm_get tag unit_types
      | JObj [(tag, content)] =>
          match bm_get tag unit_types with
          | Some t => if is_null content then Some t else None
          | None => content_from (type_from fuel) tag content
          end
      | _ => None
      end
  end.

Fixpoint jheight (v : json) : nat :=
  match v with
  | JArr l => S (foldr (fun v n => jheight v `max` n) 0 l)
  | JObj m => S (foldr (fun p n => jheight p.2 `max` n) 0 m)
  | _ => 0
  end.

Definition type_from_json (v : json) : option type := type_from (S (jheight v)) v.
Definition field_from_json (v : json) : option field := field_from_with type_from_json v.

(** ** [EndpointErrorCodeRef], [EndpointErrorSchema] *)

(** The untagged [Helper]: a string, else an object with both members. *)
Definition helper_from_json (v : json) : option code_ref_helper :=
  match v with
  | JStr path => Some (HPath path)
  | JObj _ =>
      ty ← jget "ty" v ≫= type_from_json;
      variant ← jget "variant" v ≫= as_str;
      Some (HStructured ty variant)
  | _ => None
  end.
Definition helper_to_json (h : code_ref_helper) : json :=
  match h with
  | HPath path => JStr path
  | HStructured ty variant => jobj [("ty", type_to_json ty); ("variant", JStr variant)]
  end.

Definition code_ref_to_json (c : code_ref) : json := helper_to_json (code_ref_serialize c).
Definition code_ref_from_json (v : json) : option code_ref :=
  h ← helper_from_json v; match code_ref_deserialize h with Ok c => Some c | Err _ => None end.

Definition error_schema_to_json (e : error_schema) : json :=
  jobj [("name", JStr (es_name e)); ("code", code_ref_to_json (es_code e));
        ("message", JStr (es_message e)); ("fields", JArr (map field_to_json (es_fields e)))].
Definition error_schema_from_json (v : json) : option error_schema :=
  guard_struct 4 v (
    name ← member 0 "name" v ≫= as_str;
    code ← member 1 "code" v ≫= code_ref_from_json;
    message ← default_member EmptyString as_str (member 2 "message" v);
    fields ← default_member [] (arr_of field_from_json) (member 3 "fields" v);
    Some (ErrorSchema name code message fields)).

(** ** [EndpointSchema], [Service] *)

Definition option_to_json {A} (f : A -> json) (o : option A) : json :=
  match o with Some a => f a | None => JNull end.

Definition endpoint_to_json (e : endpoint_schema) : json :=
  jobj ([("name", JStr (ep_name e)); ("code", JInt (ep_code e));
         ("parameters", JArr (map field_to_json (ep_parameters e)));
         ("returns", JArr (map field_to_json (ep_returns e)));
         ("stream_response", option_to_json type_to_json (ep_stream_response e));
         ("description", JStr (ep_description e)); ("json_schema", ep_json_schema e);
         ("roles", JArr (map JStr (ep_roles e)));
         ("errors", JArr (map error_schema_to_json (ep_errors e)))] ++ ser_meta (ep_meta e)).

Definition endpoint_from_json (v : json) : option endpoint_schema :=
  guard_struct 10 v (
    name ← member 0 "name" v ≫= as_str;
    code ← member 1 "code" v ≫= int_of 0 u32_max;
    parameters ← member 2 "parameters" v ≫= arr_of field_from_json;
    returns ← member 3 "returns" v ≫= arr_of field_from_json;
    stream_response ← default_member None (option_of type_from_json) (member 4 "stream_response" v);
    description ← default_member EmptyString as_str (member 5 "description" v);
    json_schema ← default_member JNull Some (member 6 "json_schema" v);
    roles ← member 7 "roles" v ≫= arr_of as_str;
    errors ← default_member [] (arr_of error_schema_from_json) (member 8 "errors" v);
    meta ← de_meta (member 9 "meta" v);
    Some (EndpointSchema name code parameters returns stream_response description json_schema roles errors meta)).

Definition u16_max : Z := 65535.
Definition service_new (name : string) (id : Z) (endpoints : list endpoint_schema) : service :=
  Service name id endpoints.
Definition service_to_json (s : service) : json :=
  jobj [("name", JStr (sv_name s)); ("id", JInt (sv_id s));
        ("endpoints", JArr (map endpoint_to_json (sv_endpoints s)))].
Definition service_from_json (v : json) : option service :=
  guard_struct 3 v (
    name ← member 0 "name" v ≫= as_str;
    id ← member 1 "id" v ≫= int_of 0 u16_max;
    endpoints ← member 2 "endpoints" v ≫= arr_of endpoint_from_json;
    Some (Service name id endpoints)).

(** [serde_json::from_str::<EndpointSchema>]: the value of the text, then the schema.
    [serde_error] is the message of the error. *)
Definition schema_from_str (from_str : string -> option json) (serde_error : string -> string) (text : string)
    : result endpoint_schema string :=
  ok_or (from_str text ≫= endpoint_from_json) (serde_error text).

(** ** What a value keeps of a schema

    The ranges of its integers, and what is lost: the descriptions of fields and the
    prefix flag of enum references. *)

Definition in_range (lo hi n : Z) : bool := (lo <=? n)%Z && (n <=? hi)%Z.

Fixpoint type_wf (t : type) : bool :=
  match t with
  | NanoId len => in_range 0 usize_max len
  | Struct _ fields => forallb field_wf fields
  | TVec inner | Optional inner => type_wf inner
  | Enum _ variants => forallb (fun v => in_range i64_min i64_max (ev_value v)) variants
  | _ => true
  end
with field_wf (f : field) : bool := match f with MkField _ _ ty _ => type_wf ty end.

Fixpoint type_stored (t : type) : type :=
  match t with
  | Struct name fields => Struct name (map field_stored fields)
  | TVec inner => TVec (type_stored inner)
  | Optional inner => Optional (type_stored inner)
  | EnumRef name _ => EnumRef name false
  | t => t
  end
with field_stored (f : field) : field :=
  match f with MkField name _ ty meta => MkField name "" (type_stored ty) meta end.

Definition code_ref_stored (c : code_ref) : code_ref := CodeRef (type_stored (cr_ty c)) (cr_variant c).
Definition error_schema_stored (e : error_schema) : error_schema :=
  ErrorSchema (es_name e) (code_ref_stored (es_code e)) (es_message e) (map field_stored (es_fields e)).
Definition error_schema_wf (e : error_schema) : bool := code_ref_wf (es_code e) && forallb field_wf (es_fields e).

Definition endpoint_stored (e : endpoint_schema) : endpoint_schema :=
  EndpointSchema (ep_name e) (ep_code e) (map field_stored (ep_parameters e)) (map field_stored (ep_returns e))
    (type_stored <$> ep_stream_response e) (ep_description e) (ep_json_schema e) (ep_roles e)
    (map error_schema_stored (ep_errors e)) (ep_meta e).
Definition endpoint_wf (e : endpoint_schema) : bool :=
  in_range 0 u32_max (ep_code e) && forallb field_wf (ep_parameters e) && forallb field_wf (ep_returns e)
  && match ep_stream_response e with Some t => type_wf t | None => true end
  && forallb error_schema_wf (ep_errors e).

Definition service_stored (s : service) : service :=
  Service (sv_name s) (sv_id s) (map endpoint_stored (sv_endpoints s)).
Definition service_wf (s : service) : bool :=
  in_range 0 u16_max (sv_id s) && forallb endpoint_wf (sv_endpoints s).

(** ** Reading the members of an object that was written *)

Fixpoint last_get (k : string) (l : list (string * json)) : option json :=
  match l with
  | [] => None
  | (k', v) :: l =>
      match last_get k l with
      | Some w => Some w
      | None => if String.eqb k k' then Some v else None
      end
  end.

Lemma member_jobj i k l : member i k (jobj l) = last_get k l.
Proof.
  simpl. unfold bm_of_list.
  enough (forall m, bm_get k (fold_left (fun m p => bm_insert p.1 p.2 m) l m)
                    = match last_get k l with Some v => Some v | None => bm_get k m end) as ->
    by (simpl; by destruct (last_get k l)).
  induction l as [|[k' v] l IH]; intros m; simpl; [done|]. rewrite IH.
  destruct (last_get k l); [done|]. rewrite bm_get_insert.
  destruct (String.eqb_spec k k'); [by rewrite decide_True|by rewrite decide_False].
Qed.

Lemma last_get_app k l1 l2 :
  last_get k (l1 ++ l2) = match last_get k l2 with Some v => Some v | None => last_get k l1 end.
Proof.
  induction l1 as [|[k' v] l1 IH]; simpl; [by destruct (last_get k l2)|]. rewrite IH.
  by destruct (last_get k l2).
Qed.

Definition meta_member (m : metamap) : option json := if meta_is_empty m then None else Some (meta_to_json m).

Lemma last_get_meta k m : last_get k (ser_meta m) = if String.eqb k "meta" then meta_member m else None.
Proof. unfold ser_meta, meta_member. destruct (meta_is_empty m); simpl; by destruct (String.eqb k "meta"). Qed.

Lemma de_ser_meta m : de_meta (match meta_member m with Some v => Some v | None => None end) = Some m.
Proof. by destruct m. Qed.

Lemma struct_of_jobj n l : struct_of n (jobj l) = true.
Proof. done. Qed.

Lemma jget_jobj k l : jget k (jobj l) = last_get k l.
Proof. apply (member_jobj 0). Qed.

(** [members] evaluates the reads of a written object. *)
Ltac members :=
  unfold guard_struct; rewrite ?struct_of_jobj, ?member_jobj, ?jget_jobj;
  rewrite ?last_get_app, ?last_get_meta;
  cbn [last_get String.eqb Ascii.eqb Bool.eqb andb option_bind mbind];
  rewrite ?de_ser_meta.

(** ** The interface: a type stored as JSON

    What is read is well formed, what is well formed is read back up to what the
    format drops, and the format cannot tell the two apart. *)
Class Stored (A : Type) (to_json : A -> json) (from_json : json -> option A)
    (wf : A -> bool) (stored : A -> A) : Prop := {
  stored_read a : wf a = true -> from_json (to_json a) = Some (stored a);
  stored_same a : to_json (stored a) = to_json a;
  stored_wf v a : from_json v = Some a -> wf a = true;
}.

Lemma arr_of_Some {A} (f : json -> option A) v l :
  arr_of f v = Some l <-> exists vs, v = JArr vs /\ Forall2 (fun v a => f v = Some a) vs l.
Proof.
  split.
  - destruct v as [| | | | |vs|]; simpl; try done. intros H%mapM_Some. eauto.
  - intros (vs & -> & H). by apply mapM_Some.
Qed.

Lemma arr_of_map {A B} (f : json -> option A) (to : B -> json) (g : B -> A) l :
  Forall (fun b => f (to b) = Some (g b)) l -> arr_of f (JArr (map to l)) = Some (map g l).
Proof. intros H. apply arr_of_Some. exists (map to l). split; [done|]. induction H; simpl; by constructor. Qed.

Lemma forallb_Forall' {A} (p : A -> bool) l : forallb p l = true <-> Forall (fun a => p a = true) l.
Proof. rewrite forallb_forall, Forall_forall. by setoid_rewrite list_elem_of_In. Qed.

Section stored_list.
Context {A to_json from_json wf stored} `{HA : !@Stored A to_json from_json wf stored}.

Lemma list_read l : forallb wf l = true -> arr_of from_json (JArr (map to_json l)) = Some (map stored l).
Proof. intros Hl%forallb_Forall'. apply arr_of_map. eapply Forall_impl; [exact Hl|]. apply stored_read. Qed.

Lemma list_same l : map to_json (map stored l) = map to_json l.
Proof. rewrite map_map. apply map_ext. apply stored_same. Qed.

Lemma list_read_wf v l : arr_of from_json v = Some l -> forallb wf l = true.
Proof.
  intros (vs & -> & Hl)%arr_of_Some. apply forallb_Forall'.
  induction Hl; constructor; [by eapply stored_wf|done].
Qed.

#[export] Instance stored_list : Stored (list A) (fun l => JArr (map to_json l)) (arr_of from_json) (forallb wf) (map stored).
Proof. split; [apply list_read| |apply list_read_wf]. intros l. by rewrite list_same. Qed.
End stored_list.

#[export] Instance stored_string : Stored string JStr as_str (fun _ => true) id.
Proof. by split. Qed.

Lemma int_of_Some lo hi v n : int_of lo hi v = Some n <-> v = JInt n /\ in_range lo hi n = true.
Proof.
  unfold int_of, in_range. split; [destruct v; try done; by destruct (_ && _) eqn:E; intros [= <-]|].
  intros [-> E]. by rewrite E.
Qed.

Lemma int_of_JInt lo hi n : in_range lo hi n = true -> int_of lo hi (JInt n) = Some n.
Proof. intros H. by apply int_of_Some. Qed.

#[export] Instance stored_int lo hi : Stored Z JInt (int_of lo hi) (in_range lo hi) id.
Proof. split; [apply int_of_JInt|done|]. by intros v n [_ H]%int_of_Some. Qed.

Lemma guard_struct_Some {A} n v (k : option A) a :
  guard_struct n v k = Some a <-> struct_of n v = true /\ k = Some a.
Proof. unfold guard_struct. destruct (struct_of n v); intuition congruence. Qed.

(** [fields H] takes apart a successful read of a struct, member by member. *)
Ltac fields H :=
  try apply guard_struct_Some in H as [_ H];
  repeat (let x := fresh "x" in let Hx := fresh "Hx" in apply bind_Some in H as (x & Hx & H));
  injection H as <-.

#[export] Instance stored_variant :
  Stored enum_variant variant_to_json variant_from_json (fun v => in_range i64_min i64_max (ev_value v)) id.
Proof.
  split; [|done|].
  - intros [name d n] Hn. unfold variant_from_json, variant_to_json. members. by rewrite int_of_JInt.
  - intros v a H. unfold variant_from_json in H. fields H. simpl.
    apply bind_Some in Hx1 as (? & _ & [_ Hn]%int_of_Some). done.
Qed.

(** ** The fuel of [type_from] *)

Lemma jheight_elem l x : x ∈ l -> jheight x < jheight (JArr l).
Proof.
  intros Hx. simpl. induction l as [|y l IH]; [set_solver|]. simpl.
  apply elem_of_cons in Hx as [->|Hx]; [lia|]. specialize (IH Hx). lia.
Qed.

Lemma jheight_value m k x : (k, x) ∈ m -> jheight x < jheight (JObj m).
Proof.
  intros Hx. simpl. induction m as [|[k' y] m IH]; [set_solver|]. simpl.
  apply elem_of_cons in Hx as [[= -> ->]|Hx]; [lia|]. specialize (IH Hx). lia.
Qed.

Lemma member_height i k v x : member i k v = Some x -> jheight x < jheight v.
Proof.
  destruct v as [| | | | |l|m]; simpl member; try done.
  - intros Hx%list_elem_of_lookup_2. by apply jheight_elem.
  - intros Hx%bm_get_elem. by eapply jheight_value.
Qed.

Section agree.
Context (f g : json -> option type).

Lemma arr_of_ext {A} (h1 h2 : json -> option A) v :
  (forall x, jheight x < jheight v -> h1 x = h2 x) -> arr_of h1 v = arr_of h2 v.
Proof.
  destruct v as [| | | | |l|]; simpl; try done. intros Hx.
  assert (Hl : forall x, x ∈ l -> h1 x = h2 x) by (intros x Hin; apply Hx; by apply jheight_elem in Hin).
  clear Hx. induction l as [|x l IH]; simpl; [done|]. rewrite Hl by left. destruct (h2 x); simpl; [|done].
  rewrite IH; [done|]. intros; apply Hl; by right.
Qed.

Lemma bind_ext {A B} (o : option A) (h1 h2 : A -> option B) :
  (forall a, o = Some a -> h1 a = h2 a) -> (o ≫= h1) = (o ≫= h2).
Proof. destruct o; simpl; auto. Qed.

Lemma field_from_ext v :
  (forall x, jheight x < jheight v -> f x = g x) -> field_from_with f v = field_from_with g v.
Proof.
  intros Hx. unfold field_from_with, guard_struct. destruct (struct_of 3 v); [|done].
  apply bind_ext. intros name _. f_equal. apply bind_ext. intros t Ht. apply Hx. by eapply member_height.
Qed.

Lemma content_from_ext tag v :
  (forall x, jheight x <= jheight v -> f x = g x) -> content_from f tag v = content_from g tag v.
Proof.
  intros Hx. unfold content_from. rewrite (Hx v) by lia.
  destruct (decide (tag = "NanoId")); [done|].
  destruct (decide (tag = "Struct")); [|done].
  unfold guard_struct. destruct (struct_of 2 v); [|done].
  apply bind_ext. intros name _. f_equal. apply bind_ext. intros fs Hfs.
  apply member_height in Hfs. apply arr_of_ext. intros y Hy. apply field_from_ext. intros z Hz. apply Hx. lia.
Qed.
End agree.

(** A fuel above the height of the value is enough, and any such fuel gives the same. *)
Lemma type_from_fuel : forall n m v, jheight v < n -> jheight v < m -> type_from n v = type_from m v.
Proof.
  induction n as [|n IH]; intros [|m] v Hn Hm; try lia. cbn [type_from].
  destruct v as [| | | | | |[|[tag content] [|]]]; try done.
  destruct (bm_get tag unit_types); [done|]. simpl in Hn, Hm.
  apply content_from_ext. intros x Hx. apply IH; lia.
Qed.

Lemma type_from_enough n v : jheight v < n -> type_from n v = type_from_json v.
Proof. intros. apply type_from_fuel; lia. Qed.

(** [type_from_json] without fuel: the derive's match on the tag. *)
Lemma type_from_json_eq v :
  type_from_json v =
  match v with
  | JStr tag => bm_get tag unit_types
  | JObj [(tag, content)] =>
      match bm_get tag unit_types with
      | Some t => if is_null content then Some t else None
      | None => content_from type_from_json tag content
      end
  | _ => None
  end.
Proof.
  unfold type_from_json at 1. cbn [type_from].
  destruct v as [| | | | | |[|[tag content] [|]]]; try done.
  destruct (bm_get tag unit_types); [done|].
  apply content_from_ext. intros x Hx. apply type_from_enough. simpl. lia.
Qed.

(** ** Types and fields survive *)

Lemma type_read_tagged tag content :
  bm_get tag unit_types = None -> type_from_json (tagged tag content) = content_from type_from_json tag content.
Proof. intros H. rewrite type_from_json_eq. unfold tagged. by rewrite H. Qed.

(** [pick_variant] follows a literal tag to its variant. *)
Ltac pick_variant :=
  unfold content_from; repeat first [rewrite decide_True by done | rewrite decide_False by done].

Lemma field_read f :
  type_from_json (type_to_json (f_ty f)) = Some (type_stored (f_ty f)) ->
  field_from_json (field_to_json f) = Some (field_stored f).
Proof.
  destruct f as [name d ty meta]. simpl f_ty. intros Ht. cbn [field_to_json field_stored].
  unfold field_from_json, field_from_with. members. rewrite Ht. by cbn [mbind option_bind].
Qed.

Lemma type_read t : type_wf t = true -> type_from_json (type_to_json t) = Some (type_stored t).
Proof.
  induction t as [t Hleaf|name fields IH|t IH|t IH] using type_ind'; cbn [type_to_json type_wf type_stored]; intros Hwf.
  - destruct t; try done; cbn [type_to_json type_wf type_stored] in *; rewrite type_read_tagged by done; pick_variant.
    + members. by rewrite int_of_JInt.
    + members. by rewrite (list_read variants Hwf), map_id.
  - rewrite type_read_tagged by done. pick_variant. members.
    apply forallb_Forall' in Hwf. erewrite arr_of_map; [done|].
    apply Forall_forall. intros f Hf. rewrite Forall_forall in IH, Hwf. apply field_read, IH; [done|].
    specialize (Hwf f Hf). by destruct f.
  - rewrite type_read_tagged by done. pick_variant. by rewrite IH.
  - rewrite type_read_tagged by done. pick_variant. by rewrite IH.
Qed.

Lemma type_same t : type_to_json (type_stored t) = type_to_json t.
Proof.
  induction t as [t Hleaf|name fields IH|t IH|t IH] using type_ind'; cbn [type_to_json type_stored].
  - by destruct t.
  - do 6 f_equal. rewrite map_map. apply map_ext_in. intros [n d ty meta] Hf%list_elem_of_In.
    rewrite Forall_forall in IH. specialize (IH _ Hf). simpl in *. by rewrite IH.
  - by rewrite IH.
  - by rewrite IH.
Qed.

Lemma field_wf_ty f : field_wf f = type_wf (f_ty f).
Proof. by destruct f. Qed.

Lemma field_read_wf n v f :
  (forall v t, type_from n v = Some t -> type_wf t = true) ->
  field_from_with (type_from n) v = Some f -> field_wf f = true.
Proof.
  intros Hn H. unfold field_from_with in H. fields H. simpl.
  apply bind_Some in Hx0 as (? & _ & Ht). eauto.
Qed.

Lemma type_from_wf n : forall v t, type_from n v = Some t -> type_wf t = true.
Proof.
  induction n as [|n IH]; intros v t; [done|]. cbn [type_from].
  assert (Hunit : forall tag t, bm_get tag unit_types = Some t -> type_wf t = true).
  { clear. intros tag t H%bm_get_elem. unfold unit_types in H.
    repeat (apply elem_of_cons in H as [[= -> ->]|H]; [done|]). set_solver. }
  destruct v as [| | | |s| |[|[tag content] [|]]]; try done; [apply Hunit|].
  destruct (bm_get tag unit_types) eqn:Hu; [destruct (is_null content); [|done]; intros [= <-]; eauto|].
  unfold content_from. intros H. repeat case_decide; try done.
  - fields H. apply bind_Some in Hx as (? & _ & [_ Hx]%int_of_Some). done.
  - fields H. apply bind_Some in Hx0 as (? & _ & (vs & -> & Hl)%arr_of_Some). simpl.
    apply forallb_Forall'. induction Hl; constructor; [by eapply field_read_wf|done].
  - by apply fmap_Some in H as (s & _ & ->).
  - by fields H.
  - apply fmap_Some in H as (t' & Ht & ->). simpl. eauto.
  - apply fmap_Some in H as (t' & Ht & ->). simpl. eauto.
  - fields H. apply bind_Some in Hx0 as (? & _ & Hl). by apply list_read_wf in Hl.
  - by fields H.
Qed.

#[export] Instance stored_type : Stored type type_to_json type_from_json type_wf type_stored.
Proof. split; [apply type_read|apply type_same|]. intros v t. apply type_from_wf. Qed.

#[export] Instance stored_field : Stored field field_to_json field_from_json field_wf field_stored.
Proof.
  split.
  - intros f Hf. apply field_read, type_read. by rewrite <- field_wf_ty.
  - intros [name d ty meta]. simpl. by rewrite type_same.
  - intros v f H. unfold field_from_json, field_from_with in H. fields H. simpl.
    apply bind_Some in Hx0 as (? & _ & Ht). by apply stored_wf in Ht.
Qed.

#[export] Instance stored_code_ref : Stored code_ref code_ref_to_json code_ref_from_json code_ref_wf code_ref_stored.
Proof.
  split.
  - intros [ty variant] Hc. unfold code_ref_wf in Hc. destruct ty; try done. apply bool_decide_eq_true in Hc as ->.
    unfold code_ref_from_json, code_ref_to_json, helper_from_json. simpl helper_to_json.
    unfold code_ref_stored. members. reflexivity.
  - intros [ty variant]. unfold code_ref_to_json. simpl. by rewrite type_same.
  - intros v c (h & _ & H)%bind_Some. destruct (code_ref_deserialize h) eqn:E; [|done]. injection H as ->.
    by apply code_ref_deserialize_wf in E.
Qed.

#[export] Instance stored_error :
  Stored error_schema error_schema_to_json error_schema_from_json error_schema_wf error_schema_stored.
Proof.
  split.
  - intros [name code message fields] [Hc Hf]%andb_true_iff. simpl in *.
    unfold error_schema_from_json, error_schema_to_json. members. cbn [es_name es_code es_message es_fields].
    rewrite (stored_read code Hc). cbn [mbind option_bind default_member as_str]. by rewrite list_read.
  - intros [name code message fields]. unfold error_schema_to_json. simpl.
    by rewrite (stored_same (to_json := code_ref_to_json)), list_same.
  - intros v e H. unfold error_schema_from_json in H. fields H. unfold error_schema_wf. simpl.
    apply bind_Some in Hx0 as (? & _ & Hc). apply stored_wf in Hc. rewrite Hc. simpl.
    unfold default_member in Hx2. destruct (member 3 "fields" v); [by apply list_read_wf in Hx2|by injection Hx2 as <-].
Qed.

Lemma roles_read l : arr_of as_str (JArr (map JStr l)) = Some l.
Proof. rewrite (list_read (to_json := JStr)); [by rewrite map_id|]. by induction l. Qed.

Lemma stream_read o :
  match o with Some t => type_wf t | None => true end = true ->
  option_of type_from_json (option_to_json type_to_json o) = Some (type_stored <$> o).
Proof.
  destruct o as [t|]; [|done]. simpl. intros Ht. pose proof (stored_read t Ht) as Hr.
  unfold option_of. destruct (type_to_json t); try done; by rewrite Hr.
Qed.

#[export] Instance stored_endpoint :
  Stored endpoint_schema endpoint_to_json endpoint_from_json endpoint_wf endpoint_stored.
Proof.
  split.
  - intros [name code ps rs st d js roles es meta]. unfold endpoint_wf. simpl.
    intros [[[[Hc Hp]%andb_true_iff Hr]%andb_true_iff Hs]%andb_true_iff He]%andb_true_iff.
    unfold endpoint_from_json, endpoint_to_json. members. cbn [ep_name ep_code ep_parameters ep_returns
      ep_stream_response ep_description ep_json_schema ep_roles ep_errors ep_meta as_str default_member].
    rewrite int_of_JInt by done. cbn [mbind option_bind]. rewrite (list_read ps Hp). cbn [mbind option_bind].
    rewrite (list_read rs Hr). cbn [mbind option_bind]. rewrite (list_read es He). cbn [mbind option_bind].
    rewrite stream_read by done. cbn [mbind option_bind]. by rewrite roles_read.
  - intros e. unfold endpoint_to_json. simpl. rewrite !list_same.
    destruct (ep_stream_response e); simpl; [by rewrite type_same|done].
  - intros v e H. unfold endpoint_from_json in H. fields H. unfold endpoint_wf. simpl.
    apply bind_Some in Hx0 as (? & _ & [_ ->]%int_of_Some), Hx1 as (? & _ & Hp), Hx2 as (? & _ & Hr).
    apply list_read_wf in Hp as ->, Hr as ->. simpl.
    assert (match x3 with Some t => type_wf t | None => true end = true) as ->.
    { unfold default_member in Hx3. destruct (member 4 _ v) as [w|]; [|by injection Hx3 as <-].
      destruct x3; [|done]. unfold option_of in Hx3.
      destruct w; try done; by apply fmap_Some in Hx3 as (? & Ht & [= ->]); apply stored_wf in Ht. }
    unfold default_member in Hx7. destruct (member 8 _ v); [by apply list_read_wf in Hx7|by injection Hx7 as <-].
Qed.

#[export] Instance stored_service : Stored service service_to_json service_from_json service_wf service_stored.
Proof.
  split.
  - intros [name id es]. unfold service_wf. simpl. intros [Hi He]%andb_true_iff.
    unfold service_from_json, service_to_json. members. cbn [sv_name sv_id sv_endpoints as_str].
    rewrite int_of_JInt by done. cbn [mbind option_bind]. by rewrite list_read.
  - intros [name id es]. unfold service_to_json. simpl. by rewrite list_same.
  - intros v s H. unfold service_from_json in H. fields H. unfold service_wf. simpl.
    apply bind_Some in Hx0 as (? & _ & [_ ->]%int_of_Some), Hx1 as (? & _ & He). by apply list_read_wf in He.
Qed.

(** ** What survives exactly *)

Fixpoint type_plain (t : type) : bool :=
  match t with
  | Struct _ fields => forallb field_plain fields
  | TVec inner | Optional inner => type_plain inner
  | EnumRef _ prefixed_name => negb prefixed_name
  | _ => true
  end
with field_plain (f : field) : bool :=
  match f with MkField _ description ty _ => is_empty_str description && type_plain ty end.

Definition endpoint_plain (e : endpoint_schema) : bool :=
  forallb field_plain (ep_parameters e) && forallb field_plain (ep_returns e)
  && match ep_stream_response e with Some t => type_plain t | None => true end
  && forallb (fun er => type_plain (cr_ty (es_code er)) && forallb field_plain (es_fields er)) (ep_errors e).

Lemma map_fixed {A} (g : A -> A) (p : A -> bool) l :
  Forall (fun a => g a = a <-> p a = true) l -> (map g l = l <-> forallb p l = true).
Proof.
  induction 1 as [|a l Ha _ IH]; simpl; [done|]. rewrite andb_true_iff, <- Ha, <- IH. split.
  - intros [= E1 E2]. by rewrite E1, E2.
  - by intros [-> ->].
Qed.

Lemma is_empty_str_true s : is_empty_str s = true <-> s = EmptyString.
Proof. destruct s; simpl; split; congruence. Qed.

Lemma field_fixed f :
  (type_stored (f_ty f) = f_ty f <-> type_plain (f_ty f) = true) -> (field_stored f = f <-> field_plain f = true).
Proof.
  destruct f as [n d ty meta]. simpl. intros Ht. rewrite andb_true_iff, <- Ht, is_empty_str_true. split.
  - intros [= E1 E2]. by rewrite E2.
  - by intros [-> ->].
Qed.

Lemma type_fixed t : type_stored t = t <-> type_plain t = true.
Proof.
  induction t as [t Hleaf|name fields IH|t IH|t IH] using type_ind'; cbn [type_stored type_plain].
  - destruct t; try done. destruct prefixed_name; simpl; split; congruence.
  - rewrite <- (map_fixed field_stored); [split; congruence|].
    eapply Forall_impl; [exact IH|]. intros f. apply field_fixed.
  - rewrite <- IH. split; congruence.
  - rewrite <- IH. split; congruence.
Qed.

Lemma fields_fixed fs : map field_stored fs = fs <-> forallb field_plain fs = true.
Proof. apply map_fixed, Forall_forall. intros f _. apply field_fixed, type_fixed. Qed.

Lemma error_fixed e :
  error_schema_stored e = e <-> type_plain (cr_ty (es_code e)) && forallb field_plain (es_fields e) = true.
Proof.
  destruct e as [n [ty v] m fs]. rewrite andb_true_iff, <- fields_fixed, <- type_fixed. simpl.
  unfold error_schema_stored, code_ref_stored. simpl. split; [by intros [= -> ->]|by intros [-> ->]].
Qed.

Lemma endpoint_fixed e : endpoint_stored e = e <-> endpoint_plain e = true.
Proof.
  unfold endpoint_plain. rewrite !andb_true_iff, <- !fields_fixed, <- (map_fixed error_schema_stored)
    by (apply Forall_forall; intros; apply error_fixed).
  destruct e as [name code ps rs st d js roles es meta]. unfold endpoint_stored. simpl.
  assert (Hst : type_stored <$> st = st <-> match st with Some t => type_plain t | None => true end = true).
  { destruct st; simpl; [|done]. rewrite <- type_fixed. split; congruence. }
  rewrite <- Hst. split.
  - intros [= E1 E2 E3 E4]. by rewrite E1, E2, E3, E4.
  - by intros [[[-> ->] ->] ->].
Qed.

(** ** Properties *)


(** Members that no field names. *)
Definition unknown (known : list string) (k : string) : Prop := k ∉ known.

Definition endpoint_members : list string :=
  ["name"; "code"; "parameters"; "returns"; "stream_response"; "description"; "json_schema"; "roles"; "errors"; "meta"].
Definition required_members : list string := ["name"; "code"; "parameters"; "returns"; "roles"].

Lemma member_unknown i k k' v m : k' <> k -> member i k (JObj (bm_insert k' v m)) = member i k (JObj m).
Proof. intros. simpl. by apply bm_get_insert_ne. Qed.

(** [skip_unknown]: reads of known members do not see the new one. *)
Ltac skip_unknown :=
  unfold guard_struct, unknown; simpl struct_of; cbv iota; intros Hk;
  repeat match goal with
    | |- context [member ?i ?k (JObj (bm_insert ?k' ?v ?m))] =>
        rewrite (member_unknown i k k' v m) by (intros ->; apply Hk; set_solver)
    end; reflexivity.

(** What is read from an object: its required members are there, and an absent
    [meta], like an empty one, is empty; an empty one is not written. *)
Theorem schema_members m e :
  endpoint_from_json (JObj m) = Some e ->
  (forall k, k ∈ required_members -> bm_contains k m = true)
  /\ (bm_get "meta" m = None -> ep_meta e = [])
  /\ jget "meta" (endpoint_to_json e) = meta_member (ep_meta e).
Proof.
  intros H. split_and!.
  - unfold endpoint_from_json in H. fields H. intros k Hk. unfold bm_contains.
    apply bind_Some in Hx as (? & Hx & _), Hx0 as (? & Hx0 & _), Hx1 as (? & Hx1 & _),
      Hx2 as (? & Hx2 & _), Hx6 as (? & Hx6 & _). simpl in *.
    unfold required_members in Hk.
    repeat (apply elem_of_cons in Hk as [->|Hk]; [by rewrite ?Hx, ?Hx0, ?Hx1, ?Hx2, ?Hx6|]). set_solver.
  - intros Hm. unfold endpoint_from_json in H. fields H. simpl in *. rewrite Hm in Hx8. by injection Hx8 as <-.
  - unfold endpoint_to_json. members. by destruct (meta_member (ep_meta e)).
Qed.

(** C22: what the schemas of later and of earlier versions do to a reader.
    Members no field names change nothing, at the level of an endpoint, an error, a
    field, a variant or a service; a schema that lacks one of the five required members
    is refused; one without [meta] has an empty [meta], and an empty one is not written
    back, so artifacts that do not use it stay as they are. *)
Theorem schema_forward_compat k v m :
  (unknown endpoint_members k -> endpoint_from_json (JObj (bm_insert k v m)) = endpoint_from_json (JObj m))
  /\ (unknown ["name"; "code"; "message"; "fields"] k ->
      error_schema_from_json (JObj (bm_insert k v m)) = error_schema_from_json (JObj m))
  /\ (unknown ["name"; "ty"; "meta"] k -> field_from_json (JObj (bm_insert k v m)) = field_from_json (JObj m))
  /\ (unknown ["name"; "description"; "value"] k ->
      variant_from_json (JObj (bm_insert k v m)) = variant_from_json (JObj m))
  /\ (unknown ["name"; "id"; "endpoints"] k ->
      service_from_json (JObj (bm_insert k v m)) = service_from_json (JObj m))
  /\ (k ∈ required_members -> bm_contains k m = false -> endpoint_from_json (JObj m) = None)
  /\ (forall e, endpoint_from_json (JObj m) = Some e ->
        (bm_get "meta" m = None -> ep_meta e = [])
        /\ jget "meta" (endpoint_to_json e) = if meta_is_empty (ep_meta e) then None else Some (meta_to_json (ep_meta e))).
Proof.
  split_and!.
  - unfold endpoint_from_json, endpoint_members. skip_unknown.
  - unfold error_schema_from_json. skip_unknown.
  - unfold field_from_json, field_from_with. skip_unknown.
  - unfold variant_from_json. skip_unknown.
  - unfold service_from_json. skip_unknown.
  - intros Hk Hm. destruct (endpoint_from_json (JObj m)) eqn:E; [|done].
    rewrite (proj1 (schema_members _ _ E) k Hk) in Hm. done.
  - intros e E. apply (schema_members _ _ E).
Qed.

(** ** The prefix of an enum reference

    [prefixed_name] decides the name of the definition an enum reference points to, and
    keeps an enum apart from a struct of the same name.  It is not stored, so a schema
    that was loaded points elsewhere: at the struct. *)
Lemma prefix_lost cc n reg d name vs :
  get_enum reg name = Some (Enum name vs) ->
  type_from_json (type_to_json (EnumRef name true)) = Some (EnumRef name false)
  /\ (exists d', to_json_schema cc (S n) reg (EnumRef name true) d
                 = Some (Ok (ref_to (enum_def_name cc name true), d')))
  /\ (exists d', to_json_schema cc (S n) reg (EnumRef name false) d
                 = Some (Ok (ref_to (enum_def_name cc name false), d'))).
Proof.
  intros He. split_and!; [reflexivity| |]; cbn [to_json_schema]; rewrite He; eauto.
Qed.

Definition w_side : list enum_variant := [variant_new "Buy" 0; variant_new "Sell" 1].
Definition w_prefixed : endpoint_schema :=
  endpoint_new "Trade" 7 [field_new "place" (Struct "Side" [field_new "x" Int32]); field_new "side" (EnumRef "Side" true)] [].
Definition w_side_registry : registry := registry_add (Enum "Side" w_side) (registry_add_endpoint w_prefixed registry_new).
Definition w_side_ref (e : endpoint_schema) : option json :=
  match to_mcp_input_schema (Casing id id id) 10 e w_side_registry with
  | Some (Ok v) => jget "properties" v ≫= jget "side"
  | _ => None
  end.

Definition w_side_def (e : endpoint_schema) (def_name : string) : option json :=
  match to_mcp_input_schema (Casing id id id) 10 e w_side_registry with
  | Some (Ok v) => (jget "$defs" v ≫= jget def_name) ≫= jget "type"
  | _ => None
  end.
Definition w_loaded : endpoint_schema := default w_prefixed (endpoint_from_json (endpoint_to_json w_prefixed)).

Example prefix_collision :
  w_side_ref w_prefixed = Some (ref_to "EnumSide") /\ w_side_def w_prefixed "EnumSide" = Some (JStr "integer")
  /\ w_side_ref w_loaded = Some (ref_to "Side") /\ w_side_def w_loaded "Side" = Some (JStr "object").
Proof. vm_compute. done. Qed.

(** An error code built by [EndpointErrorCodeRef::new] is not equal to what is read
    back, by either of its two forms. *)
Example code_ref_forms :
  code_ref_from_json (JStr "ErrorCode::NotFound") = Some (code_ref_new "NotFound")
  /\ code_ref_from_json (code_ref_to_json (code_ref_new "NotFound")) = Some (CodeRef (EnumRef "ErrorCode" false) "NotFound")
  /\ code_ref_from_json (code_ref_to_json (code_ref_new "NotFound")) <> Some (code_ref_new "NotFound").
Proof. split_and!; [reflexivity..|discriminate]. Qed.

(** ** Witnesses *)

Definition w_trade : endpoint_schema :=
  EndpointSchema "TradePlace" 10020
    [MkField "amount" "how much" Int64 [("minimum", JInt 0)]; field_new "tag" (NanoId 21)]
    [field_new "rows" (TVec (Struct "Row" [field_new "id" UUID; field_new "next" (Optional (StructRef "Row"))]))]
    (Some (EnumRef "Side" true)) "places a trade" JNull ["Role::Trader"]
    [ErrorSchema "Closed" (code_ref_new "BadRequest") "closed" [field_new "until" TimeStampMs]]
    [("deprecated", JBool true)].


Lemma schema_forward_compat_witness :
  match endpoint_to_json w_trade with
  | JObj m => endpoint_from_json (JObj (bm_insert "x_future_openapi_binding" (JInt 1) m)) = Some (endpoint_stored w_trade)
  | _ => False
  end.
Proof.
  destruct (schema_forward_compat "x_future_openapi_binding" (JInt 1)
              (match endpoint_to_json w_trade with JObj m => m | _ => [] end)) as (H & _).
  simpl. etransitivity; [apply H|vm_compute; reflexivity].
  unfold unknown, endpoint_members. intros Hin. repeat (apply elem_of_cons in Hin as [Hin|Hin]; [discriminate|]).
  set_solver.
Defined.
