(* ===== verification/TestKit.v ===== *)
(** * For the tests: JSON text, and the libraries they run on

    The files [ModelTests], [WireTests], [ServerTests], [LogTests] and [SeamTests] run the
    tests of the repository on the model: a test is the conjunction of its assertions, and is proved by
    evaluation.  The code calls serde_json and convert_case; this file has concrete
    functions in their place, which agree with them on what the tests use: JSON text
    without fractions, whose only escapes are those of the quote and the backslash, and
    identifiers made of letters. *)

From S2P Require Import Prelude BMap Json ModelTypes JsonSchema.

(** ** Assertions *)

(** [unwrap]: a panic fails the test. *)
Definition unwrapped {A E} (r : result A E) (P : A -> Prop) : Prop := match r with Ok a => P a | Err _ => False end.
Definition unwrapped_err {A E} (r : result A E) (P : E -> Prop) : Prop := match r with Ok _ => False | Err e => P e end.
Definition present {A} (o : option A) (P : A -> Prop) : Prop := match o with Some a => P a | None => False end.

Notation "'unwrap!' x '<-' e 'in' P" := (unwrapped e (fun x => P))
  (at level 10, x name, e at level 100, P at level 200) : ep_scope.
Notation "'unwrap!' ' p '<-' e 'in' P" := (unwrapped e (fun p => P))
  (at level 10, p pattern, e at level 100, P at level 200) : ep_scope.
Notation "'unwrap_err!' x '<-' e 'in' P" := (unwrapped_err e (fun x => P))
  (at level 10, x name, e at level 100, P at level 200) : ep_scope.
Notation "'some!' x '<-' e 'in' P" := (present e (fun x => P))
  (at level 10, x name, e at level 100, P at level 200) : ep_scope.
Notation "'some!' ' p '<-' e 'in' P" := (present e (fun p => P))
  (at level 10, p pattern, e at level 100, P at level 200) : ep_scope.

(** A test is run. *)
Ltac run_test := vm_compute; repeat match goal with |- _ /\ _ => split end; try exact I; first [reflexivity | intros Hfalse; discriminate Hfalse].

(** ** JSON text *)

(** Text written with single quotes for double ones. *)
Definition json_text (s : string) : string := string_map (fun c => if Ascii.eqb c "'" then "034"%char else c) s.

Definition is_space (c : ascii) : bool := (byte_val c <=? 32)%Z.
Fixpoint skip_spaces (s : bytes) : bytes :=
  match s with c :: r => if is_space c then skip_spaces r else s | [] => [] end.

Fixpoint read_string (s : bytes) (acc : bytes) : option (string * bytes) :=
  match s with
  | [] => None
  | "\"%char :: c :: r => read_string r (c :: acc)
  | c :: r => if Ascii.eqb c "034" then Some (string_of_bytes (rev acc), r) else read_string r (c :: acc)
  end.
Fixpoint read_digits (s : bytes) (n : Z) : Z * bytes :=
  match s with
  | c :: r => if is_digit c then read_digits r (n * 10 + (byte_val c - 48)) else (n, s)
  | [] => (n, s)
  end.
Fixpoint read_word (w : string) (s : bytes) : option bytes :=
  match w, s with
  | EmptyString, _ => Some s
  | String a w, c :: s => if Ascii.eqb a c then read_word w s else None
  | String _ _, [] => None
  end.

(** One value; the fuel bounds the nesting and the number of members. *)
Fixpoint read_value (fuel : nat) (s : bytes) : option (json * bytes) :=
  match fuel with
  | O => None
  | S fuel =>
      match skip_spaces s with
      | "{"%char :: r =>
          match skip_spaces r with
          | "}"%char :: r => Some (JObj [], r)
          | r => match read_members fuel r [] with Some (m, r) => Some (JObj m, r) | None => None end
          end
      | "["%char :: r =>
          match skip_spaces r with
          | "]"%char :: r => Some (JArr [], r)
          | r => match read_items fuel r with Some (l, r) => Some (JArr l, r) | None => None end
          end
      | "-"%char :: r => let '(n, r) := read_digits r 0 in Some (JInt (- n), r)
      | c :: r =>
          if Ascii.eqb c "034" then match read_string r [] with Some (t, r) => Some (JStr t, r) | None => None end
          else if is_digit c then let '(n, r) := read_digits (c :: r) 0 in Some (JInt n, r)
          else match read_word "null" (c :: r), read_word "true" (c :: r), read_word "false" (c :: r) with
               | Some r, _, _ => Some (JNull, r)
               | _, Some r, _ => Some (JBool true, r)
               | _, _, Some r => Some (JBool false, r)
               | _, _, _ => None
               end
      | [] => None
      end
  end
with read_members (fuel : nat) (s : bytes) (m : list (string * json)) : option (list (string * json) * bytes) :=
  match fuel with
  | O => None
  | S fuel =>
      match skip_spaces s with
      | c :: r =>
          if negb (Ascii.eqb c "034") then None else
          match read_string r [] with
          | None => None
          | Some (k, r) =>
              match skip_spaces r with
              | ":"%char :: r =>
                  match read_value fuel r with
                  | None => None
                  | Some (v, r) =>
                      match skip_spaces r with
                      | ","%char :: r => read_members fuel r (bm_insert k v m)
                      | "}"%char :: r => Some (bm_insert k v m, r)
                      | _ => None
                      end
                  end
              | _ => None
              end
          end
      | [] => None
      end
  end
with read_items (fuel : nat) (s : bytes) : option (list json * bytes) :=
  match fuel with
  | O => None
  | S fuel =>
      match read_value fuel s with
      | None => None
      | Some (v, r) =>
          match skip_spaces r with
          | ","%char :: r => match read_items fuel r with Some (l, r) => Some (v :: l, r) | None => None end
          | "]"%char :: r => Some ([v], r)
          | _ => None
          end
      end
  end.

(** [serde_json::from_str::<Value>]. *)
Definition read_json (text : string) : option json :=
  let b := bytes_of_string text in
  match read_value (S (length b)) b with
  | Some (v, r) => match skip_spaces r with [] => Some v | _ => None end
  | None => None
  end.

(** [Value::to_string]. *)
Fixpoint escaped (s : string) : string :=
  match s with
  | EmptyString => EmptyString
  | String c s => if Ascii.eqb c "034" || Ascii.eqb c "\" then String "\" (String c (escaped s)) else String c (escaped s)
  end.
Definition quoted (s : string) : string := String "034" (escaped s +:+ String "034" EmptyString).
Fixpoint write_json (v : json) : string :=
  match v with
  | JNull => "null"
  | JBool true => "true"
  | JBool false => "false"
  | JInt n => pretty n
  | JFloat n => pretty n
  | JStr s => quoted s
  | JArr l => "[" +:+ String.concat "," (map write_json l) +:+ "]"
  | JObj m => "{" +:+ String.concat "," (map (fun p => quoted p.1 +:+ ":" +:+ write_json p.2) m) +:+ "}"
  end.

(** [json!(..)], and indexing with [v["key"]] and [v[0]], which give null when there is
    no such member. *)
Definition js (text : string) : json := default JNull (read_json (json_text text)).
Definition at_key (v : json) (k : string) : json := default JNull (jget k v).
Definition at_index (v : json) (i : nat) : json := match v with JArr l => default JNull (l !! i) | _ => JNull end.
Notation "v ./ k" := (at_key v k) (at level 1, left associativity) : ep_scope.
Notation "v .# i" := (at_index v i) (at level 1, left associativity) : ep_scope.
Definition is_object (v : json) : bool := match v with JObj _ => true | _ => false end.

Example json_reads : js "{'b': [1, -2, null], 'a': {'x': true, 'y': []}, 'c': 'd'}"
  = jobj [("a", jobj [("x", JBool true); ("y", JArr [])]); ("b", JArr [JInt 1; JInt (-2); JNull]); ("c", JStr "d")].
Proof. reflexivity. Qed.
Example json_quotes : read_json (write_json (JStr (write_json (js "{'a': 'b'}")))) = Some (JStr (json_text "{'a':'b'}")).
Proof. reflexivity. Qed.

(** ** Case conversion *)

(** The words of an identifier, in lower case: split at underscores, and before an upper
    case letter that follows a lower case one. *)
Fixpoint words_from (s : bytes) (after_lower : bool) (cur : bytes) : list string :=
  let word := string_of_bytes (rev (map to_lower cur)) in
  match s with
  | [] => [word]
  | c :: r =>
      if Ascii.eqb c "_" then word :: words_from r false []
      else if after_lower && is_upper c then word :: words_from r false [c]
      else words_from r (is_lower c) (c :: cur)
  end.
Definition words_of (s : string) : list string := words_from (bytes_of_string s) false [].

Definition capital (s : string) : string :=
  match s with String c s => String (to_upper c) s | EmptyString => EmptyString end.
Definition convert_case : casing :=
  Casing (fun s => match words_of s with w :: ws => w +:+ String.concat "" (map capital ws) | [] => "" end)
    (fun s => String.concat "" (map capital (words_of s)))
    (fun s => String.concat "_" (words_of s)).

Example converts : to_snake convert_case "UserListSymbols" = "user_list_symbols"
  /\ to_camel convert_case "user_id" = "userId" /\ to_pascal convert_case "role" = "Role".
Proof. repeat split. Qed.
