(* ===== verification/ApiDocument.v ===== *)
(** * Shared definitions of API documents: [src/model/api_document.rs]

    [SchemaComponents::collect] and the per-endpoint schemas built on it, and the
    [meta] passthrough.  The tree walks over [$ref] are in [Refs]. *)

From S2P Require Import Prelude BMap Json ModelTypes Refs JsonSchema.

(** ** [apply_meta] *)

Definition RECOGNISED_META_KEYS : list string :=
  ["example"; "examples"; "deprecated"; "tags"; "minimum"; "maximum"; "minLength";
   "maxLength"; "pattern"; "enum"].

Definition meta_key_ok (key : string) : bool :=
  starts_with "x-" key || bool_decide (key ∈ RECOGNISED_META_KEYS).

Fixpoint apply_meta_loop (map : list (string * json)) (meta : metamap) (context : string)
    : result (list (string * json)) string :=
  match meta with
  | [] => Ok map
  | (key, value) :: meta =>
      if meta_key_ok key then apply_meta_loop (bm_insert key value map) meta context
      else Err (context +:+ ": unrecognised meta key `" +:+ key
                +:+ "`. Prefix it with `x-` to emit it as a specification extension, or use one of the mapped keys: "
                +:+ String.concat ", " RECOGNISED_META_KEYS)
  end.

Definition apply_meta (target : json) (meta : metamap) (context : string) : result json string :=
  if meta_is_empty meta then Ok target
  else match target with
       | JObj map => let* map := apply_meta_loop map meta context in Ok (JObj map)
       | _ => Err (context +:+ ": cannot apply meta to a non-object JSON value")
       end.

(** ** [apply_field_meta] *)

(** [schema.get_mut("properties").and_then(|p| p.get_mut(key))], with the write
    back of the borrowed property. *)
Definition get_property (schema : json) (key : string) : option json :=
  match jget "properties" schema with Some p => jget key p | None => None end.

Definition set_property (schema : json) (key : string) (property : json) : json :=
  match schema, jget "properties" schema with
  | JObj m, Some (JObj p) => JObj (bm_insert "properties" (JObj (bm_insert key property p)) m)
  | _, _ => schema
  end.

Fixpoint apply_field_meta (cc : casing) (schema : json) (fields : list field) (context : string)
    : result json string :=
  match fields with
  | [] => Ok schema
  | f :: fields =>
      if meta_is_empty (f_meta f) then apply_field_meta cc schema fields context
      else
        let key := to_camel cc (f_name f) in
        match get_property schema key with
        | None => apply_field_meta cc schema fields context
        | Some property =>
            match jget REF_KEY property with
            | Some _ =>
                Err (context +:+ ": field `" +:+ f_name f +:+
                     "` carries meta but its schema is a bare $ref; annotate the referenced definition instead — sibling keys next to $ref are ignored by JSON Schema 2020-12 tooling")
            | None =>
                let* property := apply_meta property (f_meta f)
                                   (context +:+ ": field `" +:+ f_name f +:+ "`") in
                apply_field_meta cc (set_property schema key property) fields context
            end
        end
  end.

(** ** [SchemaComponents] *)

Definition relabel {A} (label : string) (o : outcome A) : outcome A :=
  match o with Some (Err e) => Some (Err (label +:+ e)) | o => o end.

Section components.
Context (cc : casing) (fuel : nat) (reg : registry).

Fixpoint collect_errors (endpoint : string) (errors : list error_schema) (d : defs) : outcome unit :=
  match errors with
  | [] => done_with tt d
  | e :: errors =>
      obind (relabel ("endpoint " +:+ endpoint +:+ ": error " +:+ es_name e +:+ ": ")
               (fields_to_object_schema cc fuel (es_fields e) reg d))
        (fun _ d => collect_errors endpoint errors d)
  end.

Definition collect_endpoint (e : endpoint_schema) (d : defs) : outcome unit :=
  obind (relabel ("endpoint " +:+ ep_name e +:+ ": parameters: ")
           (fields_to_object_schema cc fuel (ep_parameters e) reg d)) (fun _ d =>
  obind (relabel ("endpoint " +:+ ep_name e +:+ ": returns: ")
           (fields_to_object_schema cc fuel (ep_returns e) reg d)) (fun _ d =>
  obind (match ep_stream_response e with
         | Some stream =>
             relabel ("endpoint " +:+ ep_name e +:+ ": stream_response: ")
               (to_json_schema cc fuel reg stream d)
         | None => done_with JNull d
         end) (fun _ d =>
  collect_errors (ep_name e) (ep_errors e) d))).

Fixpoint collect_loop (endpoints : list endpoint_schema) (d : defs) : outcome unit :=
  match endpoints with
  | [] => done_with tt d
  | e :: endpoints => obind (collect_endpoint e d) (fun _ d => collect_loop endpoints d)
  end.

(** [SchemaComponents::collect]: the [schemas] field. *)
Definition collect (endpoints : list endpoint_schema) : option (result defs string) :=
  match collect_loop endpoints [] with
  | None => None
  | Some (Err e) => Some (Err e)
  | Some (Ok (_, d)) => Some (Ok (bm_map (relocate_refs COMPONENTS_SCHEMAS_PREFIX) d))
  end.

(** [SchemaComponents::object_schema], whose [defs] are thrown away. *)
Definition object_schema (fields : list field) (context : string) : option (result json string) :=
  match fields_to_object_schema cc fuel fields reg [] with
  | None => None
  | Some (Err e) => Some (Err e)
  | Some (Ok (schema, _)) =>
      Some (apply_field_meta cc (relocate_refs COMPONENTS_SCHEMAS_PREFIX schema) fields context)
  end.

Definition request_schema (e : endpoint_schema) :=
  object_schema (ep_parameters e) ("endpoint " +:+ ep_name e +:+ " parameters").
Definition response_schema (e : endpoint_schema) :=
  object_schema (ep_returns e) ("endpoint " +:+ ep_name e +:+ " returns").

Definition object_schema_for_fields (fields : list field) : option (result json string) :=
  match fields_to_object_schema cc fuel fields reg [] with
  | None => None
  | Some (Err e) => Some (Err e)
  | Some (Ok (schema, _)) => Some (Ok (relocate_refs COMPONENTS_SCHEMAS_PREFIX schema))
  end.
End components.

(** [json_object]: an object from the entries that have a value. *)
Definition json_object (entries : list (string * option json)) : json :=
  JObj (fold_left (fun m p => match p.2 with Some v => bm_insert p.1 v m | None => m end) entries []).

(** ** Lemmas *)

Lemma struct_value cc reg n name fields d v d' :
  to_json_schema cc n reg (Struct name fields) d = Some (Ok (v, d')) ->
  v = ref_to (struct_def_name cc name).
Proof.
  destruct n as [|n]; [done|]. cbn [to_json_schema]. destruct (bm_contains _ d); [by intros [= <- <-]|].
  destruct (fields_loop _ _ _ _ _ _) as [[[]|]|]; simpl; try done. by intros [= <- <-].
Qed.

(** The schema returned for a type does not depend on the definitions collected
    so far: they only decide what is added to [defs]. *)
Lemma to_json_schema_value cc reg n : forall m t d1 d2 v1 v2 d1' d2',
  to_json_schema cc n reg t d1 = Some (Ok (v1, d1')) ->
  to_json_schema cc m reg t d2 = Some (Ok (v2, d2')) -> v1 = v2.
Proof.
  induction n as [|n IH]; [done|]. intros [|m] t d1 d2 v1 v2 d1' d2' H1 H2; [done|].
  destruct t; cbn [to_json_schema] in H1, H2; try (injection H1 as <- <-; by injection H2 as <- <-).
  - by rewrite (struct_value _ _ (S n) _ _ _ _ _ H1), (struct_value _ _ (S m) _ _ _ _ _ H2).
  - destruct (get_struct reg name); [by eapply IH|done].
  - destruct (get_struct reg struct_ref); [|done].
    destruct (to_json_schema cc n _ _ _) as [[[]|]|] eqn:E1; try done.
    destruct (to_json_schema cc m _ _ _) as [[[]|]|] eqn:E2; try done.
    simpl in H1, H2. injection H1 as <- <-. injection H2 as <- <-. by rewrite (IH _ _ _ _ _ _ _ _ E1 E2).
  - destruct (to_json_schema cc n _ _ _) as [[[]|]|] eqn:E1; try done.
    destruct (to_json_schema cc m _ _ _) as [[[]|]|] eqn:E2; try done.
    simpl in H1, H2. injection H1 as <- <-. injection H2 as <- <-. by rewrite (IH _ _ _ _ _ _ _ _ E1 E2).
  - destruct (to_json_schema cc n _ _ _) as [[[]|]|] eqn:E1; try done.
    destruct (to_json_schema cc m _ _ _) as [[[]|]|] eqn:E2; try done.
    simpl in H1, H2. injection H1 as <- <-. injection H2 as <- <-. by rewrite (IH _ _ _ _ _ _ _ _ E1 E2).
  - destruct (get_enum reg name) as [[]|]; try done.
    injection H1 as <- <-. by injection H2 as <- <-.
Qed.

Lemma fields_loop_value cc reg n m fs : forall props req d1 d2 v1 v2 d1' d2',
  fields_loop cc (to_json_schema cc n reg) fs props req d1 = Some (Ok (v1, d1')) ->
  fields_loop cc (to_json_schema cc m reg) fs props req d2 = Some (Ok (v2, d2')) -> v1 = v2.
Proof.
  induction fs as [|f fs IH]; intros props req d1 d2 v1 v2 d1' d2'; cbn [fields_loop].
  - intros [= <- <-]. by intros [= <- <-].
  - destruct (match f_ty f with Optional _ => _ | _ => _ end) as [t req'].
    destruct (to_json_schema cc n _ _ _) as [[[]|]|] eqn:E1; try done.
    destruct (to_json_schema cc m _ _ _) as [[[]|]|] eqn:E2; try done. simpl.
    rewrite (to_json_schema_value _ _ _ _ _ _ _ _ _ _ _ E1 E2). apply IH.
Qed.

Lemma relabel_ok {A} l (o : outcome A) a d : relabel l o = Some (Ok (a, d)) -> o = Some (Ok (a, d)).
Proof. by destruct o as [[]|]. Qed.

Lemma relabel_some {A} l (o : outcome A) : o <> None -> relabel l o <> None.
Proof. by destruct o as [[]|]. Qed.

Section collect_facts.
Context (cc : casing) (fuel : nat) (reg : registry).

Definition step_post (d d' : defs) : Prop := defs_ok d' /\ bm_keys d ⊆ bm_keys d'.

Lemma step_post_trans d1 d2 d3 : step_post d1 d2 -> step_post d2 d3 -> step_post d1 d3.
Proof. intros [? ?] [? ?]. split; [done|by etrans]. Qed.

Lemma fields_step fs d v d' :
  fields_to_object_schema cc fuel fs reg d = Some (Ok (v, d')) -> defs_ok d -> step_post d d'.
Proof. intros Hl Hd. by destruct (fields_to_object_schema_good _ _ _ _ _ _ _ Hl Hd) as (? & ? & _). Qed.

Lemma collect_errors_post ep errors : forall d u d',
  collect_errors cc fuel reg ep errors d = Some (Ok (u, d')) -> defs_ok d -> step_post d d'.
Proof.
  induction errors as [|e errors IH]; intros d u d'; simpl.
  - by intros [= <- <-].
  - destruct (relabel _ _) as [[[v d1]|]|] eqn:Hr; simpl; try done.
    apply relabel_ok in Hr. intros Hl Hd. pose proof (fields_step _ _ _ _ Hr Hd) as Hp.
    eapply step_post_trans; [exact Hp|]. eapply IH; [exact Hl|apply Hp].
Qed.

(** The intermediate states of one endpoint. *)
Lemma collect_endpoint_inv e d u d' :
  collect_endpoint cc fuel reg e d = Some (Ok (u, d')) ->
  exists v1 d1 v2 d2 d3,
    fields_to_object_schema cc fuel (ep_parameters e) reg d = Some (Ok (v1, d1))
    /\ fields_to_object_schema cc fuel (ep_returns e) reg d1 = Some (Ok (v2, d2))
    /\ (match ep_stream_response e with
        | Some t => exists v3, to_json_schema cc fuel reg t d2 = Some (Ok (v3, d3))
        | None => d3 = d2 end)
    /\ collect_errors cc fuel reg (ep_name e) (ep_errors e) d3 = Some (Ok (u, d')).
Proof.
  unfold collect_endpoint.
  destruct (relabel _ _) as [[[v1 d1]|]|] eqn:H1; simpl; try done. apply relabel_ok in H1.
  destruct (relabel (_ +:+ _ +:+ ": returns: ") _) as [[[v2 d2]|]|] eqn:H2; simpl; try done. apply relabel_ok in H2.
  destruct (ep_stream_response e) as [t|]; simpl.
  - destruct (relabel _ (to_json_schema _ _ _ _ _)) as [[[v3 d3]|]|] eqn:H3; simpl; try done.
    apply relabel_ok in H3. intros. exists v1, d1, v2, d2, d3. eauto.
  - intros. exists v1, d1, v2, d2, d2. eauto.
Qed.

Lemma collect_endpoint_post e d u d' :
  collect_endpoint cc fuel reg e d = Some (Ok (u, d')) -> defs_ok d -> step_post d d'.
Proof.
  intros (v1 & d1 & v2 & d2 & d3 & H1 & H2 & H3 & H4)%collect_endpoint_inv Hd.
  pose proof (fields_step _ _ _ _ H1 Hd) as P1.
  pose proof (fields_step _ _ _ _ H2 (proj1 P1)) as P2.
  assert (P3 : step_post d2 d3).
  { destruct (ep_stream_response e); [|by subst; split; [apply P2|]].
    destruct H3 as [v3 H3]. by destruct (to_json_schema_good _ _ _ _ _ _ _ H3 (proj1 P2)) as (? & ? & _). }
  pose proof (collect_errors_post _ _ _ _ _ H4 (proj1 P3)) as P4.
  exact (step_post_trans _ _ _ P1 (step_post_trans _ _ _ P2 (step_post_trans _ _ _ P3 P4))).
Qed.

Lemma collect_loop_post es : forall d u d',
  collect_loop cc fuel reg es d = Some (Ok (u, d')) -> defs_ok d -> step_post d d'.
Proof.
  induction es as [|e es IH]; intros d u d'; simpl.
  - by intros [= <- <-].
  - destruct (collect_endpoint _ _ _ _ _) as [[[v d1]|]|] eqn:Hr; simpl; try done.
    intros Hl Hd. pose proof (collect_endpoint_post _ _ _ _ Hr Hd) as Hp.
    eapply step_post_trans; [exact Hp|]. eapply IH; [exact Hl|apply Hp].
Qed.

(** Each endpoint's parameter and return schemas were built, on some state,
    while walking, and what they refer to is in the final definitions. *)
Lemma collect_loop_walked es : forall d u d' e,
  collect_loop cc fuel reg es d = Some (Ok (u, d')) -> defs_ok d -> e ∈ es ->
  exists da va da' db vb db',
    fields_to_object_schema cc fuel (ep_parameters e) reg da = Some (Ok (va, da')) /\ closed d' va
    /\ fields_to_object_schema cc fuel (ep_returns e) reg db = Some (Ok (vb, db')) /\ closed d' vb.
Proof.
  induction es as [|e0 es IH]; intros d u d' e; simpl; [set_solver|].
  destruct (collect_endpoint _ _ _ _ _) as [[[v d1]|]|] eqn:Hr; simpl; try done.
  intros Hl Hd [->|Hin]%elem_of_cons.
  - pose proof (collect_endpoint_post _ _ _ _ Hr Hd) as [Hd1 _].
    pose proof (collect_loop_post _ _ _ _ Hl Hd1) as [_ Hk].
    apply collect_endpoint_inv in Hr as (v1 & da' & v2 & d2 & d3 & H1 & H2 & H3 & H4).
    destruct (fields_to_object_schema_good _ _ _ _ _ _ _ H1 Hd) as (O1 & K1 & _ & C1).
    destruct (fields_to_object_schema_good _ _ _ _ _ _ _ H2 O1) as (O2 & K2 & _ & C2).
    assert (P3 : step_post d2 d3).
    { destruct (ep_stream_response e0); [|by subst; split].
      destruct H3 as [v3 H3]. by destruct (to_json_schema_good _ _ _ _ _ _ _ H3 O2) as (? & ? & _). }
    pose proof (collect_errors_post _ _ _ _ _ H4 (proj1 P3)) as [_ K4].
    exists d, v1, da', da', v2, d2. destruct P3 as [_ K3].
    assert (K : bm_keys d2 ⊆ bm_keys d') by (etrans; [exact K3|]; etrans; [exact K4|exact Hk]).
    split_and!; [done| |done|by eapply closed_mono].
    eapply closed_mono; [|exact C1]. by etrans.
  - eapply IH; [exact Hl| |exact Hin]. by apply (collect_endpoint_post _ _ _ _ Hr Hd).
Qed.
End collect_facts.

Lemma relocated_refs_in d v r :
  closed d v -> r ∈ collect_refs (relocate_refs COMPONENTS_SCHEMAS_PREFIX v) ->
  exists X, r = COMPONENTS_SCHEMAS_PREFIX +:+ X /\ X ∈ bm_keys d.
Proof.
  intros Hc. rewrite relocate_collect.
  intros (t & <- & Ht)%list_elem_of_In%in_map_iff. apply list_elem_of_In in Ht.
  destruct (Hc t Ht) as (X & -> & HX). exists X. by rewrite relocate_target_components.
Qed.

(** *** What [meta] adds *)

Lemma meta_key_not_ref k : meta_key_ok k = true -> k <> REF_KEY.
Proof. by intros H ->. Qed.

Lemma refs_insert r k v m :
  (k <> REF_KEY \/ is_obj v = true) ->
  r ∈ collect_refs (JObj (bm_insert k v m)) -> r ∈ collect_refs v \/ r ∈ collect_refs (JObj m).
Proof.
  rewrite !elem_of_collect_obj, bm_get_insert. intros Hk [Hr|(k' & v' & Hkv & Hr)].
  - destruct (decide (REF_KEY = k)) as [<-|]; [|by right; left].
    injection Hr as ->. by destruct Hk.
  - apply bm_elem_insert in Hkv as [[= -> ->]|Hkv]; [by left|]. right. right. eauto.
Qed.

Lemma apply_meta_loop_refs meta ctx r : forall m m',
  apply_meta_loop m meta ctx = Ok m' -> r ∈ collect_refs (JObj m') ->
  r ∈ collect_refs (JObj m) \/ exists k v, (k, v) ∈ meta /\ r ∈ collect_refs v.
Proof.
  induction meta as [|[k v] meta IH]; intros m m'; cbn [apply_meta_loop].
  - intros [= <-]. by left.
  - destruct (meta_key_ok k) eqn:Hk; [|done]. intros Hl Hr.
    destruct (IH _ _ Hl Hr) as [H|(k' & v' & ? & ?)]; [|right; exists k', v'; split; [by right|done]].
    apply refs_insert in H as [H|H]; [|by left|left; by apply meta_key_not_ref].
    right. exists k, v. split; [left|done].
Qed.

Lemma apply_meta_shape target meta ctx v :
  meta_is_empty meta = false -> apply_meta target meta ctx = Ok v ->
  exists m m', target = JObj m /\ v = JObj m' /\ apply_meta_loop m meta ctx = Ok m'.
Proof.
  unfold apply_meta. intros ->. destruct target as [| | | | | |m]; try done.
  destruct (apply_meta_loop m meta ctx) as [m'|] eqn:Hl; try done. simpl. intros [= <-]. by exists m, m'.
Qed.

Lemma set_property_refs schema key property r :
  is_obj property = true -> r ∈ collect_refs (set_property schema key property) ->
  r ∈ collect_refs property \/ r ∈ collect_refs schema.
Proof.
  intros Ho. unfold set_property. destruct schema as [| | | | | |m]; try set_solver. simpl jget.
  destruct (bm_get "properties" m) as [[| | | | | |p]|] eqn:Hp; try tauto.
  intros [H|H]%refs_insert; [|by right|by left].
  apply refs_insert in H as [H|H]; [by left| |by right].
  right. rewrite elem_of_collect_obj. right. exists "properties", (JObj p).
  split; [by apply bm_get_elem|done].
Qed.

Lemma get_property_refs schema key property r :
  get_property schema key = Some property -> r ∈ collect_refs property -> r ∈ collect_refs schema.
Proof.
  unfold get_property. destruct schema as [| | | | | |m]; try done. simpl jget.
  destruct (bm_get "properties" m) as [[| | | | | |p]|] eqn:Hp; try done. intros Hg Hr. simpl in Hg.
  rewrite elem_of_collect_obj. right. exists "properties", (JObj p). split; [by apply bm_get_elem|].
  rewrite elem_of_collect_obj. right. exists key, property. split; [by apply bm_get_elem|done].
Qed.

(** The meta values written next to the fields are the only new targets. *)
Definition meta_ref (fields : list field) (r : string) : Prop :=
  exists f k v, f ∈ fields /\ (k, v) ∈ f_meta f /\ r ∈ collect_refs v.

Lemma apply_field_meta_refs cc fields ctx r : forall schema v,
  apply_field_meta cc schema fields ctx = Ok v -> r ∈ collect_refs v ->
  r ∈ collect_refs schema \/ meta_ref fields r.
Proof.
  assert (Hmono : forall f fs, meta_ref fs r -> meta_ref (f :: fs) r).
  { intros f fs (f' & k & v & ? & ?). exists f', k, v. split; [by right|done]. }
  induction fields as [|f fields IH]; intros schema v; cbn [apply_field_meta].
  - intros [= <-]. by left.
  - destruct (meta_is_empty (f_meta f)) eqn:He; [intros Hl Hr; destruct (IH _ _ Hl Hr); auto|].
    destruct (get_property _ _) as [property|] eqn:Hg; [|intros Hl Hr; destruct (IH _ _ Hl Hr); auto].
    destruct (jget REF_KEY property); [done|].
    destruct (apply_meta _ _ _) as [property'|] eqn:Ha; simpl; [|done]. intros Hl Hr.
    apply apply_meta_shape in Ha as (m & m' & -> & -> & Ha); [|done].
    destruct (IH _ _ Hl Hr) as [H|H]; [|auto].
    apply set_property_refs in H as [H|H]; [|by left|done].
    destruct (apply_meta_loop_refs _ _ _ _ _ Ha H) as [H'|(k & v' & ? & ?)].
    + left. by eapply get_property_refs.
    + right. exists f, k, v'. split; [left|done].
Qed.

Lemma apply_meta_loop_get meta ctx : forall m m',
  bm_wf meta -> apply_meta_loop m meta ctx = Ok m' ->
  forall k, bm_get k m' = match bm_get k meta with Some v => Some v | None => bm_get k m end.
Proof.
  induction meta as [|[k v] meta IH]; intros m m' Hwf; cbn [apply_meta_loop].
  - by intros [= <-].
  - destruct (meta_key_ok k); [|done]. inversion Hwf as [|? ? ? Hlt Hwf' ]; subst. intros Hl k'.
    rewrite (IH _ _ Hwf' Hl k'), bm_get_insert. simpl.
    destruct (decide (k' = k)) as [->|]; [|done].
    destruct (bm_get k meta) eqn:Hg; [|done].
    apply bm_get_Some_keys, Hlt in Hg. by apply str_lt_irrefl in Hg.
Qed.

Lemma apply_meta_loop_ok meta ctx : forall m,
  is_ok (apply_meta_loop m meta ctx) = forallb (fun p => meta_key_ok p.1) meta.
Proof.
  induction meta as [|[k v] meta IH]; intros m; simpl; [done|]. by destruct (meta_key_ok k).
Qed.

Section totality.
Context (cc : casing) (fuel : nat) (reg : registry).
Context (Hwf : registry_wf reg).

(** Fuel for one endpoint from the empty definitions; later states only need less. *)
Definition endpoint_fuel (e : endpoint_schema) : nat :=
  fields_fuel cc reg (ep_parameters e) [] + fields_fuel cc reg (ep_returns e) []
  + (match ep_stream_response e with Some t => schema_fuel cc reg t [] | None => 0 end)
  + sum_list (map (fun es => fields_fuel cc reg (es_fields es) []) (ep_errors e)).

Definition collect_fuel (es : list endpoint_schema) : nat := sum_list (map endpoint_fuel es).

Lemma fields_some fs d : fields_fuel cc reg fs [] <= fuel ->
  fields_to_object_schema cc fuel fs reg d <> None.
Proof.
  intros H. apply fields_to_object_schema_enough; [done|].
  pose proof (undefined_mono cc reg [] d). unfold fields_fuel in *.
  assert (undefined cc reg d <= undefined cc reg []) by (apply H0; set_solver). nia.
Qed.

Lemma stream_some t d : schema_fuel cc reg t [] <= fuel -> to_json_schema cc fuel reg t d <> None.
Proof.
  intros H. apply to_json_schema_enough; [done|].
  pose proof (undefined_mono cc reg [] d). unfold schema_fuel in *.
  assert (undefined cc reg d <= undefined cc reg []) by (apply H0; set_solver). nia.
Qed.

Lemma collect_errors_some ep errors : forall d,
  sum_list (map (fun es => fields_fuel cc reg (es_fields es) []) errors) <= fuel ->
  collect_errors cc fuel reg ep errors d <> None.
Proof.
  induction errors as [|e errors IH]; intros d; simpl; [done|]. intros Hf.
  pose proof (relabel_some ("endpoint " +:+ ep +:+ ": error " +:+ es_name e +:+ ": ") _ (fields_some (es_fields e) d ltac:(lia))) as Hs.
  destruct (relabel _ _) as [[[]|]|]; simpl; try done. apply IH. lia.
Qed.

Lemma collect_endpoint_some e d : endpoint_fuel e <= fuel -> collect_endpoint cc fuel reg e d <> None.
Proof.
  unfold endpoint_fuel, collect_endpoint. intros Hf.
  pose proof (relabel_some ("endpoint " +:+ ep_name e +:+ ": parameters: ") _ (fields_some (ep_parameters e) d ltac:(lia))) as H1.
  destruct (relabel _ _) as [[[? d1]|]|]; simpl; try done.
  pose proof (relabel_some ("endpoint " +:+ ep_name e +:+ ": returns: ") _ (fields_some (ep_returns e) d1 ltac:(lia))) as H2.
  destruct (relabel _ _) as [[[? d2]|]|]; simpl; try done.
  destruct (ep_stream_response e) as [t|]; simpl; [|apply collect_errors_some; lia].
  pose proof (relabel_some ("endpoint " +:+ ep_name e +:+ ": stream_response: ") _ (stream_some t d2 ltac:(lia))) as H3.
  destruct (relabel _ _) as [[[? d3]|]|]; simpl; try done. apply collect_errors_some. lia.
Qed.

Lemma collect_loop_some es : forall d, collect_fuel es <= fuel -> collect_loop cc fuel reg es d <> None.
Proof.
  induction es as [|e es IH]; intros d; simpl; [done|]. unfold collect_fuel. simpl. intros Hf.
  pose proof (collect_endpoint_some e d ltac:(lia)) as H1.
  destruct (collect_endpoint _ _ _ _ _) as [[[]|]|]; simpl; try done. apply IH. unfold collect_fuel. lia.
Qed.
End totality.

Lemma collect_inv cc fuel reg es schemas :
  collect cc fuel reg es = Some (Ok schemas) ->
  exists d, collect_loop cc fuel reg es [] = Some (Ok (tt, d)) /\ defs_ok d
            /\ schemas = bm_map (relocate_refs COMPONENTS_SCHEMAS_PREFIX) d.
Proof.
  unfold collect. destruct (collect_loop _ _ _ _ _) as [[[[] d]|]|] eqn:Hl; try done. intros [= <-].
  exists d. split_and!; [done| |done]. by apply (collect_loop_post _ _ _ _ _ _ _ Hl defs_ok_nil).
Qed.

Lemma registry_of_endpoint_wf e r : registry_wf r -> registry_wf (registry_add_endpoint e r).
Proof.
  intros Hr. unfold registry_add_endpoint.
  pose proof (registry_add_all_wf (map f_ty (ep_returns e)) _ (registry_add_all_wf (map f_ty (ep_parameters e)) _ Hr)).
  destruct (ep_stream_response e); [by apply registry_add_wf'|done].
Qed.

(** ** Properties *)

(** The shared components are closed.  When [SchemaComponents::collect]
    succeeds, every [$ref] inside every collected definition is
    [#/components/schemas/] followed by the name of a collected definition. *)
Theorem collect_closed cc fuel reg es schemas name v r :
  collect cc fuel reg es = Some (Ok schemas) -> bm_get name schemas = Some v ->
  r ∈ collect_refs v ->
  exists X, r = COMPONENTS_SCHEMAS_PREFIX +:+ X /\ X ∈ bm_keys schemas.
Proof.
  intros (d & _ & Hd & ->)%collect_inv Hg Hr. rewrite bm_get_map in Hg. rewrite bm_keys_map.
  destruct (bm_get name d) as [w|] eqn:Hw; [|done]. injection Hg as <-.
  eapply relocated_refs_in; [|exact Hr]. by apply (Hd name w), bm_get_elem.
Qed.

(** C34: request and response schemas resolve against the collected
    components.  For an endpoint among those collected, every [$ref] of its
    request schema or of its response schema names a collected component, except
    a [$ref] that the endpoint's author wrote in a field's [meta]. *)
Theorem endpoint_schemas_resolve cc fuel reg es schemas e v r :
  collect cc fuel reg es = Some (Ok schemas) -> e ∈ es ->
  request_schema cc fuel reg e = Some (Ok v) \/ response_schema cc fuel reg e = Some (Ok v) ->
  r ∈ collect_refs v ->
  (exists X, r = COMPONENTS_SCHEMAS_PREFIX +:+ X /\ X ∈ bm_keys schemas)
  \/ meta_ref (ep_parameters e ++ ep_returns e) r.
Proof.
  intros (d & Hl & Hd & ->)%collect_inv Hin Hreq Hr. rewrite bm_keys_map.
  destruct (collect_loop_walked _ _ _ _ _ _ _ _ Hl defs_ok_nil Hin) as (da & va & da' & db & vb & db' & H1 & C1 & H2 & C2).
  assert (Hsub : forall fs, meta_ref fs r -> fs ⊆ ep_parameters e ++ ep_returns e -> meta_ref (ep_parameters e ++ ep_returns e) r).
  { intros fs (f & k & w & Hf & ?) Hs. exists f, k, w. split; [by apply Hs|done]. }
  destruct Hreq as [Hreq|Hreq]; unfold request_schema, response_schema, object_schema in Hreq.
  - destruct (fields_to_object_schema _ _ (ep_parameters e) _ []) as [[[s ?]|]|] eqn:Hs; try done.
    injection Hreq as Hreq. destruct (apply_field_meta_refs _ _ _ _ _ _ Hreq Hr) as [H|H].
    + left. eapply relocated_refs_in; [|exact H]. by rewrite (fields_loop_value _ _ _ _ _ _ _ _ _ _ _ _ _ Hs H1).
    + right. apply (Hsub _ H). set_solver.
  - destruct (fields_to_object_schema _ _ (ep_returns e) _ []) as [[[s ?]|]|] eqn:Hs; try done.
    injection Hreq as Hreq. destruct (apply_field_meta_refs _ _ _ _ _ _ Hreq Hr) as [H|H].
    + left. eapply relocated_refs_in; [|exact H]. by rewrite (fields_loop_value _ _ _ _ _ _ _ _ _ _ _ _ _ Hs H2).
    + right. apply (Hsub _ H). set_solver.
Qed.

(** [collect] terminates on every list of endpoints whose
    registry was built with [TypeRegistry::add_endpoint], each endpoint added in
    turn: with [collect_fuel] it returns the components or an error. *)
Theorem collect_total cc es :
  let reg := fold_left (fun r e => registry_add_endpoint e r) es registry_new in
  exists r, collect cc (collect_fuel cc reg es) reg es = Some r.
Proof.
  intros reg. assert (Hwf : registry_wf reg).
  { apply (Forall_fold_left registry_wf); [apply registry_new_wf|]. intros. by apply registry_of_endpoint_wf. }
  unfold collect. pose proof (collect_loop_some cc _ reg Hwf es [] (Nat.le_refl _)) as H.
  destruct (collect_loop _ _ _ _ _) as [[[[] d]|]|]; [by eexists|by eexists|done].
Qed.

(** The [meta] passthrough.  On an object, [apply_meta] succeeds
    exactly when every key is a mapped key or starts with [x-]; the result then
    has the meta value under each meta key and the target's value everywhere
    else. *)
Theorem apply_meta_spec m meta ctx :
  bm_wf meta ->
  is_ok (apply_meta (JObj m) meta ctx) = forallb (fun p => meta_key_ok p.1) meta
  /\ forall v k, apply_meta (JObj m) meta ctx = Ok v ->
       jget k v = match bm_get k meta with Some w => Some w | None => bm_get k m end.
Proof.
  intros Hwf. unfold apply_meta. destruct meta as [|p meta]; [by split; [|intros v k [= <-]]|].
  simpl meta_is_empty. cbv iota. split.
  - rewrite <- (apply_meta_loop_ok (p :: meta) ctx m). by destruct (apply_meta_loop _ _ _).
  - intros v k. destruct (apply_meta_loop _ _ _) as [m'|] eqn:Hl; [|done]. intros [= <-].
    simpl jget. by apply (apply_meta_loop_get _ _ _ _ Hwf Hl).
Qed.

(** *** Witnesses: two endpoints sharing a recursive struct *)

Definition id_casing : casing := Casing id id id.
Definition w_node : type :=
  Struct "Node" [field_new "value" TString; field_new "next" (Optional (StructRef "Node"))].
Definition w_meta : metamap := [("x-unit", JStr "ms")].
Definition w_list : endpoint_schema :=
  endpoint_new "List" 1 [field_with_meta (field_new "limit" Int32) w_meta; field_new "from" (StructRef "Node")]
    [field_new "node" w_node].
Definition w_get : endpoint_schema := endpoint_new "Get" 2 [] [field_new "nodes" (StructTable "Node")].
Definition w_reg : registry := registry_add_endpoint w_get (registry_add_endpoint w_list registry_new).

Definition ok_value {A E} (o : option (result A E)) (dflt : A) : A :=
  match o with Some (Ok a) => a | _ => dflt end.
Definition w_schemas : defs := ok_value (collect id_casing 20 w_reg [w_list; w_get]) [].
Definition w_node_schema : json := match bm_get "Node" w_schemas with Some v => v | None => JNull end.

Lemma collect_closed_witness :
  exists X, "#/components/schemas/Node" = COMPONENTS_SCHEMAS_PREFIX +:+ X /\ X ∈ bm_keys w_schemas.
Proof.
  apply (collect_closed id_casing 20 w_reg [w_list; w_get] w_schemas "Node" w_node_schema).
  - vm_compute. reflexivity.
  - vm_compute. reflexivity.
  - vm_compute. left.
Defined.

Lemma endpoint_schemas_resolve_witness :
  (exists X, "#/components/schemas/Node" = COMPONENTS_SCHEMAS_PREFIX +:+ X /\ X ∈ bm_keys w_schemas)
  \/ meta_ref (ep_parameters w_list ++ ep_returns w_list) "#/components/schemas/Node".
Proof.
  apply (endpoint_schemas_resolve id_casing 20 w_reg [w_list; w_get] w_schemas w_list
           (ok_value (request_schema id_casing 20 w_reg w_list) JNull)).
  - vm_compute. reflexivity.
  - left.
  - left. vm_compute. reflexivity.
  - vm_compute. left.
Defined.

Lemma apply_meta_spec_witness :
  is_ok (apply_meta (JObj [("type", JStr "string")]) w_meta "f") = true
  /\ forall v k, apply_meta (JObj [("type", JStr "string")]) w_meta "f" = Ok v ->
       jget k v = match bm_get k w_meta with Some w => Some w | None => bm_get k [("type", JStr "string")] end.
Proof.
  apply (apply_meta_spec [("type", JStr "string")] w_meta "f").
  apply bm_wf_cons; [intros k Hk; apply elem_of_nil in Hk; destruct Hk|apply bm_wf_nil].
Defined.
