(* ===== verification/Message.v ===== *)
(** * Wire messages: [src/libs/ws/message.rs], [src/libs/ws/tungstenite/message.rs]

    The message every transport carries, the UTF-8 payload type and the
    conversions to and from the WebSocket backend's message. *)

From S2P Require Import Prelude.

(** ** UTF-8

    [std::str::from_utf8]: the well-formed byte sequences of the Unicode standard. *)

Definition cont (lo hi : Z) (a : ascii) : bool := in_range lo hi a.

Fixpoint utf8_valid (b : bytes) : bool :=
  match b with
  | [] => true
  | a :: b =>
      if in_range 0 127 a then utf8_valid b
      else if in_range 194 223 a then
        match b with
        | b1 :: b => in_range 128 191 b1 && utf8_valid b
        | _ => false
        end
      else if in_range 224 239 a then
        match b with
        | b1 :: b2 :: b =>
            (if in_range 224 224 a then in_range 160 191 b1
             else if in_range 237 237 a then in_range 128 159 b1
             else in_range 128 191 b1)
            && in_range 128 191 b2 && utf8_valid b
        | _ => false
        end
      else if in_range 240 244 a then
        match b with
        | b1 :: b2 :: b3 :: b =>
            (if in_range 240 240 a then in_range 144 191 b1
             else if in_range 244 244 a then in_range 128 143 b1
             else in_range 128 191 b1)
            && in_range 128 191 b2 && in_range 128 191 b3 && utf8_valid b
        | _ => false
        end
      else false
  end.

(** [impl TryFrom<Bytes> for Utf8Bytes]; the error is [std::str::Utf8Error]. *)
Definition utf8_try_from (value : bytes) : option bytes :=
  if utf8_valid value then Some value else None.

(** ** [Utf8Bytes]

    The bytes of a string; the type keeps them UTF-8, which [as_str] relies on (it is
    unsafe code).  A Rust [str] is a [string] whose bytes are. *)
Definition is_str (s : string) : bool := utf8_valid (bytes_of_string s).

Definition utf8_from_static (value : string) : bytes := bytes_of_string value.
Definition utf8_from_string (value : string) : bytes := bytes_of_string value.
Definition utf8_as_str (u : bytes) : string := string_of_bytes u.
Definition utf8_as_bytes (u : bytes) : bytes := u.
Definition utf8_into_bytes (u : bytes) : bytes := u.
Definition utf8_from_bytes_unchecked (value : bytes) : bytes := value.
Definition utf8_deref : bytes -> string := utf8_as_str.
Definition utf8_borrow : bytes -> string := utf8_as_str.
Definition utf8_fmt (u : bytes) : string := utf8_as_str u.
(** [TryFrom<Vec<u8>>]. *)
Definition utf8_try_from_vec (value : bytes) : option bytes := utf8_try_from value.

(** Every way a value of the type comes about in this crate; the unchecked one is used on
    the text of another type that keeps the same promise. *)
Inductive utf8_made : bytes -> Prop :=
  | made_static s : is_str s = true -> utf8_made (utf8_from_static s)
  | made_string s : is_str s = true -> utf8_made (utf8_from_string s)
  | made_bytes b u : utf8_try_from b = Some u -> utf8_made u
  | made_vec b u : utf8_try_from_vec b = Some u -> utf8_made u
  | made_unchecked b : utf8_valid b = true -> utf8_made (utf8_from_bytes_unchecked b).

(** ** [WireMessage] *)

Record close_frame := CloseFrame { cf_code : Z; (* u16 *) cf_reason : bytes }.

Inductive wire_message :=
  | Text (t : bytes)
  | Binary (b : bytes)
  | Ping (b : bytes)
  | Pong (b : bytes)
  | Close (f : option close_frame).

(** [From<&str>], [From<String>] and [From<Vec<u8>>]. *)
Definition wm_of_str (s : string) : wire_message := Text (bytes_of_string s).
Definition wm_of_vec (value : bytes) : wire_message := Binary value.

Definition wm_text (value : bytes) : wire_message := Text value.
Definition wm_binary (value : bytes) : wire_message := Binary value.
Definition wm_ping (value : bytes) : wire_message := Ping value.
Definition wm_pong (value : bytes) : wire_message := Pong value.

Definition as_text (m : wire_message) : option bytes :=
  match m with
  | Text t => Some t
  | Binary b => utf8_try_from b
  | _ => None
  end.

Definition as_bytes (m : wire_message) : bytes :=
  match m with
  | Text t => t
  | Binary data | Ping data | Pong data => data
  | Close None => []
  | Close (Some frame) => cf_reason frame
  end.

Definition into_data (m : wire_message) : bytes :=
  match m with
  | Text t => t
  | Binary data | Ping data | Pong data => data
  | Close None => []
  | Close (Some frame) => cf_reason frame
  end.

Definition wm_len (m : wire_message) : nat := length (as_bytes m).
Definition wm_is_empty (m : wire_message) : bool := Nat.eqb (wm_len m) 0.
Definition is_close (m : wire_message) : bool := match m with Close _ => true | _ => false end.

(** What the Rust types guarantee of a value: text and close reasons are UTF-8,
    the code is a [u16]. *)
Definition wm_valid (m : wire_message) : bool :=
  match m with
  | Text t => utf8_valid t
  | Close (Some f) => (0 <=? cf_code f)%Z && (cf_code f <=? u16_max)%Z && utf8_valid (cf_reason f)
  | _ => true
  end.

(** ** The backend's message

    nago-wss is another crate.  Its [Message] has the five constructors that the
    source matches exhaustively; its close code is an opaque type with the two
    conversions the source calls. *)
Section backend.
Context {NCode : Type} (code_from : Z -> NCode) (code_into : NCode -> Z).

Inductive n_message :=
  | NText (b : bytes)
  | NBinary (b : bytes)
  | NPing (b : bytes)
  | NPong (b : bytes)
  | NClose (f : option (NCode * bytes)).

Definition to_backend (m : wire_message) : n_message :=
  match m with
  | Text t => NText t
  | Binary payload => NBinary payload
  | Ping payload => NPing payload
  | Pong payload => NPong payload
  | Close frame => NClose (option_map (fun f => (code_from (cf_code f), cf_reason f)) frame)
  end.

Definition from_backend (m : n_message) : wire_message :=
  match m with
  | NText payload => Text payload
  | NBinary payload => Binary payload
  | NPing payload => Ping payload
  | NPong payload => Pong payload
  | NClose frame => Close (option_map (fun f => CloseFrame (code_into f.1) f.2) frame)
  end.

(** The conversion lemma the session's properties use. *)
Lemma backend_round_trip m :
  (forall c, code_into (code_from c) = c) -> from_backend (to_backend m) = m.
Proof. intros Hc. destruct m as [| | | |[[code reason]|]]; simpl; [..|by rewrite Hc|]; done. Qed.
End backend.

(** ** Lemmas *)

Lemma utf8_try_from_Some b r : utf8_try_from b = Some r <-> r = b /\ utf8_valid b = true.
Proof. unfold utf8_try_from. destruct (utf8_valid b); naive_solver. Qed.

Lemma utf8_ascii b : forallb (in_range 0 127) b = true -> utf8_valid b = true.
Proof.
  induction b as [|a b IH]; simpl; [done|]. intros [-> Hb]%andb_true_iff. by apply IH.
Qed.

(** [as_str] is sound: whatever made the value, its bytes are UTF-8, and reading them
    as a string and back, or taking them out and checking them again, changes nothing. *)
Lemma utf8_made_valid u :
  utf8_made u ->
  utf8_valid u = true /\ is_str (utf8_as_str u) = true
  /\ utf8_from_string (utf8_as_str u) = u /\ utf8_try_from (utf8_into_bytes u) = Some u.
Proof.
  intros Hu. assert (utf8_valid u = true) as Hv.
  { destruct Hu as [s H|s H|b u H|b u H|b H]; try exact H;
      unfold utf8_try_from_vec, utf8_try_from in H; destruct (utf8_valid b) eqn:E; congruence. }
  unfold is_str, utf8_as_str, utf8_from_string, utf8_into_bytes, utf8_try_from.
  rewrite bytes_of_string_of_bytes, Hv. done.
Qed.
