(* ===== verification/Utf8.v ===== *)
(** * UTF-8: what [Utf8Bytes] of [src/libs/ws/message.rs] holds

    [utf8_valid] of [Message] is the check of [std::str::from_utf8], byte range by byte
    range.  Here is the reference it is checked against: the encoding of the Unicode
    scalar values.  The text of a message is read back with [from_utf8_unchecked], which
    is sound only for such encodings. *)

From S2P Require Import Prelude Message.

Local Open Scope Z_scope.

(** A Unicode scalar value: a code point that is not a surrogate. *)
Definition scalar (c : Z) : Prop := 0 <= c <= 55295 \/ 57344 <= c <= 1114111.

Definition encode_char (c : Z) : bytes :=
  if c <=? 127 then [byte_of c]
  else if c <=? 2047 then [byte_of (192 + c / 64); byte_of (128 + c mod 64)]
  else if c <=? 65535 then [byte_of (224 + c / 4096); byte_of (128 + c / 64 mod 64); byte_of (128 + c mod 64)]
  else [byte_of (240 + c / 262144); byte_of (128 + c / 4096 mod 64); byte_of (128 + c / 64 mod 64); byte_of (128 + c mod 64)].

Definition encode (cs : list Z) : bytes := concat (map encode_char cs).

(** ** Bytes and ranges *)

Lemma in_range_iff lo hi a : in_range lo hi a = true <-> lo <= byte_val a <= hi.
Proof. unfold in_range. rewrite andb_true_iff, !Z.leb_le. done. Qed.

Lemma in_range_false lo hi a : in_range lo hi a = false <-> ~ (lo <= byte_val a <= hi).
Proof. rewrite <- in_range_iff. by destruct (in_range lo hi a). Qed.

Lemma byte_of_small z : 0 <= z < 256 -> byte_val (byte_of z) = z.
Proof. intros. rewrite byte_val_of. by apply Z.mod_small. Qed.

Lemma byte_of_eq z a : z = byte_val a -> byte_of z = a.
Proof. intros ->. apply byte_of_val. Qed.

Ltac div_lia := Z.to_euclidean_division_equations; lia.

(** Every range test of the goal, decided from what is known of the byte. *)
Ltac range :=
  repeat match goal with
  | |- context [in_range ?lo ?hi (byte_of ?z)] =>
      first [ rewrite (proj2 (in_range_iff lo hi (byte_of z))) by (rewrite byte_of_small by div_lia; div_lia)
            | rewrite (proj2 (in_range_false lo hi (byte_of z))) by (rewrite byte_of_small by div_lia; div_lia) ]
  end.
Ltac ranges_in H :=
  repeat match type of H with
  | context [in_range ?lo ?hi ?a] => let E := fresh "E" in destruct (in_range lo hi a) eqn:E; simpl in H
  end;
  repeat match goal with
  | E : in_range _ _ _ = true |- _ => apply in_range_iff in E
  | E : in_range _ _ _ = false |- _ => apply in_range_false in E
  end.

(** ** The check accepts the encodings *)

Lemma utf8_valid_char c b : scalar c -> utf8_valid (encode_char c ++ b) = utf8_valid b.
Proof.
  intros Hc. unfold scalar in Hc. unfold encode_char.
  destruct (Z.leb_spec c 127); [|destruct (Z.leb_spec c 2047); [|destruct (Z.leb_spec c 65535)]]; cbn [app utf8_valid].
  - by range.
  - by range.
  - range. simpl. destruct (decide (c / 4096 = 0)); [|destruct (decide (c / 4096 = 13))]; by range.
  - range. simpl. destruct (decide (c / 262144 = 0)); [|destruct (decide (c / 262144 = 4))]; by range.
Qed.

Lemma utf8_valid_encode cs : Forall scalar cs -> utf8_valid (encode cs) = true.
Proof.
  induction 1 as [|c cs Hc _ IH]; [done|]. change (encode (c :: cs)) with (encode_char c ++ encode cs).
  by rewrite utf8_valid_char.
Qed.

(** ** Whatever it accepts is an encoding *)

(** The code point of a head of one to four bytes. *)
Lemma encode_char_1 a : 0 <= byte_val a <= 127 -> encode_char (byte_val a) = [a].
Proof. intros Ha. unfold encode_char. rewrite (proj2 (Z.leb_le _ _)) by lia. by rewrite byte_of_val. Qed.

Lemma encode_char_2 a b : 194 <= byte_val a <= 223 -> 128 <= byte_val b <= 191 ->
  let c := (byte_val a - 192) * 64 + (byte_val b - 128) in scalar c /\ encode_char c = [a; b].
Proof.
  intros Ha Hb c. split; [unfold scalar; lia|]. unfold encode_char.
  rewrite (proj2 (Z.leb_gt c _)), (proj2 (Z.leb_le c _)) by lia.
  f_equal; [|f_equal]; apply byte_of_eq; div_lia.
Qed.

Lemma encode_char_3 a b1 b2 : 224 <= byte_val a <= 239 -> 128 <= byte_val b1 <= 191 -> 128 <= byte_val b2 <= 191 ->
  (byte_val a = 224 -> 160 <= byte_val b1) -> (byte_val a = 237 -> byte_val b1 <= 159) ->
  let c := (byte_val a - 224) * 4096 + (byte_val b1 - 128) * 64 + (byte_val b2 - 128) in
  scalar c /\ encode_char c = [a; b1; b2].
Proof.
  intros Ha H1 H2 Hlo Hhi c. split; [unfold scalar; lia|]. unfold encode_char.
  rewrite (proj2 (Z.leb_gt c 127)), (proj2 (Z.leb_gt c 2047)), (proj2 (Z.leb_le c _)) by lia.
  f_equal; [|f_equal; [|f_equal]]; apply byte_of_eq; div_lia.
Qed.

Lemma encode_char_4 a b1 b2 b3 : 240 <= byte_val a <= 244 -> 128 <= byte_val b1 <= 191 ->
  128 <= byte_val b2 <= 191 -> 128 <= byte_val b3 <= 191 ->
  (byte_val a = 240 -> 144 <= byte_val b1) -> (byte_val a = 244 -> byte_val b1 <= 143) ->
  let c := (byte_val a - 240) * 262144 + (byte_val b1 - 128) * 4096 + (byte_val b2 - 128) * 64 + (byte_val b3 - 128) in
  scalar c /\ encode_char c = [a; b1; b2; b3].
Proof.
  intros Ha H1 H2 H3 Hlo Hhi c. split; [unfold scalar; lia|]. unfold encode_char.
  rewrite (proj2 (Z.leb_gt c 127)), (proj2 (Z.leb_gt c 2047)), (proj2 (Z.leb_gt c 65535)) by lia.
  f_equal; [|f_equal; [|f_equal; [|f_equal]]]; apply byte_of_eq; div_lia.
Qed.

Lemma utf8_valid_head a b : utf8_valid (a :: b) = true ->
  exists c rest, scalar c /\ a :: b = encode_char c ++ rest /\ utf8_valid rest = true.
Proof.
  intros H. cbn [utf8_valid] in H. pose proof (byte_val_range a).
  destruct (in_range 0 127 a) eqn:E1; [apply in_range_iff in E1|apply in_range_false in E1].
  { exists (byte_val a), b. rewrite encode_char_1 by lia. split; [unfold scalar; lia|done]. }
  destruct (in_range 194 223 a) eqn:E2; [apply in_range_iff in E2|].
  { destruct b as [|b1 b]; [done|]. apply andb_true_iff in H as [H1 H]. apply in_range_iff in H1.
    destruct (encode_char_2 a b1) as [Hs He]; [lia|lia|]. eexists _, b. rewrite He. done. }
  destruct (in_range 224 239 a) eqn:E3; [apply in_range_iff in E3|].
  { destruct b as [|b1 [|b2 b]]; [done..|]. apply andb_true_iff in H as [[H1 H2]%andb_true_iff H]. apply in_range_iff in H2.
    ranges_in H1; try done;
      (destruct (encode_char_3 a b1 b2) as [Hs He]; [lia|lia|lia|lia|lia|]; eexists _, b; rewrite He; done). }
  destruct (in_range 240 244 a) eqn:E4; [apply in_range_iff in E4|done].
  destruct b as [|b1 [|b2 [|b3 b]]]; [done..|].
  apply andb_true_iff in H as [[[H1 H2]%andb_true_iff H3]%andb_true_iff H]. apply in_range_iff in H2, H3.
  ranges_in H1; try done;
    (destruct (encode_char_4 a b1 b2 b3) as [Hs He]; [lia|lia|lia|lia|lia|lia|]; eexists _, b; rewrite He; done).
Qed.

Lemma encode_char_nonempty c : (0 < length (encode_char c))%nat.
Proof. unfold encode_char. repeat case_match; simpl; lia. Qed.

Lemma utf8_valid_decodes b : utf8_valid b = true -> exists cs, Forall scalar cs /\ b = encode cs.
Proof.
  remember (length b) as n eqn:Hn. revert b Hn. induction n as [n IH] using lt_wf_ind. intros b -> H.
  destruct b as [|a b]; [by exists []|].
  apply utf8_valid_head in H as (c & rest & Hc & Hb & H). pose proof (encode_char_nonempty c).
  destruct (IH (length rest)) with (b := rest) as (cs & Hcs & ->); [|done|done|].
  - rewrite Hb, length_app. lia.
  - exists (c :: cs). split; [by constructor|done].
Qed.

(** ** The code points are determined *)

Lemma byte_of_inj z z' : 0 <= z < 256 -> 0 <= z' < 256 -> byte_of z = byte_of z' -> z = z'.
Proof. intros H H' Heq. apply (f_equal byte_val) in Heq. by rewrite !byte_of_small in Heq. Qed.

Lemma encode_char_inj c c' r r' : scalar c -> scalar c' ->
  encode_char c ++ r = encode_char c' ++ r' -> c = c' /\ r = r'.
Proof.
  unfold scalar, encode_char. intros Hc Hc'.
  destruct (Z.leb_spec c 127); [|destruct (Z.leb_spec c 2047); [|destruct (Z.leb_spec c 65535)]];
    (destruct (Z.leb_spec c' 127); [|destruct (Z.leb_spec c' 2047); [|destruct (Z.leb_spec c' 65535)]]);
    intros Heq; simplify_list_eq;
    repeat match goal with H : byte_of _ = byte_of _ |- _ => apply byte_of_inj in H; [|div_lia|div_lia] end;
    first [split; [div_lia|done] | exfalso; div_lia].
Qed.

Lemma encode_inj cs cs' : Forall scalar cs -> Forall scalar cs' -> encode cs = encode cs' -> cs = cs'.
Proof.
  intros H. revert cs'. induction H as [|c cs Hc _ IH]; intros [|c' cs'] H' Heq.
  - done.
  - change (encode (c' :: cs')) with (encode_char c' ++ encode cs') in Heq. pose proof (encode_char_nonempty c').
    apply (f_equal length) in Heq. rewrite length_app in Heq. simpl in Heq. lia.
  - change (encode (c :: cs)) with (encode_char c ++ encode cs) in Heq. pose proof (encode_char_nonempty c).
    apply (f_equal length) in Heq. rewrite length_app in Heq. simpl in Heq. lia.
  - inversion_clear H' as [|? ? Hc' Hcs']. apply encode_char_inj in Heq as [-> Heq]; [|done|done]. f_equal. by apply IH.
Qed.

(** ** Properties *)


(** What a text message holds reads back as text, and so does nothing else but a binary
    payload that is an encoding. *)
Lemma as_text_exact m : wm_valid m = true ->
  as_text m = match m with Text t => Some t | Binary b => utf8_try_from b | _ => None end
  /\ forall t, as_text m = Some t -> exists cs, Forall scalar cs /\ t = encode cs.
Proof.
  intros Hv. split; [done|]. intros t Ht. apply utf8_valid_decodes.
  destruct m; simpl in *; try done; [by injection Ht as <-|]. apply utf8_try_from_Some in Ht as [-> Ht]. done.
Qed.
