(* ===== verification/Framed.v ===== *)
(** * Length-delimited framing: [src/libs/ws/transport/framed.rs]

    [encode]/[decode] of one frame body, and the two halves of [NeutralFramed]:
    [poll_next] over a byte stream that delivers its bytes in any pieces, and
    [poll_ready]/[start_send]/[poll_flush]/[poll_close] over one that accepts
    them in any pieces.

    A poll of the underlying stream is an event of a script: what the stream
    answers to the next [poll_read] (or [poll_write], [poll_flush],
    [poll_close]).  A script that has run out answers [Pending]. *)

From S2P Require Import Prelude Message.

Definition DEFAULT_MAX_FRAME_BYTES : Z := 16 * 1024 * 1024.
Definition KIND_TEXT : Z := 0.
Definition KIND_BINARY : Z := 1.
Definition KIND_PING : Z := 2.
Definition KIND_PONG : Z := 3.
Definition KIND_CLOSE : Z := 4.
Definition READ_CHUNK_BYTES : nat := Z.to_nat (8 * 1024).
Definition LENGTH_PREFIX_BYTES : nat := 4.

(** [std::io::Error]: the kinds the source builds, or the stream's own error. *)
Inductive io_kind := InvalidData | UnexpectedEof | WriteZero | OtherIo (what : string).
Record io_error := IoError { io_k : io_kind; io_text : string }.

Inductive framed_error :=
  | Io (e : io_error)
  | UnknownKind (kind : Z)
  | EmptyFrame
  | InvalidUtf8
  | MalformedClose.

Definition framed_error_fmt (e : framed_error) : string :=
  match e with
  | Io err => "io error: " +:+ io_text err
  | UnknownKind kind => "unknown frame kind: " +:+ pretty kind
  | EmptyFrame => "empty frame"
  | InvalidUtf8 => "text frame was not valid UTF-8"
  | MalformedClose => "malformed close frame"
  end.

(** [source] and [From<io::Error>]. *)
Definition framed_error_source (e : framed_error) : option io_error := match e with Io err => Some err | _ => None end.
Definition framed_error_from (err : io_error) : framed_error := Io err.

(** ** Big-endian integers: [put_u16]/[get_u16], [put_u32]/[from_be_bytes] *)

Definition be16 (z : Z) : bytes := [byte_of (Z.shiftr z 8); byte_of z].
Definition be32 (z : Z) : bytes :=
  [byte_of (Z.shiftr z 24); byte_of (Z.shiftr z 16); byte_of (Z.shiftr z 8); byte_of z].
Definition of_be (l : bytes) : Z := fold_left (fun acc a => acc * 256 + byte_val a)%Z l 0%Z.

(** ** One frame body *)

Definition encode (msg : wire_message) : bytes :=
  match msg with
  | Text text => byte_of KIND_TEXT :: text
  | Binary data => byte_of KIND_BINARY :: data
  | Ping data => byte_of KIND_PING :: data
  | Pong data => byte_of KIND_PONG :: data
  | Close frame =>
      byte_of KIND_CLOSE ::
        match frame with
        | Some frame => be16 (cf_code frame) ++ cf_reason frame
        | None => []
        end
  end.

Definition decode_close (payload : bytes) : result wire_message framed_error :=
  if Nat.eqb (length payload) 0 then Ok (Close None)
  else if Nat.ltb (length payload) 2 then Err MalformedClose
  else
    let code := of_be (take 2 payload) in
    let* reason := ok_or (utf8_try_from (drop 2 payload)) MalformedClose in
    Ok (Close (Some (CloseFrame code reason))).

Definition decode (frame : bytes) : result wire_message framed_error :=
  match frame with
  | [] => Err EmptyFrame
  | k :: payload =>
      let kind := byte_val k in
      if (kind =? KIND_TEXT)%Z then
        let* text := ok_or (utf8_try_from payload) InvalidUtf8 in Ok (Text text)
      else if (kind =? KIND_BINARY)%Z then Ok (Binary payload)
      else if (kind =? KIND_PING)%Z then Ok (Ping payload)
      else if (kind =? KIND_PONG)%Z then Ok (Pong payload)
      else if (kind =? KIND_CLOSE)%Z then decode_close payload
      else Err (UnknownKind kind)
  end.

(** ** [NeutralFramed] *)

Record framed := NeutralFramed {
  max_frame_bytes : nat;
  read_buf : bytes;
  write_buf : bytes;
  read_eof : bool;
}.

(** [framed_json_neutral_with_max_frame]. *)
Definition framed_new (max : nat) : framed := NeutralFramed max [] [] false.
(** [framed_json_neutral] and [framed_json_neutral_with_max_frame]: the stream itself is
    the argument of the polls. *)
Definition framed_json_neutral_with_max_frame (max_frame_bytes : nat) : framed := framed_new max_frame_bytes.
Definition framed_json_neutral : framed := framed_json_neutral_with_max_frame (Z.to_nat DEFAULT_MAX_FRAME_BYTES).

Definition with_read (st : framed) (b : bytes) (eof : bool) : framed :=
  NeutralFramed (max_frame_bytes st) b (write_buf st) eof.
Definition with_write (st : framed) (b : bytes) : framed :=
  NeutralFramed (max_frame_bytes st) (read_buf st) b (read_eof st).

Inductive poll (A : Type) := Ready (a : A) | Pending.
Arguments Ready {A} _.
Arguments Pending {A}.

Definition too_long (len max : nat) : framed_error :=
  Io (IoError InvalidData
        ("frame of " +:+ pretty (Z.of_nat len) +:+ " bytes exceeds the "
         +:+ pretty (Z.of_nat max) +:+ " byte maximum")).

(** [take_frame]: the frame and what is left of [read_buf]. *)
Definition take_frame (max : nat) (buf : bytes) : result (option (bytes * bytes)) framed_error :=
  if Nat.ltb (length buf) LENGTH_PREFIX_BYTES then Ok None
  else
    let frame_len := Z.to_nat (of_be (take LENGTH_PREFIX_BYTES buf)) in
    if Nat.ltb max frame_len then Err (too_long frame_len max)
    else if Nat.ltb (length buf) (LENGTH_PREFIX_BYTES + frame_len) then Ok None
    else
      let rest := drop LENGTH_PREFIX_BYTES buf in
      Ok (Some (take frame_len rest, drop frame_len rest)).

(** The answers of [poll_read]: [ReadOk []] is [Ok(0)], the end of the stream. *)
Inductive read_event :=
  | ReadOk (chunk : bytes)
  | ReadErr (e : io_error)
  | ReadPending.

Definition truncated : framed_error :=
  Io (IoError UnexpectedEof "the stream ended in the middle of a frame").

(** The head of the loop: [take_frame], then the end of the stream; [None] when
    a read is needed. *)
Definition poll_head (st : framed)
    : option (poll (option (result wire_message framed_error)) * framed) :=
  match take_frame (max_frame_bytes st) (read_buf st) with
  | Err err => Some (Ready (Some (Err err)), st)
  | Ok (Some (frame, rest)) => Some (Ready (Some (decode frame)), with_read st rest (read_eof st))
  | Ok None =>
      if read_eof st then
        if Nat.eqb (length (read_buf st)) 0 then Some (Ready None, st)
        else Some (Ready (Some (Err truncated)), st)
      else None
  end.

Fixpoint poll_next (st : framed) (script : list read_event)
    : poll (option (result wire_message framed_error)) * framed * list read_event :=
  match poll_head st with
  | Some (r, st) => (r, st, script)
  | None =>
      match script with
      | [] => (Pending, st, [])
      | ReadOk chunk :: script =>
          poll_next (with_read st (read_buf st ++ chunk) (Nat.eqb (length chunk) 0)) script
      | ReadErr e :: script => (Ready (Some (Err (Io e))), st, script)
      | ReadPending :: script => (Pending, st, script)
      end
  end.

(** *** The sink *)

Inductive write_event :=
  | WriteOk (n : nat)
  | WriteErr (e : io_error)
  | WritePending.

Inductive done_event := DoneOk | DoneErr (e : io_error) | DonePending.

(** What the byte stream has accepted so far, and how it will answer. *)
Record byte_sink := ByteSink {
  accepted : bytes;
  writes : list write_event;
  flushes : list done_event;
  closes : list done_event;
}.

Definition done_poll (l : list done_event) : poll (result unit framed_error) * list done_event :=
  match l with
  | [] => (Pending, [])
  | DoneOk :: l => (Ready (Ok tt), l)
  | DoneErr e :: l => (Ready (Err (Io e)), l)
  | DonePending :: l => (Pending, l)
  end.

(** A stream accepts at most what it was offered, so [WriteOk n] accepts
    [min n (length buf)] bytes. *)
Fixpoint flush_loop (buf acc : bytes) (ws : list write_event)
    : poll (result unit framed_error) * bytes * bytes * list write_event :=
  match buf with
  | [] => (Ready (Ok tt), [], acc, ws)
  | _ =>
      match ws with
      | [] => (Pending, buf, acc, [])
      | WriteOk O :: ws => (Ready (Err (Io (IoError WriteZero "the stream accepted no bytes"))), buf, acc, ws)
      | WriteOk n :: ws => flush_loop (drop n buf) (acc ++ take n buf) ws
      | WriteErr e :: ws => (Ready (Err (Io e)), buf, acc, ws)
      | WritePending :: ws => (Pending, buf, acc, ws)
      end
  end.

Definition poll_flush (st : framed) (io : byte_sink)
    : poll (result unit framed_error) * framed * byte_sink :=
  let '(r, buf, acc, ws) := flush_loop (write_buf st) (accepted io) (writes io) in
  let st := with_write st buf in
  match r with
  | Ready (Ok _) =>
      let '(r, fl) := done_poll (flushes io) in
      (r, st, ByteSink acc ws fl (closes io))
  | r => (r, st, ByteSink acc ws (flushes io) (closes io))
  end.

Definition poll_ready (st : framed) (io : byte_sink) :=
  if Nat.leb (max_frame_bytes st) (length (write_buf st)) then poll_flush st io
  else (Ready (Ok tt), st, io).

Definition start_send (st : framed) (item : wire_message) : result unit framed_error * framed :=
  let payload := encode item in
  if Nat.ltb (max_frame_bytes st) (length payload) then
    (Err (too_long (length payload) (max_frame_bytes st)), st)
  else if (Z.of_nat (length payload) <=? u32_max)%Z then
    (Ok tt, with_write st (write_buf st ++ be32 (Z.of_nat (length payload)) ++ payload))
  else (Err (Io (IoError InvalidData "frame length does not fit in u32")), st).

Definition poll_close (st : framed) (io : byte_sink) :=
  let '(r, st, io) := poll_flush st io in
  match r with
  | Ready (Ok _) =>
      let '(r, cl) := done_poll (closes io) in
      (r, st, ByteSink (accepted io) (writes io) (flushes io) cl)
  | r => (r, st, io)
  end.

(** ** Lemmas: integers and frame bodies *)

Lemma of_be_be16 z : (0 <= z <= u16_max)%Z -> of_be (be16 z) = z.
Proof.
  unfold of_be, be16, u16_max. intros. simpl fold_left. rewrite !byte_val_of, Z.shiftr_div_pow2 by lia.
  change (2 ^ 8)%Z with 256%Z. Z.div_mod_to_equations. lia.
Qed.

Lemma of_be_be32 z : (0 <= z <= u32_max)%Z -> of_be (be32 z) = z.
Proof.
  unfold of_be, be32, u32_max. intros. simpl fold_left. rewrite !byte_val_of, !Z.shiftr_div_pow2 by lia.
  change (2 ^ 8)%Z with 256%Z. change (2 ^ 16)%Z with 65536%Z. change (2 ^ 24)%Z with 16777216%Z.
  Z.div_mod_to_equations. lia.
Qed.

Lemma be16_of_be a b : be16 (of_be [a; b]) = [a; b].
Proof.
  unfold be16, of_be. cbn [fold_left].
  pose proof (byte_val_range a). pose proof (byte_val_range b).
  rewrite Z.shiftr_div_pow2 by lia. change (2 ^ 8)%Z with 256%Z.
  assert (H1 : (((0 * 256 + byte_val a) * 256 + byte_val b) / 256)%Z = byte_val a)
    by (Z.div_mod_to_equations; lia).
  rewrite H1, byte_of_val. f_equal.
  assert (H2 : byte_of ((0 * 256 + byte_val a) * 256 + byte_val b) = byte_of (byte_val b)).
  { unfold byte_of. f_equal. f_equal. Z.div_mod_to_equations. lia. }
  by rewrite H2, byte_of_val.
Qed.

Lemma of_be_range2 a b : (0 <= of_be [a; b] <= u16_max)%Z.
Proof.
  unfold of_be, u16_max. cbn [fold_left].
  pose proof (byte_val_range a). pose proof (byte_val_range b). lia.
Qed.

Lemma decode_close_some code reason :
  (0 <= code <= u16_max)%Z -> utf8_valid reason = true ->
  decode_close (be16 code ++ reason) = Ok (Close (Some (CloseFrame code reason))).
Proof.
  intros Hc Hr. unfold decode_close.
  change 2 with (length (be16 code)). rewrite take_app_length, drop_app_length, of_be_be16 by done.
  unfold utf8_try_from. by rewrite Hr.
Qed.

Lemma decode_encode m : wm_valid m = true -> decode (encode m) = Ok m.
Proof.
  destruct m as [t|b|b|b|[[code reason]|]]; intros Hv; try done.
  - simpl in Hv |- *. unfold utf8_try_from. by rewrite Hv.
  - simpl in Hv. apply andb_true_iff in Hv as [Hc Hr]. apply andb_true_iff in Hc as [H1 H2].
    apply Z.leb_le in H1, H2.
    change (decode (encode (Close (Some (CloseFrame code reason))))) with (decode_close (be16 code ++ reason)).
    apply decode_close_some; [lia|done].
Qed.

Lemma decode_close_inv p m :
  decode_close p = Ok m -> encode m = byte_of KIND_CLOSE :: p /\ wm_valid m = true.
Proof.
  unfold decode_close. destruct p as [|a [|b p]]; [by intros [= <-]|by intros [=]|].
  cbn [length Nat.eqb Nat.ltb Nat.leb take drop]. rewrite drop_0, take_0.
  destruct (utf8_try_from p) as [r|] eqn:Hu; cbn [ok_or rbind]; [|done]. intros [= <-].
  apply utf8_try_from_Some in Hu as [-> Hu]. cbn [encode wm_valid cf_code cf_reason].
  rewrite be16_of_be, Hu. pose proof (of_be_range2 a b) as [H1 H2]. apply Z.leb_le in H1, H2.
  by rewrite H1, H2.
Qed.

Lemma decode_inv b m : decode b = Ok m -> encode m = b /\ wm_valid m = true.
Proof.
  unfold decode. destruct b as [|k p]; [done|].
  destruct (Z.eqb_spec (byte_val k) KIND_TEXT) as [Hk|_].
  { unfold utf8_try_from. destruct (utf8_valid p) eqn:Hu; [|done]. intros [= <-].
    simpl. by rewrite <- Hk, byte_of_val. }
  destruct (Z.eqb_spec (byte_val k) KIND_BINARY) as [Hk|_].
  { intros [= <-]. simpl. by rewrite <- Hk, byte_of_val. }
  destruct (Z.eqb_spec (byte_val k) KIND_PING) as [Hk|_].
  { intros [= <-]. simpl. by rewrite <- Hk, byte_of_val. }
  destruct (Z.eqb_spec (byte_val k) KIND_PONG) as [Hk|_].
  { intros [= <-]. simpl. by rewrite <- Hk, byte_of_val. }
  destruct (Z.eqb_spec (byte_val k) KIND_CLOSE) as [Hk|_]; [|done].
  intros [-> Hv]%decode_close_inv. by rewrite <- Hk, byte_of_val.
Qed.

(** ** Lemmas: the reader *)

(** A message that [start_send] puts on the wire. *)
Definition sendable (max : nat) (m : wire_message) : Prop :=
  wm_valid m = true /\ length (encode m) <= max /\ (Z.of_nat (length (encode m)) <= u32_max)%Z.

Definition frame_bytes (m : wire_message) : bytes :=
  be32 (Z.of_nat (length (encode m))) ++ encode m.
Definition wire (ms : list wire_message) : bytes := concat (map frame_bytes ms).

Lemma prefix_of_frame m rest :
  (Z.of_nat (length (encode m)) <= u32_max)%Z ->
  of_be (take LENGTH_PREFIX_BYTES (frame_bytes m ++ rest)) = Z.of_nat (length (encode m)).
Proof.
  intros Hl. unfold frame_bytes. rewrite <- app_assoc.
  change LENGTH_PREFIX_BYTES with (length (be32 (Z.of_nat (length (encode m))))).
  rewrite take_app_length. apply of_be_be32. lia.
Qed.

Lemma length_frame m : length (frame_bytes m) = LENGTH_PREFIX_BYTES + length (encode m).
Proof. unfold frame_bytes. rewrite length_app. done. Qed.

(** Whatever part of a frame has arrived, [take_frame] either waits, the frame
    being incomplete, or cuts exactly that frame. *)
Lemma take_frame_cut max m buf rest later :
  sendable max m -> buf ++ rest = frame_bytes m ++ later ->
  (take_frame max buf = Ok None /\ length buf < length (frame_bytes m))
  \/ exists buf', take_frame max buf = Ok (Some (encode m, buf')) /\ buf' ++ rest = later.
Proof.
  intros (_ & Hmax & Hu32) Hw. unfold take_frame.
  destruct (Nat.ltb_spec (length buf) LENGTH_PREFIX_BYTES) as [Hs|Hs].
  { left. rewrite length_frame. split; [done|lia]. }
  assert (Hp : take LENGTH_PREFIX_BYTES buf = take LENGTH_PREFIX_BYTES (frame_bytes m ++ later)).
  { rewrite <- Hw. symmetry. apply take_app_le. done. }
  rewrite Hp, prefix_of_frame by done. rewrite Nat2Z.id.
  destruct (Nat.ltb_spec max (length (encode m))); [lia|].
  destruct (Nat.ltb_spec (length buf) (LENGTH_PREFIX_BYTES + length (encode m))) as [Hl|Hl].
  { left. rewrite length_frame. split; [done|lia]. }
  right. rewrite <- length_frame in Hl.
  assert (Hb : exists buf', buf = frame_bytes m ++ buf').
  { exists (drop (length (frame_bytes m)) buf). rewrite <- (take_drop (length (frame_bytes m)) buf) at 1.
    f_equal. rewrite <- (take_app_le buf rest) by done. rewrite Hw. apply take_app_length. }
  destruct Hb as [buf' ->]. exists buf'. rewrite <- app_assoc in Hw. apply app_inv_head in Hw.
  split; [|done]. unfold frame_bytes. rewrite <- !app_assoc.
  change LENGTH_PREFIX_BYTES with (length (be32 (Z.of_nat (length (encode m))))).
  rewrite drop_app_length, take_app_length, drop_app_length. done.
Qed.

Lemma take_frame_nil max : take_frame max [] = Ok None.
Proof. done. Qed.

(** What the reader gives until the stream ends: the messages, and the error that
    ended it, if any.  [n] bounds the number of polls; a [Pending] is polled
    again, as the executor does when the stream wakes it. *)
Fixpoint drain (n : nat) (st : framed) (script : list read_event)
    : option (list wire_message * option framed_error) :=
  match n with
  | O => None
  | S n =>
      match poll_next st script with
      | (Ready None, _, _) => Some ([], None)
      | (Ready (Some (Err e)), _, _) => Some ([], Some e)
      | (Ready (Some (Ok m)), st, script) =>
          match drain n st script with
          | Some (ms, e) => Some (m :: ms, e)
          | None => None
          end
      | (Pending, st, script) => drain n st script
      end
  end.

(** A script that delivers bytes without ending the stream or failing. *)
Definition delivers (e : read_event) : Prop :=
  match e with ReadOk chunk => chunk <> [] | ReadErr _ => False | ReadPending => True end.
Definition event_data (e : read_event) : bytes :=
  match e with ReadOk chunk => chunk | _ => [] end.
Definition data (s : list read_event) : bytes := concat (map event_data s).

(** What is left when the stream ends: nothing, or part of a frame. *)
Definition partial (max : nat) (tail : bytes) : Prop :=
  tail = [] \/ exists m more, sendable max m /\ more <> [] /\ tail ++ more = frame_bytes m.

Lemma take_frame_partial max tail buf rest :
  partial max tail -> buf ++ rest = tail -> take_frame max buf = Ok None.
Proof.
  intros [->|(m & more & Hs & Hm & Ht)] Hb; [by apply app_nil in Hb as [-> _]|].
  destruct (take_frame_cut max m buf (rest ++ more) [] Hs) as [[H _]|(buf' & _ & H)]; [|done|].
  - by rewrite app_assoc, Hb, Ht, app_nil_r.
  - apply app_nil in H as [_ H]. by apply app_nil in H as [_ H].
Qed.

Section reader.
Context (max : nat) (tail : bytes) (Htail : partial max tail).

Definition reading (st : framed) (s : list read_event) (ms : list wire_message) : Prop :=
  max_frame_bytes st = max /\ read_eof st = false /\ read_buf st ++ data s = wire ms ++ tail
  /\ Forall delivers s /\ Forall (sendable max) ms.

Definition eof : list read_event := [ReadOk []].

(** The outcomes of one poll on a stream that carries [ms] and ends in [tail]. *)
Definition poll_post (n : nat) (ms : list wire_message)
    (o : poll (option (result wire_message framed_error)) * framed * list read_event) : Prop :=
  match o with
  | (Pending, st, s) => exists s1, s = s1 ++ eof /\ length s1 < n /\ reading st s1 ms
  | (Ready None, _, _) => ms = [] /\ tail = []
  | (Ready (Some (Err e)), _, _) => ms = [] /\ tail <> [] /\ e = truncated
  | (Ready (Some (Ok m)), st, s) =>
      exists ms1 s1, ms = m :: ms1 /\ s = s1 ++ eof /\ length s1 <= n /\ reading st s1 ms1
  end.

Lemma poll_post_mono n n' ms o : n <= n' -> poll_post n ms o -> poll_post n' ms o.
Proof.
  intros Hn. destruct o as [[[[[m|e]|]|] st] s]; simpl; try done.
  - intros (ms1 & s1 & ? & ? & ? & ?). exists ms1, s1. split_and!; [done|done|lia|done].
  - intros (s1 & ? & ? & ?). exists s1. split_and!; [done|lia|done].
Qed.

Lemma poll_head_reading st s ms :
  reading st s ms ->
  (poll_head st = None /\ (s = [] -> ms = []))
  \/ exists m ms1 st1, ms = m :: ms1 /\ poll_head st = Some (Ready (Some (Ok m)), st1) /\ reading st1 s ms1.
Proof.
  intros (Hmax & He & Hd & Hs & Hms). unfold poll_head. rewrite Hmax, He.
  destruct ms as [|m ms].
  - left. simpl in Hd. by rewrite (take_frame_partial max tail _ _ Htail Hd).
  - apply Forall_cons in Hms as [Hm Hms].
    assert (Hw : read_buf st ++ data s = frame_bytes m ++ (wire ms ++ tail)) by (by rewrite Hd; simpl; rewrite <- app_assoc).
    destruct (take_frame_cut max m _ _ _ Hm Hw) as [[-> Hl]|(buf' & -> & Hb)].
    + left. split; [done|]. intros ->. exfalso. apply (f_equal length) in Hw.
      rewrite !length_app in Hw. change (length (data [])) with 0 in Hw. lia.
    + right. rewrite decode_encode by apply Hm. exists m, ms, (with_read st buf' false).
      split_and!; [done..|]. done.
Qed.

Lemma poll_next_reading s : forall st ms,
  reading st s ms -> poll_post (length s) ms (poll_next st (s ++ eof)).
Proof.
  induction s as [|ev s IH]; intros st ms Hr;
    destruct (poll_head_reading _ _ _ Hr) as [[Hh Hnil]|(m & ms1 & st1 & -> & Hh & Hr1)].
  - specialize (Hnil eq_refl) as ->. destruct Hr as (Hmax & He & Hd & _). change (data []) with (@nil ascii) in Hd.
    rewrite app_nil_r in Hd. simpl in Hd. simpl. rewrite Hh. unfold poll_head, with_read. simpl.
    rewrite app_nil_r, Hmax, Hd.
    rewrite (take_frame_partial max tail tail [] Htail) by apply app_nil_r.
    destruct tail eqn:Ht; simpl; split_and!; congruence.
  - simpl. rewrite Hh. simpl. exists ms1, []. done.
  - cbn [poll_next app length]. rewrite Hh. destruct Hr as (Hmax & He & Hd & Hs & Hms).
    apply Forall_cons in Hs as [Hev Hs].
    destruct ev as [chunk|e|]; [|done|].
    + eapply (poll_post_mono (length s)); [lia|]. apply IH.
      destruct chunk as [|a chunk]; [done|]. split_and!; [done|done| |done|done].
      simpl. rewrite <- Hd. unfold data. simpl. by rewrite <- app_assoc.
    + simpl. exists s. split_and!; [done|lia|]. done.
  - cbn [poll_next app]. rewrite Hh. exists ms1, (ev :: s). done.
Qed.

Lemma drain_reading n : forall st s ms,
  reading st s ms -> length s + length ms < n ->
  drain n st (s ++ eof) = Some (ms, if bool_decide (tail = []) then None else Some truncated).
Proof.
  induction n as [|n IH]; intros st s ms Hr Hn; [lia|]. simpl.
  pose proof (poll_next_reading s st ms Hr) as Hp.
  destruct (poll_next st (s ++ eof)) as [[[[[m|e]|]|] st1] s']; simpl in Hp.
  - destruct Hp as (ms1 & s1 & -> & -> & Hl & Hr1). simpl in Hn. rewrite (IH _ _ _ Hr1); [done|lia].
  - destruct Hp as (-> & Ht & ->). by rewrite bool_decide_eq_false_2.
  - destruct Hp as [-> ->]. by rewrite bool_decide_eq_true_2.
  - destruct Hp as (s1 & -> & Hl & Hr1). apply (IH _ _ _ Hr1). lia.
Qed.
End reader.

(** ** Lemmas: the writer *)

Lemma flush_loop_conserves ws : forall buf acc r buf' acc' ws',
  flush_loop buf acc ws = (r, buf', acc', ws') ->
  acc' ++ buf' = acc ++ buf /\ (r = Ready (Ok tt) -> buf' = []).
Proof.
  induction ws as [|[n|e|] ws IH]; intros buf acc r buf' acc' ws';
    destruct buf as [|a buf]; cbn [flush_loop]; try (by intros [= <- <- <- <-]).
  destruct n as [|n]; [by intros [= <- <- <- <-]|].
  intros [H1 H2]%IH. split; [|done]. by rewrite H1, <- app_assoc, take_drop.
Qed.

Lemma poll_flush_conserves st io r st' io' :
  poll_flush st io = (r, st', io') ->
  accepted io' ++ write_buf st' = accepted io ++ write_buf st
  /\ max_frame_bytes st' = max_frame_bytes st /\ (r = Ready (Ok tt) -> write_buf st' = []).
Proof.
  unfold poll_flush. destruct (flush_loop _ _ _) as [[[r1 buf] acc] ws] eqn:Hf.
  destruct (flush_loop_conserves _ _ _ _ _ _ _ Hf) as [Hc Hok].
  destruct r1 as [[[]|e]|]; try (intros [= <- <- <-]; by split_and!).
  destruct (done_poll (flushes io)). intros [= <- <- <-]. split_and!; [done|done|].
  intros _. by apply Hok.
Qed.

(** The operations of the [Sink], as its user may interleave them. *)
Inductive sink_op := OpReady | OpSend (m : wire_message) | OpFlush | OpClose.

(** The third component collects the messages [start_send] accepted. *)
Definition sink_step (s : framed * byte_sink * list wire_message) (op : sink_op)
    : framed * byte_sink * list wire_message :=
  let '(st, io, sent) := s in
  match op with
  | OpReady => let '(_, st, io) := poll_ready st io in (st, io, sent)
  | OpSend m =>
      match start_send st m with
      | (Ok _, st) => (st, io, sent ++ [m])
      | (Err _, st) => (st, io, sent)
      end
  | OpFlush => let '(_, st, io) := poll_flush st io in (st, io, sent)
  | OpClose => let '(_, st, io) := poll_close st io in (st, io, sent)
  end.

Definition sink_run (max : nat) (io : byte_sink) (ops : list sink_op) :=
  fold_left sink_step ops (framed_new max, io, []).

Definition op_valid (op : sink_op) : Prop :=
  match op with OpSend m => wm_valid m = true | _ => True end.

Definition sink_inv (max : nat) (s : framed * byte_sink * list wire_message) : Prop :=
  let '(st, io, sent) := s in
  max_frame_bytes st = max /\ accepted io ++ write_buf st = wire sent /\ Forall (sendable max) sent.

Lemma wire_app ms1 ms2 : wire (ms1 ++ ms2) = wire ms1 ++ wire ms2.
Proof. unfold wire. by rewrite map_app, concat_app. Qed.

Lemma start_send_ok st m st' u :
  start_send st m = (Ok u, st') -> wm_valid m = true ->
  sendable (max_frame_bytes st) m /\ write_buf st' = write_buf st ++ frame_bytes m
  /\ max_frame_bytes st' = max_frame_bytes st.
Proof.
  unfold start_send. intros H Hv. destruct (Nat.ltb_spec (max_frame_bytes st) (length (encode m))); [done|].
  destruct (Z.leb_spec (Z.of_nat (length (encode m))) u32_max); [|done]. injection H as _ <-.
  split_and!; done.
Qed.

Lemma start_send_err st m e st' : start_send st m = (Err e, st') -> st' = st.
Proof.
  unfold start_send. destruct (Nat.ltb _ _); [by intros [= _ ->]|].
  destruct (Z.leb _ _); [done|by intros [= _ ->]].
Qed.

Lemma sink_step_inv max s op : op_valid op -> sink_inv max s -> sink_inv max (sink_step s op).
Proof.
  destruct s as [[st io] sent]. intros Hop (Hm & Hc & Hs). simpl.
  assert (Hfl : forall r st' io', poll_flush st io = (r, st', io') -> sink_inv max (st', io', sent)).
  { intros r st' io' (H1 & H2 & _)%poll_flush_conserves. simpl. by rewrite H1, H2. }
  destruct op as [|m| |]; simpl.
  - unfold poll_ready. destruct (Nat.leb _ _); [|done].
    destruct (poll_flush st io) as [[r st'] io'] eqn:Hf. by eapply Hfl.
  - destruct (start_send st m) as [[u|e] st'] eqn:Hss.
    + apply start_send_ok in Hss as (Hsend & Hw & Hm'); [|done]. simpl. rewrite Hw. split_and!.
      * by rewrite Hm'.
      * rewrite app_assoc, Hc, wire_app. unfold wire at 3. simpl. by rewrite app_nil_r.
      * apply Forall_app. split; [done|]. constructor; [by rewrite <- Hm|done].
    + apply start_send_err in Hss as ->. done.
  - destruct (poll_flush st io) as [[r st'] io'] eqn:Hf. by eapply Hfl.
  - unfold poll_close. destruct (poll_flush st io) as [[r st'] io'] eqn:Hf.
    pose proof (Hfl _ _ _ eq_refl) as Hi. destruct r as [[]|]; try done.
    destruct (done_poll (closes io')). done.
Qed.

Lemma sink_run_inv max io ops :
  accepted io = [] -> Forall op_valid ops -> sink_inv max (sink_run max io ops).
Proof.
  intros Hio Hops. unfold sink_run. apply Forall_fold_left.
  - simpl. by rewrite Hio.
  - intros s op Hin Hs. apply sink_step_inv; [|done]. by eapply Forall_forall.
Qed.

(** *** Buffer bound *)

Lemma take_frame_none max buf : take_frame max buf = Ok None -> length buf <= max + 3.
Proof.
  unfold take_frame, LENGTH_PREFIX_BYTES. destruct (Nat.ltb_spec (length buf) 4); [lia|].
  destruct (Nat.ltb_spec max (Z.to_nat (of_be (take 4 buf)))); [done|].
  destruct (Nat.ltb_spec (length buf) (4 + Z.to_nat (of_be (take 4 buf)))); [lia|done].
Qed.

Lemma take_frame_some max buf f rest : take_frame max buf = Ok (Some (f, rest)) -> length rest <= length buf.
Proof.
  unfold take_frame. repeat (destruct (Nat.ltb _ _); [done|]). intros [= _ <-].
  rewrite !length_drop. lia.
Qed.

Lemma poll_head_buf st :
  (poll_head st = None -> length (read_buf st) <= max_frame_bytes st + 3)
  /\ forall r st', poll_head st = Some (r, st') -> length (read_buf st') <= length (read_buf st).
Proof.
  unfold poll_head. destruct (take_frame _ _) as [[[f rest]|]|e] eqn:Ht.
  - split; [done|]. intros r st' [= _ <-]. by apply take_frame_some in Ht.
  - apply take_frame_none in Ht. destruct (read_eof st); [|done].
    split; [by destruct (Nat.eqb _ _)|]. intros r st'. destruct (Nat.eqb _ _); by intros [= _ <-].
  - split; [done|]. by intros r st' [= _ <-].
Qed.

Lemma poll_next_buf script : forall st r st' script',
  let bound := max_frame_bytes st + 3 + READ_CHUNK_BYTES in
  Forall (fun e => length (event_data e) <= READ_CHUNK_BYTES) script ->
  length (read_buf st) <= bound ->
  poll_next st script = (r, st', script') -> length (read_buf st') <= bound.
Proof.
  induction script as [|e script IH]; intros st r st' script' bound Hs Hb;
    destruct (poll_head_buf st) as [Hn Hsome]; cbn [poll_next];
    destruct (poll_head st) as [[r1 st1]|];
    try (intros [= <- <- <-]; specialize (Hsome _ _ eq_refl); lia).
  - by intros [= <- <- <-].
  - apply Forall_cons in Hs as [He Hs]. specialize (Hn eq_refl). destruct e as [chunk|e|].
    + apply (IH (with_read st (read_buf st ++ chunk) _) r st' script' Hs).
      simpl in *. rewrite length_app. lia.
    + by intros [= <- <- <-].
    + by intros [= <- <- <-].
Qed.

(** ** Properties *)

(** C13: [decode] is the exact inverse of [encode]: a message within the
    guarantees of its types survives the trip, and a frame body that decodes is
    the encoding of what it decodes to, so every message has one encoding. *)
Theorem decode_encode_iff m b : wm_valid m = true /\ encode m = b <-> decode b = Ok m.
Proof.
  split; [intros [Hv <-]; by apply decode_encode|].
  intros [<- Hv]%decode_inv. done.
Qed.

(** C1: framing recovers the messages from any chunking.  However the
    stream splits and delays the bytes, the reader returns exactly the messages
    that were framed, in order; the stream then ends cleanly when it ended on a
    frame boundary and with [UnexpectedEof] when it ended inside a frame. *)
Theorem reader_recovers max ms tail s n :
  Forall (sendable max) ms -> partial max tail -> Forall delivers s ->
  data s = wire ms ++ tail -> length s + length ms < n ->
  drain n (framed_new max) (s ++ [ReadOk []])
  = Some (ms, if bool_decide (tail = []) then None else Some truncated).
Proof.
  intros Hms Ht Hs Hd Hn. by apply (drain_reading max tail Ht n (framed_new max) s ms).
Qed.

(** The sink loses, duplicates and reorders nothing.  After any
    interleaving of [poll_ready], [start_send], [poll_flush] and [poll_close], and
    whatever part of each write the stream accepts, the bytes accepted so far
    followed by the bytes still buffered are the frames of the messages
    [start_send] took, in order; and they are readable by a peer with the same
    maximum. *)
Theorem writer_conserves max io ops st io' sent :
  accepted io = [] -> Forall op_valid ops -> sink_run max io ops = (st, io', sent) ->
  accepted io' ++ write_buf st = wire sent /\ Forall (sendable max) sent
  /\ forall r st'' io'', poll_flush st io' = (r, st'', io'') -> r = Ready (Ok tt) -> accepted io'' = wire sent.
Proof.
  intros Hio Hops Hrun. pose proof (sink_run_inv max io ops Hio Hops) as Hi. rewrite Hrun in Hi.
  destruct Hi as (Hm & Hc & Hs). split_and!; [done|done|].
  intros r st'' io'' (H1 & _ & H3)%poll_flush_conserves Hr. rewrite (H3 Hr), app_nil_r in H1. by rewrite H1.
Qed.

(** An oversized length is refused before its body is read, and
    the read buffer stays bounded.  When the length prefix in the buffer exceeds the
    maximum, [poll_next] fails at once and asks the stream for nothing; and from a
    buffer within [max + 3 + READ_CHUNK_BYTES] bytes, no sequence of reads makes
    it grow past that bound. *)
Theorem poll_next_bounded st script r st' script' :
  let bound := max_frame_bytes st + 3 + READ_CHUNK_BYTES in
  Forall (fun e => length (event_data e) <= READ_CHUNK_BYTES) script ->
  length (read_buf st) <= bound ->
  poll_next st script = (r, st', script') ->
  length (read_buf st') <= bound
  /\ (LENGTH_PREFIX_BYTES <= length (read_buf st) ->
      (Z.of_nat (max_frame_bytes st) < of_be (take LENGTH_PREFIX_BYTES (read_buf st)))%Z ->
      script' = script /\ st' = st
      /\ r = Ready (Some (Err (too_long (Z.to_nat (of_be (take LENGTH_PREFIX_BYTES (read_buf st)))) (max_frame_bytes st))))).
Proof.
  intros bound Hs Hb Hp. split; [by eapply poll_next_buf|]. intros Hl Hbig.
  assert (Hh : poll_head st = Some (Ready (Some (Err (too_long
      (Z.to_nat (of_be (take LENGTH_PREFIX_BYTES (read_buf st)))) (max_frame_bytes st)))), st)).
  { unfold poll_head, take_frame. destruct (Nat.ltb_spec (length (read_buf st)) LENGTH_PREFIX_BYTES); [lia|].
    destruct (Nat.ltb_spec (max_frame_bytes st) (Z.to_nat (of_be (take LENGTH_PREFIX_BYTES (read_buf st))))); [done|lia]. }
  destruct script; cbn [poll_next] in Hp; rewrite Hh in Hp; by injection Hp as <- <- <-.
Qed.

(** *** Witnesses *)

Definition w_msgs : list wire_message :=
  [Text (bytes_of_string "hi"); Close (Some (CloseFrame 1000 (bytes_of_string "bye"))); Ping []].

Lemma w_msgs_sendable : Forall (sendable 16) w_msgs.
Proof. repeat constructor; vm_compute; intros H; discriminate H. Qed.

Lemma reader_recovers_witness :
  drain 12 (framed_new 16) ([ReadOk (take 3 (wire w_msgs)); ReadPending; ReadOk (drop 3 (wire w_msgs) ++ [byte_of 0])] ++ [ReadOk []])
  = Some (w_msgs, Some truncated).
Proof.
  apply (reader_recovers 16 w_msgs [byte_of 0]
           [ReadOk (take 3 (wire w_msgs)); ReadPending; ReadOk (drop 3 (wire w_msgs) ++ [byte_of 0])] 12).
  - apply w_msgs_sendable.
  - right. exists (Ping []), (drop 1 (frame_bytes (Ping []))). split; [|split; [|vm_compute; reflexivity]].
    + apply (proj1 (Forall_forall _ _) w_msgs_sendable). right. right. left.
    + vm_compute. intros H. discriminate H.
  - repeat constructor; vm_compute; intros H; discriminate H.
  - vm_compute. reflexivity.
  - simpl. lia.
Defined.

Definition w_sink : byte_sink := ByteSink [] [WriteOk 3; WritePending; WriteOk 100] [DoneOk] [].
Definition w_ops : list sink_op :=
  [OpReady; OpSend (Ping []); OpFlush; OpSend (Text (bytes_of_string "hi")); OpFlush].

Lemma writer_conserves_witness :
  let '(st, io, sent) := sink_run 16 w_sink w_ops in
  sent = [Ping []; Text (bytes_of_string "hi")]
  /\ accepted io ++ write_buf st = wire sent /\ Forall (sendable 16) sent
  /\ forall r st'' io'', poll_flush st io = (r, st'', io'') -> r = Ready (Ok tt) -> accepted io'' = wire sent.
Proof.
  destruct (sink_run 16 w_sink w_ops) as [[st io] sent] eqn:Hrun. split.
  - vm_compute in Hrun. injection Hrun as _ _ <-. reflexivity.
  - apply (writer_conserves 16 w_sink w_ops st io sent); [reflexivity| |exact Hrun].
    repeat constructor.
Defined.

Lemma poll_next_bounded_witness :
  let st := with_read (framed_new 16) (be32 17) false in
  poll_next st [ReadPending] = (Ready (Some (Err (too_long 17 16))), st, [ReadPending])
  /\ length (read_buf st) <= 16 + 3 + READ_CHUNK_BYTES.
Proof.
  intros st. split; [vm_compute; reflexivity|].
  apply (poll_next_bounded st [ReadPending] (Ready (Some (Err (too_long 17 16)))) st [ReadPending]).
  - constructor; [apply Nat.le_0_l|constructor].
  - change (4 <= 16 + 3 + READ_CHUNK_BYTES). lia.
  - vm_compute. reflexivity.
Defined.
