(* ===== verification/Outbound.v ===== *)
(** * The per-connection outbound queue: [src/libs/ws/outbound.rs]

    A bounded queue with many senders and one receiver.  [inner] is the state
    behind the mutex; each operation is one critical section, so an execution is
    a sequence of operations ([qstep]).  An operation that calls [Waker::wake]
    returns the waker it woke. *)

From S2P Require Import Prelude.

Section queue.
Context {T : Type}.

(** A waker is its identity: [will_wake] compares two of them. *)
Abbreviation waker := nat.

Record inner := Inner {
  queue : list T;
  capacity : nat;
  senders : nat;
  receiver_alive : bool;
  recv_waker : option waker;
}.

Inductive try_send_error :=
  | Full (value : T)
  | Closed (value : T).

Inductive try_recv_error := Empty | Disconnected.

Definition into_inner (e : try_send_error) : T :=
  match e with Full value | Closed value => value end.

Definition try_send_error_fmt (e : try_send_error) : string :=
  match e with Full _ => "outbound queue full" | Closed _ => "outbound queue closed" end.
Definition try_recv_error_fmt (e : try_recv_error) : string :=
  match e with Empty => "outbound queue empty" | Disconnected => "outbound queue disconnected" end.

(** [channel]: one sender and one receiver share the new state. *)
Definition channel (capacity : nat) : inner := Inner [] capacity 1 true None.

Definition with_waker (i : inner) (w : option waker) : inner :=
  Inner (queue i) (capacity i) (senders i) (receiver_alive i) w.
Definition with_queue (i : inner) (q : list T) : inner :=
  Inner q (capacity i) (senders i) (receiver_alive i) (recv_waker i).
Definition with_senders (i : inner) (n : nat) : inner :=
  Inner (queue i) (capacity i) n (receiver_alive i) (recv_waker i).

(** [Sender::clone]. *)
Definition sender_clone (i : inner) : inner := with_senders i (S (senders i)).

(** [Drop for Sender]: the waker to wake, if this was the last one. *)
Definition sender_drop (i : inner) : inner * option waker :=
  let i := with_senders i (senders i - 1) in
  if Nat.eqb (senders i) 0 then (with_waker i None, recv_waker i) else (i, None).

Definition try_send (i : inner) (value : T) : result unit try_send_error * inner * option waker :=
  if negb (receiver_alive i) then (Err (Closed value), i, None)
  else if Nat.leb (capacity i) (length (queue i)) then (Err (Full value), i, None)
  else
    let i' := with_queue i (queue i ++ [value]) in
    (Ok tt, with_waker i' None, recv_waker i).

(** [Drop for Receiver]. *)
Definition receiver_drop (i : inner) : inner :=
  Inner (queue i) (capacity i) (senders i) false (recv_waker i).

Inductive popped := PopValue (value : T) | PopEmpty | PopClosed.

Definition pop (i : inner) : popped * inner :=
  match queue i with
  | value :: q => (PopValue value, with_queue i q)
  | [] => if Nat.eqb (senders i) 0 then (PopClosed, i) else (PopEmpty, i)
  end.

Definition try_recv (i : inner) : result T try_recv_error * inner :=
  match pop i with
  | (PopValue value, i) => (Ok value, i)
  | (PopEmpty, i) => (Err Empty, i)
  | (PopClosed, i) => (Err Disconnected, i)
  end.

(** The waker store of [Recv::poll]: kept when it would wake the same task. *)
Definition park (i : inner) (cx : waker) : inner :=
  match recv_waker i with
  | Some parked => if Nat.eqb parked cx then i else with_waker i (Some cx)
  | None => with_waker i (Some cx)
  end.

(** [Recv::poll]: [None] is [Pending]. *)
Definition recv_poll (i : inner) (cx : waker) : option (option T) * inner :=
  match pop i with
  | (PopValue value, i) => (Some (Some value), i)
  | (PopClosed, i) => (Some None, i)
  | (PopEmpty, i) =>
      (None, park i cx)
  end.

(** ** Executions

    The steps the owners of the handles can take.  A sender handle exists while
    [senders] is positive; the receiver handle exists until it is dropped.
    [accepted] and [received] record the messages; [parked] is the waker of a
    receiver that was told [Pending] and has not been woken since. *)

Record exec := Exec {
  ex_inner : inner;
  accepted : list T;
  received : list T;
  parked : option waker;
}.

Inductive op :=
  | OpClone | OpDropSender | OpTrySend (value : T)
  | OpDropReceiver | OpTryRecv | OpPoll (cx : waker).

(** Which handle the operation needs. *)
Definition op_enabled (i : inner) (o : op) : bool :=
  match o with
  | OpClone | OpDropSender | OpTrySend _ => Nat.ltb 0 (senders i)
  | OpDropReceiver | OpTryRecv | OpPoll _ => receiver_alive i
  end.

(** Waking unparks the receiver if it is its waker. *)
Definition unpark (p woken : option waker) : option waker :=
  match woken with
  | Some w => if decide (p = Some w) then None else p
  | None => p
  end.

Definition qstep (x : exec) (o : op) : exec :=
  let i := ex_inner x in
  match o with
  | OpClone => Exec (sender_clone i) (accepted x) (received x) (parked x)
  | OpDropSender =>
      let '(i, w) := sender_drop i in Exec i (accepted x) (received x) (unpark (parked x) w)
  | OpTrySend value =>
      match try_send i value with
      | (Ok _, i, w) => Exec i (accepted x ++ [value]) (received x) (unpark (parked x) w)
      | (Err _, i, w) => Exec i (accepted x) (received x) (unpark (parked x) w)
      end
  | OpDropReceiver => Exec (receiver_drop i) (accepted x) (received x) None
  | OpTryRecv =>
      match try_recv i with
      | (Ok value, i) => Exec i (accepted x) (received x ++ [value]) (parked x)
      | (Err _, i) => Exec i (accepted x) (received x) (parked x)
      end
  | OpPoll cx =>
      match recv_poll i cx with
      | (Some (Some value), i) => Exec i (accepted x) (received x ++ [value]) None
      | (Some None, i) => Exec i (accepted x) (received x) None
      | (None, i) => Exec i (accepted x) (received x) (Some cx)
      end
  end.

Inductive reachable (cap : nat) : exec -> Prop :=
  | reach_init : reachable cap (Exec (channel cap) [] [] None)
  | reach_step x o : reachable cap x -> op_enabled (ex_inner x) o = true -> reachable cap (qstep x o).

(** The invariant of every reachable state. *)
Definition queue_inv (cap : nat) (x : exec) : Prop :=
  let i := ex_inner x in
  capacity i = cap
  /\ received x ++ queue i = accepted x
  /\ length (queue i) <= cap
  /\ (forall w, parked x = Some w -> recv_waker i = Some w /\ queue i = [] /\ 0 < senders i).

Lemma pop_inv i : match pop i with
  | (PopValue v, i') => queue i = v :: queue i' /\ i' = with_queue i (queue i')
  | (PopEmpty, i') => queue i = [] /\ 0 < senders i /\ i' = i
  | (PopClosed, i') => queue i = [] /\ senders i = 0 /\ i' = i
  end.
Proof.
  unfold pop. destruct (queue i) as [|v q] eqn:Hq; [|done].
  destruct (Nat.eqb_spec (senders i) 0); split_and!; done || lia.
Qed.

Lemma unpark_inv p w x : unpark p w = Some x -> p = Some x /\ w <> Some x.
Proof.
  unfold unpark. destruct w as [w|]; [|done]. destruct (decide (p = Some w)); [done|].
  intros ->. split; [done|congruence].
Qed.

Lemma sender_drop_inv cap x : queue_inv cap x -> queue_inv cap (qstep x OpDropSender).
Proof.
  intros (Hc & Hf & Hl & Hp). simpl. unfold sender_drop. simpl.
  destruct (Nat.eqb_spec (senders (ex_inner x) - 1) 0) as [Hz|Hz]; simpl.
  - split_and!; [done..|]. intros w [Hw Hne]%unpark_inv. simpl. by destruct (Hp _ Hw) as [? _].
  - split_and!; [done..|]. intros w Hw. simpl. destruct (Hp _ Hw) as (? & ? & ?). split_and!; [done|done|lia].
Qed.

Lemma try_send_inv cap x v : queue_inv cap x -> queue_inv cap (qstep x (OpTrySend v)).
Proof.
  intros (Hc & Hf & Hl & Hp). simpl. unfold try_send.
  destruct (receiver_alive _); simpl; [|done].
  destruct (Nat.leb_spec (capacity (ex_inner x)) (length (queue (ex_inner x)))); simpl; [done|].
  split_and!; simpl; [done|by rewrite app_assoc, Hf|rewrite length_app; simpl; lia|].
  intros w [Hw Hne]%unpark_inv. by destruct (Hp _ Hw) as [? _].
Qed.

Lemma park_eq i cx : park i cx = with_waker i (Some cx).
Proof.
  unfold park. destruct (recv_waker i) as [p|] eqn:Hr; [|done].
  destruct (Nat.eqb_spec p cx) as [->|]; [|done]. unfold with_waker. rewrite <- Hr. by destruct i.
Qed.

Lemma recv_inv cap x o : (o = OpTryRecv \/ exists cx, o = OpPoll cx) ->
  queue_inv cap x -> queue_inv cap (qstep x o).
Proof.
  intros Ho (Hc & Hf & Hl & Hp). pose proof (pop_inv (ex_inner x)) as Hpop.
  destruct Ho as [->|[cx ->]]; simpl; unfold try_recv, recv_poll;
    destruct (pop (ex_inner x)) as [[v| |] i'].
  - destruct Hpop as [Hq ->]. rewrite Hq in *. split_and!; simpl in *; [done|by rewrite <- app_assoc|lia|].
    intros w Hw. by destruct (Hp _ Hw) as (_ & ? & _).
  - destruct Hpop as (_ & _ & ->). done.
  - destruct Hpop as (_ & _ & ->). done.
  - destruct Hpop as [Hq ->]. rewrite Hq in *. split_and!; simpl in *; [done|by rewrite <- app_assoc|lia|done].
  - destruct Hpop as (Hq & Hs & ->). rewrite park_eq. split_and!; simpl; done || by intros w [= ->].
  - destruct Hpop as (_ & _ & ->). done.
Qed.

Lemma queue_inv_step cap x o : queue_inv cap x -> queue_inv cap (qstep x o).
Proof.
  intros Hi. destruct o; try (apply recv_inv; eauto; fail).
  - destruct Hi as (Hc & Hf & Hl & Hp). split_and!; [done..|]. simpl. intros w Hw.
    destruct (Hp _ Hw) as (? & ? & ?). split_and!; [done|done|lia].
  - by apply sender_drop_inv.
  - by apply try_send_inv.
  - destruct Hi as (Hc & Hf & Hl & Hp). by split_and!.
Qed.

Lemma reachable_inv cap x : reachable cap x -> queue_inv cap x.
Proof.
  induction 1; [|by apply queue_inv_step]. split_and!; simpl; [done|done|lia|done].
Qed.

(** ** Properties *)

(** C17: the queue delivers in order and never holds more than [capacity]
    messages.  In every execution, whatever senders are cloned or dropped, what
    the receiver got followed by what is queued is what [try_send] accepted, and
    the queue is within the capacity given to [channel]. *)
Theorem queue_fifo_bounded cap x :
  reachable cap x ->
  received x ++ queue (ex_inner x) = accepted x /\ length (queue (ex_inner x)) <= cap.
Proof. intros (_ & Hf & Hl & _)%reachable_inv. done. Qed.

(** C15: no wakeup is lost.  In every execution, a receiver that was told
    [Pending] and has not been woken since has nothing to receive and still has a
    sender: the queue is empty, [senders] is positive, and its waker is the one
    the next [try_send] (or the drop of the last sender) will wake. *)
Theorem no_lost_wakeup cap x w :
  reachable cap x -> parked x = Some w ->
  queue (ex_inner x) = [] /\ 0 < senders (ex_inner x) /\ recv_waker (ex_inner x) = Some w.
Proof. intros (_ & _ & _ & Hp)%reachable_inv Hw. destruct (Hp w Hw) as (? & ? & ?). done. Qed.

(** The answer of [try_send], for any number of senders: [Closed]
    exactly when the receiver is gone, full or not; otherwise [Full] exactly when
    the queue holds [capacity] messages, so a capacity of zero never accepts; the
    refused message comes back and the state is unchanged. *)
Theorem try_send_spec (i : inner) v :
  match try_send i v with
  | (Ok _, i', w) =>
      receiver_alive i = true /\ length (queue i) < capacity i /\ queue i' = queue i ++ [v]
      /\ recv_waker i' = None /\ w = recv_waker i
  | (Err (Closed v'), i', w) => receiver_alive i = false /\ v' = v /\ i' = i /\ w = None
  | (Err (Full v'), i', w) =>
      receiver_alive i = true /\ capacity i <= length (queue i) /\ v' = v /\ i' = i /\ w = None
  end.
Proof.
  unfold try_send. destruct (receiver_alive i); simpl; [|done].
  destruct (Nat.leb_spec (capacity i) (length (queue i))); done.
Qed.

(** [recv] returns [None] only at the very end: in a reachable
    state where it does, every accepted message has been received, and no later
    operation can send another one. *)
Theorem recv_none_final cap x cx i' :
  reachable cap x -> recv_poll (ex_inner x) cx = (Some None, i') ->
  received x = accepted x /\ forall v, op_enabled i' (OpTrySend v) = false.
Proof.
  intros (_ & Hf & _)%reachable_inv. unfold recv_poll. pose proof (pop_inv (ex_inner x)) as Hp.
  destruct (pop (ex_inner x)) as [[v| |] i1]; try done. destruct Hp as (Hq & Hs & ->).
  intros [= <-]. rewrite Hq, app_nil_r in Hf. split; [done|]. intros v. simpl. by rewrite Hs.
Qed.
End queue.
Arguments inner T : clear implicits.
Arguments exec T : clear implicits.
Arguments try_send_error T : clear implicits.

(** *** Witnesses: park, send from a clone, receive, close *)

Definition w_run (ops : list (@op Z)) : exec Z :=
  fold_left qstep ops (Exec (channel 1) [] [] None).

Lemma w_run_reachable ops o :
  reachable 1 (w_run ops) -> op_enabled (ex_inner (w_run ops)) o = true -> reachable 1 (w_run (ops ++ [o])).
Proof. intros H He. unfold w_run. rewrite fold_left_app. by constructor. Qed.

Lemma w_parked_reachable : reachable 1 (w_run [OpClone; OpPoll 7]).
Proof.
  apply (w_run_reachable [OpClone]); [|done]. apply (w_run_reachable []); [constructor|done].
Qed.

Lemma w_closed_reachable :
  reachable 1 (w_run [OpClone; OpPoll 7; OpTrySend 5%Z; OpDropSender; OpDropSender; OpPoll 8]).
Proof.
  apply (w_run_reachable [OpClone; OpPoll 7; OpTrySend 5%Z; OpDropSender; OpDropSender]); [|done].
  apply (w_run_reachable [OpClone; OpPoll 7; OpTrySend 5%Z; OpDropSender]); [|done].
  apply (w_run_reachable [OpClone; OpPoll 7; OpTrySend 5%Z]); [|done].
  apply (w_run_reachable [OpClone; OpPoll 7]); [|done]. apply w_parked_reachable.
Qed.

Lemma queue_fifo_bounded_witness :
  received (w_run [OpClone; OpPoll 7]) ++ queue (ex_inner (w_run [OpClone; OpPoll 7]))
    = accepted (w_run [OpClone; OpPoll 7])
  /\ length (queue (ex_inner (w_run [OpClone; OpPoll 7]))) <= 1.
Proof. apply (queue_fifo_bounded 1 (w_run [OpClone; OpPoll 7])). apply w_parked_reachable. Defined.

Lemma no_lost_wakeup_witness :
  queue (ex_inner (w_run [OpClone; OpPoll 7])) = [] /\ 0 < senders (ex_inner (w_run [OpClone; OpPoll 7]))
  /\ recv_waker (ex_inner (w_run [OpClone; OpPoll 7])) = Some 7.
Proof.
  apply (no_lost_wakeup 1 (w_run [OpClone; OpPoll 7]) 7); [apply w_parked_reachable|reflexivity].
Defined.

Definition w_closed : exec Z :=
  w_run [OpClone; OpPoll 7; OpTrySend 5%Z; OpDropSender; OpDropSender; OpPoll 8].

Lemma recv_none_final_witness :
  received w_closed = accepted w_closed /\ forall v, op_enabled (ex_inner w_closed) (OpTrySend v) = false.
Proof.
  apply (recv_none_final 1 w_closed 9); [apply w_closed_reachable|reflexivity].
Defined.
