(* ===== verification/ServerConfig.v ===== *)
(** * Server configuration: the configuration half of [src/libs/ws/server.rs]

    [WsServerConfig] with its defaults, the start-up checks, [split_host_port],
    [shard_count] and the handler-name checks.  Durations are in nanoseconds; the
    environment variable, the two cgroup files and [available_parallelism] are
    read by the caller and passed in. *)

From S2P Require Import Prelude.

Definition secs (n : Z) : Z := n * 1000000000.

Record ws_server_config := WsServerConfig {
  cfg_name : string;
  address : string;
  pub_certs : option (list string);
  priv_key : option string;
  insecure : bool;
  debug : bool;
  message_buffer_size : nat;
  drop_conn_on_buffer_full : bool;
  header_only : bool;
  allow_cors_urls : option (list string);
  server_name : string;
  mcp_only : bool;
  max_connections : option nat;
  max_message_bytes : option nat;
  max_inflight_requests : option nat;
  request_timeout : option Z;
  handshake_timeout : option Z;
  idle_timeout : option Z;
  warn_connections : option nat;
  warn_message_bytes : option nat;
  warn_inflight_requests : option nat;
  warn_request_time : option Z;
  on_limit : bool;   (* whether a callback is set *)
}.

Definition default_max_connections : option nat := Some 1024.
Definition default_max_message_bytes : option nat := Some (Z.to_nat 1048576).
Definition default_max_inflight_requests : option nat := Some 32.
Definition default_request_timeout : option Z := Some (secs 30).
Definition default_handshake_timeout : option Z := Some (secs 10).
Definition default_idle_timeout : option Z := Some (secs 120).
Definition default_message_buffer_size : nat := 256.
Definition default_server_name : string := "RustWebsocketServer/1.0".

Definition config_default : ws_server_config := {|
  cfg_name := ""; address := ""; pub_certs := None; priv_key := None; insecure := false;
  debug := false; message_buffer_size := default_message_buffer_size;
  drop_conn_on_buffer_full := false; header_only := false; allow_cors_urls := None;
  server_name := default_server_name; mcp_only := false;
  max_connections := default_max_connections; max_message_bytes := default_max_message_bytes;
  max_inflight_requests := default_max_inflight_requests;
  request_timeout := default_request_timeout; handshake_timeout := default_handshake_timeout;
  idle_timeout := default_idle_timeout; warn_connections := None; warn_message_bytes := None;
  warn_inflight_requests := None; warn_request_time := None; on_limit := false |}.

(** ** Start-up checks *)

Definition validate_protocol_mode (config : ws_server_config) (mcp_enabled : bool) : result unit string :=
  if mcp_only config && negb mcp_enabled then
    Err "mcp_only requires enable_mcp before serving connections"
  else Ok tt.

Definition refuse_tls_config (config : ws_server_config) : result unit string :=
  match pub_certs config, priv_key config with
  | None, None => Ok tt
  | _, _ =>
      Err "pub_certs/priv_key are set, but this server no longer serves TLS. Terminate TLS at the edge (fly.io `[http_service]` with force_https = true, plain to internal_port) and remove both fields."
  end.

(** ** [split_host_port] *)

(** [str::rsplit_once] on one byte. *)
Fixpoint rsplit_once (c : ascii) (s : string) : option (string * string) :=
  match s with
  | EmptyString => None
  | String a s =>
      match rsplit_once c s with
      | Some (h, t) => Some (String a h, t)
      | None => if ascii_dec a c then Some (EmptyString, s) else None
      end
  end.

(** [str::strip_suffix] on one byte. *)
Fixpoint strip_suffix_char (c : ascii) (s : string) : option string :=
  match s with
  | EmptyString => None
  | String a EmptyString => if ascii_dec a c then Some EmptyString else None
  | String a s => option_map (String a) (strip_suffix_char c s)
  end.

Definition unbracket (host : string) : string :=
  match strip_prefix "[" host with
  | Some h => match strip_suffix_char "]" h with Some h => h | None => host end
  | None => host
  end.

Definition split_host_port (address : string) : result (string * Z) string :=
  match rsplit_once ":" address with
  | None => Err ("address has no port: " +:+ address)
  | Some (host, port) =>
      match parse_unsigned u16_max port with
      | None => Err ("address has no usable port: " +:+ address)
      | Some port => Ok (unbracket host, port)
      end
  end.

(** ** [shard_count] *)

Definition usize_max : Z := 18446744073709551615.

(** [quota] and [period] are the contents of [cpu.cfs_quota_us] and
    [cpu.cfs_period_us], [None] when the file cannot be read.  [quota + period - 1]
    is in [i64]: the result of an overflow is the wrapped sum of a release build. *)
Definition wrap_i64 (z : Z) : Z := (z + 9223372036854775808) mod 18446744073709551616 - 9223372036854775808.

Definition read_cgroup_v1_quota (quota period : option string) : option Z :=
  match quota ≫= (fun s => parse_i64 (trim s)) with
  | None => None
  | Some quota =>
      if (quota <=? 0)%Z then None
      else match period ≫= (fun s => parse_i64 (trim s)) with
           | None => None
           | Some period =>
               if (period <=? 0)%Z then None
               else Some (Z.quot (wrap_i64 (quota + period - 1)) period mod (usize_max + 1))%Z
           end
  end.

(** Steps 2 to 4 of [shard_count]. *)
Definition detect_shards (quota period : option string) (parallelism : option Z) : Z :=
  match read_cgroup_v1_quota quota period with
  | Some n => Z.max n 1
  | None => match parallelism with Some n => n | None => 1 end
  end%Z.

Definition shard_count (ws_shards quota period : option string) (parallelism : option Z) : Z :=
  match ws_shards with
  | Some val =>
      match parse_unsigned usize_max (trim val) with
      | Some n => if (0 <? n)%Z then n else detect_shards quota period parallelism
      | None => detect_shards quota period parallelism
      end
  | None => detect_shards quota period parallelism
  end.

(** ** [check_name], [check_handler] *)

Definition check_name (cat be_name should_name : string) : result unit string :=
  if negb (contains_str should_name be_name) then
    Err (cat +:+ " name should be " +:+ should_name +:+ " but got " +:+ be_name)
  else Ok tt.

(** [handler_name] and [request_name] are [std::any::type_name] of the two types. *)
Definition check_handler (schema_name handler_name request_name : string) : result unit string :=
  let* _ := check_name "Method" handler_name ("Method" +:+ schema_name) in
  let* _ := check_name "Request" request_name (schema_name +:+ "Request") in
  Ok tt.

(** ** Lemmas *)

Lemma rsplit_once_Some c s h t :
  rsplit_once c s = Some (h, t) -> s = h +:+ String c t /\ rsplit_once c t = None.
Proof.
  revert h t. induction s as [|a s IH]; intros h t; simpl; [done|].
  destruct (rsplit_once c s) as [[h' t']|] eqn:Hr.
  - intros [= <- <-]. destruct (IH _ _ eq_refl) as [-> ?]. done.
  - destruct (ascii_dec a c) as [->|]; [|done]. intros [= <- <-]. done.
Qed.

Lemma rsplit_once_append c h t : rsplit_once c t = None -> rsplit_once c (h +:+ String c t) = Some (h, t).
Proof.
  intros Ht. induction h as [|a h IH]; simpl.
  - rewrite Ht. by destruct (ascii_dec c c).
  - by rewrite IH.
Qed.

Lemma strip_suffix_char_append c s : strip_suffix_char c (s +:+ String c "") = Some s.
Proof.
  induction s as [|a s IH]; simpl; [by destruct (ascii_dec c c)|].
  rewrite IH. by destruct s.
Qed.

Lemma parse_digits_no_colon max s : forall acc n,
  parse_digits max acc s = Some n -> rsplit_once ":" s = None.
Proof.
  induction s as [|a s IH]; intros acc n; simpl; [done|].
  destruct (is_digit a) eqn:Hd; [|done]. destruct (_ <=? _)%Z; [|done].
  intros ->%IH. destruct (ascii_dec a ":") as [->|]; [|done]. vm_compute in Hd. done.
Qed.

Lemma parse_unsigned_no_colon max s n : parse_unsigned max s = Some n -> rsplit_once ":" s = None.
Proof.
  unfold parse_unsigned. destruct s as [|a s]; [done|].
  destruct (ascii_dec a "+") as [->|]; [|apply parse_digits_no_colon].
  destruct s as [|b s]; [done|]. intros H%parse_digits_no_colon.
  cbn [rsplit_once]. cbn [rsplit_once] in H. by rewrite H.
Qed.

Lemma unbracket_ipv6 h : unbracket ("[" +:+ (h +:+ "]")) = h.
Proof.
  unfold unbracket. rewrite strip_prefix_append. by rewrite strip_suffix_char_append.
Qed.

Lemma wrap_i64_small z : (i64_min <= z <= i64_max)%Z -> wrap_i64 z = z.
Proof.
  unfold wrap_i64, i64_min, i64_max. intros. rewrite Z.mod_small by lia. lia.
Qed.

(** ** Properties *)

(** [split_host_port] accepts exactly [host:port] with a port that
    parses as a [u16], splitting at the last colon and removing the brackets of an IPv6
    literal; and a bracketed literal gives back the address between the brackets. *)
Theorem split_host_port_spec addr h p :
  (split_host_port addr = Ok (h, p) <->
   exists host port, addr = host +:+ String ":" port /\ parse_unsigned u16_max port = Some p
                     /\ h = unbracket host)
  /\ unbracket ("[" +:+ (h +:+ "]")) = h.
Proof.
  split; [|apply unbracket_ipv6]. unfold split_host_port. split.
  - destruct (rsplit_once ":" addr) as [[host port]|] eqn:Hr; [|done].
    destruct (parse_unsigned u16_max port) as [n|] eqn:Hp; [|done]. intros [= <- <-].
    apply rsplit_once_Some in Hr as [-> _]. by exists host, port.
  - intros (host & port & -> & Hp & ->).
    by rewrite (rsplit_once_append _ _ _ (parse_unsigned_no_colon _ _ _ Hp)), Hp.
Qed.

(** The cgroup quota is rounded up.  When both files hold positive
    numbers and [quota + period - 1] is in range, the shard count [n] is the least
    number of CPUs that covers the quota; and a quota that is absent,
    unparseable, zero or negative gives no answer. *)
Theorem cgroup_quota_ceiling quota period q p :
  quota ≫= (fun s => parse_i64 (trim s)) = q -> period ≫= (fun s => parse_i64 (trim s)) = p ->
  match read_cgroup_v1_quota quota period, q, p with
  | Some n, Some q, Some p =>
      (0 < q /\ 0 < p /\ (q + p - 1 <= i64_max -> 1 <= n /\ (n - 1) * p < q <= n * p))%Z
  | Some _, _, _ => False
  | None, Some q, Some p => (q <= 0 \/ p <= 0)%Z
  | None, _, _ => True
  end.
Proof.
  intros Hq Hp. unfold read_cgroup_v1_quota. rewrite Hq, Hp.
  destruct q as [q|]; [|done]. destruct (Z.leb_spec q 0); [destruct p; auto|].
  destruct p as [p|]; [|done]. destruct (Z.leb_spec p 0); [auto|].
  split_and!; [lia|lia|]. intros Hr. rewrite wrap_i64_small by (unfold i64_min; lia).
  rewrite Z.quot_div_nonneg by lia.
  assert (Hb : (0 <= (q + p - 1) / p <= i64_max)%Z).
  { split; [apply Z.div_pos; lia|]. apply Z.div_le_upper_bound; [lia|]. nia. }
  rewrite Z.mod_small by (unfold usize_max, i64_max in *; lia).
  pose proof (Z.div_mod (q + p - 1) p ltac:(lia)). pose proof (Z.mod_pos_bound (q + p - 1) p ltac:(lia)).
  nia.
Qed.

(** The operator always gets a shard: [shard_count] is at least one for
    every environment and every content of the cgroup files, given that
    [available_parallelism] is a [NonZeroUsize]; and a positive [WS_SHARDS] wins. *)
Theorem shard_count_positive ws_shards quota period parallelism :
  (forall n, parallelism = Some n -> 0 < n)%Z ->
  (0 < shard_count ws_shards quota period parallelism)%Z
  /\ forall val n, ws_shards = Some val -> parse_unsigned usize_max (trim val) = Some n -> (0 < n)%Z ->
       shard_count ws_shards quota period parallelism = n.
Proof.
  intros Hpar. assert (Hd : (0 < detect_shards quota period parallelism)%Z).
  { unfold detect_shards. destruct (read_cgroup_v1_quota quota period); [lia|].
    destruct parallelism; [by apply Hpar|lia]. }
  unfold shard_count.
  split.
  - destruct ws_shards as [val|]; [|done]. destruct (parse_unsigned _ _) as [n|]; [|done].
    destruct (Z.ltb_spec 0 n); done.
  - intros val n -> -> Hn. by apply Z.ltb_lt in Hn as ->.
Qed.

(** *** Witnesses *)

Lemma cgroup_quota_ceiling_witness :
  read_cgroup_v1_quota (Some "150000 ") (Some "100000") = Some 2%Z
  /\ (1 <= 2 /\ (2 - 1) * 100000 < 150000 <= 2 * 100000)%Z.
Proof.
  split; [vm_compute; reflexivity|].
  pose proof (cgroup_quota_ceiling (Some "150000 ") (Some "100000") (Some 150000%Z) (Some 100000%Z) eq_refl eq_refl) as H.
  vm_compute in H |- *. destruct H as (_ & _ & H). apply H. intros Hc. discriminate Hc.
Defined.

Lemma shard_count_positive_witness :
  (0 < shard_count (Some "4x") (Some "-1") None (Some 8%Z))%Z
  /\ shard_count (Some " 4 ") None None None = 4%Z.
Proof.
  split.
  - apply (shard_count_positive (Some "4x") (Some "-1") None (Some 8%Z)). intros n [= <-]. lia.
  - apply (shard_count_positive (Some " 4 ") None None None) with (val := " 4 "); [done|reflexivity|vm_compute; reflexivity|lia].
Defined.
