(* ===== verification/Limits.v ===== *)
(** * Server limits: the limit half of [src/libs/ws/server.rs]

    [ServerLimitState] and [LimitSlot].  The counters are atomics shared by the
    shard threads, so [acquire] is split into its atomic accesses
    ([acquire_add], [acquire_warn], [acquire_decide]); [acquire] is their
    sequence, and [lstep] interleaves the attempts of any number of threads. *)

From S2P Require Import Prelude ServerConfig.

Inductive limit_kind := Warn | Refuse.

Record limit_event := LimitEvent {
  le_limit : string;
  le_current : Z;
  le_threshold : Z;
  le_kind : limit_kind;
}.

Record limit_state := LimitState {
  connections : nat;
  inflight : nat;
  warned_connections : nat;
  warned_inflight : nat;
  warned_message_bytes : nat;
  warned_request_time : nat;
}.

Definition limit_default : limit_state := LimitState 0 0 0 0 0 0.

(** The two limits that count; any other name is let through. *)
Inductive slot := Connections | InflightRequests.

Definition slot_of (limit : string) : option slot :=
  if decide (limit = "connections") then Some Connections
  else if decide (limit = "inflight_requests") then Some InflightRequests
  else None.
Definition slot_name (k : slot) : string :=
  match k with Connections => "connections" | InflightRequests => "inflight_requests" end.

Definition counter (k : slot) (s : limit_state) : nat :=
  match k with Connections => connections s | InflightRequests => inflight s end.
Definition set_counter (k : slot) (n : nat) (s : limit_state) : limit_state :=
  match k with
  | Connections => LimitState n (inflight s) (warned_connections s) (warned_inflight s)
                     (warned_message_bytes s) (warned_request_time s)
  | InflightRequests => LimitState (connections s) n (warned_connections s) (warned_inflight s)
                          (warned_message_bytes s) (warned_request_time s)
  end.
Definition warned (k : slot) (s : limit_state) : nat :=
  match k with Connections => warned_connections s | InflightRequests => warned_inflight s end.
Definition set_warned (k : slot) (s : limit_state) : limit_state :=
  match k with
  | Connections => LimitState (connections s) (inflight s) 1 (warned_inflight s)
                     (warned_message_bytes s) (warned_request_time s)
  | InflightRequests => LimitState (connections s) (inflight s) (warned_connections s) 1
                          (warned_message_bytes s) (warned_request_time s)
  end.
Definition cap (k : slot) (config : ws_server_config) : option nat :=
  match k with Connections => max_connections config | InflightRequests => max_inflight_requests config end.
Definition warning (k : slot) (config : ws_server_config) : option nat :=
  match k with Connections => warn_connections config | InflightRequests => warn_inflight_requests config end.

(** [ServerLimitState::event]: the calls of [on_limit]. *)
Definition event (config : ws_server_config) (limit : string) (current threshold : Z) (kind : limit_kind)
    : list limit_event :=
  if on_limit config then [LimitEvent limit current threshold kind] else [].

(** [counter.fetch_add(1) + 1]. *)
Definition acquire_add (k : slot) (s : limit_state) : limit_state * nat :=
  (set_counter k (S (counter k s)) s, S (counter k s)).

(** The warning: [warned.swap(1)] only when the threshold is reached. *)
Definition acquire_warn (config : ws_server_config) (k : slot) (current : nat) (s : limit_state)
    : limit_state * list limit_event :=
  match warning k config with
  | Some threshold =>
      if Nat.leb threshold current then
        (set_warned k s,
         if Nat.eqb (warned k s) 0
         then event config (slot_name k) (Z.of_nat current) (Z.of_nat threshold) Warn else [])
      else (s, [])
  | None => (s, [])
  end.

(** The verdict; a refusal gives the count back. *)
Definition acquire_decide (config : ws_server_config) (k : slot) (current : nat) (s : limit_state)
    : bool * limit_state * list limit_event :=
  match cap k config with
  | Some threshold =>
      if Nat.ltb threshold current then
        (false, set_counter k (counter k s - 1) s,
         event config (slot_name k) (Z.of_nat current) (Z.of_nat threshold) Refuse)
      else (true, s, [])
  | None => (true, s, [])
  end.

Definition acquire (config : ws_server_config) (limit : string) (s : limit_state)
    : bool * limit_state * list limit_event :=
  match slot_of limit with
  | None => (true, s, [])
  | Some k =>
      let '(s, current) := acquire_add k s in
      let '(s, ev1) := acquire_warn config k current s in
      let '(ok, s, ev2) := acquire_decide config k current s in
      (ok, s, ev1 ++ ev2)
  end.

(** [Drop for LimitSlot]. *)
Definition slot_drop (limit : string) (s : limit_state) : limit_state :=
  match slot_of limit with
  | Some k => set_counter k (counter k s - 1) s
  | None => s
  end.

(** [acquire_request]: the slot, when the request was let in. *)
Definition acquire_request (config : ws_server_config) (s : limit_state)
    : option string * limit_state * list limit_event :=
  let '(ok, s, ev) := acquire config "inflight_requests" s in
  (if ok then Some "inflight_requests" else None, s, ev).

Definition observe_message (config : ws_server_config) (bytes : nat) (s : limit_state)
    : limit_state * list limit_event :=
  match warn_message_bytes config with
  | Some t =>
      if Nat.leb t bytes then
        (LimitState (connections s) (inflight s) (warned_connections s) (warned_inflight s) 1
           (warned_request_time s),
         if Nat.eqb (warned_message_bytes s) 0
         then event config "message_bytes" (Z.of_nat bytes) (Z.of_nat t) Warn else [])
      else (s, [])
  | None => (s, [])
  end.

(** [Duration::as_millis() as u64]. *)
Definition as_millis (d : Z) : Z := (d / 1000000) mod 18446744073709551616.

Definition observe_request_time (config : ws_server_config) (elapsed : Z) (s : limit_state)
    : limit_state * list limit_event :=
  match warn_request_time config with
  | Some t =>
      if (t <=? elapsed)%Z then
        (LimitState (connections s) (inflight s) (warned_connections s) (warned_inflight s)
           (warned_message_bytes s) 1,
         if Nat.eqb (warned_request_time s) 0
         then event config "request_time" (as_millis elapsed) (as_millis t) Warn else [])
      else (s, [])
  | None => (s, [])
  end.

(** ** Interleavings

    [pending] holds the attempts of one limit that have counted themselves and
    have no verdict yet, each with the count it saw and whether the warning is
    done; [held] is the number of live [LimitSlot]s. *)
Record lsys := Lsys {
  state : limit_state;
  pending : list (nat * bool);
  held : nat;
  events : list limit_event;
}.

Section interleaving.
Context (config : ws_server_config) (k : slot).

Inductive lstep : lsys -> lsys -> Prop :=
  | step_add x s current :
      acquire_add k (state x) = (s, current) ->
      lstep x (Lsys s ((current, false) :: pending x) (held x) (events x))
  | step_warn x l1 current l2 s ev :
      pending x = l1 ++ (current, false) :: l2 ->
      acquire_warn config k current (state x) = (s, ev) ->
      lstep x (Lsys s (l1 ++ (current, true) :: l2) (held x) (events x ++ ev))
  | step_decide x l1 current l2 ok s ev :
      pending x = l1 ++ (current, true) :: l2 ->
      acquire_decide config k current (state x) = (ok, s, ev) ->
      lstep x (Lsys s (l1 ++ l2) (if ok then S (held x) else held x) (events x ++ ev))
  | step_release x :
      0 < held x ->
      lstep x (Lsys (slot_drop (slot_name k) (state x)) (pending x) (held x - 1) (events x)).

Inductive lreach : lsys -> Prop :=
  | lreach_init : lreach (Lsys limit_default [] 0 [])
  | lreach_step x y : lreach x -> lstep x y -> lreach y.

(** The attempts that will be let in. *)
Definition admitted (c : nat) (p : nat * bool) : bool := Nat.leb p.1 c.
Definition n_admitted (c : nat) (l : list (nat * bool)) : nat :=
  length (List.filter (admitted c) l).
Definition is_warn (e : limit_event) : bool := match le_kind e with Warn => true | Refuse => false end.
Definition n_warn (l : list limit_event) : nat := length (List.filter is_warn l).

Definition linv (x : lsys) : Prop :=
  counter k (state x) = length (pending x) + held x
  /\ (forall c, cap k config = Some c -> n_admitted c (pending x) + held x <= c)
  /\ n_warn (events x) <= warned k (state x) <= 1.

Lemma counter_set n s : counter k (set_counter k n s) = n.
Proof. by destruct k. Qed.
Lemma counter_set_warned s : counter k (set_warned k s) = counter k s.
Proof. by destruct k. Qed.
Lemma warned_set_counter n s : warned k (set_counter k n s) = warned k s.
Proof. by destruct k. Qed.
Lemma warned_set s : warned k (set_warned k s) = 1.
Proof. by destruct k. Qed.
Lemma slot_of_name : slot_of (slot_name k) = Some k.
Proof. by destruct k. Qed.

Lemma n_admitted_app c l1 l2 : n_admitted c (l1 ++ l2) = n_admitted c l1 + n_admitted c l2.
Proof. unfold n_admitted. by rewrite List.filter_app, length_app. Qed.
Lemma n_admitted_cons c p l : n_admitted c (p :: l) = (if Nat.leb p.1 c then 1 else 0) + n_admitted c l.
Proof. unfold n_admitted. simpl. unfold admitted at 1. by destruct (Nat.leb p.1 c). Qed.
Lemma n_admitted_le c l : n_admitted c l <= length l.
Proof. apply List.filter_length_le. Qed.
Lemma n_warn_app l1 l2 : n_warn (l1 ++ l2) = n_warn l1 + n_warn l2.
Proof. unfold n_warn. by rewrite List.filter_app, length_app. Qed.

Lemma n_warn_refuse limit c t : n_warn (event config limit c t Refuse) = 0.
Proof. unfold event. by destruct (on_limit config). Qed.
Lemma n_warn_warn limit c t : n_warn (event config limit c t Warn) <= 1.
Proof. unfold event. destruct (on_limit config); unfold n_warn; simpl; lia. Qed.

Lemma linv_add x s current :
  linv x -> acquire_add k (state x) = (s, current) ->
  linv (Lsys s ((current, false) :: pending x) (held x) (events x)).
Proof.
  intros (Hc & Hcap & Hw) [= <- <-]. split_and!; simpl.
  - rewrite counter_set. lia.
  - intros c Hk. specialize (Hcap c Hk). rewrite n_admitted_cons. cbn [fst].
    pose proof (n_admitted_le c (pending x)).
    destruct (Nat.leb_spec (S (counter k (state x))) c); lia.
  - rewrite warned_set_counter. lia.
  - rewrite warned_set_counter. lia.
Qed.

Lemma acquire_warn_facts current s s' ev :
  acquire_warn config k current s = (s', ev) ->
  counter k s' = counter k s /\ (warned k s <= 1 -> n_warn ev + warned k s <= warned k s' <= 1).
Proof.
  unfold acquire_warn. destruct (warning k config) as [t|]; [|intros [= <- <-]; simpl; lia].
  destruct (Nat.leb t current); [|intros [= <- <-]; simpl; lia]. intros [= <- <-].
  rewrite counter_set_warned, warned_set. split; [done|].
  destruct (Nat.eqb_spec (warned k s) 0) as [->|].
  - pose proof (n_warn_warn (slot_name k) (Z.of_nat current) (Z.of_nat t)). lia.
  - unfold n_warn. simpl. lia.
Qed.

Lemma linv_warn x l1 current l2 s ev :
  linv x -> pending x = l1 ++ (current, false) :: l2 ->
  acquire_warn config k current (state x) = (s, ev) ->
  linv (Lsys s (l1 ++ (current, true) :: l2) (held x) (events x ++ ev)).
Proof.
  intros (Hc & Hcap & Hw) Hp [Hs He]%acquire_warn_facts. rewrite Hp in *. split_and!; simpl.
  - rewrite Hs, Hc, !length_app. done.
  - intros c Hk. specialize (Hcap c Hk). rewrite n_admitted_app, n_admitted_cons in *. done.
  - rewrite n_warn_app. lia.
  - lia.
Qed.

Lemma linv_decide x l1 current l2 ok s ev :
  linv x -> pending x = l1 ++ (current, true) :: l2 ->
  acquire_decide config k current (state x) = (ok, s, ev) ->
  linv (Lsys s (l1 ++ l2) (if ok then S (held x) else held x) (events x ++ ev)).
Proof.
  intros (Hc & Hcap & Hw) Hp. rewrite Hp in *. unfold acquire_decide.
  rewrite length_app in Hc. simpl in Hc.
  destruct (cap k config) as [c|] eqn:Hk.
  - specialize (Hcap c eq_refl). rewrite n_admitted_app, n_admitted_cons in Hcap. simpl in Hcap.
    destruct (Nat.ltb_spec c current) as [Hlt|Hge]; intros [= <- <- <-]; split_and!; simpl.
    + rewrite counter_set, length_app. lia.
    + rewrite Hk. intros c' [= <-]. rewrite n_admitted_app. lia.
    + rewrite warned_set_counter, n_warn_app, n_warn_refuse. lia.
    + rewrite warned_set_counter. lia.
    + rewrite length_app. lia.
    + rewrite Hk. intros c' [= <-]. rewrite n_admitted_app. destruct (Nat.leb_spec current c); lia.
    + rewrite app_nil_r. lia.
    + lia.
  - intros [= <- <- <-]. split_and!; simpl; [rewrite length_app; lia|by rewrite Hk|rewrite app_nil_r; lia|lia].
Qed.

Lemma linv_release x :
  linv x -> 0 < held x ->
  linv (Lsys (slot_drop (slot_name k) (state x)) (pending x) (held x - 1) (events x)).
Proof.
  intros (Hc & Hcap & Hw) Hh. unfold slot_drop. rewrite slot_of_name. split_and!; simpl.
  - rewrite counter_set. lia.
  - intros c Hk. specialize (Hcap c Hk). lia.
  - rewrite warned_set_counter. lia.
  - rewrite warned_set_counter. lia.
Qed.

Lemma lreach_inv x : lreach x -> linv x.
Proof.
  induction 1 as [|x y _ IH Hs].
  - split_and!; simpl; [by destruct k|intros; unfold n_admitted; simpl; lia|unfold n_warn; simpl; lia|destruct k; simpl; lia].
  - destruct Hs; [by eapply linv_add|by eapply linv_warn|by eapply linv_decide|by apply linv_release].
Qed.

(** ** Properties *)

(** C23: the cap holds under every interleaving.  However the threads'
    attempts and releases interleave at the atomic accesses, the number of slots
    held never exceeds the configured maximum, the counter is exactly the slots
    held plus the attempts in progress (so it never wraps below zero and returns
    to zero when all are done), and [on_limit] is told of the warning at most once. *)
Theorem limit_never_exceeded x :
  lreach x ->
  (forall c, cap k config = Some c -> held x <= c)
  /\ counter k (state x) = length (pending x) + held x
  /\ n_warn (events x) <= 1.
Proof.
  intros (Hc & Hcap & Hw)%lreach_inv. split_and!; [|done|lia].
  intros c Hk. specialize (Hcap c Hk). lia.
Qed.
End interleaving.

Lemma acquire_sequential config limit s :
  match acquire config limit s, slot_of limit with
  | (ok, s', _), Some k =>
      (ok = false <-> exists c, cap k config = Some c /\ c <= counter k s)
      /\ counter k s' = (if ok then S (counter k s) else counter k s)
      /\ counter k (slot_drop limit s') = (if ok then counter k s else counter k s - 1)
  | (ok, s', ev), None => ok = true /\ s' = s /\ ev = [] /\ slot_drop limit s' = s
  end.
Proof.
  unfold acquire, slot_drop. destruct (slot_of limit) as [k|]; [|done]. simpl.
  destruct (acquire_warn config k _ _) as [s1 ev1] eqn:Hw.
  apply acquire_warn_facts in Hw as [Hc _]. rewrite counter_set in Hc. unfold acquire_decide.
  destruct (cap k config) as [c|].
  - destruct (Nat.ltb_spec c (S (counter k s))); rewrite !counter_set, ?Hc.
    + split_and!; [|lia|lia]. split; [intros _; exists c; split; [done|lia]|done].
    + split_and!; [|done|lia]. split; [done|]. intros (c' & [= <-] & ?). lia.
  - rewrite counter_set, Hc. split_and!; [|done|lia]. split; [done|]. by intros (c & ? & _).
Qed.

(** The sequential behaviour of [acquire] and of the drop of its
    slot.  A counted limit is refused exactly when as many slots as its maximum are
    taken; a refusal leaves the counters alone and a grant counts one, which the
    drop gives back; a name that is not counted is always let in. *)
Theorem acquire_spec config limit s :
  match acquire config limit s, slot_of limit with
  | (ok, s', _), Some k =>
      (ok = false <-> exists c, cap k config = Some c /\ c <= counter k s)
      /\ counter k s' = (if ok then S (counter k s) else counter k s)
      /\ counter k (slot_drop limit s') = (if ok then counter k s else counter k s - 1)
  | (ok, s', ev), None => ok = true /\ s' = s /\ ev = [] /\ slot_drop limit s' = s
  end.
Proof. apply acquire_sequential. Qed.

(** *** Witness: two threads race for one slot *)

Definition w_config : ws_server_config := {|
  cfg_name := ""; address := ""; pub_certs := None; priv_key := None; insecure := false;
  debug := false; message_buffer_size := 1; drop_conn_on_buffer_full := false; header_only := false;
  allow_cors_urls := None; server_name := ""; mcp_only := false; max_connections := Some 1;
  max_message_bytes := None; max_inflight_requests := Some 32; request_timeout := None;
  handshake_timeout := None; idle_timeout := None; warn_connections := Some 1; warn_message_bytes := None;
  warn_inflight_requests := None; warn_request_time := None; on_limit := true |}.

Definition w_ev : limit_event := LimitEvent "connections" 1 1 Warn.
Definition w_s1 : lsys := Lsys (LimitState 1 0 0 0 0 0) [(1, false)] 0 [].
Definition w_s2 : lsys := Lsys (LimitState 2 0 0 0 0 0) [(2, false); (1, false)] 0 [].
Definition w_s3 : lsys := Lsys (LimitState 2 0 1 0 0 0) [(2, false); (1, true)] 0 [w_ev].
Definition w_race : lsys := Lsys (LimitState 2 0 1 0 0 0) [(2, false)] 1 [w_ev].

Lemma w_race_reach : lreach w_config Connections w_race.
Proof.
  apply (lreach_step _ _ w_s3 w_race);
    [apply (lreach_step _ _ w_s2 w_s3); [apply (lreach_step _ _ w_s1 w_s2);
      [apply (lreach_step _ _ (Lsys limit_default [] 0 []) w_s1); [apply lreach_init|]|]|]|].
  - by apply (step_add w_config Connections (Lsys limit_default [] 0 []) (LimitState 1 0 0 0 0 0)).
  - by apply (step_add w_config Connections w_s1 (LimitState 2 0 0 0 0 0)).
  - by apply (step_warn w_config Connections w_s2 [(2, false)] 1 [] (LimitState 2 0 1 0 0 0) [w_ev]).
  - by apply (step_decide w_config Connections w_s3 [(2, false)] 1 [] true (LimitState 2 0 1 0 0 0) []).
Qed.

Lemma limit_never_exceeded_witness :
  held w_race <= 1 /\ counter Connections (state w_race) = 2.
Proof.
  destruct (limit_never_exceeded w_config Connections w_race w_race_reach) as (H & Hc & _).
  split; [by apply H|exact Hc].
Defined.
