(* ===== verification/ErrorCode.v ===== *)
(** * Error codes: [src/libs/error_code.rs]

    [ErrorCode] is a [u32]; the named constants, their [kind] strings and the
    parser that accepts a name or a decimal number. *)

From S2P Require Import Prelude.

Record error_code := ErrorCode { code : Z (* u32 *) }.
Definition error_code_new (c : Z) : error_code := ErrorCode c.
Definition to_u32 (e : error_code) : Z := code e.

#[export] Instance error_code_eq_dec : EqDecision error_code.
Proof. solve_decision. Defined.

Definition BAD_REQUEST : error_code := error_code_new 100400.
Definition UNAUTHORIZED : error_code := error_code_new 100401.
Definition PAYMENT_REQUIRED : error_code := error_code_new 100402.
Definition FORBIDDEN : error_code := error_code_new 100403.
Definition NOT_FOUND : error_code := error_code_new 100404.
Definition METHOD_NOT_ALLOWED : error_code := error_code_new 100405.
Definition NOT_ACCEPTABLE : error_code := error_code_new 100406.
Definition PROXY_AUTHENTICATION_REQUIRED : error_code := error_code_new 100407.
Definition REQUEST_TIMEOUT : error_code := error_code_new 100408.
Definition CONFLICT : error_code := error_code_new 100409.
Definition GONE : error_code := error_code_new 100410.
Definition LENGTH_REQUIRED : error_code := error_code_new 100411.
Definition PRECONDITION_FAILED : error_code := error_code_new 100412.
Definition PAYLOAD_TOO_LARGE : error_code := error_code_new 100413.
Definition URI_TOO_LONG : error_code := error_code_new 100414.
Definition UNSUPPORTED_MEDIA_TYPE : error_code := error_code_new 100415.
Definition RANGE_NOT_SATISFIABLE : error_code := error_code_new 100416.
Definition EXPECTATION_FAILED : error_code := error_code_new 100417.
Definition IM_A_TEAPOT : error_code := error_code_new 100418.
Definition MISDIRECTED_REQUEST : error_code := error_code_new 100421.
Definition UNPROCESSABLE_ENTITY : error_code := error_code_new 100422.
Definition LOCKED : error_code := error_code_new 100423.
Definition FAILED_DEPENDENCY : error_code := error_code_new 100424.
Definition UPGRADE_REQUIRED : error_code := error_code_new 100426.
Definition PRECONDITION_REQUIRED : error_code := error_code_new 100428.
Definition TOO_MANY_REQUESTS : error_code := error_code_new 100429.
Definition REQUEST_HEADER_FIELDS_TOO_LARGE : error_code := error_code_new 100431.
Definition UNAVAILABLE_FOR_LEGAL_REASONS : error_code := error_code_new 100451.
Definition INTERNAL_ERROR : error_code := error_code_new 100500.
Definition NOT_IMPLEMENTED : error_code := error_code_new 100501.
Definition BAD_GATEWAY : error_code := error_code_new 100502.
Definition SERVICE_UNAVAILABLE : error_code := error_code_new 100503.
Definition GATEWAY_TIMEOUT : error_code := error_code_new 100504.
Definition HTTP_VERSION_NOT_SUPPORTED : error_code := error_code_new 100505.
Definition VARIANT_ALSO_NEGOTIATES : error_code := error_code_new 100506.
Definition INSUFFICIENT_STORAGE : error_code := error_code_new 100507.
Definition LOOP_DETECTED : error_code := error_code_new 100508.
Definition NOT_EXTENDED : error_code := error_code_new 100510.
Definition NETWORK_AUTHENTICATION_REQUIRED : error_code := error_code_new 100511.

(** [ErrorCode::kind]: the arms of the match, in order. *)
Definition KINDS : list (Z * string) :=
  [(100400%Z, "BadRequest");
   (100401%Z, "Unauthorized");
   (100402%Z, "PaymentRequired");
   (100403%Z, "Forbidden");
   (100404%Z, "NotFound");
   (100405%Z, "MethodNotAllowed");
   (100406%Z, "NotAcceptable");
   (100407%Z, "ProxyAuthenticationRequired");
   (100408%Z, "RequestTimeout");
   (100409%Z, "Conflict");
   (100410%Z, "Gone");
   (100411%Z, "LengthRequired");
   (100412%Z, "PreconditionFailed");
   (100413%Z, "PayloadTooLarge");
   (100414%Z, "UriTooLong");
   (100415%Z, "UnsupportedMediaType");
   (100416%Z, "RangeNotSatisfiable");
   (100417%Z, "ExpectationFailed");
   (100418%Z, "ImATeapot");
   (100421%Z, "MisdirectedRequest");
   (100422%Z, "UnprocessableEntity");
   (100423%Z, "Locked");
   (100424%Z, "FailedDependency");
   (100426%Z, "UpgradeRequired");
   (100428%Z, "PreconditionRequired");
   (100429%Z, "TooManyRequests");
   (100431%Z, "RequestHeaderFieldsTooLarge");
   (100451%Z, "UnavailableForLegalReasons");
   (100500%Z, "InternalError");
   (100501%Z, "NotImplemented");
   (100502%Z, "BadGateway");
   (100503%Z, "ServiceUnavailable");
   (100504%Z, "GatewayTimeout");
   (100505%Z, "HttpVersionNotSupported");
   (100506%Z, "VariantAlsoNegotiates");
   (100507%Z, "InsufficientStorage");
   (100508%Z, "LoopDetected");
   (100510%Z, "NotExtended");
   (100511%Z, "NetworkAuthenticationRequired")].

Definition kind (e : error_code) : string :=
  match List.find (fun p => (p.1 =? code e)%Z) KINDS with
  | Some p => p.2
  | None => "CustomError"
  end.

(** [ErrorCode::from_name]: the arms of the match on the normalized name. *)
Definition NAMES : list (string * error_code) :=
  [("BADREQUEST", BAD_REQUEST);
   ("UNAUTHORIZED", UNAUTHORIZED);
   ("PAYMENTREQUIRED", PAYMENT_REQUIRED);
   ("FORBIDDEN", FORBIDDEN);
   ("NOTFOUND", NOT_FOUND);
   ("METHODNOTALLOWED", METHOD_NOT_ALLOWED);
   ("NOTACCEPTABLE", NOT_ACCEPTABLE);
   ("PROXYAUTHENTICATIONREQUIRED", PROXY_AUTHENTICATION_REQUIRED);
   ("REQUESTTIMEOUT", REQUEST_TIMEOUT);
   ("CONFLICT", CONFLICT);
   ("GONE", GONE);
   ("LENGTHREQUIRED", LENGTH_REQUIRED);
   ("PRECONDITIONFAILED", PRECONDITION_FAILED);
   ("PAYLOADTOOLARGE", PAYLOAD_TOO_LARGE);
   ("URITOOLONG", URI_TOO_LONG);
   ("UNSUPPORTEDMEDIATYPE", UNSUPPORTED_MEDIA_TYPE);
   ("RANGENOTSATISFIABLE", RANGE_NOT_SATISFIABLE);
   ("EXPECTATIONFAILED", EXPECTATION_FAILED);
   ("IMATEAPOT", IM_A_TEAPOT);
   ("MISDIRECTEDREQUEST", MISDIRECTED_REQUEST);
   ("UNPROCESSABLEENTITY", UNPROCESSABLE_ENTITY);
   ("LOCKED", LOCKED);
   ("FAILEDDEPENDENCY", FAILED_DEPENDENCY);
   ("UPGRADEREQUIRED", UPGRADE_REQUIRED);
   ("PRECONDITIONREQUIRED", PRECONDITION_REQUIRED);
   ("TOOMANYREQUESTS", TOO_MANY_REQUESTS);
   ("REQUESTHEADERFIELDSTOOLARGE", REQUEST_HEADER_FIELDS_TOO_LARGE);
   ("UNAVAILABLEFORLEGALREASONS", UNAVAILABLE_FOR_LEGAL_REASONS);
   ("INTERNALERROR", INTERNAL_ERROR);
   ("NOTIMPLEMENTED", NOT_IMPLEMENTED);
   ("BADGATEWAY", BAD_GATEWAY);
   ("SERVICEUNAVAILABLE", SERVICE_UNAVAILABLE);
   ("GATEWAYTIMEOUT", GATEWAY_TIMEOUT);
   ("HTTPVERSIONNOTSUPPORTED", HTTP_VERSION_NOT_SUPPORTED);
   ("VARIANTALSONEGOTIATES", VARIANT_ALSO_NEGOTIATES);
   ("INSUFFICIENTSTORAGE", INSUFFICIENT_STORAGE);
   ("LOOPDETECTED", LOOP_DETECTED);
   ("NOTEXTENDED", NOT_EXTENDED);
   ("NETWORKAUTHENTICATIONREQUIRED", NETWORK_AUTHENTICATION_REQUIRED)].

(** Every byte of a character outside ASCII is above 127, so dropping the bytes
    that are not ASCII letters or digits drops those characters. *)
Definition normalize (name : string) : string := string_map to_upper (string_filter is_alnum name).

Definition from_name (name : string) : option error_code :=
  match List.find (fun p => bool_decide (p.1 = normalize name)) NAMES with
  | Some p => Some p.2
  | None => None
  end.

(** [FromStr]; the error is the unit struct [ParseErrorCodeError]. *)
Definition from_str (value : string) : option error_code :=
  match from_name value with
  | Some c => Some c
  | None => option_map error_code_new (parse_unsigned u32_max value)
  end.

(** ** Properties *)

Lemma names_agree :
  forallb (fun p => bool_decide (from_name (kind (ErrorCode p.1)) = Some (ErrorCode p.1))) KINDS = true.
Proof. vm_compute. reflexivity. Qed.

Lemma names_kinds :
  forallb (fun p => bool_decide (normalize (kind p.2) = p.1)) NAMES = true.
Proof. vm_compute. reflexivity. Qed.

Lemma kind_in e : kind e <> "CustomError" -> exists p, p ∈ KINDS /\ p.1 = code e /\ p.2 = kind e.
Proof.
  unfold kind. destruct (List.find _ KINDS) as [p|] eqn:Hf; [|done]. intros _.
  apply List.find_some in Hf as [Hin Heq%Z.eqb_eq]. exists p. split; [by apply list_elem_of_In|done].
Qed.

Lemma from_name_in name e : from_name name = Some e -> (normalize name, e) ∈ NAMES.
Proof.
  unfold from_name. destruct (List.find _ NAMES) as [p|] eqn:Hf; [|done]. intros [= <-].
  apply List.find_some in Hf as [Hin Heq%bool_decide_eq_true]. rewrite <- Heq.
  apply list_elem_of_In. by destruct p.
Qed.

(** Names and codes agree both ways.  The kind of every code that has
    one is a name that parses back to that code; and a name parses to a code
    exactly when it is that code's kind up to case and to characters other than
    ASCII letters and digits. *)
Theorem error_code_names e :
  (kind e <> "CustomError" -> from_str (kind e) = Some e)
  /\ forall name, from_name name = Some e <-> kind e <> "CustomError" /\ normalize name = normalize (kind e).
Proof.
  assert (Hk : kind e <> "CustomError" -> from_name (kind e) = Some e).
  { intros (p & Hp & Hc & _)%kind_in. apply list_elem_of_In in Hp.
    pose proof (proj1 (forallb_forall _ _) names_agree p Hp) as H. apply bool_decide_eq_true in H.
    destruct e as [c]. simpl in Hc. by rewrite Hc in H. }
  split; [intros H; unfold from_str; by rewrite (Hk H)|]. intros name. split.
  - intros Hn%from_name_in. apply list_elem_of_In in Hn.
    pose proof (proj1 (forallb_forall _ _) names_kinds _ Hn) as H. apply bool_decide_eq_true in H.
    simpl in H. split; [|done]. intros Hc. rewrite Hc in H.
    assert (HN : forallb (fun p => negb (bool_decide (p.1 = "CUSTOMERROR"))) NAMES = true) by (vm_compute; reflexivity).
    pose proof (proj1 (forallb_forall _ _) HN _ Hn) as H2. apply negb_true_iff, bool_decide_eq_false in H2.
    apply H2. simpl. rewrite <- H. vm_compute. reflexivity.
  - intros [Hc Hn]. rewrite <- (Hk Hc). unfold from_name. by rewrite Hn.
Qed.

(** *** Witness *)

Lemma error_code_names_witness :
  from_str (kind IM_A_TEAPOT) = Some IM_A_TEAPOT /\ from_name "im-a_teapot" = Some IM_A_TEAPOT.
Proof.
  split.
  - apply (error_code_names IM_A_TEAPOT). vm_compute. intros H. discriminate H.
  - apply (proj2 (error_code_names IM_A_TEAPOT) "im-a_teapot"). split; [|vm_compute; reflexivity].
    vm_compute. intros H. discriminate H.
Defined.
