(* ===== verification/LogLevel.v ===== *)
(** * Log levels: [src/libs/log/level_filter.rs]

    [LogLevel], its conversions to the [tracing] crate's levels, and the
    directives [build_env_filter] adds.  [EnvFilter] belongs to another crate: the
    filter is the sequence of [add_directive] calls. *)

From S2P Require Import Prelude.

Inductive log_level := Off | Error | Warn | Info | Debug | Trace | Detail.

(** [derive(PartialOrd)]: the order of the variants. *)
Definition level_rank (l : log_level) : nat :=
  match l with Off => 0 | Error => 1 | Warn => 2 | Info => 3 | Debug => 4 | Trace => 5 | Detail => 6 end.

(** [tracing::Level] and [tracing::level_filters::LevelFilter], as the source names them. *)
Inductive tlevel := TRACE | DEBUG | INFO | WARN | ERROR.
Inductive level_filter := LF_OFF | LF (l : tlevel).

Definition restrictiveness (l : tlevel) : nat :=
  match l with TRACE => 0 | DEBUG => 1 | INFO => 2 | WARN => 3 | ERROR => 4 end.

Definition is_more_restrictive (a b : tlevel) : bool :=
  Nat.ltb (restrictiveness b) (restrictiveness a).

(** [impl From<LogLevel> for LevelFilter]. *)
Definition to_level_filter (value : log_level) : level_filter :=
  match value with
  | Error => LF ERROR
  | Warn => LF WARN
  | Info => LF INFO
  | Debug => LF DEBUG
  | Trace => LF TRACE
  | Detail => LF TRACE
  | Off => LF_OFF
  end.

(** [impl From<LogLevel> for Level]. *)
Definition to_level (value : log_level) : tlevel :=
  match value with
  | Error => ERROR
  | Warn => WARN
  | Info => INFO
  | Debug => DEBUG
  | Trace => TRACE
  | Off => TRACE
  | Detail => TRACE
  end.

(** A directive: a target, or all targets, and a level. *)
Record directive := Directive { d_target : option string; d_level : tlevel }.

Definition DIRECTIVES : list (tlevel * string) :=
  [(DEBUG, "tungstenite::protocol"); (INFO, "h2"); (INFO, "rustls::client::hs");
   (INFO, "rustls::client::tls13"); (INFO, "hyper::client"); (INFO, "hyper::proto");
   (INFO, "mio"); (INFO, "want"); (INFO, "sqlparser"); (WARN, "opentelemetry");
   (WARN, "opentelemetry_otlp"); (WARN, "opentelemetry_sdk"); (WARN, "tracing_opentelemetry");
   (WARN, "h2"); (WARN, "tower"); (WARN, "hyper_util"); (WARN, "tonic")].

(** The [add_directive] calls, in order. *)
Definition build_env_filter (level : log_level) : list directive :=
  let base := to_level level in
  Directive None base ::
  (if Nat.ltb (level_rank Info) (level_rank level) && negb (Nat.eqb (level_rank level) (level_rank Detail))
   then map (fun p => Directive (Some p.2) p.1)
          (List.filter (fun p => is_more_restrictive p.1 base) DIRECTIVES)
   else []).

Definition level_from_str (s : string) : result log_level string :=
  let l := to_ascii_lowercase s in
  if bool_decide (l = "error") then Ok Error
  else if bool_decide (l = "warn") then Ok Warn
  else if bool_decide (l = "info") then Ok Info
  else if bool_decide (l = "debug") then Ok Debug
  else if bool_decide (l = "trace") then Ok Trace
  else if bool_decide (l = "detail") then Ok Detail
  else if bool_decide (l = "off") then Ok Off
  else Err ("Invalid log level: " +:+ s).

(** What a level filter lets through. *)
Definition allows (f : level_filter) (l : tlevel) : bool :=
  match f with LF_OFF => false | LF m => Nat.leb (restrictiveness m) (restrictiveness l) end.

(** ** Properties *)

(** What [build_env_filter] adds.  The first directive is the base level
    for all targets; the crate directives that follow exist only at [Debug] and
    [Trace], come from the table, and each is strictly more restrictive than
    the base, so none of them makes a crate noisier. *)
Theorem env_filter_caps level :
  exists caps, build_env_filter level = Directive None (to_level level) :: caps
  /\ (caps <> [] -> level = Debug \/ level = Trace)
  /\ (forall d, d ∈ caps -> (exists t, d_target d = Some t /\ (d_level d, t) ∈ DIRECTIVES)
                            /\ is_more_restrictive (d_level d) (to_level level) = true).
Proof.
  eexists. split; [reflexivity|]. split; [by destruct level; auto|]. intros d.
  destruct (_ && _); [|set_solver].
  intros ([l t] & <- & [Hin Hr]%List.filter_In)%list_elem_of_In%in_map_iff.
  split; [|done]. exists t. split; [done|by apply list_elem_of_In].
Qed.

(** The two conversions of [LogLevel] agree on every level except [Off]:
    there the level filter lets nothing through, while the base directive that
    [build_env_filter] adds is [TRACE], which lets everything through. *)
Theorem off_divergence level l :
  allows (to_level_filter level) l
  = (match level with Off => false | _ => allows (LF (d_level (List.hd (Directive None ERROR) (build_env_filter level)))) l end)
  /\ allows (LF (d_level (List.hd (Directive None ERROR) (build_env_filter Off)))) l = true.
Proof. by destruct level, l. Qed.
