(* ===== verification/Peer.v ===== *)
(** * Peer identity and extensions: [src/libs/peer.rs]

    [Extensions] is a map keyed by [TypeId] whose values are boxed [dyn Any]: a
    value carries its own type, and [downcast] succeeds when it is the type
    asked for. *)

From S2P Require Import Prelude.

(** ** Addresses of [std::net] *)

Inductive ip_addr := V4 (a b c d : Z) | V6 (segments : list Z).
Record socket_addr := SocketAddr { sa_ip : ip_addr; sa_port : Z }.

Definition LOCALHOST : ip_addr := V4 127 0 0 1.

(** ** [PeerIdentity] *)

Inductive attestation :=
  | AttestNone
  | Verified (mechanism subject : string).

Record local_peer := LocalPeer {
  lp_pid : option Z;
  lp_uid : option Z;
  lp_attestation : attestation;
}.

Inductive peer_identity :=
  | Network (addr : socket_addr)
  | Local (p : local_peer)
  | Unknown.

Definition is_verified (a : attestation) : bool :=
  match a with Verified _ _ => true | AttestNone => false end.

Definition peer_ip_addr (p : peer_identity) : ip_addr :=
  match p with Network addr => sa_ip addr | Local _ | Unknown => LOCALHOST end.

Definition peer_socket_addr (p : peer_identity) : socket_addr :=
  match p with Network addr => addr | Local _ | Unknown => SocketAddr (V4 127 0 0 1) 0 end.

Definition peer_attestation (p : peer_identity) : option attestation :=
  match p with Local p => Some (lp_attestation p) | _ => None end.

(** [addr_to_string] is the [Display] of [SocketAddr]. *)
Definition peer_display (addr_to_string : socket_addr -> string) (p : peer_identity) : string :=
  match p with
  | Network addr => addr_to_string addr
  | Local p =>
      let pid := match lp_pid p with Some pid => pretty pid | None => "?" end in
      match lp_attestation p with
      | Verified mechanism _ => "local(pid=" +:+ pid +:+ "," +:+ mechanism +:+ ")"
      | AttestNone => "local(pid=" +:+ pid +:+ ",unattested)"
      end
  | Unknown => "unknown"
  end.
(** [Display] and [From<SocketAddr>]. *)
Definition peer_fmt (addr_to_string : socket_addr -> string) (p : peer_identity) : string := peer_display addr_to_string p.
Definition peer_from (addr : socket_addr) : peer_identity := Network addr.

(** ** [Extensions] *)

(** [TypeId] is opaque and comparable; the values of every type are in [V]. *)
Section extensions.
Context {V : Type}.

Record any := Any { any_type : Z; any_value : V }.

(** [downcast], [downcast_ref] and [downcast_mut]. *)
Definition downcast (t : Z) (a : any) : option V :=
  if decide (any_type a = t) then Some (any_value a) else None.

Definition ext_new : gmap Z any := ∅.

Definition ext_insert (t : Z) (value : V) (e : gmap Z any) : gmap Z any * option V :=
  (<[t := Any t value]> e, e !! t ≫= downcast t).
Definition ext_get (t : Z) (e : gmap Z any) : option V := e !! t ≫= downcast t.
(** [get_mut], with the write through the borrow. *)
Definition ext_update (t : Z) (f : V -> V) (e : gmap Z any) : gmap Z any :=
  match e !! t ≫= downcast t with
  | Some v => <[t := Any t (f v)]> e
  | None => e
  end.
Definition ext_remove (t : Z) (e : gmap Z any) : gmap Z any * option V :=
  (delete t e, e !! t ≫= downcast t).
Definition ext_contains (t : Z) (e : gmap Z any) : bool := bool_decide (is_Some (e !! t)).
Definition ext_len (e : gmap Z any) : nat := size e.
Definition ext_is_empty (e : gmap Z any) : bool := Nat.eqb (ext_len e) 0.

(** Every box is stored under the type it holds. *)
Definition ext_wf (e : gmap Z any) : Prop := forall t a, e !! t = Some a -> any_type a = t.

Inductive ext_op :=
  | ExtInsert (t : Z) (value : V) | ExtUpdate (t : Z) (f : V -> V) | ExtRemove (t : Z).

Definition ext_run (e : gmap Z any) (o : ext_op) : gmap Z any :=
  match o with
  | ExtInsert t value => (ext_insert t value e).1
  | ExtUpdate t f => ext_update t f e
  | ExtRemove t => (ext_remove t e).1
  end.

Lemma ext_wf_insert t v e : ext_wf e -> ext_wf (<[t := Any t v]> e).
Proof.
  intros Hwf t' a. rewrite lookup_insert_Some. intros [[<- <-]|[_ H]]; [done|by apply Hwf].
Qed.

Lemma ext_run_wf e o : ext_wf e -> ext_wf (ext_run e o).
Proof.
  intros Hwf. destruct o as [t v|t f|t]; simpl; [by apply ext_wf_insert| |].
  - unfold ext_update. destruct (_ ≫= _); [by apply ext_wf_insert|done].
  - intros t' a. rewrite lookup_delete_Some. intros [_ H]. by apply Hwf.
Qed.

Lemma ext_run_all_wf ops : ext_wf (fold_left ext_run ops ext_new).
Proof.
  apply (Forall_fold_left ext_wf); [|intros; by apply ext_run_wf].
  intros t a. unfold ext_new. by rewrite lookup_empty.
Qed.

(** The map as its user sees it: a partial function from types to values. *)
Definition ext_abs (e : gmap Z any) (t : Z) : option V := any_value <$> e !! t.

Lemma ext_get_abs e t : ext_wf e -> ext_get t e = ext_abs e t.
Proof.
  intros Hwf. unfold ext_get, ext_abs. destruct (e !! t) as [a|] eqn:Ha; [|done]. simpl.
  unfold downcast. by rewrite decide_True by (by apply Hwf).
Qed.

(** No downcast fails.  In every map built by the operations,
    [contains] and [get] agree, [get] after [insert] returns the inserted value,
    [insert] and [remove] return the value [get] gave before, and the values of
    other types are untouched. *)
Theorem extensions_spec ops t v t' :
  let e := fold_left ext_run ops ext_new in
  ext_contains t e = bool_decide (is_Some (ext_get t e))
  /\ ext_get t' (ext_insert t v e).1 = (if decide (t' = t) then Some v else ext_get t' e)
  /\ (ext_insert t v e).2 = ext_get t e
  /\ ext_get t' (ext_remove t e).1 = (if decide (t' = t) then None else ext_get t' e)
  /\ (ext_remove t e).2 = ext_get t e.
Proof.
  intros e. pose proof (ext_run_all_wf ops : ext_wf e) as Hwf. split_and!; try done.
  - rewrite ext_get_abs by done. unfold ext_contains, ext_abs.
    apply bool_decide_ext. by rewrite fmap_is_Some.
  - unfold ext_get. simpl. destruct (decide (t' = t)) as [->|Hne].
    + rewrite lookup_insert_eq. simpl. unfold downcast. simpl. by rewrite decide_True.
    + by rewrite lookup_insert_ne.
  - unfold ext_get. simpl. destruct (decide (t' = t)) as [->|Hne].
    + by rewrite lookup_delete_eq.
    + by rewrite lookup_delete_ne.
Qed.
End extensions.
Arguments any V : clear implicits.
Abbreviation extensions V := (gmap Z (any V)).
Arguments ext_op V : clear implicits.
