(* ===== verification/Basics.v ===== *)
(** * Requests, responses and errors: [src/libs/ws/basics.rs], and the error and
    context half of [src/libs/ws/toolbox.rs]

    The types every layer of the server shares.  [V] is the type of the values an
    [Extensions] map holds. *)

From S2P Require Import Prelude BMap Json ModelTypes ErrorCode LogLevel Peer.

(** [WsRequestGeneric<Value>]. *)
Record ws_request := WsRequest { rq_method : Z; rq_seq : Z; rq_params : json }.

Record ws_response_error := WsResponseError {
  re_method : Z;
  re_code : Z;
  re_seq : Z;
  re_log_id : string;
  re_params : json;
}.

(** [WsResponseGeneric<Box<RawValue>>]: the raw payloads are JSON values. *)
Inductive ws_response :=
  | Immediate (method seq : Z) (params : json)
  | Stream (original_seq method stream_seq stream_code : Z) (data : json)
  | RError (e : ws_response_error)
  | Log (seq log_id : Z) (level : log_level) (message : string)
  | Forwarded (method seq : Z)
  | RClose.

(** ** [CustomError] *)

Record custom_error := CustomError { ce_code : error_code; ce_params : json }.

Definition custom_error_new (c : error_code) : custom_error := CustomError c (JObj []).

Definition insert_param (e : custom_error) (k : string) (v : json) : custom_error :=
  match ce_params e with
  | JObj map => CustomError (ce_code e) (JObj (bm_insert k v map))
  | _ => e
  end.

Definition with_message (e : custom_error) (message : string) : custom_error :=
  insert_param e "message" (JStr message).
Definition with_kind (e : custom_error) (kind : string) : custom_error :=
  insert_param e "kind" (JStr kind).

Definition reserved_key (k : string) : bool := bool_decide (k = "kind") || bool_decide (k = "message").

Definition merge_details (params details : list (string * json)) : list (string * json) :=
  fold_left (fun params p => if reserved_key p.1 then params else bm_insert p.1 p.2 params) details params.

(** [details] is the outcome of [serde_json::to_value]; an error is [Null]. *)
Definition with_details (e : custom_error) (details : result json string) : custom_error :=
  let details := match details with Ok v => v | Err _ => JNull end in
  match ce_params e with
  | JObj params =>
      match details with
      | JObj details => CustomError (ce_code e) (JObj (merge_details params details))
      | JNull => e
      | value => CustomError (ce_code e) (JObj (bm_insert "details" value params))
      end
  | _ => e
  end.

(** [u32::from_str_radix(err, 36)]. *)
Definition digit36 (a : ascii) : option Z :=
  if is_digit a then Some (byte_val a - 48)%Z
  else if is_lower a then Some (byte_val a - 87)%Z
  else if is_upper a then Some (byte_val a - 55)%Z
  else None.

Fixpoint parse_radix36 (acc : Z) (s : string) : option Z :=
  match s with
  | EmptyString => Some acc
  | String a s =>
      match digit36 a with
      | Some d => let acc := (acc * 36 + d)%Z in
                  if (acc <=? u32_max)%Z then parse_radix36 acc s else None
      | None => None
      end
  end.

Definition from_str_radix36 (s : string) : option Z :=
  match s with
  | EmptyString => None
  | String a r =>
      if ascii_dec a "+" then match r with EmptyString => None | _ => parse_radix36 0 r end
      else parse_radix36 0 s
  end.

Definition from_sql_error (err msg : string) : option custom_error :=
  option_map (fun c => with_message (custom_error_new (error_code_new c)) msg) (from_str_radix36 err).

(** ** Connections and contexts *)

Section context.
Context {V : Type}.

Record ws_connection := WsConnection {
  c_connection_id : Z;   (* u32 *)
  c_user_id : Z;         (* AtomicU64 *)
  c_roles : list Z;
  c_peer : peer_identity;
  c_extensions : extensions V;
  c_log_id : Z;
}.

(** [get_user_id], [get_roles] and the address of the peer. *)
Definition get_user_id (c : ws_connection) : Z := c_user_id c.
Definition get_roles (c : ws_connection) : list Z := c_roles c.
Definition conn_address (c : ws_connection) : socket_addr := peer_socket_addr (c_peer c).

Definition set_user_id (c : ws_connection) (user_id : Z) : ws_connection :=
  WsConnection (c_connection_id c) user_id (c_roles c) (c_peer c) (c_extensions c) (c_log_id c).
Definition set_roles (c : ws_connection) (roles : list Z) : ws_connection :=
  WsConnection (c_connection_id c) (c_user_id c) roles (c_peer c) (c_extensions c) (c_log_id c).

Record request_context := RequestContext {
  x_connection_id : Z;
  x_user_id : Z;
  x_seq : Z;
  x_method : Z;
  x_log_id : Z;
  x_roles : list Z;
  x_ip_addr : ip_addr;
  x_peer : peer_identity;
  x_extensions : extensions V;
}.

Definition context_empty : request_context :=
  RequestContext 0 0 0 0 0 [] (V4 0 0 0 0) Unknown ext_new.

Definition from_conn (conn : ws_connection) : request_context :=
  RequestContext (c_connection_id conn) (c_user_id conn) 0 0 (c_log_id conn) (c_roles conn)
    (peer_ip_addr (c_peer conn)) (c_peer conn) (c_extensions conn).

(** [context.seq = ..; context.method = ..; context.user_id = ..; context.roles = ..]. *)
Definition for_request (ctx : request_context) (seq method user_id : Z) (roles : list Z) : request_context :=
  RequestContext (x_connection_id ctx) user_id seq method (x_log_id ctx) roles (x_ip_addr ctx)
    (x_peer ctx) (x_extensions ctx).

(** The error response the source builds in place: [kind] and [message]. *)
Definition error_response (ctx : request_context) (c : error_code) (params : list (string * json)) : ws_response :=
  RError (WsResponseError (x_method ctx) (to_u32 c) (x_seq ctx) (pretty (x_log_id ctx)) (jobj params)).

(** [internal_error_to_resp]: the error itself only goes to the log. *)
Definition internal_error_to_resp (ctx : request_context) (c : error_code) : ws_response :=
  error_response ctx c [("kind", JStr (kind c))].

Definition custom_error_to_resp (ctx : request_context) (e : custom_error) : ws_response :=
  RError (WsResponseError (x_method ctx) (to_u32 (ce_code e)) (x_seq ctx) (pretty (x_log_id ctx)) (ce_params e)).
End context.
Arguments ws_connection V : clear implicits.
Arguments request_context V : clear implicits.

(** ** Lemmas *)

Lemma merge_details_wf details : forall params, bm_wf params -> bm_wf (merge_details params details).
Proof.
  intros params Hp. apply (Forall_fold_left bm_wf); [done|]. intros m p _ Hm.
  destruct (reserved_key p.1); [done|by apply bm_insert_wf].
Qed.

Lemma merge_details_get details : forall params k, bm_wf details ->
  bm_get k (merge_details params details)
  = match (if reserved_key k then None else bm_get k details) with Some v => Some v | None => bm_get k params end.
Proof.
  unfold merge_details. induction details as [|[k' v] details IH]; intros params k Hwf; simpl.
  - by destruct (reserved_key k).
  - inversion Hwf as [|? ? ? Hlt Hwf']; subst. rewrite IH by done.
    destruct (decide (k = k')) as [->|Hne].
    + destruct (reserved_key k') eqn:Hr; [done|]. rewrite bm_get_insert_eq.
      destruct (bm_get k' details) eqn:Hg; [|done].
      apply bm_get_Some_keys, Hlt in Hg. by apply str_lt_irrefl in Hg.
    + destruct (reserved_key k'); [done|]. by rewrite bm_get_insert_ne.
Qed.

Lemma digit36_range a d : digit36 a = Some d -> (0 <= d < 36)%Z.
Proof.
  unfold digit36, is_digit, is_lower, is_upper, in_range. intros H.
  repeat match type of H with
  | (if ?b then _ else _) = _ => destruct b eqn:?
  end; simplify_eq;
  match goal with E : (_ && _) = true |- _ => apply andb_true_iff in E as [?%Z.leb_le ?%Z.leb_le]; lia end.
Qed.

Lemma parse_radix36_range s : forall acc n,
  (0 <= acc <= u32_max)%Z -> parse_radix36 acc s = Some n -> (0 <= n <= u32_max)%Z.
Proof.
  induction s as [|a s IH]; intros acc n Hacc; simpl; [by intros [= <-]|].
  destruct (digit36 a) as [d|] eqn:Hd; [|done]. apply digit36_range in Hd.
  destruct (Z.leb_spec (acc * 36 + d) u32_max); [|done]. apply IH. lia.
Qed.

(** ** Properties *)

(** [with_details] adds but never disguises.  On an error whose
    parameters are an object, no details can change [kind] or [message]; the other
    members of an object of details are set; a value that is not an object goes
    under [details]; null, or details that fail to serialize, change nothing. *)
Theorem with_details_spec c params details k :
  bm_wf details ->
  bm_get k (merge_details params details)
    = (if reserved_key k then bm_get k params
       else match bm_get k details with Some v => Some v | None => bm_get k params end)
  /\ with_details (CustomError c (JObj params)) (Ok (JObj details)) = CustomError c (JObj (merge_details params details))
  /\ (forall v, is_null v = false -> (forall m, v <> JObj m) ->
      with_details (CustomError c (JObj params)) (Ok v) = insert_param (CustomError c (JObj params)) "details" v)
  /\ (forall e, with_details (CustomError c (JObj params)) (Err e) = CustomError c (JObj params))
  /\ with_details (CustomError c (JObj params)) (Ok JNull) = CustomError c (JObj params).
Proof.
  intros Hwf. split_and!; try done.
  - rewrite merge_details_get by done. by destruct (reserved_key k).
  - intros v Hn Ho. destruct v; try done. by destruct (Ho m).
Qed.

(** [from_sql_error] reads a code that fits a [u32] and carries the
    message under [message]. *)
Theorem from_sql_error_spec err msg e :
  from_sql_error err msg = Some e ->
  (0 <= to_u32 (ce_code e) <= u32_max)%Z /\ ce_params e = JObj [("message", JStr msg)].
Proof.
  unfold from_sql_error. destruct (from_str_radix36 err) as [n|] eqn:Hn; [|done]. intros [= <-].
  split; [|done]. simpl. unfold from_str_radix36 in Hn. destruct err as [|a r]; [done|].
  destruct (ascii_dec a "+"); [destruct r; [done|]|];
    (eapply parse_radix36_range; [|exact Hn]; unfold u32_max; lia).
Qed.

(** *** Witnesses *)

Lemma with_details_spec_witness :
  bm_get "kind" (merge_details [("kind", JStr "NotFound")] [("id", JInt 7); ("kind", JStr "Fake")]) = Some (JStr "NotFound").
Proof.
  apply (with_details_spec NOT_FOUND [("kind", JStr "NotFound")] [("id", JInt 7); ("kind", JStr "Fake")] "kind").
  apply bm_wf_cons; [|apply bm_wf_cons; [intros k H; apply elem_of_nil in H; destruct H|apply bm_wf_nil]].
  intros k H. apply elem_of_cons in H as [->|H]; [vm_compute; reflexivity|apply elem_of_nil in H; destruct H].
Defined.

Lemma from_sql_error_spec_witness :
  (0 <= to_u32 (error_code_new 46655) <= u32_max)%Z
  /\ ce_params (with_message (custom_error_new (error_code_new 46655)) "no row") = JObj [("message", JStr "no row")].
Proof. apply (from_sql_error_spec "ZzZ" "no row" (with_message (custom_error_new (error_code_new 46655)) "no row")). vm_compute. reflexivity. Defined.
