(* ===== verification/Toolbox.v ===== *)
(** * The toolbox: [src/libs/ws/toolbox.rs] and [src/libs/ws/conn.rs]

    [WebsocketStates] is the table of live connections; every connection has an
    outbound queue ([Outbound]) and a policy-close flag ([Shutdown], a boolean
    that sticks).  The toolbox reaches a connection through the table.

    Parameters: [to_string] is [serde_json::to_string] on a response, [render] is
    [Value::to_string]; a handler's success is given as the outcome of its
    serialization. *)

From S2P Require Import Prelude BMap Json ErrorCode LogLevel Peer Message Outbound ServerConfig Limits Basics.

(** ** The shared state *)

Record stream_state := WsStreamState {
  message_queue : inner wire_message;
  end_flag : bool;
}.

(** What the connections, the toolbox and the handlers share.  [conns] holds the
    [Arc<WsConnection>]s by connection id. *)
Record world (V : Type) := World {
  states : gmap Z stream_state;
  conns : gmap Z (ws_connection V);
  lim : limit_state;
  limit_events : list limit_event;
}.
Arguments World {V} _ _ _ _.
Arguments states {V} _.
Arguments conns {V} _.
Arguments lim {V} _.
Arguments limit_events {V} _.

Definition set_states {V} (w : world V) (s : gmap Z stream_state) : world V :=
  World s (conns w) (lim w) (limit_events w).
Definition set_limits {V} (w : world V) (l : limit_state) (ev : list limit_event) : world V :=
  World (states w) (conns w) l (limit_events w ++ ev).

(** [WebsocketStates]. *)
Definition states_insert {V} (connection_id : Z) (message_queue : inner wire_message) (w : world V) : world V :=
  set_states w (<[connection_id := WsStreamState message_queue false]> (states w)).
Definition states_remove {V} (connection_id : Z) (w : world V) : world V :=
  set_states w (delete connection_id (states w)).
Definition get_state {V} (connection_id : Z) (w : world V) : option stream_state := states w !! connection_id.

(** ** [enqueue] *)

(** [close_for_policy]: the [Close] frame takes a slot if there is one; [end] is
    cancelled in any case, when the caller has it. *)
Definition close_for_policy (sender : inner wire_message) (end_ : option bool) : inner wire_message * option bool :=
  let '(_, sender, _) := try_send sender (Close None) in
  (sender, option_map (fun _ => true) end_).

Definition enqueue (sender : inner wire_message) (end_ : option bool) (serialized : string)
    (oneshot drop_on_full : bool) : inner wire_message * option bool :=
  let '(sender, end_) :=
    match try_send sender (Text (bytes_of_string serialized)) with
    | (Ok _, sender, _) => (sender, end_)
    | (Err (Full _), sender, _) => if drop_on_full then close_for_policy sender end_ else (sender, end_)
    | (Err (Closed _), sender, _) => (sender, end_)
    end in
  if oneshot then close_for_policy sender end_ else (sender, end_).

(** [send_serialized_ws_msg] and [send_ws_msg], without the flag. *)
Definition send_serialized_ws_msg (sender : inner wire_message) (serialized : string) (oneshot drop_on_full : bool) :=
  (enqueue sender None serialized oneshot drop_on_full).1.
Definition send_ws_msg (to_string : ws_response -> result string string) (sender : inner wire_message)
    (resp : ws_response) (oneshot drop_on_full : bool) : inner wire_message :=
  match to_string resp with
  | Ok s => (enqueue sender None s oneshot drop_on_full).1
  | Err _ => sender
  end.

(** ** [Toolbox] *)

(** The two [OnceLock]s hold the closures [set_ws_states] makes; a closure is
    what it captured besides the shared table. *)
Record send_fn := SendFn { oneshot : bool; drop_on_buffer_full : bool }.
Record toolbox := MkToolbox { send_msg : option send_fn; send_raw_msg : option send_fn }.

Definition toolbox_new : toolbox := MkToolbox None None.

Definition once_set {A} (cell : option A) (v : A) : option A :=
  match cell with Some a => Some a | None => Some v end.

Definition set_ws_states (t : toolbox) (oneshot drop_on_buffer_full : bool) : toolbox :=
  MkToolbox (once_set (send_msg t) (SendFn oneshot drop_on_buffer_full))
    (once_set (send_raw_msg t) (SendFn oneshot drop_on_buffer_full)).

Section toolbox.
Context {V : Type} (to_string : ws_response -> result string string).

(** [Self::enqueue(&state.message_queue, Some(&state.end), ..)]. *)
Definition enqueue_state (f : send_fn) (serialized : string) (s : stream_state) : stream_state :=
  let '(q, end_) := enqueue (message_queue s) (Some (end_flag s)) serialized (oneshot f) (drop_on_buffer_full f) in
  WsStreamState q (default (end_flag s) end_).

Definition put_state (w : world V) (conn_id : Z) (s : stream_state) : world V :=
  set_states w (<[conn_id := s]> (states w)).

(** The two closures, called. *)
Definition send_closure (f : send_fn) (w : world V) (conn_id : Z) (resp : ws_response) : bool * world V :=
  match states w !! conn_id with
  | None => (false, w)
  | Some state =>
      match to_string resp with
      | Err _ => (true, w)
      | Ok serialized => (true, put_state w conn_id (enqueue_state f serialized state))
      end
  end.
Definition send_raw_closure (f : send_fn) (w : world V) (conn_id : Z) (serialized : string) : bool * world V :=
  match states w !! conn_id with
  | None => (false, w)
  | Some state => (true, put_state w conn_id (enqueue_state f serialized state))
  end.

Definition send (t : toolbox) (w : world V) (conn_id : Z) (resp : ws_response) : bool * world V :=
  match send_msg t with Some f => send_closure f w conn_id resp | None => (false, w) end.
Definition send_raw (t : toolbox) (w : world V) (conn_id : Z) (serialized : string) : bool * world V :=
  match send_raw_msg t with Some f => send_raw_closure f w conn_id serialized | None => (false, w) end.

Definition serialize_failed (ctx : request_context V) : ws_response :=
  error_response ctx INTERNAL_ERROR
    [("kind", JStr (kind INTERNAL_ERROR)); ("message", JStr "Failed to serialize response")].

(** [to_raw_value] of a success, or the internal error of a failed serialization. *)
Definition encode_ok (ctx : request_context V) (ok : result json string) : ws_response :=
  match ok with
  | Ok params => Immediate (x_method ctx) (x_seq ctx) params
  | Err _ => serialize_failed ctx
  end.

Definition send_response (t : toolbox) (w : world V) (ctx : request_context V) (resp : result json string) : world V :=
  (send t w (x_connection_id ctx) (encode_ok ctx resp)).2.
Definition send_internal_error (t : toolbox) (w : world V) (ctx : request_context V) (c : error_code) : world V :=
  (send t w (x_connection_id ctx) (internal_error_to_resp ctx c)).2.
Definition request_error (ctx : request_context V) (c : error_code) (err : string) : ws_response :=
  error_response ctx c [("kind", JStr (kind c)); ("message", JStr err)].
Definition send_request_error (t : toolbox) (w : world V) (ctx : request_context V) (c : error_code) (err : string) : world V :=
  (send t w (x_connection_id ctx) (request_error ctx c err)).2.
Definition send_log (t : toolbox) (w : world V) (ctx : request_context V) (level : log_level) (msg : string) : world V :=
  (send t w (x_connection_id ctx) (Log (x_seq ctx) (x_log_id ctx) level msg)).2.

(** [encode_ws_response]: the error is an [eyre::Error], tested by type. *)
Inductive eyre_error := ENoResponse | ECustom (e : custom_error) | EOther (what : string).

Definition encode_ws_response (ctx : request_context V) (resp : result (result json string) eyre_error) : option ws_response :=
  match resp with
  | Ok ok => Some (encode_ok ctx ok)
  | Err ENoResponse => None
  | Err (ECustom err) => Some (custom_error_to_resp ctx err)
  | Err (EOther _) => Some (internal_error_to_resp ctx INTERNAL_ERROR)
  end.

(** [HandlerError<E>] after [E: Into<CustomError>]. *)
Inductive handler_error := Public (e : custom_error) | Internal (report : string) | NoResponse.

(** [HandlerError::internal], [no_response], [From<E>], and [HandlerResultExt]: [report]
    is [Into<eyre::Report>]. *)
Definition handler_error_internal {R} (report : R -> string) (err : R) : handler_error := Internal (report err).
Definition handler_error_no_response : handler_error := NoResponse.
Definition handler_error_from (err : custom_error) : handler_error := Public err.
Definition result_internal {T R} (report : R -> string) (r : result T R) : result T handler_error :=
  map_err (handler_error_internal report) r.

(** [Display] of [NoResponseError], [CustomError] and [ToolboxAccessError]. *)
Definition no_response_fmt : string := "NoResp".
Definition custom_error_fmt (render : json -> string) (e : custom_error) : string := render (ce_params e).
Definition toolbox_access_error_fmt : string := "TOOLBOX is not set for this poll".

Definition handler_response : Type := result (result json string) handler_error.

Definition encode_handler_response (ctx : request_context V) (resp : handler_response) : option ws_response :=
  match resp with
  | Ok ok => Some (encode_ok ctx ok)
  | Err (Public err) => Some (custom_error_to_resp ctx err)
  | Err (Internal _) => Some (internal_error_to_resp ctx INTERNAL_ERROR)
  | Err NoResponse => None
  end.

(** An error a handler turns into an internal one reaches the client without its text. *)
Lemma internal_hides ctx {R} (report : R -> string) (r : result (result json string) R) :
  encode_handler_response ctx (result_internal report r)
  = Some (match r with Ok ok => encode_ok ctx ok | Err _ => internal_error_to_resp ctx INTERNAL_ERROR end).
Proof. by destruct r. Qed.
End toolbox.

(** ** [TOOLBOX]

    The thread-local slot, and one poll of a future.  A poll is the tree of what it does
    synchronously: [try_with] and [with], whose closure may itself do any of these
    things; polls of inner scoped futures; and possibly a panic at the end, which
    unwinds. *)
Inductive poll_tree :=
  | PReturn
  | PPanic
  | PTryWith (f k : poll_tree)
  | PWith (f k : poll_tree)
  | PScope (value : Z) (inner k : poll_tree).

(** [slot.take()], then [slot.set(current.clone())]: what is read, and the slot. *)
Definition read_slot (slot : option Z) : option Z * option Z :=
  let '(current, _) := (slot, @None Z) in
  let slot := current in
  (current, slot).

(** The slot and the trace of reads after the poll, and whether it panicked.
    [PScope] is [ToolboxScope::poll]: [replace], poll, and [Restore::drop] on every
    way out. *)
Fixpoint run_poll (t : poll_tree) (slot : option Z) (reads : list (option Z))
    : option Z * list (option Z) * bool :=
  match t with
  | PReturn => (slot, reads, false)
  | PPanic => (slot, reads, true)
  | PTryWith f k =>
      let '(current, slot) := read_slot slot in
      match current with
      | Some _ =>
          let '(slot, reads, panicked) := run_poll f slot (reads ++ [current]) in
          if panicked then (slot, reads, true) else run_poll k slot reads
      | None => run_poll k slot (reads ++ [current])
      end
  | PWith f k =>
      let '(current, slot) := read_slot slot in
      match current with
      | Some _ =>
          let '(slot, reads, panicked) := run_poll f slot (reads ++ [current]) in
          if panicked then (slot, reads, true) else run_poll k slot reads
      | None => (slot, reads ++ [current], true)
      end
  | PScope value inner k =>
      let previous := slot in
      let '(_, reads, panicked) := run_poll inner (Some value) reads in
      let slot := previous in
      if panicked then (slot, reads, true) else run_poll k slot reads
  end.

(** What each read should see: the value of the innermost scope around it. *)
Fixpoint expected_reads (t : poll_tree) (scope : option Z) : list (option Z) * bool :=
  let seq (r1 : list (option Z) * bool) (k : poll_tree) :=
    if r1.2 then r1 else let r2 := expected_reads k scope in (r1.1 ++ r2.1, r2.2) in
  match t with
  | PReturn => ([], false)
  | PPanic => ([], true)
  | PTryWith f k =>
      let r := seq (match scope with Some _ => expected_reads f scope | None => ([], false) end) k in (scope :: r.1, r.2)
  | PWith f k =>
      match scope with
      | Some _ => let r := seq (expected_reads f scope) k in (scope :: r.1, r.2)
      | None => ([scope], true)
      end
  | PScope value inner k => seq (expected_reads inner (Some value)) k
  end.

(** ** Lemmas *)

Lemma close_for_policy_spec q e :
  close_for_policy q e =
    (if receiver_alive q && Nat.ltb (length (queue q)) (capacity q)
     then with_waker (with_queue q (queue q ++ [Close None])) None else q,
     option_map (fun _ => true) e).
Proof.
  unfold close_for_policy, try_send. destruct (receiver_alive q); simpl; [|done].
  destruct (Nat.leb_spec (capacity q) (length (queue q))), (Nat.ltb_spec (length (queue q)) (capacity q)); try lia; done.
Qed.

(** Only the stream state of connection [c] may differ, and it stays registered. *)
Definition only_conn {V} (c : Z) (w w' : world V) : Prop :=
  (forall c', c' <> c -> states w' !! c' = states w !! c')
  /\ (is_Some (states w' !! c) <-> is_Some (states w !! c))
  /\ conns w' = conns w /\ lim w' = lim w /\ limit_events w' = limit_events w.

Lemma only_conn_refl {V} c (w : world V) : only_conn c w w.
Proof. done. Qed.

Lemma only_conn_put {V} c (w : world V) s : is_Some (states w !! c) -> only_conn c w (put_state w c s).
Proof.
  intros Hs. split_and!; try done; simpl.
  - intros c' Hne. by rewrite lookup_insert_ne.
  - rewrite lookup_insert_eq. split; eauto.
Qed.

(** The outcomes of [send] and [send_raw]. *)
Definition sent {V} (c : Z) (w : world V) (b : bool) (w' : world V) : Prop :=
  (b = false /\ w' = w) \/ (b = true /\ is_Some (states w !! c) /\ only_conn c w w').

Lemma send_sent {V} ts t (w : world V) c resp : sent c w (send ts t w c resp).1 (send ts t w c resp).2.
Proof.
  unfold send, send_closure. destruct (send_msg t); [|by left]. destruct (states w !! c) eqn:Hs; [|by left]. right.
  destruct (ts resp); simpl; rewrite Hs; split_and!; try done. apply only_conn_put. by rewrite Hs.
Qed.

Lemma send_raw_sent {V} t (w : world V) c s : sent c w (send_raw t w c s).1 (send_raw t w c s).2.
Proof.
  unfold send_raw, send_raw_closure. destruct (send_raw_msg t); [|by left]. destruct (states w !! c) eqn:Hs; [|by left]. right.
  simpl. rewrite Hs. split_and!; try done. apply only_conn_put. by rewrite Hs.
Qed.

Lemma send_only_conn {V} ts t (w : world V) c resp : only_conn c w (send ts t w c resp).2.
Proof. destruct (send_sent ts t w c resp) as [[_ ->]|(_ & _ & H)]; done. Qed.
Lemma send_raw_only_conn {V} t (w : world V) c s : only_conn c w (send_raw t w c s).2.
Proof. destruct (send_raw_sent t w c s) as [[_ ->]|(_ & _ & H)]; done. Qed.

(** ** Properties *)

(** The policy of [enqueue], on every queue.  The frame is queued
    exactly when the receiver is alive and there is room; a [Close] frame follows
    only for a one-shot connection that still has room for it; and the flag is
    set for a one-shot connection or when a full queue drops the connection.  So
    when the queue is full the connection is dropped through the flag alone: no
    [Close] frame is queued. *)
Theorem enqueue_policy q e s oneshot drop :
  let room := receiver_alive q && Nat.ltb (length (queue q)) (capacity q) in
  let room2 := receiver_alive q && Nat.ltb (S (length (queue q))) (capacity q) in
  let full := receiver_alive q && Nat.leb (capacity q) (length (queue q)) in
  let '(q', e') := enqueue q (Some e) s oneshot drop in
  queue q' = queue q ++ (if room then Text (bytes_of_string s) :: (if oneshot && room2 then [Close None] else []) else [])
  /\ e' = Some (e || oneshot || (full && drop)).
Proof.
  unfold enqueue, try_send. destruct (receiver_alive q) eqn:Ha; simpl.
  - destruct (Nat.leb_spec (capacity q) (length (queue q))) as [Hf|Hf].
    + destruct (Nat.ltb_spec (length (queue q)) (capacity q)); [lia|]. rewrite app_nil_r.
      destruct drop, oneshot; rewrite ?close_for_policy_spec; simpl; rewrite ?close_for_policy_spec, ?Ha; simpl;
        destruct (Nat.ltb_spec (length (queue q)) (capacity q)); try lia; simpl;
        rewrite ?Ha; simpl; try (destruct (Nat.ltb_spec (length (queue q)) (capacity q)); try lia);
        by destruct e.
    + destruct (Nat.ltb_spec (length (queue q)) (capacity q)); [|lia].
      destruct oneshot; simpl; [|by destruct e, drop].
      rewrite close_for_policy_spec. simpl. rewrite Ha, length_app. simpl.
      replace (length (queue q) + 1) with (S (length (queue q))) by lia.
      destruct (Nat.ltb_spec (S (length (queue q))) (capacity q)); simpl;
        rewrite <- ?app_assoc; by destruct e, drop.
  - rewrite app_nil_r. destruct oneshot; simpl; [|by destruct e].
    rewrite close_for_policy_spec, Ha. simpl. by destruct e.
Qed.

(** A response reaches only its connection.  [send] and [send_raw]
    report [false] and change nothing when the connection is not registered or
    the toolbox is not set; when they report [true], no other connection's queue or
    flag, and nothing else of the shared state, has changed. *)
Theorem send_isolated {V} ts t (w : world V) c resp serialized b w' :
  send ts t w c resp = (b, w') \/ send_raw t w c serialized = (b, w') ->
  (states w !! c = None -> b = false)
  /\ (is_Some (states w !! c) -> is_Some (send_msg t) -> is_Some (send_raw_msg t) -> b = true)
  /\ (b = false -> w' = w) /\ only_conn c w w'.
Proof.
  intros H.
  assert (Hsent : sent c w b w').
  { pose proof (send_sent ts t w c resp). pose proof (send_raw_sent t w c serialized).
    destruct H as [H|H]; rewrite H in *; done. }
  split_and!.
  - intros Hn. destruct Hsent as [[-> _]|(_ & [st Hst] & _)]; [done|by rewrite Hst in Hn].
  - intros [st Hs] [f Hf] [g Hg]. unfold send, send_raw, send_closure, send_raw_closure in H. rewrite Hs, Hf, Hg in H.
    destruct H as [H|H]; [by destruct (ts resp); injection H as <- _|by injection H as <- _].
  - destruct Hsent as [[_ ->]|(-> & _)]; done.
  - destruct Hsent as [[_ ->]|(_ & _ & Ho)]; [apply only_conn_refl|done].
Qed.

(** What a handler's outcome becomes.  Every response carries the
    method and the sequence number of its request; a success carries its value;
    a public error keeps its code and parameters; an internal error shows the
    client [InternalError] and nothing else; only [NoResponse] gives none. *)
Theorem encode_handler_response_spec {V} (ctx : request_context V) resp :
  match encode_handler_response ctx resp with
  | None => resp = Err NoResponse
  | Some (Immediate m s v) => m = x_method ctx /\ s = x_seq ctx /\ resp = Ok (Ok v)
  | Some (RError e) =>
      re_method e = x_method ctx /\ re_seq e = x_seq ctx
      /\ ((exists ce, resp = Err (Public ce) /\ re_code e = to_u32 (ce_code ce) /\ re_params e = ce_params ce)
          \/ re_code e = to_u32 INTERNAL_ERROR
             /\ ((exists what, resp = Err (Internal what)) /\ re_params e = JObj [("kind", JStr "InternalError")]
                 \/ exists what, resp = Ok (Err what)))
  | Some _ => False
  end.
Proof.
  destruct resp as [[v|what]|[ce|what|]]; simpl; try done.
  - split_and!; [done|done|]. right. split; [done|]. right. eauto.
  - split_and!; [done|done|]. left. eauto.
  - split_and!; [done|done|]. right. split; [done|]. left. split; [eauto|]. vm_compute. done.
Qed.

(** [TOOLBOX.scope] nests.  Whatever a poll does, panics included,
    the slot is restored when the poll is over, and every read during the poll
    saw the toolbox of its innermost scope. *)
Theorem scope_restores t slot reads :
  run_poll t slot reads = (slot, reads ++ (expected_reads t slot).1, (expected_reads t slot).2).
Proof.
  revert slot reads.
  induction t as [| |f IHf k IHk|f IHf k IHk|value inner IHi k IHk]; intros slot reads; cbn [run_poll read_slot expected_reads].
  - by rewrite app_nil_r.
  - by rewrite app_nil_r.
  - destruct slot as [v|]; [|by rewrite IHk; simpl; rewrite <- app_assoc].
    rewrite IHf. destruct (expected_reads f (Some v)) as [l1 [|]]; simpl; [by rewrite <- app_assoc|].
    rewrite IHk. simpl. by rewrite <- !app_assoc.
  - destruct slot as [v|]; [|done].
    rewrite IHf. destruct (expected_reads f (Some v)) as [l1 [|]]; simpl; [by rewrite <- app_assoc|].
    rewrite IHk. simpl. by rewrite <- !app_assoc.
  - rewrite IHi. destruct (expected_reads inner (Some value)) as [l1 [|]]; simpl; [done|].
    rewrite IHk. simpl. by rewrite app_assoc.
Qed.

(** *** Witness: one registered connection *)

Definition w_tb : toolbox := set_ws_states toolbox_new false true.
Definition w_world : world json := states_insert 7 (channel 1) (World ∅ ∅ limit_default []).

Lemma send_isolated_witness :
  (send_raw w_tb w_world 8 "x").1 = false /\ (send_raw w_tb w_world 8 "x").2 = w_world
  /\ only_conn 7 w_world (send_raw w_tb w_world 7 "x").2.
Proof.
  destruct (send_raw w_tb w_world 8 "x") as [b w'] eqn:H8. destruct (send_raw w_tb w_world 7 "x") as [b7 w7] eqn:H7.
  destruct (send_isolated (fun _ => Err "") w_tb w_world 8 RClose "x" b w' (or_intror H8)) as (Hb & _ & Hw & _).
  destruct (send_isolated (fun _ => Err "") w_tb w_world 7 RClose "x" b7 w7 (or_intror H7)) as (_ & _ & _ & Ho).
  assert (Hf : b = false) by (apply Hb; vm_compute; reflexivity).
  split; [exact Hf|]. split; [exact (Hw Hf)|exact Ho].
Defined.
