(* ===== verification/Mcp.v ===== *)
(** * JSON-RPC and MCP: [src/libs/ws/mcp.rs]

    The JSON-RPC envelope, the mapping of error codes, the tool metadata built
    from the registered endpoints, and the routing of a request.  The JSON parser
    and printer are parameters: [from_str] is [serde_json::from_str::<Value>] and
    [render] is [Value::to_string]. *)

From Stdlib Require Import Sorting.Sorted.
From S2P Require Import Prelude BMap Json ModelTypes JsonSchema ErrorCode.

Definition MCP_PROTOCOL_VERSION : string := "2025-06-18".
Definition PARSE_ERROR : Z := -32700.
Definition INVALID_REQUEST : Z := -32600.
Definition METHOD_NOT_FOUND : Z := -32601.
Definition INVALID_PARAMS : Z := -32602.
Definition RPC_INTERNAL_ERROR : Z := -32603.

Inductive rpc_id := Num (n : Z) | Str (s : string).   (* i64 *)

Definition id_to_value (id : option rpc_id) : json :=
  match id with Some (Num n) => JInt n | Some (Str s) => JStr s | None => JNull end.

Record rpc_request := RpcRequest {
  jsonrpc : string;
  rpc_rid : option rpc_id;
  rpc_method : string;
  rpc_params : option json;
}.

Definition is_notification (r : rpc_request) : bool :=
  match rpc_rid r with None => true | Some _ => false end.

Record rpc_error := RpcError { err_code : Z; err_message : string; err_data : option json }.

Definition rpc_error_new (code : Z) (message : string) : rpc_error := RpcError code message None.
Definition rpc_with_data (e : rpc_error) (data : json) : rpc_error :=
  RpcError (err_code e) (err_message e) (Some data).

(** [derive(Serialize)] with [skip_serializing_if] on [data]. *)
Definition error_to_value (e : rpc_error) : json :=
  jobj ([("code", JInt (err_code e)); ("message", JStr (err_message e))]
        ++ match err_data e with Some d => [("data", d)] | None => [] end).

Definition jsonrpc_result (id : option rpc_id) (res : json) : json :=
  jobj [("jsonrpc", JStr "2.0"); ("id", id_to_value id); ("result", res)].
Definition jsonrpc_error (id : option rpc_id) (error : rpc_error) : json :=
  jobj [("jsonrpc", JStr "2.0"); ("id", id_to_value id); ("error", error_to_value error)].

(** ** Parsing

    [derive(Deserialize)] of [JsonRpcRequest]: unknown members are ignored,
    [id] and [params] default to [None] when absent or null, [jsonrpc] and
    [method] are required strings.  A number that is not an [i64] matches no
    variant of the untagged [JsonRpcId].  The message of the error is serde's. *)
Definition in_i64 (n : Z) : bool := (i64_min <=? n)%Z && (n <=? i64_max)%Z.

Definition id_from_value (v : json) : option rpc_id :=
  match v with
  | JInt n => if in_i64 n then Some (Num n) else None
  | JStr s => Some (Str s)
  | _ => None
  end.

Definition request_from_value (serde_error : json -> string) (v : json) : result rpc_request string :=
  let err := Err (serde_error v) in
  match jget "jsonrpc" v, jget "method" v with
  | Some (JStr version), Some (JStr method) =>
      match jget "id" v with
      | None | Some JNull =>
          Ok (RpcRequest version None method
                (match jget "params" v with Some JNull => None | o => o end))
      | Some id =>
          match id_from_value id with
          | Some id => Ok (RpcRequest version (Some id) method
                             (match jget "params" v with Some JNull => None | o => o end))
          | None => err
          end
      end
  | _, _ => err
  end.

Definition try_parse_jsonrpc (from_str : string -> option json) (serde_error : json -> string)
    (payload : string) : option (result rpc_request json) :=
  match from_str payload with
  | None => None
  | Some value =>
      match jget "jsonrpc" value ≫= as_str with
      | Some "2.0" =>
          match request_from_value serde_error value with
          | Ok req => Some (Ok req)
          | Err err => Some (Err (jsonrpc_error None (rpc_error_new INVALID_REQUEST ("Invalid Request: " +:+ err))))
          end
      | _ => None
      end
  end.

(** ** Error codes and tool results *)

Definition rpc_code_of (c : error_code) : Z * string :=
  if decide (c = BAD_REQUEST) then (INVALID_PARAMS, "Invalid params")
  else if decide (c = NOT_IMPLEMENTED) then (METHOD_NOT_FOUND, "Method not found")
  else if decide (c = INTERNAL_ERROR) then (RPC_INTERNAL_ERROR, "Internal error")
  else (to_u32 c, kind c).

Definition error_code_to_jsonrpc (c : error_code) (data : json) : rpc_error :=
  let '(rpc_code, message) := rpc_code_of c in
  let merged := bm_of_list [("kind", JStr (kind c)); ("appCode", JInt (to_u32 c))] in
  let merged := match data with
                | JObj extra => fold_left (fun m p => bm_insert p.1 p.2 m) extra merged
                | _ => merged
                end in
  rpc_with_data (rpc_error_new rpc_code message) (JObj merged).

Definition encode_tool_result (render : json -> string) (response : json) : json :=
  jobj [("content", JArr [jobj [("type", JStr "text"); ("text", JStr (render response))]]);
        ("structuredContent", response); ("isError", JBool false)].

Definition encode_tool_error (c : error_code) (params : json) : json :=
  let message := match jget "message" params ≫= as_str with Some m => m | None => kind c end in
  jobj [("content", JArr [jobj [("type", JStr "text"); ("text", JStr message)]]);
        ("structuredContent",
          jobj [("error", jobj [("kind", JStr (kind c)); ("appCode", JInt (to_u32 c)); ("params", params)])]);
        ("isError", JBool true)].

(** ** [McpState] *)

(** A registered endpoint; [H] is the type of its handler. *)
Record ws_endpoint (H : Type) := WsEndpoint {
  we_schema : endpoint_schema;
  we_handler : H;
  we_allowed_roles : gset Z;
}.
Arguments WsEndpoint {H} _ _ _.
Arguments we_schema {H} _.
Arguments we_handler {H} _.
Arguments we_allowed_roles {H} _.

Record server_info := McpServerInfo { info_name : string; info_version : string }.

Record mcp_tool := McpTool {
  t_name : string;
  t_description : string;
  t_input_schema : json;
  t_output_schema : option json;
  t_method_code : Z;
  t_allowed_roles : gset Z;
  t_streaming : bool;
}.

Definition to_list_entry (t : mcp_tool) : json :=
  let entry := bm_of_list [("name", JStr (t_name t)); ("description", JStr (t_description t));
                           ("inputSchema", t_input_schema t)] in
  JObj (match t_output_schema t with
        | Some output => bm_insert "outputSchema" output entry
        | None => entry
        end).

(** Same semantics in [session.rs] ([check_roles]). *)
Definition roles_allowed (actual_roles : list Z) (allowed_roles : gset Z) : bool :=
  if bool_decide (allowed_roles = ∅) || match actual_roles with [] => true | _ => false end then false
  else existsb (fun role => bool_decide (role ∈ allowed_roles)) actual_roles.

Record mcp_state := McpState {
  tools : list mcp_tool;
  by_name : gmap string nat;
  mcp_info : server_info;
  protocol_version : string;
}.

Inductive mcp_action :=
  | Respond (frame : json)
  | ToolCall (id : option rpc_id) (method_code : Z) (arguments : json)
  | Ignore.

(** [endpoints.sort_by_key(|e| e.schema.code)] on the values of the map: a stable
    insertion sort. *)
Fixpoint insert_by_code {H} (e : ws_endpoint H) (l : list (ws_endpoint H)) : list (ws_endpoint H) :=
  match l with
  | [] => [e]
  | e' :: l' => if (ep_code (we_schema e') <=? ep_code (we_schema e))%Z then e' :: insert_by_code e l' else e :: l
  end.
Definition sort_by_code {H} (l : list (ws_endpoint H)) : list (ws_endpoint H) :=
  fold_left (fun acc e => insert_by_code e acc) l [].

Definition STREAMING_NOTE : string :=
  "(Streaming endpoint: stream frames are not delivered over MCP.)".

Definition tool_description (description : string) (streaming : bool) : string :=
  if streaming then
    (if is_empty_str description then "" else description +:+ " ") +:+ STREAMING_NOTE
  else description.

Section build.
Context (cc : casing) (fuel : nat) (reg : registry) {H : Type}.

(** [None] is "out of fuel" of the schema conversion. *)
Fixpoint build_loop (endpoints : list (ws_endpoint H)) (ts : list mcp_tool) (names : gmap string nat)
    : option (result (list mcp_tool * gmap string nat) string) :=
  match endpoints with
  | [] => Some (Ok (ts, names))
  | e :: endpoints =>
      let schema := we_schema e in
      let name := tool_name cc schema in
      let streaming := match ep_stream_response schema with Some _ => true | None => false end in
      match to_mcp_input_schema cc fuel schema reg with
      | None => None
      | Some (Err err) => Some (Err err)
      | Some (Ok input_schema) =>
          let output := match ep_returns schema with
                        | [] => Some (Ok None)
                        | _ => match to_mcp_output_schema cc fuel schema reg with
                               | None => None
                               | Some (Err err) => Some (Err err)
                               | Some (Ok o) => Some (Ok (Some o))
                               end
                        end in
          match output with
          | None => None
          | Some (Err err) => Some (Err err)
          | Some (Ok output_schema) =>
              match names !! name with
              | Some prev =>
                  Some (Err ("duplicate MCP tool name " +:+ name +:+ " (endpoint codes "
                     +:+ match ts !! prev with Some p => pretty (t_method_code p) | None => "" end
                     +:+ " and " +:+ pretty (ep_code schema) +:+ ")"))
              | None =>
                  build_loop endpoints
                    (ts ++ [McpTool name (tool_description (ep_description schema) streaming) input_schema
                              output_schema (ep_code schema) (we_allowed_roles e) streaming])
                    (<[name := length ts]> names)
              end
          end
      end
  end.

Definition mcp_build (handlers : gmap Z (ws_endpoint H)) (info : server_info)
    : option (result mcp_state string) :=
  match build_loop (sort_by_code (map snd (map_to_list handlers))) [] ∅ with
  | None => None
  | Some (Err err) => Some (Err err)
  | Some (Ok (ts, names)) => Some (Ok (McpState ts names info MCP_PROTOCOL_VERSION))
  end.
End build.

(** ** Routing *)

Definition initialize_result (s : mcp_state) : json :=
  jobj [("protocolVersion", JStr (protocol_version s));
        ("capabilities", jobj [("tools", jobj [])]);
        ("serverInfo", jobj [("name", JStr (info_name (mcp_info s))); ("version", JStr (info_version (mcp_info s)))])].

Definition listed_tools (s : mcp_state) (roles : list Z) : list mcp_tool :=
  List.filter (fun t => roles_allowed roles (t_allowed_roles t)) (tools s).
Definition tools_list_result (s : mcp_state) (roles : list Z) : json :=
  jobj [("tools", JArr (map to_list_entry (listed_tools s roles)))].

Definition lookup_tool (s : mcp_state) (name : string) : option mcp_tool :=
  by_name s !! name ≫= fun i => tools s !! i.

Definition route_tool_call (s : mcp_state) (req : rpc_request) (roles : list Z) : mcp_action :=
  let params := match rpc_params req with Some p => p | None => JNull end in
  match jget "name" params ≫= as_str with
  | None => Respond (jsonrpc_error (rpc_rid req)
                       (rpc_error_new INVALID_PARAMS "tools/call requires a string `name` param"))
  | Some name =>
      match lookup_tool s name with
      | Some tool =>
          if roles_allowed roles (t_allowed_roles tool) then
            ToolCall (rpc_rid req) (t_method_code tool)
              (match jget "arguments" params with Some a => a | None => jobj [] end)
          else Respond (jsonrpc_error (rpc_rid req) (rpc_error_new INVALID_PARAMS ("Unknown tool: " +:+ name)))
      | None => Respond (jsonrpc_error (rpc_rid req) (rpc_error_new INVALID_PARAMS ("Unknown tool: " +:+ name)))
      end
  end.

Definition route (s : mcp_state) (req : rpc_request) (roles : list Z) : mcp_action :=
  let m := rpc_method req in
  if decide (m = "initialize") then Respond (jsonrpc_result (rpc_rid req) (initialize_result s))
  else if decide (m = "ping") then Respond (jsonrpc_result (rpc_rid req) (jobj []))
  else if starts_with "notifications/" m then Ignore
  else if decide (m = "tools/list") then Respond (jsonrpc_result (rpc_rid req) (tools_list_result s roles))
  else if decide (m = "tools/call") then route_tool_call s req roles
  else if is_notification req then Ignore
  else Respond (jsonrpc_error (rpc_rid req) (rpc_error_new METHOD_NOT_FOUND ("Method not found: " +:+ m))).

(** ** Lemmas *)

Lemma insert_by_code_perm {H} (e : ws_endpoint H) l : insert_by_code e l ≡ₚ e :: l.
Proof.
  induction l as [|e' l IH]; simpl; [done|]. destruct (_ <=? _)%Z; [|done]. rewrite IH. constructor.
Qed.

Lemma sort_by_code_perm {H} (l : list (ws_endpoint H)) : sort_by_code l ≡ₚ l.
Proof.
  unfold sort_by_code. cut (forall acc, fold_left (fun acc e => insert_by_code e acc) l acc ≡ₚ acc ++ l).
  { intros Hc. by rewrite Hc. }
  induction l as [|e l IH]; intros acc; simpl; [by rewrite app_nil_r|].
  rewrite IH, insert_by_code_perm. simpl. rewrite <- Permutation_middle. done.
Qed.

Definition code_le {H} (a b : ws_endpoint H) : Prop := (ep_code (we_schema a) <= ep_code (we_schema b))%Z.

Lemma insert_by_code_sorted {H} (e : ws_endpoint H) l :
  Sorted code_le l -> Sorted code_le (insert_by_code e l).
Proof.
  induction 1 as [|a l Hs IH Hd]; simpl; [by repeat constructor|].
  destruct (Z.leb_spec (ep_code (we_schema a)) (ep_code (we_schema e))) as [Hle|Hgt].
  - constructor; [done|]. destruct l as [|b l]; simpl; [by repeat constructor|].
    destruct (_ <=? _)%Z; constructor; [by inversion Hd|done].
  - repeat constructor; [done..|]. unfold code_le. lia.
Qed.

Lemma sort_by_code_sorted {H} (l : list (ws_endpoint H)) : Sorted code_le (sort_by_code l).
Proof.
  unfold sort_by_code. apply (Forall_fold_left (Sorted code_le)); [constructor|].
  intros. by apply insert_by_code_sorted.
Qed.

(** The tool of an endpoint. *)
Definition tool_of {H} (cc : casing) (e : ws_endpoint H) (t : mcp_tool) : Prop :=
  t_name t = tool_name cc (we_schema e) /\ t_method_code t = ep_code (we_schema e)
  /\ t_allowed_roles t = we_allowed_roles e.

(** [by_name] is the index of [tools] by name. *)
Definition indexed (ts : list mcp_tool) (names : gmap string nat) : Prop :=
  forall name i, names !! name = Some i <-> exists t, ts !! i = Some t /\ t_name t = name.

Lemma indexed_snoc ts names t :
  indexed ts names -> names !! t_name t = None -> indexed (ts ++ [t]) (<[t_name t := length ts]> names).
Proof.
  intros Hi Hn name i. rewrite lookup_insert_Some. split.
  - intros [[<- <-]|[Hne Hl]].
    + exists t. split; [by apply list_lookup_middle|done].
    + apply Hi in Hl as (t' & Hl & <-). exists t'. split; [by apply lookup_app_l_Some|done].
  - intros (t' & Hl & <-). apply lookup_app_Some in Hl as [Hl|[Hlen Hl]].
    + right. split; [|by apply Hi; eauto]. intros Heq.
      assert (names !! t_name t' = Some i) by (apply Hi; eauto). congruence.
    + apply list_lookup_singleton_Some in Hl as [Hl ->]. left. split; [done|lia].
Qed.

Lemma build_loop_spec cc fuel reg {H} (es : list (ws_endpoint H)) : forall done ts names ts' names',
  build_loop cc fuel reg es ts names = Some (Ok (ts', names')) ->
  Forall2 (tool_of cc) done ts -> indexed ts names ->
  Forall2 (tool_of cc) (done ++ es) ts' /\ indexed ts' names'.
Proof.
  induction es as [|e es IH]; intros done ts names ts' names'; cbn [build_loop].
  - intros [= <- <-]. by rewrite app_nil_r.
  - destruct (to_mcp_input_schema _ _ _ _) as [[input|]|]; try done.
    destruct (match ep_returns (we_schema e) with [] => _ | _ => _ end) as [[output|]|]; try done.
    destruct (names !! tool_name cc (we_schema e)) as [prev|] eqn:Hn; try done.
    intros Hl Hf Hi. replace (done ++ e :: es) with ((done ++ [e]) ++ es) by (by rewrite <- app_assoc).
    eapply IH; [exact Hl| |].
    + apply Forall2_app; [done|]. by repeat constructor.
    + by apply (indexed_snoc ts names (McpTool _ _ _ _ _ _ _)).
Qed.

(** The handlers as [add_handler_erased] builds them: keyed by their code. *)
Definition keyed_by_code {H} (handlers : gmap Z (ws_endpoint H)) : Prop :=
  forall c e, handlers !! c = Some e -> ep_code (we_schema e) = c.

(** What a built state promises: the interface the session relies on. *)
Definition mcp_state_of {H} (cc : casing) (handlers : gmap Z (ws_endpoint H)) (s : mcp_state) : Prop :=
  (exists es, es ≡ₚ map snd (map_to_list handlers) /\ Sorted code_le es /\ Forall2 (tool_of cc) es (tools s))
  /\ indexed (tools s) (by_name s).

Lemma mcp_build_state_of cc fuel reg {H} (handlers : gmap Z (ws_endpoint H)) info s :
  mcp_build cc fuel reg handlers info = Some (Ok s) -> mcp_state_of cc handlers s.
Proof.
  unfold mcp_build. destruct (build_loop _ _ _ _ _ _) as [[[ts names]|]|] eqn:Hl; try done. intros [= <-].
  destruct (build_loop_spec _ _ _ _ [] _ _ _ _ Hl) as [Hf Hi]; [constructor| |].
  { intros name i. rewrite lookup_empty. split; [done|]. intros (t & Ht & _). by rewrite lookup_nil in Ht. }
  split; [|done]. eexists. split_and!; [apply sort_by_code_perm|apply sort_by_code_sorted|done].
Qed.

Lemma tool_handler {H} cc (handlers : gmap Z (ws_endpoint H)) s t :
  keyed_by_code handlers -> mcp_state_of cc handlers s -> t ∈ tools s ->
  exists e, handlers !! t_method_code t = Some e /\ t_allowed_roles t = we_allowed_roles e
            /\ t_name t = tool_name cc (we_schema e).
Proof.
  intros Hk [(es & Hp & _ & Hf) _] (i & Hi)%list_elem_of_lookup.
  destruct (Forall2_lookup_r _ _ _ _ _ Hf Hi) as (e & He & Hn & Hc & Hr).
  apply list_elem_of_lookup_2 in He. rewrite Hp in He.
  apply list_elem_of_In, in_map_iff in He as ([c e'] & <- & Hin). simpl in *.
  apply list_elem_of_In, elem_of_map_to_list in Hin. exists e'.
  rewrite Hc, (Hk _ _ Hin). done.
Qed.

Lemma roles_allowed_spec roles allowed :
  roles_allowed roles allowed = true <-> exists r, r ∈ roles /\ r ∈ allowed.
Proof.
  unfold roles_allowed. destruct (bool_decide_reflect (allowed = ∅)) as [->|Hne]; simpl.
  { split; [done|]. set_solver. }
  destruct roles as [|r roles]; [split; [done|set_solver]|].
  rewrite existsb_exists. split.
  - intros (x & Hx & Hb%bool_decide_eq_true). exists x. split; [by apply list_elem_of_In|done].
  - intros (x & Hx & Ha). exists x. split; [by apply list_elem_of_In|by apply bool_decide_eq_true].
Qed.

Lemma lookup_tool_elem s name t : indexed (tools s) (by_name s) ->
  lookup_tool s name = Some t <-> t ∈ tools s /\ t_name t = name.
Proof.
  intros Hi. unfold lookup_tool. split.
  - destruct (by_name s !! name) as [i|] eqn:Hn; [|done]. simpl. intros Ht.
    apply Hi in Hn as (t' & Ht' & <-). simplify_eq. split; [by eapply list_elem_of_lookup_2|done].
  - intros [(i & Ht)%list_elem_of_lookup <-].
    rewrite (proj2 (Hi (t_name t) i)) by eauto. done.
Qed.

Lemma route_sound {H} cc (handlers : gmap Z (ws_endpoint H)) s req roles id code args :
  keyed_by_code handlers -> mcp_state_of cc handlers s ->
  route s req roles = ToolCall id code args ->
  id = rpc_rid req
  /\ exists e, handlers !! code = Some e /\ exists r, r ∈ roles /\ r ∈ we_allowed_roles e.
Proof.
  intros Hk Hs. unfold route.
  repeat (case_decide; [done|]). destruct (starts_with _ _); [done|].
  repeat (case_decide; [try done|]); [|by destruct (is_notification req)].
  unfold route_tool_call. destruct (jget "name" _ ≫= as_str) as [name|]; [|done].
  destruct (lookup_tool s name) as [t|] eqn:Ht; [|done].
  destruct (roles_allowed roles (t_allowed_roles t)) eqn:Hr; [|done]. intros [= <- <- <-].
  split; [done|]. apply (lookup_tool_elem _ _ _ (proj2 Hs)) in Ht as [Ht _].
  destruct (tool_handler _ _ _ _ Hk Hs Ht) as (e & He & Hrole & _). exists e. split; [done|].
  rewrite <- Hrole. by apply roles_allowed_spec.
Qed.

(** ** Properties *)

(** [McpState::build] makes one tool per registered endpoint, in
    increasing order of code, with pairwise distinct names, and [by_name] is
    exactly their index. *)
Theorem mcp_build_spec cc fuel reg {H} (handlers : gmap Z (ws_endpoint H)) info s :
  mcp_build cc fuel reg handlers info = Some (Ok s) ->
  (exists es, es ≡ₚ map snd (map_to_list handlers) /\ Sorted code_le es /\ Forall2 (tool_of cc) es (tools s))
  /\ NoDup (map t_name (tools s))
  /\ (forall name t, lookup_tool s name = Some t <-> t ∈ tools s /\ t_name t = name).
Proof.
  intros [Hes Hi]%mcp_build_state_of. split_and!; [done| |intros; by apply lookup_tool_elem].
  apply NoDup_alt. intros i j x Hx Hy.
  rewrite list_lookup_fmap in Hx, Hy.
  destruct (tools s !! i) as [t|] eqn:Ht; [|done]. destruct (tools s !! j) as [t'|] eqn:Ht'; [|done].
  simpl in *. injection Hx as Hx. injection Hy as Hy.
  assert (by_name s !! x = Some i) by (apply Hi; eauto).
  assert (by_name s !! x = Some j) by (apply Hi; eauto). congruence.
Qed.

(** The request an MCP client makes to call a tool. *)
Definition tool_call (id : option rpc_id) (name : string) (args : json) : rpc_request :=
  RpcRequest "2.0" id "tools/call" (Some (jobj [("name", JStr name); ("arguments", args)])).

(** C10: MCP cannot reach what the roles forbid.  On a state built from
    the handlers, whatever the request, [route] dispatches a call only to a
    registered endpoint that one of the caller's roles is allowed on, addressed to the
    request's id. *)
Theorem route_authorized cc fuel reg {H} (handlers : gmap Z (ws_endpoint H)) info s req roles id code args :
  keyed_by_code handlers -> mcp_build cc fuel reg handlers info = Some (Ok s) ->
  route s req roles = ToolCall id code args ->
  id = rpc_rid req
  /\ exists e, handlers !! code = Some e /\ exists r, r ∈ roles /\ r ∈ we_allowed_roles e.
Proof.
  intros Hk Hb%mcp_build_state_of. by eapply route_sound.
Qed.

(** C19: what is not listed does not exist.  A tool call is dispatched
    exactly when [tools/list] shows the caller a tool of that name, and then to that
    tool with the arguments unchanged; every other name, whether no tool has it or
    the roles forbid it, gets the same [Unknown tool] answer. *)
Theorem call_iff_listed cc fuel reg {H} (handlers : gmap Z (ws_endpoint H)) info s roles id name args :
  mcp_build cc fuel reg handlers info = Some (Ok s) ->
  route s (tool_call id name args) roles
  = match List.find (fun t => bool_decide (t_name t = name)) (listed_tools s roles) with
    | Some t => ToolCall id (t_method_code t) args
    | None => Respond (jsonrpc_error id (rpc_error_new INVALID_PARAMS ("Unknown tool: " +:+ name)))
    end.
Proof.
  intros [_ Hi]%mcp_build_state_of.
  change (route s (tool_call id name args) roles) with (route_tool_call s (tool_call id name args) roles).
  unfold route_tool_call. simpl rpc_params. simpl rpc_rid. cbv iota.
  change (jget "name" (jobj [("name", JStr name); ("arguments", args)]) ≫= as_str) with (Some name).
  change (jget "arguments" (jobj [("name", JStr name); ("arguments", args)])) with (Some args). cbv iota.
  destruct (List.find _ (listed_tools s roles)) as [t|] eqn:Hf.
  - apply List.find_some in Hf as [[Hin Hr]%List.filter_In Hn%bool_decide_eq_true].
    rewrite (proj2 (lookup_tool_elem s name t Hi)) by (split; [by apply list_elem_of_In|done]). by rewrite Hr.
  - destruct (lookup_tool s name) as [t|] eqn:Ht; [|done].
    apply (lookup_tool_elem _ _ _ Hi) in Ht as [Ht%list_elem_of_In Hn].
    destruct (roles_allowed roles (t_allowed_roles t)) eqn:Hr; [|done].
    assert (Hin : In t (listed_tools s roles)) by (by apply List.filter_In).
    pose proof (List.find_none _ _ Hf t Hin) as Hne. by apply bool_decide_eq_false in Hne.
Qed.

(** What [error_code_to_jsonrpc] preserves.  The JSON-RPC code is the
    reserved one for the three translated codes and the application code otherwise;
    [data] holds [kind] and [appCode] unless the extra data overrides them, and every
    member of the extra data. *)
Theorem error_code_to_jsonrpc_spec c extra k :
  bm_wf extra ->
  (err_code (error_code_to_jsonrpc c (JObj extra)), err_message (error_code_to_jsonrpc c (JObj extra))) = rpc_code_of c
  /\ (err_data (error_code_to_jsonrpc c (JObj extra)) ≫= jget k)
     = match bm_get k extra with
       | Some v => Some v
       | None => bm_get k [("appCode", JInt (to_u32 c)); ("kind", JStr (kind c))]
       end.
Proof.
  intros Hwf. unfold error_code_to_jsonrpc. destruct (rpc_code_of c) as [rc msg]. split; [done|]. simpl.
  change (bm_of_list [("kind", JStr (kind c)); ("appCode", JInt (to_u32 c))])
    with [("appCode", JInt (to_u32 c)); ("kind", JStr (kind c))].
  by rewrite fold_insert_get by done.
Qed.

(** *** Witnesses: a public and an administrative endpoint *)

Definition w_cc : casing := Casing id id id.
Definition w_echo : ws_endpoint unit :=
  WsEndpoint (endpoint_new "echo" 20 [field_new "text" TString] [field_new "text" TString]) tt {[1; 2]}%Z.
Definition w_stop : ws_endpoint unit := WsEndpoint (endpoint_new "stop" 10 [] []) tt {[9]}%Z.
Definition w_handlers : gmap Z (ws_endpoint unit) := <[20%Z := w_echo]> (<[10%Z := w_stop]> ∅).
Definition w_info : server_info := McpServerInfo "srv" "1".
Definition w_build := mcp_build w_cc 10 registry_new w_handlers w_info.
Definition w_mcp : mcp_state :=
  match w_build with Some (Ok s) => s | _ => McpState [] ∅ w_info "" end.

Lemma w_mcp_built : mcp_build w_cc 10 registry_new w_handlers w_info = Some (Ok w_mcp).
Proof. vm_compute. reflexivity. Qed.

Lemma w_keyed : keyed_by_code w_handlers.
Proof.
  intros c e. unfold w_handlers. rewrite !lookup_insert_Some, lookup_empty.
  intros [[<- <-]|[_ [[<- <-]|[_ H]]]]; done.
Qed.

Lemma mcp_build_spec_witness :
  NoDup (map t_name (tools w_mcp)) /\ map t_name (tools w_mcp) = ["stop"; "echo"].
Proof.
  split; [|vm_compute; reflexivity].
  apply (mcp_build_spec w_cc 10 registry_new w_handlers w_info w_mcp w_mcp_built).
Defined.

Lemma route_authorized_witness :
  exists e, w_handlers !! 20%Z = Some e /\ exists r, r ∈ [2; 5]%Z /\ r ∈ we_allowed_roles e.
Proof.
  apply (route_authorized w_cc 10 registry_new w_handlers w_info w_mcp
           (tool_call (Some (Num 1)) "echo" (jobj [])) [2; 5]%Z (Some (Num 1)) 20 (jobj [])).
  - exact w_keyed.
  - exact w_mcp_built.
  - vm_compute. reflexivity.
Defined.

Lemma call_iff_listed_witness :
  route w_mcp (tool_call (Some (Num 1)) "stop" (jobj [])) [2]%Z
  = Respond (jsonrpc_error (Some (Num 1)) (rpc_error_new INVALID_PARAMS "Unknown tool: stop")).
Proof.
  exact (call_iff_listed w_cc 10 registry_new w_handlers w_info w_mcp [2]%Z (Some (Num 1)) "stop" (jobj []) w_mcp_built).
Defined.

Lemma error_code_to_jsonrpc_spec_witness :
  (err_data (error_code_to_jsonrpc BAD_REQUEST (JObj [("kind", JStr "Mine")])) ≫= jget "kind") = Some (JStr "Mine").
Proof.
  apply (error_code_to_jsonrpc_spec BAD_REQUEST [("kind", JStr "Mine")] "kind").
  apply bm_wf_cons; [intros k H; apply elem_of_nil in H; destruct H|apply bm_wf_nil].
Defined.
