(* ===== verification/Handler.v ===== *)
(** * Handlers and hooks: [src/libs/ws/handler.rs], [src/libs/ws/hooks.rs]

    User code (handlers and hooks) is asynchronous: a future is a state that each
    poll advances, acting on the shared [world], until it is ready.  A poll of the
    library's own code is an [act]: it also lists the frames the library itself
    handed to the toolbox, in order ([out]).

    The payload types are parameters: [Req] is what [serde_json::from_value] makes
    of the parameters, [HS], [BS] and [AS] are the states of the futures of
    handlers, [BeforeRequest] and [AfterRequest] hooks. *)

From S2P Require Import Prelude BMap Json ModelTypes ErrorCode Peer Message Outbound Limits Basics Toolbox Mcp.

(** ** Actions *)

(** A frame handed to the toolbox: [send], or [send_raw] of a JSON value. *)
Inductive out :=
  | OResp (conn_id : Z) (resp : ws_response)
  | ORaw (conn_id : Z) (frame : json).

Section act.
Context {V : Type}.

Definition act (A : Type) : Type := world V -> A * world V * list out.

Definition ret {A} (a : A) : act A := fun w => (a, w, []).
Definition bind {A B} (m : act A) (k : A -> act B) : act B := fun w =>
  let '(a, w, o1) := m w in
  let '(b, w, o2) := k a w in
  (b, w, o1 ++ o2).
(** A step of user code: it acts on the world, and its own sends are not the
    library's. *)
Definition user {A} (f : world V -> A * world V) : act A := fun w => let '(a, w) := f w in (a, w, []).

Definition act_value {A} (r : A * world V * list out) : A := r.1.1.
Definition act_outs {A} (r : A * world V * list out) : list out := r.2.

Lemma bind_run {A B} (m : act A) (k : A -> act B) w a w1 o1 :
  m w = (a, w1, o1) -> bind m k w = (let '(b, w2, o2) := k a w1 in (b, w2, o1 ++ o2)).
Proof. unfold bind. by intros ->. Qed.

Lemma bind_inv {A B} (m : act A) (k : A -> act B) w b w2 o :
  bind m k w = (b, w2, o) ->
  exists a w1 o1 o2, m w = (a, w1, o1) /\ k a w1 = (b, w2, o2) /\ o = o1 ++ o2.
Proof.
  unfold bind. destruct (m w) as [[a w1] o1] eqn:Hm. destruct (k a w1) as [[b' w2'] o2] eqn:Hk.
  intros [= <- <- <-]. by exists a, w1, o1, o2.
Qed.
End act.
Arguments act V A : clear implicits.

Notation "'do!' x '<-' e 'in' k" := (bind e (fun x => k))
  (at level 10, x name, e at level 100, k at level 200) : ep_scope.
Notation "'do!' ' p '<-' e 'in' k" := (bind e (fun p => k))
  (at level 10, p pattern, e at level 100, k at level 200) : ep_scope.

(** What a poll of a future gives. *)
Inductive step (S A : Type) := SPending (s : S) | SReady (a : A).
Arguments SPending {S A} _.
Arguments SReady {S A} _.

(** ** Hooks *)

(** How a request finished, for [AfterRequest]. *)
Inductive request_outcome := OutcomeOk | PublicErr (code : Z) | InternalErr.

Section user_code.
Context {V Req HS BS AS : Type}.
Context (to_string : ws_response -> result string string) (render : json -> string).

(** [toolbox.send(..)] and [toolbox.send_raw(..)]. *)
Definition emit (t : toolbox) (o : out) : act V unit := fun w =>
  match o with
  | OResp c r => (tt, (send to_string t w c r).2, [o])
  | ORaw c f => (tt, (send_raw t w c (render f)).2, [o])
  end.

Record before_hook := BeforeHook {
  bh_start : request_context V -> endpoint_schema -> json -> BS;
  bh_poll : BS -> world V -> step BS (request_context V * result unit custom_error) * world V;
}.
(** [OnConnect] and [OnDisconnect] run once, before the first message and after the
    last: the whole of their effect, other users of the world included. *)
Definition on_connect_hook : Type :=
  peer_identity -> extensions V -> world V -> (extensions V * result unit custom_error) * world V.
Definition on_disconnect_hook : Type := Z -> peer_identity -> world V -> world V.

Record after_hook := AfterHook {
  ah_start : request_context V -> endpoint_schema -> request_outcome -> AS;
  ah_poll : AS -> world V -> step AS unit * world V;
}.

(** [Hooks::run_before]: the hooks still to complete, the first of which may
    already be started. *)
Fixpoint run_before (hooks : list before_hook) (cur : option BS) (schema : endpoint_schema) (params : json)
    (ctx : request_context V)
    : act V (step (list before_hook * BS * request_context V) (request_context V * result unit custom_error)) :=
  match hooks with
  | [] => ret (SReady (ctx, Ok tt))
  | h :: rest =>
      let st := match cur with Some st => st | None => bh_start h ctx schema params end in
      do! r <- user (bh_poll h st) in
      match r with
      | SPending st => ret (SPending (h :: rest, st, ctx))
      | SReady (ctx, Ok _) => run_before rest None schema params ctx
      | SReady (ctx, Err e) => ret (SReady (ctx, Err e))
      end
  end.

(** [Hooks::run_after]. *)
Fixpoint run_after (hooks : list after_hook) (cur : option AS) (schema : endpoint_schema)
    (outcome : request_outcome) (ctx : request_context V) : act V (step (list after_hook * AS) unit) :=
  match hooks with
  | [] => ret (SReady tt)
  | h :: rest =>
      let st := match cur with Some st => st | None => ah_start h ctx schema outcome end in
      do! r <- user (ah_poll h st) in
      match r with
      | SPending st => ret (SPending (h :: rest, st))
      | SReady _ => run_after rest None schema outcome ctx
      end
  end.

(** [Hooks]. *)
Record hooks := Hooks {
  before : list before_hook;
  after : list after_hook;
  on_connect : list on_connect_hook;
  on_disconnect : list on_disconnect_hook;
}.
Definition hooks_default : hooks := Hooks [] [] [] [].
Definition hooks_is_empty (h : hooks) : bool :=
  match h with Hooks [] [] [] [] => true | _ => false end.

Fixpoint run_on_connect (hs : list on_connect_hook) (peer : peer_identity) (ext : extensions V) (w : world V)
    : (extensions V * result unit custom_error) * world V :=
  match hs with
  | [] => ((ext, Ok tt), w)
  | h :: hs =>
      match h peer ext w with
      | ((ext, Err e), w) => ((ext, Err e), w)
      | ((ext, Ok _), w) => run_on_connect hs peer ext w
      end
  end.

Fixpoint run_on_disconnect (hs : list on_disconnect_hook) (connection_id : Z) (peer : peer_identity) (w : world V) : world V :=
  match hs with
  | [] => w
  | h :: hs => run_on_disconnect hs connection_id peer (h connection_id peer w)
  end.

(** ** [RequestHandlerErased] *)

(** [error_path] is what [serde_path_to_error] reports for the same input. *)
Record handler := Handler {
  h_from_value : json -> result Req string;
  h_error_path : json -> option string;
  h_start : request_context V -> Req -> HS;
  h_poll : HS -> world V -> step HS handler_response * world V;
}.

Definition params_message (h : handler) (req : json) (err : string) : string :=
  match h_error_path h req with
  | Some path => path +:+ ": " +:+ err
  | None => err
  end.

(** How the request came in: the legacy envelope, or a [tools/call] with its id. *)
Inductive envelope := Legacy | Mcp (id : option rpc_id).

(** The response for parameters that do not parse. *)
Definition bad_params (env : envelope) (ctx : request_context V) (message : string) : out :=
  match env with
  | Legacy => OResp (x_connection_id ctx) (request_error ctx BAD_REQUEST message)
  | Mcp id => ORaw (x_connection_id ctx)
                (jsonrpc_error id (rpc_error_new INVALID_PARAMS ("Invalid params: " +:+ message)))
  end.

Definition mcp_internal (id : option rpc_id) (ctx : request_context V) : json :=
  jsonrpc_error id (error_code_to_jsonrpc INTERNAL_ERROR (jobj [("logId", JStr (pretty (x_log_id ctx)))])).

(** [handle_mcp]: the frame for the handler's outcome. *)
Definition mcp_frame (id : option rpc_id) (ctx : request_context V) (resp : handler_response) : option json :=
  match resp with
  | Ok (Ok value) => Some (jsonrpc_result id (encode_tool_result render value))
  | Ok (Err _) => Some (mcp_internal id ctx)
  | Err (Public err) => Some (jsonrpc_result id (encode_tool_error (ce_code err) (ce_params err)))
  | Err (Internal _) => Some (mcp_internal id ctx)
  | Err NoResponse => None
  end.

(** The frame sent for the handler's outcome, in either envelope. *)
Definition reply (env : envelope) (ctx : request_context V) (resp : handler_response) : option out :=
  match env with
  | Legacy => option_map (OResp (x_connection_id ctx)) (encode_handler_response ctx resp)
  | Mcp id => option_map (ORaw (x_connection_id ctx)) (mcp_frame id ctx resp)
  end.

Definition emit_opt (t : toolbox) (o : option out) : act V unit :=
  match o with Some o => emit t o | None => ret tt end.

(** The future of [handle] and [handle_mcp]: not started, or running the user's
    handler. *)
Inductive hfut := HStart (req : json) | HRun (hs : HS).

Definition poll_running (h : handler) (t : toolbox) (env : envelope) (ctx : request_context V) (hs : HS)
    : act V (step hfut (option handler_response)) :=
  do! r <- user (h_poll h hs) in
  match r with
  | SPending hs => ret (SPending (HRun hs))
  | SReady resp => do! _ <- emit_opt t (reply env ctx resp) in ret (SReady (Some resp))
  end.

(** One poll; the result [None] is the early return of a parse error. *)
Definition handle_poll (h : handler) (t : toolbox) (env : envelope) (ctx : request_context V) (f : hfut)
    : act V (step hfut (option handler_response)) :=
  match f with
  | HStart req =>
      match h_from_value h req with
      | Err err => do! _ <- emit t (bad_params env ctx (params_message h req err)) in ret (SReady None)
      | Ok data => poll_running h t env ctx (h_start h ctx data)
      end
  | HRun hs => poll_running h t env ctx hs
  end.

(** The default body of [handle_mcp] for handlers written by hand. *)
Definition handle_mcp_default (t : toolbox) (ctx : request_context V) (id : option rpc_id) : act V unit :=
  emit t (ORaw (x_connection_id ctx)
            (jsonrpc_error id (rpc_error_new METHOD_NOT_FOUND "Handler does not support MCP"))).

(** ** Lemmas *)

Lemma emit_outs t o w : act_outs (emit t o w) = [o].
Proof. by destruct o. Qed.

Lemma run_before_outs hooks cur schema params : forall ctx w,
  act_outs (run_before hooks cur schema params ctx w) = [].
Proof.
  revert cur. induction hooks as [|h hooks IH]; intros cur ctx w; [done|]. cbn [run_before].
  unfold bind, user. destruct (bh_poll h _ w) as [[st|[ctx' [[]|e]]] w1]; [done| |done].
  specialize (IH None ctx' w1). destruct (run_before hooks None schema params ctx' w1) as [[? ?] ?]. done.
Qed.

Lemma run_after_outs hooks cur schema outcome ctx : forall w,
  act_outs (run_after hooks cur schema outcome ctx w) = [].
Proof.
  revert cur. induction hooks as [|h hooks IH]; intros cur w; [done|]. cbn [run_after].
  unfold bind, user. destruct (ah_poll h _ w) as [[st|[]] w1]; [done|].
  specialize (IH None w1). destruct (run_after hooks None schema outcome ctx w1) as [[? ?] ?]. done.
Qed.

(** The frames of one poll of the handler's future: none while it is pending; the
    reply to its outcome, or the report of bad parameters, when it is ready. *)
Definition handle_outs (env : envelope) (ctx : request_context V) (r : step hfut (option handler_response)) (o : list out) : Prop :=
  match r with
  | SPending _ => o = []
  | SReady (Some resp) => o = match reply env ctx resp with Some x => [x] | None => [] end
  | SReady None => exists message, o = [bad_params env ctx message]
  end.

Lemma poll_running_outs h t env ctx hs w :
  let r := poll_running h t env ctx hs w in handle_outs env ctx (act_value r) (act_outs r).
Proof.
  unfold poll_running, bind, user. destruct (h_poll h hs w) as [[hs'|resp] w1]; [done|].
  unfold emit_opt. destruct (reply env ctx resp) as [o|] eqn:Hr; simpl; [|by rewrite Hr].
  unfold emit. destruct o; simpl; by rewrite Hr.
Qed.

Lemma handle_poll_outs h t env ctx f w :
  let r := handle_poll h t env ctx f w in handle_outs env ctx (act_value r) (act_outs r).
Proof.
  destruct f as [req|hs]; cbn [handle_poll]; [|apply poll_running_outs].
  destruct (h_from_value h req) as [data|err]; [apply poll_running_outs|].
  unfold bind, emit. destruct env; simpl; eauto.
Qed.

(** [BeforeRequest] hooks run in registration order and the first error
    short-circuits.  When every hook is ready at once, the outcome is the first
    error of the sequence, with the context as the hooks up to it left it, and no
    later hook is started. *)
Theorem run_before_first_error hooks1 h hooks2 schema params ctx w ctx1 w1 ctx2 e w2 :
  run_before hooks1 None schema params ctx w = (SReady (ctx1, Ok tt), w1, []) ->
  bh_poll h (bh_start h ctx1 schema params) w1 = (SReady (ctx2, Err e), w2) ->
  run_before (hooks1 ++ h :: hooks2) None schema params ctx w = (SReady (ctx2, Err e), w2, []).
Proof.
  revert ctx w. induction hooks1 as [|h1 hooks1 IH]; intros ctx w; cbn [run_before app].
  - intros [= <- <-] Hp. unfold bind, user. by rewrite Hp.
  - intros (r & wr & o1 & o2 & Hr & Hk & Ho)%bind_inv Hp. symmetry in Ho. apply app_nil in Ho as [-> ->].
    unfold bind. rewrite Hr. destruct r as [st|[ctx' [[]|e']]]; [done| |done].
    by rewrite (IH _ _ Hk Hp).
Qed.
End user_code.
Arguments hfut HS : clear implicits.

(** *** Witnesses: an echo handler, a hook that authenticates and one that refuses *)

(** The echo handler is pending once and then returns its parameters. *)
Definition w_echo_handler : @handler unit json (bool * json) :=
  Handler (fun v => match v with JObj _ => Ok v | _ => Err "expected an object" end) (fun _ => None)
    (fun _ req => (false, req))
    (fun st w => let '(polled, v) := st in
       if polled then (SReady (Ok (Ok v)), w) else (SPending (true, v), w)).

Definition w_grant : @before_hook unit (request_context unit) :=
  BeforeHook (fun ctx _ _ => ctx)
    (fun ctx w => (SReady (for_request ctx (x_seq ctx) (x_method ctx) 42 [1]%Z, Ok tt), w)).
Definition w_refuse : @before_hook unit (request_context unit) :=
  BeforeHook (fun ctx _ _ => ctx)
    (fun ctx w => (SReady (ctx, Err (with_message (custom_error_new FORBIDDEN) "no")), w)).

Definition w_state : world unit := World ∅ ∅ limit_default [].
Definition w_schema : endpoint_schema := endpoint_new "echo" 20 [] [].
Definition w_granted : request_context unit := for_request context_empty 0 0 42 [1]%Z.

Lemma run_before_first_error_witness :
  run_before [w_grant; w_refuse; w_grant] None w_schema JNull context_empty w_state
  = (SReady (w_granted, Err (with_message (custom_error_new FORBIDDEN) "no")), w_state, []).
Proof.
  apply (run_before_first_error [w_grant] w_refuse [w_grant] w_schema JNull context_empty w_state w_granted w_state
           w_granted (with_message (custom_error_new FORBIDDEN) "no") w_state); reflexivity.
Defined.
