(* ===== verification/Headers.v ===== *)
(** * Authentication from the connection header: [src/libs/ws/headers.rs]

    [EndpointAuthController] reads the subprotocol string of the handshake, which
    [encode_header] ([ModelTypes]) writes: [0<endpoint>, 1<value>, 2<value>, ..].

    Parameters: [to_camel] is [to_case(Case::Camel)], [urlencode] and [urldecode]
    are the [urlencoding] crate's [encode] and [decode], [render] is
    [Value::to_string], [debug] the derived [Debug] of [Type].  A
    [SubAuthController] is run to completion: its result and its effect on the
    shared world. *)

From S2P Require Import Prelude BMap Json ModelTypes ErrorCode Peer Message Outbound Limits Basics Toolbox Mcp Handler.

(** [str::parse::<bool>]. *)
Definition parse_bool (s : string) : option bool :=
  if decide (s = "true") then Some true else if decide (s = "false") then Some false else None.

(** ** [parse_protocol_header] *)

(** The segments that survive the filters. *)
Definition digit_led (x : string) : bool :=
  match x with String a _ => is_digit a | EmptyString => false end.
Definition protocol_segments (header : string) : list string :=
  filter (fun x => digit_led x) (map trim (split_on "," header)).

(** [x.split_at(1)], then [collect]: a later segment replaces an earlier one. *)
Definition insert_segment (m : gmap string string) (x : string) : gmap string string :=
  match x with
  | String a r => <[String a EmptyString := r]> m
  | EmptyString => m
  end.
Definition parse_protocol_header (header : string) : gmap string string :=
  fold_left insert_segment (protocol_segments header) ∅.

Section headers.
Context {V Req : Type}.
Context (to_string : ws_response -> result string string) (render : json -> string).
Context (to_camel : string -> string) (urldecode : string -> result string string) (debug : type -> string).

(** ** [parse_ty] *)

Fixpoint parse_ty (ty : type) (value : string) : result json string :=
  match ty with
  | TString => let* decoded := urldecode value in Ok (JStr decoded)
  | Int64 => let* n := ok_or (parse_i64 value) ("Failed to parse integer: " +:+ value) in Ok (JInt n)
  | Boolean => let* b := ok_or (parse_bool value) ("Failed to parse boolean: " +:+ value) in Ok (JBool b)
  | Enum _ _ | EnumRef _ _ | UUID | NanoId _ | BlockchainAddress => Ok (JStr value)
  | Optional ty => parse_ty ty value
  | ty => Err ("Not implemented " +:+ debug ty)
  end.

(** ** Controllers *)

(** [AuthController]: given the toolbox, the header and the connection. *)
Definition auth_controller : Type := toolbox -> string -> ws_connection V -> act V (result unit string).

Definition simple_auth_controller : auth_controller := fun _ _ _ => ret (Ok tt).

Record sub_auth_controller := SubAuthController {
  sa_from_value : json -> result Req string;
  sa_error_path : json -> option string;
  sa_auth : Req -> request_context V -> ws_connection V -> world V -> handler_response * world V;
}.

(** The blanket [SubAuthControllerErased]. *)
Definition sub_auth (t : toolbox) (sa : sub_auth_controller) (param : json) (ctx : request_context V)
    (conn : ws_connection V) : act V unit :=
  match sa_from_value sa param with
  | Err err =>
      let message := match sa_error_path sa param with Some path => path +:+ ": " +:+ err | None => err end in
      emit to_string render t (OResp (x_connection_id ctx) (request_error ctx BAD_REQUEST message))
  | Ok data =>
      do! resp <- user (sa_auth sa data ctx conn) in
      emit_opt to_string render t (option_map (OResp (x_connection_id ctx)) (encode_handler_response ctx resp))
  end.

(** ** [EndpointAuthController] *)

Record ws_auth_controller := WsAuthController { wa_schema : endpoint_schema; wa_handler : sub_auth_controller }.

Definition endpoint_auth_controller : Type := gmap string ws_auth_controller.

Definition add_auth_endpoint (c : endpoint_auth_controller) (schema : endpoint_schema) (handler : sub_auth_controller)
    : endpoint_auth_controller :=
  <[to_ascii_lowercase (ep_name schema) := WsAuthController schema handler]> c.

(** The loop over the parameters. *)
Fixpoint auth_params (splits : gmap string string) (index : nat) (ps : list field) (params : list (string * json))
    : result (list (string * json)) string :=
  match ps with
  | [] => Ok params
  | p :: ps =>
      match splits !! (pretty (Z.of_nat index + 1)%Z) with
      | Some value =>
          let* v := parse_ty (f_ty p) value in
          auth_params splits (S index) ps (bm_insert (to_camel (f_name p)) v params)
      | None =>
          if negb (is_optional (f_ty p))
          then Err ("Could not find param " +:+ f_name p +:+ " " +:+ pretty (Z.of_nat index + 1)%Z)
          else auth_params splits (S index) ps params
      end
  end.

(** The context of the authentication request; [roles] are the connection's. *)
Definition auth_context (conn : ws_connection V) (method : Z) : request_context V :=
  for_request (from_conn conn) 0 method 0 (c_roles conn).

Definition endpoint_auth (c : endpoint_auth_controller) (t : toolbox) (header : string) (conn_info : ws_connection V)
    : act V (result unit string) := fun w =>
  let splits := parse_protocol_header header in
  match splits !! "0" with
  | None => ret (Err "Could not find method") w
  | Some method =>
      match c !! method with
      | None => ret (Err ("Could not find endpoint for method " +:+ method)) w
      | Some endpoint =>
          match auth_params splits 0 (ep_parameters (wa_schema endpoint)) [] with
          | Err e => ret (Err e) w
          | Ok params =>
              let conn := default conn_info (conns w !! c_connection_id conn_info) in
              (do! _ <- sub_auth t (wa_handler endpoint) (JObj params)
                          (auth_context conn (ep_code (wa_schema endpoint))) conn_info in
               ret (Ok tt)) w
          end
      end
  end.
End headers.

(** ** Lemmas *)

(** Printable ASCII that is neither a separator nor white space. *)
Definition token_char (a : ascii) : bool := in_range 33 126 a && negb (bool_decide (a = ","%char)).
Definition token (s : string) : bool := string_forallb token_char s.

Lemma token_char_graphic a : token_char a = true -> in_range 33 126 a = true /\ a <> ","%char.
Proof. unfold token_char. intros [? H]%andb_true_iff. by apply negb_true_iff, bool_decide_eq_false in H. Qed.

Lemma strip_space_graphic a s : in_range 33 126 a = true -> strip_space (String a s) = None.
Proof.
  intros Ha. unfold strip_space.
  assert (Hw : forallb (fun w => match w with String b _ => negb (in_range 33 126 b) | _ => false end) white_space = true)
    by (vm_compute; reflexivity).
  revert Hw. generalize white_space. intros l. induction l as [|w l IH]; [done|]. simpl.
  intros [Hw Hl]%andb_true_iff. rewrite (IH Hl). destruct w as [|b w]; [done|]. simpl.
  destruct (ascii_dec b a) as [->|]; [|done]. by rewrite Ha in Hw.
Qed.

Lemma trim_start_graphic a s : in_range 33 126 a = true -> trim_start (String a s) = String a s.
Proof. intros Ha. unfold trim_start. simpl. by rewrite strip_space_graphic. Qed.

Lemma trim_end_token s : token s = true -> trim_end s = s.
Proof.
  unfold token. induction s as [|a s IH]; [done|]. cbn [string_forallb trim_end]. intros [Ha Hs]%andb_true_iff.
  apply token_char_graphic in Ha as [Ha _]. rewrite trim_start_graphic by done. simpl. by rewrite IH.
Qed.

Lemma trim_start_token s : token s = true -> trim_start s = s.
Proof.
  destruct s as [|a s]; [done|]. unfold token. cbn [string_forallb]. intros [Ha _]%andb_true_iff.
  apply token_char_graphic in Ha as [Ha _]. by apply trim_start_graphic.
Qed.

Lemma trim_token s : token s = true -> trim s = s.
Proof. intros Hs. unfold trim. by rewrite trim_start_token, trim_end_token. Qed.

Lemma trim_space_token s : token s = true -> trim (String " " s) = s.
Proof.
  intros Hs. unfold trim. replace (trim_start (String " " s)) with s; [by apply trim_end_token|].
  unfold trim_start. cbn [String.length trim_start_fuel].
  replace (strip_space (String " " s)) with (Some s) by reflexivity.
  destruct s as [|a s]; [done|]. symmetry. by apply trim_start_token.
Qed.

Lemma split_on_token s : token s = true -> split_on "," s = [s].
Proof.
  unfold token. induction s as [|a s IH]; [done|]. cbn [string_forallb split_on]. intros [Ha Hs]%andb_true_iff.
  apply token_char_graphic in Ha as [_ Ha]. destruct (ascii_dec a ","); [done|]. by rewrite IH.
Qed.

Lemma split_on_space s : token s = true -> split_on "," (String " " s) = [String " " s].
Proof. intros Hs. change (split_on "," (String " " s)) with (match split_on "," s with h :: t => String " " h :: t | [] => [" "] end). by rewrite split_on_token. Qed.

Lemma token_app s1 s2 : token (s1 +:+ s2) = token s1 && token s2.
Proof. unfold token. induction s1 as [|a s1 IH]; simpl; [done|]. by rewrite IH, andb_assoc. Qed.

(** Keys are single digits. *)
Lemma parse_protocol_header_keys header k v :
  parse_protocol_header header !! k = Some v -> String.length k = 1.
Proof.
  unfold parse_protocol_header.
  assert (H : forall l (m : gmap string string), (forall k v, m !! k = Some v -> String.length k = 1) ->
            forall k v, fold_left insert_segment l m !! k = Some v -> String.length k = 1).
  { intros l. induction l as [|x l IH]; intros m Hm; simpl; [done|]. apply IH.
    destruct x as [|a r]; simpl; [done|]. intros k' v' [[<- _]|[_ H]]%lookup_insert_Some; [done|by eapply Hm]. }
  eapply H. intros k' v'. by rewrite lookup_empty.
Qed.

(** *** What [encode_header] writes *)

Section roundtrip.
Context (render : json -> string) (to_camel : string -> string) (urlencode : string -> string).

(** The text of a value in the header. *)
Definition carried (value : json) : string :=
  urlencode (string_filter (fun c => negb (bool_decide (c = byte_of 34))) (render value)).

Definition sent (v : json) (f : field) : option string :=
  match jget (to_camel (f_name f)) v with
  | Some value => if is_null value then None else Some (carried value)
  | None => None
  end.

Definition key (i : nat) : string := pretty (Z.of_nat i + 1)%Z.

Fixpoint header_segments (i : nat) (v : json) (ps : list field) : list string :=
  match ps with
  | [] => []
  | f :: ps =>
      match sent v f with
      | Some u => (key i +:+ u) :: header_segments (S i) v ps
      | None => header_segments (S i) v ps
      end
  end.

Lemma key_digit i : i < 9 -> exists a, key i = String a EmptyString /\ is_digit a = true /\ token_char a = true.
Proof. intros Hi. do 9 (destruct i as [|i]; [by eexists|]). lia. Qed.

Lemma key_inj i j : key i = key j -> i = j.
Proof. intros H. unfold key in H. apply (inj pretty) in H. lia. Qed.

Hypothesis urlencode_token : forall s, token (urlencode s) = true.

Lemma sent_token v f u : sent v f = Some u -> token u = true.
Proof.
  unfold sent. destruct (jget _ v) as [value|]; [|done]. destruct (is_null value); [done|].
  intros [= <-]. apply urlencode_token.
Qed.

Lemma segment_token i u : i < 9 -> token u = true -> token (key i +:+ u) = true /\ digit_led (key i +:+ u) = true.
Proof.
  intros Hi Hu. destruct (key_digit i Hi) as (a & -> & Hd & Ht). rewrite token_app, Hu. unfold token. simpl. by rewrite Ht.
Qed.

Lemma header_segments_ok v ps : forall i, i + length ps <= 9 ->
  Forall (fun s => token s = true /\ digit_led s = true) (header_segments i v ps).
Proof.
  induction ps as [|f ps IH]; intros i Hi; simpl in *; [constructor|].
  destruct (sent v f) as [u|] eqn:Hs; [|apply IH; lia]. constructor; [|apply IH; lia].
  apply segment_token; [lia|by eapply sent_token].
Qed.

Lemma encode_params_split v ps : forall i s out,
  i + length ps <= 9 ->
  encode_params to_camel urlencode render i v ps s = Ok out ->
  split_on "," out = split_on "," s ++ map (String " ") (header_segments i v ps).
Proof.
  induction ps as [|f ps IH]; intros i s out Hi; cbn [encode_params header_segments].
  - intros [= <-]. by rewrite app_nil_r.
  - simpl in Hi. destruct (sent v f) as [u|] eqn:Hs; pose proof Hs as Hu; unfold sent in Hu;
      destruct (jget _ v) as [value|]; try done; destruct (is_null value); try done; intros H;
      apply IH in H; try lia; [|done].
    rewrite H. injection Hu as Hu. fold (carried value). rewrite Hu. change (", " +:+ ?x) with (String "," (String " " x)).
    rewrite split_on_app, <- app_assoc. f_equal. cbn [map]. fold (key i).
    assert (Ht : token (key i +:+ u) = true) by (apply segment_token; [lia|by eapply sent_token]).
    by rewrite split_on_space.
Qed.

Lemma protocol_segments_encode name v ps out :
  token name = true -> length ps <= 9 ->
  encode_params to_camel urlencode render 0 v ps (String "0" name) = Ok out ->
  protocol_segments out = String "0" name :: header_segments 0 v ps.
Proof.
  intros Hn Hl He. apply encode_params_split in He; [|lia]. unfold protocol_segments.
  rewrite He, split_on_token by done. cbn [app map]. rewrite trim_token by done.
  rewrite filter_cons_True by done. f_equal.
  pose proof (header_segments_ok v ps 0 ltac:(lia)) as Hok. clear He. induction Hok as [|x l [Ht Hd] _ IH]; [done|].
  cbn [map]. rewrite trim_space_token by done. rewrite filter_cons_True by (apply Is_true_eq_left; exact Hd). by rewrite IH.
Qed.

Lemma fold_segments v ps : forall i m j, i + length ps <= 9 ->
  fold_left insert_segment (header_segments i v ps) m !! key j
  = match (if Nat.leb i j then ps !! (j - i) else None) ≫= sent v with Some u => Some u | None => m !! key j end.
Proof.
  induction ps as [|f ps IH]; intros i m j Hi; cbn [header_segments length] in *.
  - by destruct (Nat.leb i j).
  - assert (Hrest : forall m', m' !! key j = (if decide (i = j) then match sent v f with Some u => Some u | None => m !! key j end else m !! key j) ->
      fold_left insert_segment (header_segments (S i) v ps) m' !! key j
      = match (if Nat.leb i j then (f :: ps) !! (j - i) else None) ≫= sent v with Some u => Some u | None => m !! key j end).
    { intros m' Hm. rewrite IH by lia. rewrite Hm. destruct (Nat.leb_spec (S i) j), (Nat.leb_spec i j); try lia.
      - replace (j - i) with (S (j - S i)) by lia. cbn [lookup list_lookup]. by destruct (decide (i = j)); [lia|].
      - replace j with i by lia. rewrite Nat.sub_diag. destruct (decide (i = i)); [|done]. simpl. by destruct (sent v f).
      - by destruct (decide (i = j)); [lia|]. }
    destruct (sent v f) as [u|] eqn:Hs.
    + cbn [fold_left]. apply Hrest. destruct (key_digit i) as (a & Hk & _); [lia|].
      rewrite Hk. simpl. rewrite <- Hk. destruct (decide (i = j)) as [->|Hne]; [by rewrite lookup_insert_eq|].
      rewrite lookup_insert_ne; [done|]. intros H%key_inj. done.
    + apply Hrest. by destruct (decide (i = j)).
Qed.

Lemma lookup_zero v ps m : length ps <= 9 ->
  fold_left insert_segment (header_segments 0 v ps) m !! "0" = m !! "0".
Proof.
  intros Hl. assert (H : forall ps i m, i + length ps <= 9 ->
    fold_left insert_segment (header_segments i v ps) m !! "0" = m !! "0"); [|by apply H].
  clear. induction ps as [|f ps IH]; intros i m Hi; cbn [header_segments length] in *; [done|].
  destruct (sent v f) as [u|]; [|apply IH; lia]. cbn [fold_left]. rewrite IH by lia.
  destruct (key_digit i) as (a & Hk & _); [lia|]. rewrite Hk. simpl. rewrite <- Hk.
  rewrite lookup_insert_ne; [done|]. intros H. change "0" with (pretty 0%Z) in H. unfold key in H. apply (inj pretty) in H. lia.
Qed.
End roundtrip.

(** ** Properties *)

Section properties.
Context {V Req : Type}.
Context (to_string : ws_response -> result string string) (render : json -> string).
Context (to_camel : string -> string) (urlencode : string -> string) (urldecode : string -> result string string).
Context (debug : type -> string).

Abbreviation sub_auth_controller := (@sub_auth_controller V Req).
Abbreviation controller := (@endpoint_auth_controller V Req).
Abbreviation endpoint_auth := (endpoint_auth to_string render to_camel urldecode debug).

(** The value a parameter should have after the trip: the member of its name, unless
    it is null. *)
Definition given (v : json) (k : string) : option json :=
  match jget k v with
  | Some value => if is_null value then None else Some value
  | None => None
  end.

Definition add_given (v : json) (m : list (string * json)) (f : field) : list (string * json) :=
  match given v (to_camel (f_name f)) with
  | Some value => bm_insert (to_camel (f_name f)) value m
  | None => m
  end.

Lemma add_given_get v ps : forall m k,
  bm_get k (fold_left (add_given v) ps m)
  = match (if decide (k ∈ map (fun f => to_camel (f_name f)) ps) then given v k else None) with
    | Some value => Some value
    | None => bm_get k m
    end.
Proof.
  induction ps as [|f ps IH]; intros m k; cbn [fold_left map].
  - destruct (decide (k ∈ [])) as [H|]; [by apply elem_of_nil in H|done].
  - rewrite IH. unfold add_given. destruct (decide (k = to_camel (f_name f))) as [->|Hne].
    + rewrite (decide_True (P := _ ∈ _ :: _)) by (by left).
      destruct (given v (to_camel (f_name f))) as [value|]; [rewrite bm_get_insert_eq|]; by destruct (decide _).
    + rewrite (decide_ext (k ∈ _ :: _) (k ∈ map (fun f => to_camel (f_name f)) ps))
        by (rewrite elem_of_cons; naive_solver).
      destruct (given v (to_camel (f_name f))) as [value|]; [|done]. by rewrite bm_get_insert_ne.
Qed.

(** A parameter that is not given must be optional, and the text of a given one must
    parse back to its value. *)
Definition carries (v : json) (f : field) : Prop :=
  match given v (to_camel (f_name f)) with
  | Some value => parse_ty urldecode debug (f_ty f) (carried render urlencode value) = Ok value
  | None => is_optional (f_ty f) = true
  end.

Lemma auth_params_given v splits ps : forall i m,
  (forall j f, ps !! j = Some f -> splits !! key (i + j) = sent render to_camel urlencode v f) ->
  Forall (carries v) ps ->
  auth_params to_camel urldecode debug splits i ps m = Ok (fold_left (add_given v) ps m).
Proof.
  induction ps as [|f ps IH]; intros i m Hps Hc; cbn [auth_params fold_left]; [done|].
  inversion_clear Hc as [|? ? Hf Hc']. pose proof (Hps 0 f eq_refl) as Hk. rewrite Nat.add_0_r in Hk.
  fold (key i). rewrite Hk. assert (Hnext : forall j g, ps !! j = Some g ->
      splits !! key (S i + j) = sent render to_camel urlencode v g).
  { intros j g Hj. rewrite <- (Hps (S j) g Hj). f_equal. f_equal. lia. }
  unfold carries in Hf. unfold add_given at 2, sent. unfold given in *.
  destruct (jget _ v) as [value|]; [destruct (is_null value)|]; [|rewrite Hf|]; try rewrite Hf; simpl; by apply IH.
Qed.

Lemma auth_params_missing splits ps : forall i m j f,
  ps !! j = Some f -> is_optional (f_ty f) = false -> splits !! key (i + j) = None ->
  exists e, auth_params to_camel urldecode debug splits i ps m = Err e.
Proof.
  induction ps as [|g ps IH]; intros i m j f Hj Ho Hk; [done|]. cbn [auth_params]. fold (key i).
  destruct j as [|j].
  - injection Hj as ->. rewrite Nat.add_0_r in Hk. rewrite Hk, Ho. simpl. by eexists.
  - simpl in Hj. assert (Hk' : splits !! key (S i + j) = None) by (by replace (S i + j) with (i + S j) by lia).
    destruct (splits !! key i) as [value|].
    + destruct (parse_ty _ _ _ value) as [v|e]; simpl; [by eapply IH|by eexists].
    + destruct (negb _); [by eexists|by eapply IH].
Qed.

Lemma add_auth_endpoint_lookup (c : controller) schema h :
  add_auth_endpoint c schema h !! to_ascii_lowercase (ep_name schema) = Some (WsAuthController schema h).
Proof. exact (lookup_insert_eq (M := gmap string) c _ _). Qed.


(** A tenth parameter cannot be sent.  The keys that [parse_protocol_header]
    finds are one digit long, so whatever the header, an endpoint whose tenth
    parameter is required refuses every connection, with no effect: its handler is
    never called. *)
Theorem tenth_parameter_refused (c : controller) t schema h f header conn (w : world V) :
  ep_parameters schema !! 9 = Some f -> is_optional (f_ty f) = false ->
  parse_protocol_header header !! "0" = Some (to_ascii_lowercase (ep_name schema)) ->
  exists e, endpoint_auth (add_auth_endpoint c schema h) t header conn w = (Err e, w, []).
Proof.
  intros Hf Ho H0. unfold Headers.endpoint_auth. rewrite H0. rewrite add_auth_endpoint_lookup. simpl wa_schema.
  destruct (auth_params_missing (parse_protocol_header header) (ep_parameters schema) 0 [] 9 f Hf Ho) as [e He].
  - destruct (_ !! key (0 + 9)) eqn:Hk; [|done]. apply parse_protocol_header_keys in Hk. done.
  - exists e. by rewrite He.
Qed.
End properties.

(** *** Witnesses: a login with a user name, a number and an absent code *)

Lemma token_filter s : token (string_filter token_char s) = true.
Proof.
  unfold token. induction s as [|a s IH]; [done|]. cbn [string_filter]. destruct (token_char a) eqn:Ha; [|done].
  cbn [string_forallb]. by rewrite Ha, IH.
Qed.

Definition w_render (v : json) : string :=
  match v with
  | JStr s => String (byte_of 34) (s +:+ String (byte_of 34) EmptyString)
  | JInt n => pretty n
  | _ => "null"
  end.
Definition w_login : endpoint_schema :=
  endpoint_new "Login" 20 [field_new "user" TString; field_new "service" Int64; field_new "code" (Optional TString)] [].
Definition w_credentials : json := jobj [("user", JStr "ann"); ("service", JInt 7); ("code", JNull)].
Definition w_sub : @sub_auth_controller unit json :=
  SubAuthController (fun v => Ok v) (fun _ => None) (fun v _ _ w => (Ok (Ok v), w)).
Definition w_auth (c : endpoint_auth_controller) (header : string) :=
  endpoint_auth (V := unit) (Req := json) (fun _ => Ok "") w_render id (fun s => Ok s) (fun _ => "?") c
    toolbox_new header (WsConnection 7 0 [] Unknown ext_new 9) w_state.


Definition w_ten : endpoint_schema :=
  endpoint_new "ten" 21 (replicate 10 (field_new "p" TString)) [].

Lemma tenth_parameter_refused_witness :
  parse_protocol_header "0ten, 1a, 2b, 3c, 4d, 5e, 6f, 7g, 8h, 9i, 10j" !! "1" = Some "0j"
  /\ exists e, w_auth (add_auth_endpoint ∅ w_ten w_sub) "0ten, 1a, 2b, 3c, 4d, 5e, 6f, 7g, 8h, 9i, 10j" = (Err e, w_state, []).
Proof.
  split; [vm_compute; reflexivity|].
  apply (tenth_parameter_refused (V := unit) (Req := json) (fun _ => Ok "") w_render id (fun s => Ok s) (fun _ => "?")
           ∅ toolbox_new w_ten w_sub (field_new "p" TString)); vm_compute; reflexivity.
Defined.
