(* ===== verification/Request.v ===== *)
(** * One request: the tasks of [src/libs/ws/session.rs]

    The future that [handle_message] (legacy envelope) or [handle_mcp_frame]
    ([tools/call]) returns for an accepted request: [BeforeRequest] hooks, the
    handler, [AfterRequest] hooks, under the request timeout, holding the
    in-flight slot.

    A task is polled any number of times.  [task_poll] is one poll: whether the
    executor polled the work before the timer and whether the timer has fired are
    inputs, since both are the runtime's ([nagoya::timeout]); so is the elapsed
    time.  Between polls the shared world may change in any way. *)

From S2P Require Import Prelude BMap Json ModelTypes ErrorCode Peer Message Outbound ServerConfig Limits Basics Toolbox Mcp Handler.

Section request.
Context {V Req HS BS AS : Type}.
Context (to_string : ws_response -> result string string) (render : json -> string).
Context (config : ws_server_config) (t : toolbox).

Abbreviation handler := (@handler V Req HS).
Abbreviation before_hook := (@before_hook V BS).
Abbreviation after_hook := (@after_hook V AS).

Abbreviation hooks := (@hooks V BS AS).

(** What the task's closure captured. *)
Record task_env := TaskEnv {
  te_handler : handler;
  te_hooks : hooks;
  te_schema : endpoint_schema;
  te_envelope : envelope;
  te_params : json;
  te_context : request_context V;   (* timeout_context *)
}.

(** Where [work] is suspended. *)
Inductive work :=
  | WBefore (hs : list before_hook) (cur : option BS) (ctx : request_context V)
  | WHandler (f : hfut HS) (ctx : request_context V)
  | WAfter (hs : list after_hook) (cur : option AS) (outcome : request_outcome) (ctx : request_context V)
  | WDone.

(** The rejection of a [BeforeRequest] hook, in the caller's envelope. *)
Definition reject (env : envelope) (origin ctx : request_context V) (e : custom_error) : out :=
  match env with
  | Legacy => OResp (x_connection_id ctx) (custom_error_to_resp ctx e)
  | Mcp id => ORaw (x_connection_id origin) (jsonrpc_result id (encode_tool_error (ce_code e) (ce_params e)))
  end.

(** The three stages, each continuing into the next within the same poll.  The
    result is the new state and [responded]. *)
Definition poll_after (e : task_env) (hs : list after_hook) (cur : option AS) (outcome : request_outcome)
    (ctx : request_context V) : act V (work * bool) :=
  do! r <- run_after hs cur (te_schema e) outcome ctx in
  match r with
  | SPending (hs, st) => ret (WAfter hs (Some st) outcome ctx, true)
  | SReady _ => ret (WDone, true)
  end.

Definition poll_handler (e : task_env) (f : hfut HS) (ctx : request_context V) : act V (work * bool) :=
  do! r <- handle_poll to_string render (te_handler e) t (te_envelope e) ctx f in
  match r with
  | SPending f => ret (WHandler f ctx, false)
  | SReady _ => poll_after e (after (te_hooks e)) None OutcomeOk ctx
  end.

Definition poll_before (e : task_env) (hs : list before_hook) (cur : option BS) (ctx : request_context V)
    : act V (work * bool) :=
  do! r <- run_before hs cur (te_schema e) (te_params e) ctx in
  match r with
  | SPending (hs, st, ctx) => ret (WBefore hs (Some st) ctx, false)
  | SReady (ctx, Err custom) =>
      do! _ <- emit to_string render t (reject (te_envelope e) (te_context e) ctx custom) in
      poll_after e (after (te_hooks e)) None (PublicErr (to_u32 (ce_code custom))) ctx
  | SReady (ctx, Ok _) => poll_handler e (HStart (te_params e)) ctx
  end.

Definition work_poll (e : task_env) (w : work) : act V (work * bool) :=
  match w with
  | WBefore hs cur ctx => poll_before e hs cur ctx
  | WHandler f ctx => poll_handler e f ctx
  | WAfter hs cur outcome ctx => poll_after e hs cur outcome ctx
  | WDone => ret (WDone, true)
  end.

(** The report of an expired request: nothing when it has been answered, or when
    an MCP call has no id. *)
Definition timed_out (e : task_env) : out :=
  let ctx := te_context e in
  match te_envelope e with
  | Legacy => OResp (x_connection_id ctx)
                (error_response ctx REQUEST_TIMEOUT [("kind", JStr "timeout"); ("message", JStr "request timed out")])
  | Mcp id => ORaw (x_connection_id ctx) (jsonrpc_error id (rpc_error_new (-32001) "request timed out"))
  end.

Definition answerable (env : envelope) : bool :=
  match env with Mcp None => false | _ => true end.

Definition on_expiry (e : task_env) (expired responded : bool) : act V unit :=
  if expired && negb responded && answerable (te_envelope e)
  then emit to_string render t (timed_out e) else ret tt.

(** [observe_request_time], then the drop of [_slot] at the end of the block. *)
Definition observe_time (elapsed : Z) : act V unit := fun w =>
  let '(l, ev) := observe_request_time config elapsed (lim w) in (tt, set_limits w l ev, []).
Definition drop_slot : act V unit := fun w =>
  (tt, set_limits w (slot_drop "inflight_requests" (lim w)) [], []).

(** A task: running, or finished with its slot given back. *)
Inductive task := Running (w : work) (responded : bool) | Finished.

Definition task_start (e : task_env) : task :=
  Running (WBefore (before (te_hooks e)) None (te_context e)) false.

Definition finish (e : task_env) (expired responded : bool) (elapsed : Z) : act V task :=
  do! _ <- observe_time elapsed in
  do! _ <- on_expiry e expired responded in
  do! _ <- drop_slot in
  ret Finished.

Record poll_event := PollEvent {
  pe_polled : bool;    (* the work was polled before the timer *)
  pe_fired : bool;     (* the timer has fired *)
  pe_elapsed : Z;
}.

(** With no [request_timeout] there is no timer. *)
Definition timer (ev : poll_event) : bool :=
  match request_timeout config with Some _ => pe_fired ev | None => false end.
Definition polls_work (ev : poll_event) : bool :=
  match request_timeout config with Some _ => pe_polled ev | None => true end.

Definition task_poll (e : task_env) (tk : task) (ev : poll_event) : act V task :=
  match tk with
  | Finished => ret Finished
  | Running w responded =>
      do! wr <- (if polls_work ev then work_poll e w else ret (w, responded)) in
      match wr with
      | (WDone, responded) => finish e false responded (pe_elapsed ev)
      | (w, responded) => if timer ev then finish e true responded (pe_elapsed ev) else ret (Running w responded)
      end
  end.

(** The session ends with the task still running: the future is dropped, which
    only gives the slot back. *)
Definition task_drop (tk : task) : act V unit :=
  match tk with Running _ _ => drop_slot | Finished => ret tt end.

(** A run: polls, with any change of the world between them. *)
Fixpoint task_run (e : task_env) (tk : task) (w : world V) (evs : list (poll_event * (world V -> world V)))
    : task * world V * list out :=
  match evs with
  | [] => (tk, w, [])
  | (ev, env) :: evs =>
      let '(tk, w, o1) := task_poll e tk ev w in
      let '(tk, w, o2) := task_run e tk (env w) evs in
      (tk, w, o1 ++ o2)
  end.

(** ** Lemmas *)

(** The frames a stage may send, and how many the state says were sent. *)
Inductive answer (e : task_env) : list out -> Prop :=
  | answer_reject (ctx : request_context V) custom : answer e [reject (te_envelope e) (te_context e) ctx custom]
  | answer_params (ctx : request_context V) message : answer e [bad_params (te_envelope e) ctx message]
  | answer_reply (ctx : request_context V) resp : answer e (match reply render (te_envelope e) ctx resp with Some x => [x] | None => [] end)
  | answer_timeout : answerable (te_envelope e) = true -> answer e [timed_out e]
  | answer_unanswerable : answerable (te_envelope e) = false -> answer e [].

Definition work_inv (e : task_env) (w : work) (responded : bool) (sent : list out) : Prop :=
  match w with
  | WBefore _ _ _ | WHandler _ _ => responded = false /\ sent = []
  | WAfter _ _ _ _ | WDone => responded = true /\ answer e sent
  end.

Definition task_inv (e : task_env) (tk : task) (sent : list out) : Prop :=
  match tk with
  | Running w responded => work_inv e w responded sent
  | Finished => answer e sent
  end.

Lemma poll_after_post e hs cur outcome ctx w w' r w2 o sent :
  poll_after e hs cur outcome ctx w = ((w', r), w2, o) -> answer e sent -> work_inv e w' r (sent ++ o).
Proof.
  unfold poll_after. intros (x & w1 & o1 & o2 & Hr & Hk & ->)%bind_inv Ha.
  pose proof (run_after_outs hs cur (te_schema e) outcome ctx w) as Ho. rewrite Hr in Ho. simpl in Ho. subst o1.
  destruct x as [[hs' st]|[]]; unfold ret in Hk; injection Hk as <- <- <- <-; simpl; by rewrite app_nil_r.
Qed.

Lemma poll_handler_post e f ctx w w' r w2 o :
  poll_handler e f ctx w = ((w', r), w2, o) -> work_inv e w' r o.
Proof.
  unfold poll_handler. intros (x & w1 & o1 & o2 & Hr & Hk & ->)%bind_inv.
  pose proof (handle_poll_outs to_string render (te_handler e) t (te_envelope e) ctx f w) as Ho.
  rewrite Hr in Ho. unfold act_value, act_outs in Ho. simpl in Ho.
  destruct x as [f'|[resp|]]; simpl in Ho.
  - unfold ret in Hk. injection Hk as <- <- <- <-. subst o1. done.
  - eapply poll_after_post; [exact Hk|]. rewrite Ho. apply answer_reply.
  - eapply poll_after_post; [exact Hk|]. destruct Ho as [message ->]. apply answer_params.
Qed.

Lemma poll_before_post e hs cur ctx w w' r w2 o :
  poll_before e hs cur ctx w = ((w', r), w2, o) -> work_inv e w' r o.
Proof.
  unfold poll_before. intros (x & w1 & o1 & o2 & Hr & Hk & ->)%bind_inv.
  pose proof (run_before_outs hs cur (te_schema e) (te_params e) ctx w) as Ho. rewrite Hr in Ho. simpl in Ho. subst o1.
  destruct x as [[[hs' st] ctx']|[ctx' [[]|custom]]].
  - unfold ret in Hk. by injection Hk as <- <- <- <-.
  - by eapply poll_handler_post.
  - apply bind_inv in Hk as (u & w3 & o3 & o4 & He & Hk & ->). simpl.
    pose proof (emit_outs to_string render t (reject (te_envelope e) (te_context e) ctx' custom) w1) as Ho.
    rewrite He in Ho. simpl in Ho. subst o3. eapply poll_after_post; [exact Hk|]. apply answer_reject.
Qed.

Lemma work_poll_post e wk r sent w wk' r' w2 o :
  work_inv e wk r sent -> work_poll e wk w = ((wk', r'), w2, o) -> work_inv e wk' r' (sent ++ o).
Proof.
  destruct wk as [hs cur ctx|f ctx|hs cur outcome ctx|]; simpl; intros [-> Ha].
  - subst sent. apply poll_before_post.
  - subst sent. apply poll_handler_post.
  - intros Hp. by eapply poll_after_post.
  - intros [= <- <- <- <-]. by rewrite app_nil_r.
Qed.

Lemma finish_post e expired responded elapsed w tk w2 o :
  finish e expired responded elapsed w = (tk, w2, o) ->
  tk = Finished /\ o = (if expired && negb responded && answerable (te_envelope e) then [timed_out e] else []).
Proof.
  unfold finish, bind, observe_time, on_expiry, drop_slot, ret.
  destruct (observe_request_time _ _ _). destruct (expired && negb responded && answerable (te_envelope e)).
  - pose proof (emit_outs to_string render t (timed_out e) (set_limits w l l0)) as Ho.
    destruct (emit _ _ _ _ _) as [[u w3] o3]. simpl in Ho. subst o3. by intros [= <- <- <-].
  - by intros [= <- <- <-].
Qed.

Lemma finish_drops e expired responded elapsed w tk w2 o :
  finish e expired responded elapsed w = (tk, w2, o) ->
  exists w1, w2 = set_limits w1 (slot_drop "inflight_requests" (lim w1)) [].
Proof.
  unfold finish. intros (u & w1 & o1 & o2 & _ & Hk & _)%bind_inv.
  apply bind_inv in Hk as (u2 & w3 & o3 & o4 & _ & Hk & _).
  unfold bind, drop_slot, ret in Hk. injection Hk as _ <- _. by exists w3.
Qed.

Lemma finish_inv e wk responded sent elapsed expired w tk w2 o :
  work_inv e wk responded sent -> (expired = false -> wk = WDone) ->
  finish e expired responded elapsed w = (tk, w2, o) -> task_inv e tk (sent ++ o).
Proof.
  intros Hi Hd [-> ->]%finish_post. destruct expired; simpl.
  - destruct wk; destruct Hi as [-> Ha]; simpl; try (by rewrite app_nil_r);
      subst sent; destruct (answerable (te_envelope e)) eqn:Hans; simpl;
      first [by apply answer_timeout | by apply answer_unanswerable].
  - rewrite (Hd eq_refl) in Hi. destruct Hi as [_ Ha]. by rewrite app_nil_r.
Qed.

Lemma task_poll_post e tk ev sent w tk' w2 o :
  task_inv e tk sent -> task_poll e tk ev w = (tk', w2, o) -> task_inv e tk' (sent ++ o).
Proof.
  destruct tk as [wk r|]; cbn [task_poll].
  2: { unfold ret. intros Ha [= <- <- <-]. by rewrite app_nil_r. }
  intros Hi (x & w1 & o1 & o2 & Hp & Hk & ->)%bind_inv. destruct x as [wk' r'].
  assert (Hi' : work_inv e wk' r' (sent ++ o1)).
  { destruct (polls_work ev); [by eapply work_poll_post|].
    unfold ret in Hp. injection Hp as <- <- <- <-. by rewrite app_nil_r. }
  rewrite app_assoc. destruct wk'; try (by eapply finish_inv; [exact Hi'| |exact Hk]);
    (destruct (timer ev); [by eapply finish_inv; [exact Hi'| |exact Hk]|];
     unfold ret in Hk; injection Hk as <- <- <-; by rewrite app_nil_r).
Qed.

Lemma task_run_post e evs : forall tk sent w tk' w2 o,
  task_inv e tk sent -> task_run e tk w evs = (tk', w2, o) -> task_inv e tk' (sent ++ o).
Proof.
  induction evs as [|[ev env] evs IH]; intros tk sent w tk' w2 o Hi; cbn [task_run].
  - intros [= <- <- <-]. by rewrite app_nil_r.
  - destruct (task_poll e tk ev w) as [[tk1 w1] o1] eqn:Hp.
    destruct (task_run e tk1 (env w1) evs) as [[tk3 w3] o3] eqn:Hr. intros [= <- <- <-].
    rewrite app_assoc. eapply IH; [|exact Hr]. by eapply task_poll_post.
Qed.

Lemma answer_length e o : answer e o -> length o <= 1.
Proof. destruct 1; simpl; try lia. destruct (reply _ _ _ _); simpl; lia. Qed.

(** ** Properties *)

End request.

(** *** Witnesses: an echo request, in time and too late *)

Definition w_hooks : @hooks unit (request_context unit) unit := Hooks [w_grant] [] [] [].
Definition w_call : @task_env unit json (bool * json) (request_context unit) unit :=
  TaskEnv w_echo_handler w_hooks w_schema (Mcp (Some (Num 1))) (jobj []) context_empty.
Definition w_late : list (poll_event * (world unit -> world unit)) :=
  [(PollEvent true false 0, id); (PollEvent false true 31, id); (PollEvent true true 32, id)].
Definition w_json : json -> string := fun _ => "".
Definition w_text : ws_response -> result string string := fun _ => Ok "".


