(* ===== verification/Session.v ===== *)
(** * A connection's session: [src/libs/ws/session.rs]

    [handle_message] classifies one inbound frame; [session_step] is the session
    loop, one poll at a time.  The tasks themselves are in [Request].

    [parse_json] is [serde_json::from_str::<Value>] (for JSON-RPC detection),
    [parse_request] the legacy parser [serde_json::from_str::<WsRequestValue>], both
    on the bytes of the payload. *)

From S2P Require Import Prelude BMap Json ModelTypes JsonSchema ErrorCode LogLevel Peer Message Outbound ServerConfig Limits Basics Toolbox Mcp Handler Headers Request.

(** [check_roles]. *)
Definition check_roles (actual_roles : list Z) (allowed_roles : gset Z) : bool :=
  if bool_decide (allowed_roles = ∅) || match actual_roles with [] => true | _ => false end then false
  else existsb (fun role => bool_decide (role ∈ allowed_roles)) actual_roles.

(** ** [priority4]

    The outputs of the arms that are ready in the same poll; [select] returns its
    left arm when that arm is ready and polls the right one otherwise. *)
Inductive arm (H O I E : Type) := ArmHandler (h : H) | ArmOutbound (o : O) | ArmInbound (i : I) | ArmEnd (e : E).
Arguments ArmHandler {H O I E} _.
Arguments ArmOutbound {H O I E} _.
Arguments ArmInbound {H O I E} _.
Arguments ArmEnd {H O I E} _.

Definition select {A B} (left : option A) (right : option B) : option (A + B) :=
  match left with Some a => Some (inl a) | None => match right with Some b => Some (inr b) | None => None end end.

Definition priority4 {H O I E} (handler : option H) (outbound : option O) (inbound : option I) (end_ : option E)
    : option (arm H O I E) :=
  match select handler (select outbound (select inbound end_)) with
  | None => None
  | Some (inl fired) => Some (ArmHandler fired)
  | Some (inr (inl fired)) => Some (ArmOutbound fired)
  | Some (inr (inr (inl fired))) => Some (ArmInbound fired)
  | Some (inr (inr (inr fired))) => Some (ArmEnd fired)
  end.

(** ** [handle_message] *)

Section session.
Context {V Req HS BS AS : Type}.
Context (to_string : ws_response -> result string string) (render : json -> string).
Context (parse_json : bytes -> option json) (serde_error : json -> string).
Context (parse_request : bytes -> result ws_request string).

Abbreviation handler := (@handler V Req HS).
Abbreviation hooks := (@hooks V BS AS).
Abbreviation task_env := (@task_env V Req HS BS AS).
Abbreviation task := (@task V HS BS AS).

(** [WebsocketServer], less its [upgrader] (the transport); [limits] is in the world. *)
Record server := Server {
  sv_auth_controller : auth_controller (V := V);
  sv_config : ws_server_config;
  sv_handlers : gmap Z (ws_endpoint handler);
  sv_toolbox : toolbox;
  sv_mcp : option mcp_state;
  sv_hooks : hooks;
}.

Inductive dispatch := DClose | DKeep | DTask (e : task_env).

Context (server : server).
Abbreviation config := (sv_config server).
Abbreviation emit := (emit to_string render (sv_toolbox server)).

(** [self.conn_info]: the connection this session serves, whose roles and user id
    other holders of the [Arc] may change. *)
Context (conn_info : ws_connection V).
Definition conn (w : world V) : ws_connection V :=
  default conn_info (conns w !! c_connection_id conn_info).

Definition observe_bytes (msg : wire_message) : act V unit := fun w =>
  let bytes := match msg with Text t => length t | Binary b => length b | _ => 0 end in
  let '(l, ev) := observe_message config bytes (lim w) in (tt, set_limits w l ev, []).

Definition acquire_slot : act V bool := fun w =>
  let '(slot, l, ev) := acquire_request config (lim w) in
  (match slot with Some _ => true | None => false end, set_limits w l ev, []).

(** The payload as text, as [handle_message] reads it for JSON-RPC. *)
Definition rpc_payload (msg : wire_message) : option bytes :=
  match msg with
  | Text t => Some t
  | Binary b => utf8_try_from b
  | _ => None
  end.

Definition detect (msg : wire_message) : option (result rpc_request json) :=
  match rpc_payload msg with
  | Some p => try_parse_jsonrpc (fun s => parse_json (bytes_of_string s)) serde_error (string_of_bytes p)
  | None => None
  end.

(** [u32::try_from(n)]. *)
Definition seq_of_id (id : option rpc_id) (seq : Z) : Z :=
  match id with
  | Some (Num n) => if ((0 <=? n) && (n <=? u32_max))%Z then n else seq
  | _ => seq
  end.

Definition busy_rpc (id : option rpc_id) (conn_id : Z) : option out :=
  match id with
  | Some _ => Some (ORaw conn_id (jsonrpc_error id (rpc_error_new (-32000) "server busy")))
  | None => None
  end.

(** [handle_mcp_frame]: the task to push, if any. *)
Definition handle_mcp_frame (mcp : mcp_state) (frame : result rpc_request json) (context : request_context V)
    : act V (option task_env) := fun w =>
  let conn_id := x_connection_id context in
  match frame with
  | Err error_frame => (do! _ <- emit (ORaw conn_id error_frame) in ret None) w
  | Ok req =>
      if is_notification req then ret None w
      else
        let context := for_request context (x_seq context) (x_method context) (c_user_id (conn w)) (c_roles (conn w)) in
        match route mcp req (x_roles context) with
        | Respond frame => (do! _ <- emit (ORaw conn_id frame) in ret None) w
        | Ignore => ret None w
        | ToolCall id method_code arguments =>
            let context := for_request context (seq_of_id id (x_seq context)) method_code (x_user_id context) (x_roles context) in
            match sv_handlers server !! method_code with
            | None => (do! _ <- emit (ORaw conn_id (jsonrpc_error id (rpc_error_new METHOD_NOT_FOUND "Method not found"))) in ret None) w
            | Some endpoint =>
                (do! ok <- acquire_slot in
                 if negb ok then do! _ <- emit_opt to_string render (sv_toolbox server) (busy_rpc id conn_id) in ret None
                 else ret (Some (TaskEnv (we_handler endpoint) (sv_hooks server) (we_schema endpoint)
                                   (Mcp id) arguments context))) w
            end
        end
  end.

Definition mcp_only_error : json :=
  jsonrpc_error None (rpc_error_new INVALID_REQUEST "This WebSocket accepts MCP JSON-RPC 2.0 frames only").

(** [refuse_request]. *)
Definition refuse_request (context : request_context V) (message : string) : out :=
  OResp (x_connection_id context)
    (error_response context TOO_MANY_REQUESTS [("kind", JStr "server_error"); ("message", JStr message)]).

(** The legacy envelope, after the payload has parsed. *)
Definition handle_request (context : request_context V) (req : ws_request) : act V dispatch := fun w =>
  let context := for_request context (rq_seq req) (rq_method req) (c_user_id (conn w)) (c_roles (conn w)) in
  match sv_handlers server !! rq_method req with
  | None =>
      (do! _ <- emit (OResp (x_connection_id context) (request_error context NOT_IMPLEMENTED "Method not implemented")) in
       ret DKeep) w
  | Some endpoint =>
      if negb (check_roles (x_roles context) (we_allowed_roles endpoint)) then
        (do! _ <- emit (OResp (x_connection_id context) (request_error context FORBIDDEN "Forbidden")) in ret DKeep) w
      else
        (do! ok <- acquire_slot in
         if negb ok then do! _ <- emit (refuse_request context "server busy") in ret DKeep
         else ret (DTask (TaskEnv (we_handler endpoint) (sv_hooks server) (we_schema endpoint)
                            Legacy (rq_params req) context))) w
  end.

Definition handle_legacy (context : request_context V) (msg : wire_message) : act V dispatch :=
  match msg with
  | Text b | Binary b =>
      match parse_request b with
      | Err err =>
          do! _ <- emit (OResp (x_connection_id context) (request_error context BAD_REQUEST err)) in ret DKeep
      | Ok req => handle_request context req
      end
  | Ping _ | Pong _ => ret DKeep
  | Close _ => ret DClose
  end.

Definition handle_message (msg : wire_message) : act V dispatch :=
  do! _ <- observe_bytes msg in
  fun w =>
  let context := from_conn (conn w) in
  match sv_mcp server, detect msg with
  | Some mcp, Some frame =>
      (do! task <- handle_mcp_frame mcp frame context in
       ret (match task with Some e => DTask e | None => DKeep end)) w
  | _, _ =>
      if mcp_only config then (do! _ <- emit (ORaw (x_connection_id context) mcp_only_error) in ret DKeep) w
      else handle_legacy context msg w
  end.

(** ** The loop *)

Inductive stream_error := SClosed | SWriteBufferFull | SProtocol (e : string) | SOther (e : string).

(** [classify_outbound]. *)
Inductive outbound := Frame (msg : wire_message) | OutClosed.
Definition classify_outbound (msg : option wire_message) : outbound :=
  match msg with Some frame => Frame frame | None => OutClosed end.

Inductive exit_reason :=
  XIdle | XSendFailed | XHeaderOnly | XEnd | XOutboundClosed | XStreamEnded | XStreamError (e : stream_error) | XClosed.

(** Where the loop is suspended: at the head of the loop, in the draining
    [while let], or in the four-way wait. *)
Inductive phase := PHead | PDrain | PSelect | PExit (why : exit_reason).

Record sess := Sess {
  s_phase : phase;
  s_tasks : list (task_env * task);
  s_last_received : Z;
}.
Definition at_phase (s : sess) (p : phase) : sess := Sess p (s_tasks s) (s_last_received s).
Definition with_tasks (s : sess) (tasks : list (task_env * task)) : sess :=
  Sess (s_phase s) tasks (s_last_received s).

(** What the environment answers at one step: the time, whether the stream accepts a
    frame, which tasks are polled and how, and what the inbound stream has. *)
Record tick := Tick {
  tk_now : Z;
  tk_send : result unit stream_error;
  tk_polls : list (nat * poll_event);
  tk_inbound : option (option (result wire_message stream_error));
}.

(** [idle_expired], and what the timer of [run] waits for. *)
Definition idle (tk : tick) (s : sess) : bool :=
  match idle_timeout config with
  | Some timeout => (timeout <=? Z.max 0 (tk_now tk - s_last_received s))%Z
  | None => false
  end.

(** The session's own queue and policy flag, through the table; the entry exists
    while the session runs. *)
Definition my_state (w : world V) : option stream_state := states w !! c_connection_id conn_info.
Definition my_queue (w : world V) : list wire_message := from_option (fun s => queue (message_queue s)) [] (my_state w).
Definition my_end (w : world V) : bool := from_option end_flag false (my_state w).

Definition put_queue (w : world V) (s : stream_state) (q : inner wire_message) : world V :=
  put_state w (c_connection_id conn_info) (WsStreamState q (end_flag s)).

Definition rx_try_recv (w : world V) : option wire_message * world V :=
  match my_state w with
  | None => (None, w)
  | Some s => match try_recv (message_queue s) with
              | (Ok m, q) => (Some m, put_queue w s q)
              | (Err _, q) => (None, put_queue w s q)
              end
  end.

(** [self.rx.recv()] polled with the session's waker. *)
Definition rx_recv (waker : nat) (w : world V) : option (option wire_message) * world V :=
  match my_state w with
  | None => (Some None, w)
  | Some s => let '(r, q) := recv_poll (message_queue s) waker in (r, put_queue w s q)
  end.

(** [handlers.next()]: polls tasks until one has finished, which leaves the set. *)
Fixpoint poll_tasks (tasks : list (task_env * task)) (polls : list (nat * poll_event)) : act V (bool * list (task_env * task)) :=
  match polls with
  | [] => ret (false, tasks)
  | (i, ev) :: polls =>
      match tasks !! i with
      | None => poll_tasks tasks polls
      | Some (e, tk) =>
          do! tk <- task_poll to_string render config (sv_toolbox server) e tk ev in
          match tk with
          | Finished => ret (true, delete i tasks)
          | tk => poll_tasks (<[i := (e, tk)]> tasks) polls
          end
      end
  end.

(** [send_message]: whether the loop goes on, and what is logged. *)
Definition send_message (sent : result unit stream_error) : bool * option (LogLevel.log_level * string) :=
  match sent with
  | Ok _ => (true, None)
  | Err SClosed => (false, Some (LogLevel.Debug, "WS send: connection closed"))
  | Err SWriteBufferFull => (false, Some (LogLevel.Warn, "WS send: write buffer full"))
  | Err (SProtocol _) => (false, Some (LogLevel.Warn, "WS send: protocol error"))
  | Err (SOther _) => (false, Some (LogLevel.Error, "WS send error"))
  end.

(** A result of a step: the new session and the frames given to the stream. *)
Definition after_send (tk : tick) (msg : wire_message) (s : sess) (next : phase) : sess * list wire_message :=
  match tk_send tk with
  | Err _ => (at_phase s (PExit XSendFailed), [])
  | Ok _ => (at_phase s (if header_only config then PExit XHeaderOnly else next), [msg])
  end.

(** That is what [send_message] says. *)
Lemma after_send_message tk msg s next :
  after_send tk msg s next =
  if (send_message (tk_send tk)).1
  then (at_phase s (if header_only config then PExit XHeaderOnly else next), [msg])
  else (at_phase s (PExit XSendFailed), []).
Proof. unfold after_send. by destruct (tk_send tk) as [|[]]. Qed.

Definition on_inbound (tk : tick) (s : sess) (msg : option (result wire_message stream_error)) : act V (sess * list wire_message) :=
  match msg with
  | None => ret (at_phase s (PExit XStreamEnded), [])
  | Some (Err e) => ret (at_phase s (PExit (XStreamError e)), [])
  | Some (Ok m) =>
      let s := Sess (s_phase s) (s_tasks s) (tk_now tk) in
      do! d <- handle_message m in
      match d with
      | DClose => ret (at_phase s (PExit XClosed), [])
      | DKeep => ret (at_phase s PHead, [])
      | DTask e => ret (at_phase (with_tasks s (s_tasks s ++ [(e, task_start e)])) PHead, [])
      end
  end.

(** The wait: handlers, then outbound, then inbound, then the policy flag.  An arm is
    polled only when the arms before it are not ready. *)
Definition poll_select (waker : nat) (tk : tick) (s : sess) : act V (sess * list wire_message) :=
  do! ht <- poll_tasks (s_tasks s) (tk_polls tk) in
  let '(finished, tasks) := ht in
  let s := with_tasks s tasks in
  fun w =>
  let '(out, w1) := if finished then (None, w) else rx_recv waker w in
  let end_ := if my_end w1 then Some tt else None in
  match priority4 (if finished then Some tt else None) out (tk_inbound tk) end_ with
  | None => ret (s, []) w1
  | Some (ArmHandler _) => ret (at_phase s PHead, []) w1
  | Some (ArmOutbound msg) =>
      match classify_outbound msg with
      | Frame msg => ret (after_send tk msg s PHead) w1
      | OutClosed => ret (at_phase s (PExit XOutboundClosed), []) w1
      end
  | Some (ArmInbound msg) => on_inbound tk s msg w1
  | Some (ArmEnd _) => ret (at_phase s (PExit XEnd), []) w1
  end.

Definition session_step (waker : nat) (tk : tick) (s : sess) : act V (sess * list wire_message) :=
  match s_phase s with
  | PExit _ => ret (s, [])
  | PHead => ret (at_phase s (if idle tk s then PExit XIdle else PDrain), [])
  | PDrain => fun w =>
      match rx_try_recv w with
      | (Some msg, w) =>
          if idle tk s then ret (at_phase s (PExit XIdle), []) w else ret (after_send tk msg s PDrain) w
      | (None, w) => ret (at_phase s (if my_end w then PExit XEnd else PSelect), []) w
      end
  | PSelect => if idle tk s then ret (at_phase s (PExit XIdle), []) else poll_select waker tk s
  end.

(** ** The whole session

    Steps, with what the rest of the process does between them; then the session is
    dropped: its unfinished tasks, and the receiver of its queue. *)
Fixpoint session_run (waker : nat) (evs : list (tick * (world V -> world V))) (s : sess)
    : act V (sess * list wire_message) :=
  match evs with
  | [] => ret (s, [])
  | (tk, env) :: evs =>
      do! r <- session_step waker tk s in
      do! r2 <- (fun w => session_run waker evs r.1 (env w)) in
      ret (r2.1, r.2 ++ r2.2)
  end.

Fixpoint drop_tasks (tasks : list (task_env * task)) : act V unit :=
  match tasks with
  | [] => ret tt
  | (_, tk) :: tasks => do! _ <- task_drop tk in drop_tasks tasks
  end.

Definition drop_rx : act V unit := fun w =>
  (tt, match my_state w with Some s => put_queue w s (receiver_drop (message_queue s)) | None => w end, []).

Definition run (waker : nat) (now : Z) (evs : list (tick * (world V -> world V))) : act V (phase * list wire_message) :=
  do! r <- session_run waker evs (Sess PHead [] now) in
  do! _ <- drop_tasks (s_tasks r.1) in
  do! _ <- drop_rx in
  ret (s_phase r.1, r.2).

(** ** Lemmas *)

Lemma check_roles_spec roles allowed :
  check_roles roles allowed = true <-> exists r, r ∈ roles /\ r ∈ allowed.
Proof. apply roles_allowed_spec. Qed.

Lemma observe_bytes_inv msg w :
  exists l ev, observe_bytes msg w = (tt, set_limits w l ev, []) /\ inflight l = inflight (lim w).
Proof.
  unfold observe_bytes. set (n := match msg with Text _ => _ | _ => _ end).
  destruct (observe_message config n (lim w)) as [l ev] eqn:Ho. exists l, ev. split; [done|].
  unfold observe_message in Ho. destruct (warn_message_bytes config); [|by injection Ho as <- <-].
  destruct (Nat.leb _ _); by injection Ho as <- <-.
Qed.

Lemma acquire_slot_inv w ok w' o :
  acquire_slot w = (ok, w', o) ->
  o = [] /\ conns w' = conns w
  /\ (ok = true -> inflight (lim w') = S (inflight (lim w))
        /\ forall c, max_inflight_requests config = Some c -> inflight (lim w) < c).
Proof.
  unfold acquire_slot, acquire_request. pose proof (acquire_sequential config "inflight_requests" (lim w)) as Ha.
  destruct (acquire config "inflight_requests" (lim w)) as [[b l] ev]. simpl in Ha.
  destruct Ha as (Hr & Hc & _). intros [= <- <- <-]. split_and!; [done|done|].
  destruct b; [|done]. intros _. split; [done|]. intros c Hcap.
  destruct (Nat.lt_ge_cases (inflight (lim w)) c) as [|Hge]; [done|].
  assert (true = false); [|done]. apply Hr. by exists c.
Qed.

Lemma emit_inv o (w : world V) u w' os : emit o w = (u, w', os) -> os = [o].
Proof. intros H. pose proof (emit_outs to_string render (sv_toolbox server) o w) as Ho. by rewrite H in Ho. Qed.

(** The task a dispatched request becomes. *)
Definition accepted (w : world V) (w' : world V) (e : task_env) : Prop :=
  exists code endpoint,
    sv_handlers server !! code = Some endpoint
    /\ te_handler e = we_handler endpoint /\ te_schema e = we_schema endpoint /\ te_hooks e = sv_hooks server
    /\ (exists r, r ∈ c_roles (conn w) /\ r ∈ we_allowed_roles endpoint)
    /\ x_method (te_context e) = code
    /\ x_connection_id (te_context e) = c_connection_id (conn w)
    /\ x_roles (te_context e) = c_roles (conn w) /\ x_user_id (te_context e) = c_user_id (conn w)
    /\ inflight (lim w') = S (inflight (lim w))
    /\ (forall c, max_inflight_requests config = Some c -> inflight (lim w) < c).

(** What one frame may lead to. *)
Definition dispatch_post (w w' : world V) (d : dispatch) (o : list out) : Prop :=
  match d with
  | DTask e => o = [] /\ accepted w w' e
  | DClose => o = []
  | DKeep => length o <= 1
  end.

Lemma handle_request_post context req w d w' o :
  x_connection_id context = c_connection_id (conn w) ->
  handle_request context req w = (d, w', o) -> dispatch_post w w' d o.
Proof.
  intros Hid. unfold handle_request.
  destruct (sv_handlers server !! rq_method req) as [endpoint|] eqn:He.
  2: { intros (u & w1 & o1 & o2 & Hm & Hk & ->)%bind_inv. apply emit_inv in Hm as ->. injection Hk as <- <- <-; simpl; lia. }
  destruct (check_roles _ _) eqn:Hr; simpl negb; cbv iota.
  2: { intros (u & w1 & o1 & o2 & Hm & Hk & ->)%bind_inv. apply emit_inv in Hm as ->. injection Hk as <- <- <-; simpl; lia. }
  intros (ok & w1 & o1 & o2 & Hm & Hk & ->)%bind_inv.
  apply acquire_slot_inv in Hm as (-> & _ & Hok). destruct ok; simpl in Hk.
  - injection Hk as <- <- <-. destruct (Hok eq_refl) as [Hl Hc]. split; [done|].
    exists (rq_method req), endpoint. split_and!; try done. by apply check_roles_spec.
  - apply bind_inv in Hk as (u & w2 & o3 & o4 & Hm & Hk & ->). apply emit_inv in Hm as ->.
    injection Hk as <- <- <-. simpl. lia.
Qed.

Lemma handle_legacy_post context msg w d w' o :
  x_connection_id context = c_connection_id (conn w) ->
  handle_legacy context msg w = (d, w', o) -> dispatch_post w w' d o.
Proof.
  intros Hid. assert (Hp : forall b, (match parse_request b with
      | Err err => do! _ <- emit (OResp (x_connection_id context) (request_error context BAD_REQUEST err)) in ret DKeep
      | Ok req => handle_request context req end) w = (d, w', o) -> dispatch_post w w' d o).
  { intros b. destruct (parse_request b) as [req|err]; [by apply handle_request_post|].
    intros (u & w1 & o1 & o2 & Hm & Hk & ->)%bind_inv. apply emit_inv in Hm as ->. injection Hk as <- <- <-; simpl; lia. }
  destruct msg; simpl; try apply Hp; intros [= <- <- <-]; simpl; lia || done.
Qed.

(** The handlers are keyed by code, and the MCP state was built from handlers that
    are still registered: others may have been added since. *)
Definition mcp_consistent : Prop :=
  keyed_by_code (sv_handlers server)
  /\ forall s, sv_mcp server = Some s ->
       exists cc snapshot, snapshot ⊆ sv_handlers server /\ mcp_state_of cc snapshot s.

Lemma route_tool cc snapshot s req roles id code args :
  mcp_state_of cc snapshot s -> snapshot ⊆ sv_handlers server -> keyed_by_code (sv_handlers server) ->
  route s req roles = ToolCall id code args ->
  exists e, sv_handlers server !! code = Some e /\ exists r, r ∈ roles /\ r ∈ we_allowed_roles e.
Proof.
  intros Hs Hsub Hk Hr. assert (keyed_by_code snapshot) as Hks.
  { intros c e He. apply Hk. by eapply lookup_weaken. }
  destruct (route_sound _ _ _ _ _ _ _ _ Hks Hs Hr) as [_ (e & He & Hrole)].
  exists e. split; [by eapply lookup_weaken|done].
Qed.

Lemma handle_mcp_frame_post mcp frame context w x w' o :
  mcp_consistent -> sv_mcp server = Some mcp ->
  x_connection_id context = c_connection_id (conn w) ->
  handle_mcp_frame mcp frame context w = (x, w', o) ->
  match x with Some e => o = [] /\ accepted w w' e | None => length o <= 1 end.
Proof.
  intros [Hk Hs] Hmcp Hid. destruct (Hs _ Hmcp) as (cc & snapshot & Hsub & Hcc). unfold handle_mcp_frame.
  assert (Hemit : forall out, (do! _ <- emit out in ret None) w = (x, w', o) ->
            match x with Some e => o = [] /\ accepted w w' e | None => length o <= 1 end).
  { intros out (u & w1 & o1 & o2 & Hm & Hr & ->)%bind_inv. apply emit_inv in Hm as ->. injection Hr as <- <- <-; simpl; lia. }
  destruct frame as [req|err]; [|apply Hemit].
  destruct (is_notification req); [intros [= <- <- <-]; simpl; lia|].
  simpl x_roles. destruct (route mcp req (c_roles (conn w))) as [frame|id code args|] eqn:Hr;
    [apply Hemit| |intros [= <- <- <-]; simpl; lia].
  destruct (sv_handlers server !! code) as [endpoint|] eqn:He; [|apply Hemit].
  destruct (route_tool _ _ _ _ _ _ _ _ Hcc Hsub Hk Hr) as (e' & He' & Hrole). rewrite He in He'. injection He' as <-.
  intros (ok & w1 & o1 & o2 & Hm & Hk2 & ->)%bind_inv.
  apply acquire_slot_inv in Hm as (-> & _ & Hok). destruct ok; simpl in Hk2.
  - injection Hk2 as <- <- <-. destruct (Hok eq_refl) as [Hl Hc]. split; [done|].
    exists code, endpoint. split_and!; done.
  - apply bind_inv in Hk2 as (u & w2 & o3 & o4 & Hm & Hr2 & ->). injection Hr2 as <- <- <-.
    destruct id as [i|]; [change (emit (ORaw (x_connection_id context) (jsonrpc_error (Some i) (rpc_error_new (-32000) "server busy"))) w1 = (u, w2, o3)) in Hm; apply emit_inv in Hm as ->|injection Hm as <- <- <-]; simpl; lia.
Qed.

Lemma accepted_limits w l ev w' e :
  inflight l = inflight (lim w) -> accepted (set_limits w l ev) w' e -> accepted w w' e.
Proof.
  intros Hl (code & ep & ? & ? & ? & ? & ? & ? & ? & ? & ? & H1 & H2). exists code, ep.
  simpl in H1, H2. rewrite Hl in H1, H2. split_and!; done.
Qed.

(** *** The session's own queue *)

Lemma my_queue_put w s q : my_state w = Some s -> my_queue (put_queue w s q) = queue q.
Proof. intros Hs. unfold my_queue, my_state, put_queue, put_state. simpl. by rewrite lookup_insert_eq. Qed.

Lemma rx_try_recv_none w w' : rx_try_recv w = (None, w') -> my_queue w' = [].
Proof.
  unfold rx_try_recv. destruct (my_state w) as [s|] eqn:Hs.
  - unfold try_recv. pose proof (pop_inv (message_queue s)) as Hp.
    destruct (pop (message_queue s)) as [[v| |] q]; try done; intros [= <-];
      rewrite my_queue_put by done; by destruct Hp as (Hq & _ & ->).
  - intros [= <-]. unfold my_queue. by rewrite Hs.
Qed.

Lemma rx_recv_none waker w w' : rx_recv waker w = (None, w') -> my_queue w' = [] /\ my_queue w = [].
Proof.
  unfold rx_recv. destruct (my_state w) as [s|] eqn:Hs; [|done]. unfold recv_poll.
  pose proof (pop_inv (message_queue s)) as Hp.
  destruct (pop (message_queue s)) as [[v| |] q]; try done. intros [= <-].
  destruct Hp as (Hq & _ & ->). rewrite my_queue_put, park_eq by done. split; [done|].
  unfold my_queue. by rewrite Hs.
Qed.

Lemma rx_recv_pending waker w w' : rx_recv waker w = (None, w') -> my_queue w' = [].
Proof. by intros [? _]%rx_recv_none. Qed.
Lemma rx_recv_pending_queue waker w w' : rx_recv waker w = (None, w') -> my_queue w = [].
Proof. by intros [_ ?]%rx_recv_none. Qed.

Lemma on_inbound_phase tk s inb w s' sent w' o :
  on_inbound tk s inb w = ((s', sent), w', o) -> s_phase s' <> PExit XEnd.
Proof.
  unfold on_inbound. destruct inb as [[m|e]|]; [|by intros [= <- <- <- <-]..].
  intros (d & w1 & o1 & o2 & _ & Hk & _)%bind_inv. by destruct d; injection Hk as <- <- <- <-.
Qed.

Lemma poll_select_not_idle waker tk s w s' sent w' o :
  s_phase s = PSelect -> poll_select waker tk s w = ((s', sent), w', o) -> s_phase s' <> PExit XIdle.
Proof.
  intros Hph. unfold poll_select. intros ([finished tasks] & w1 & o1 & o2 & _ & Hk & _)%bind_inv.
  destruct finished; [by injection Hk as <- <- <- <-|].
  destruct (rx_recv waker w1) as [[[msg|]|] w2]; simpl in Hk.
  - unfold after_send, ret in Hk. destruct (tk_send tk); [destruct (header_only config)|]; by injection Hk as <- <- <- <-.
  - by injection Hk as <- <- <- <-.
  - unfold priority4, select in Hk. destruct (tk_inbound tk) as [inb|].
    + unfold on_inbound in Hk. destruct inb as [[m|e]|]; [|by injection Hk as <- <- <- <-..].
      apply bind_inv in Hk as (d & w3 & o3 & o4 & _ & Hk & _). by destruct d; injection Hk as <- <- <- <-.
    + destruct (my_end w2); injection Hk as <- <- <- <-; simpl; congruence.
Qed.

(** *** A flagged session *)

Definition not_reading (p : phase) : Prop := match p with PSelect => False | _ => True end.

Lemma put_queue_end s q w :
  my_state w = Some s -> my_end  (put_queue w s q) = my_end w.
Proof. intros Hs. unfold my_end. rewrite Hs. unfold my_state, put_queue, put_state. simpl. by rewrite lookup_insert_eq. Qed.

Lemma rx_try_recv_end w m w' : rx_try_recv  w = (m, w') -> my_end w' = my_end w.
Proof.
  unfold rx_try_recv. destruct (my_state w) as [s|] eqn:Hs; [|by intros [= _ <-]].
  destruct (try_recv _) as [[v|err] q]; intros [= _ <-]; by apply put_queue_end.
Qed.


Lemma flagged_step waker tk s w s' sent w' o :
  my_end w = true -> not_reading (s_phase s) -> s_tasks s = [] ->
  session_step waker tk s w = ((s', sent), w', o) ->
  my_end w' = true /\ not_reading (s_phase s') /\ s_tasks s' = [] /\ o = [].
Proof.
  intros He Hn Ht. unfold session_step. destruct (s_phase s) eqn:Hph; [| |done|].
  - intros [= <- _ <- <-]. split_and!; try done. simpl. by destruct (idle _ _).
  - destruct (rx_try_recv w) as [[msg|] w1] eqn:Hr; apply rx_try_recv_end in Hr; rewrite He in Hr.
    + unfold after_send, ret. destruct (idle _ _); [|destruct (tk_send tk); [destruct (header_only config)|]];
        by intros [= <- _ <- <-].
    + rewrite Hr. by intros [= <- _ <- <-].
  - intros [= <- _ <- <-]. split_and!; try done. by rewrite Hph.
Qed.

Lemma flagged_run waker evs : forall s w s' sent w' o,
  Forall (fun te => forall w, my_end w = true -> my_end (te.2 w) = true) evs ->
  my_end w = true -> not_reading (s_phase s) -> s_tasks s = [] ->
  session_run waker evs s w = ((s', sent), w', o) ->
  not_reading (s_phase s') /\ s_tasks s' = [] /\ o = [].
Proof.
  induction evs as [|[tk env] evs IH]; intros s w s' sent w' o Hevs He Hn Ht; cbn [session_run].
  - by intros [= <- _ <- <-].
  - inversion_clear Hevs as [|? ? Henv Hevs'].
    intros ([s1 sent1] & w1 & o1 & o2 & Hp & Hk & ->)%bind_inv. simpl in Hk.
    eapply flagged_step in Hp as (He1 & Hn1 & Ht1 & ->); [|done..].
    apply bind_inv in Hk as ([s2 sent2] & w2 & o3 & o4 & Hr & Hk & ->). injection Hk as <- _ <- <-.
    eapply IH in Hr as (? & ? & ->); [done| | | | ]; try done. by apply Henv.
Qed.

(** ** Properties *)

(** C9: nothing is dispatched without permission.  For every inbound frame,
    in either protocol, [handle_message] starts a task only for a registered
    endpoint that the connection's current roles allow, with that endpoint's
    handler and schema and a context that identifies this connection, only below
    the in-flight limit, taking one slot; a dispatched or closing frame is not
    answered, and any other frame is answered at most once. *)
Theorem handle_message_dispatch msg w d w' o :
  mcp_consistent -> handle_message msg w = (d, w', o) -> dispatch_post w w' d o.
Proof.
  intros Hcons. unfold handle_message. intros (u & w1 & o1 & o2 & Hm & Hk & ->)%bind_inv.
  destruct (observe_bytes_inv msg w) as (l & ev & Hob & Hl). rewrite Hob in Hm. injection Hm as _ <- <-.
  assert (Hlift : forall w', dispatch_post (set_limits w l ev) w' d o2 -> dispatch_post w w' d o2).
  { intros w2. destruct d; simpl; try done. intros [-> Ha]. split; [done|]. by eapply accepted_limits. }
  apply Hlift. simpl app. set (context := from_conn (conn (set_limits w l ev))) in Hk.
  assert (Hleg : (if mcp_only config then do! _ <- emit (ORaw (x_connection_id context) mcp_only_error) in ret DKeep
                  else handle_legacy context msg) (set_limits w l ev) = (d, w', o2) ->
                 dispatch_post (set_limits w l ev) w' d o2).
  { destruct (mcp_only config); [|by apply handle_legacy_post].
    intros (u' & w2 & o3 & o4 & Hm & Hr & ->)%bind_inv. apply emit_inv in Hm as ->. injection Hr as <- <- <-; simpl; lia. }
  destruct (sv_mcp server) as [mcp|] eqn:Hmcp; [destruct (detect msg) as [frame|]|];
    [|apply Hleg; by destruct (mcp_only config)..].
  apply bind_inv in Hk as (x & w2 & o3 & o4 & Hx & Hr & ->).
  apply handle_mcp_frame_post in Hx; [|done..].
  destruct x as [e|]; injection Hr as <- <- <-; rewrite app_nil_r; done.
Qed.

(** Control frames.  [Ping] and [Pong] are ignored and [Close] ends the
    session, with no answer, except with [mcp_only]: there every control frame,
    [Close] included, is answered with the [Invalid Request] error and the session
    goes on. *)
Theorem control_frames msg w :
  (match msg with Ping _ | Pong _ | Close _ => True | _ => False end) ->
  (act_value (handle_message msg w), act_outs (handle_message msg w))
  = (if mcp_only config then (DKeep, [ORaw (c_connection_id (conn w)) mcp_only_error])
     else (match msg with Close _ => DClose | _ => DKeep end, [])).
Proof.
  intros Hc. destruct (observe_bytes_inv msg w) as (l & ev & Hob & _).
  assert (Hd : detect msg = None) by (by destruct msg).
  unfold handle_message. rewrite (bind_run _ _ _ _ _ _ Hob), Hd.
  change (conn w) with (conn (set_limits w l ev)). generalize (set_limits w l ev). intros w1.
  unfold act_value, act_outs. by destruct (mcp_only config), (sv_mcp server); destruct msg.
Qed.


(** C28: inbound frames wait for answers.  A step of the wait in which a
    handler finishes, or that finds a frame in the outbound queue, gives the same
    result whatever the inbound stream holds: nothing is read from the peer before
    finished requests are collected and queued answers are sent. *)
Theorem inbound_last waker tk inbound s w :
  s_phase s = PSelect ->
  (let '((finished, _), w1, _) := poll_tasks (s_tasks s) (tk_polls tk) w in
   finished = true \/ my_queue w1 <> []) ->
  session_step waker (Tick (tk_now tk) (tk_send tk) (tk_polls tk) inbound) s w = session_step waker tk s w.
Proof.
  intros Hph. unfold session_step. rewrite Hph. unfold idle. simpl.
  destruct (match idle_timeout config with Some _ => _ | None => false end); [done|].
  unfold poll_select. simpl. unfold bind.
  destruct (poll_tasks (s_tasks s) (tk_polls tk) w) as [[[finished tasks] w1] o1].
  intros [->|Hq]; [done|]. destruct finished; [done|].
  destruct (rx_recv waker w1) as [[msg|] w2] eqn:Hr; [done|].
  exfalso. apply Hq. by eapply rx_recv_pending_queue.
Qed.

(** A flagged connection is only drained.  From the start of a session
    whose policy flag is set, as after a failed authentication, no frame of the peer
    is read, no handler is started and nothing is answered, however long it runs:
    the session sends what is queued and ends. *)
Theorem flagged_only_drains waker evs now w s' sent w' o :
  Forall (fun te => forall w, my_end w = true -> my_end (te.2 w) = true) evs ->
  my_end w = true ->
  session_run waker evs (Sess PHead [] now) w = ((s', sent), w', o) ->
  s_phase s' <> PSelect /\ s_tasks s' = [] /\ o = [].
Proof.
  intros Hevs He Hr. eapply flagged_run in Hr as (Hn & Ht & Ho); [|done..].
  split_and!; [|done|done]. intros Hx. by rewrite Hx in Hn.
Qed.
End session.

(** *** Witnesses: a server with one endpoint, one connection *)

Definition w_endpoint : ws_endpoint (@handler unit json (bool * json)) :=
  WsEndpoint w_schema w_echo_handler {[1]}%Z.
Definition w_server : @server unit json (bool * json) (request_context unit) unit :=
  Server simple_auth_controller config_default (<[20%Z := w_endpoint]> ∅) (set_ws_states toolbox_new false false) None w_hooks.
Definition w_conn : ws_connection unit := WsConnection 7 42 [1]%Z Unknown ext_new 9.
Definition w_live : world unit :=
  World (<[7%Z := WsStreamState (channel 4) true]> ∅) (<[7%Z := w_conn]> ∅) limit_default [].
Definition w_parse_json : bytes -> option json := fun _ => None.
Definition w_parse_request : bytes -> result ws_request string := fun _ => Ok (WsRequest 20 3 (jobj [])).
Definition w_serde_error : json -> string := fun _ => "".
Definition w_handle := handle_message w_text w_json w_parse_json w_serde_error w_parse_request w_server w_conn.
Definition w_step := session_step w_text w_json w_parse_json w_serde_error w_parse_request w_server w_conn.
Definition w_tick : tick := Tick 0 (Ok tt) [] None.
(** What [w_live] becomes when one answer is queued, its policy flag unset. *)
Definition w_queued : world unit :=
  World (<[7%Z := WsStreamState (Inner [Text []] 4 1 true None) false]> ∅) (<[7%Z := w_conn]> ∅) limit_default [].

Lemma w_consistent : mcp_consistent w_server.
Proof.
  split; [|done]. intros c e. unfold w_server. cbn. rewrite lookup_insert_Some, lookup_empty.
  intros [[<- <-]|[_ H]]; done.
Qed.

Lemma handle_message_dispatch_witness :
  match act_value (w_handle (Text []) w_live) with
  | DTask e => x_method (te_context e) = 20%Z
  | _ => False
  end /\ act_outs (w_handle (Text []) w_live) = [].
Proof.
  destruct (w_handle (Text []) w_live) as [[d w'] o] eqn:Hd.
  pose proof (handle_message_dispatch w_text w_json w_parse_json w_serde_error w_parse_request w_server w_conn
                (Text []) w_live d w' o w_consistent Hd) as Hp.
  vm_compute in Hd. injection Hd as <- _ _. destruct Hp as [-> (code & _ & _ & _ & _ & _ & _ & <- & _)].
  split; reflexivity.
Defined.

Lemma control_frames_witness : act_value (w_handle (Close None) w_live) = DClose.
Proof.
  exact (f_equal fst (control_frames w_text w_json w_parse_json w_serde_error w_parse_request w_server w_conn
                        (Close None) w_live I)).
Defined.


Lemma inbound_last_witness :
  w_step 5 (Tick 0 (Ok tt) [] (Some (Some (Ok (Close None))))) (Sess PSelect [] 0) w_queued
  = w_step 5 w_tick (Sess PSelect [] 0) w_queued.
Proof.
  apply (inbound_last w_text w_json w_parse_json w_serde_error w_parse_request w_server w_conn 5 w_tick
           (Some (Some (Ok (Close None)))) (Sess PSelect [] 0) w_queued); [reflexivity|].
  vm_compute. right. discriminate.
Defined.


Lemma flagged_only_drains_witness :
  let '((s', _), _, o) :=
    session_run w_text w_json w_parse_json w_serde_error w_parse_request w_server w_conn 5
      [(w_tick, id); (w_tick, id)] (Sess PHead [] 0) w_live in
  s_phase s' = PExit XEnd /\ s_tasks s' = [] /\ o = [].
Proof.
  destruct (session_run w_text w_json w_parse_json w_serde_error w_parse_request w_server w_conn 5
      [(w_tick, id); (w_tick, id)] (Sess PHead [] 0) w_live) as [[[s' sent] w'] o] eqn:Hr.
  destruct (flagged_only_drains w_text w_json w_parse_json w_serde_error w_parse_request w_server w_conn 5
              [(w_tick, id); (w_tick, id)] 0 w_live s' sent w' o) as (_ & Ht & Ho).
  - repeat constructor; auto.
  - reflexivity.
  - exact Hr.
  - split; [|split; [exact Ht|exact Ho]]. vm_compute in Hr. injection Hr as <- _ _ _. reflexivity.
Defined.
