(* ===== verification/Keeps.v ===== *)
(** * What a request leaves alone

    A relation between the worlds before and after is [Respected] when a send of the
    toolbox, which changes at most the queue and the flag of one registered connection,
    satisfies it.  If user code respects it too, so does every stage of a request, up to
    the accounting of its end.  Two such relations are used: [same_slots], the counter
    of in-flight requests ([Slots]), and [same_table], the set of the registered
    connections ([Server]). *)

From S2P Require Import Prelude BMap Json ModelTypes ErrorCode Peer Message Outbound ServerConfig Limits Basics Toolbox Mcp Handler Headers Request Session.

Create HintDb keeps.

Class Respected {V} (R : relation (world V)) : Prop := {
  respected_preorder :: PreOrder R;
  respected_conn : forall c w w', only_conn c w w' -> R w w';
}.

Definition slots {V} (w : world V) : nat := inflight (lim w).
Definition same_slots {V} (w w' : world V) : Prop := slots w' = slots w.
Definition same_table {V} (w w' : world V) : Prop := forall c, is_Some (states w' !! c) <-> is_Some (states w !! c).

#[export] Instance same_slots_respected {V} : Respected (V := V) same_slots.
Proof.
  split; [split|].
  - by intros w.
  - intros w1 w2 w3 H1 H2. unfold same_slots in *. congruence.
  - intros c w w' (_ & _ & _ & Hl & _). unfold same_slots, slots. by rewrite Hl.
Qed.

#[export] Instance same_table_respected {V} : Respected (V := V) same_table.
Proof.
  split; [split|].
  - by intros w.
  - intros w1 w2 w3 H1 H2 c. by rewrite (H2 c), (H1 c).
  - intros c w w' (Hne & Heq & _) c'. destruct (decide (c' = c)) as [->|Hc]; [done|by rewrite Hne].
Qed.

(** Both at once. *)
Definition same_books {V} (w w' : world V) : Prop := same_slots w w' /\ same_table w w'.

#[export] Instance same_books_respected {V} : Respected (V := V) same_books.
Proof.
  split; [split|].
  - by intros w.
  - intros w1 w2 w3 [] []. split; by transitivity w2.
  - intros c w w' Ho. split; by eapply respected_conn.
Qed.
#[export] Hint Resolve same_slots_respected same_table_respected same_books_respected : core.

Section keeps.
Context {V : Type} (R : relation (world V)) `{!Respected R}.

(** [m] respects [R] and returns a value that satisfies [P]. *)
Definition keeps {A} (P : A -> Prop) (m : act V A) : Prop :=
  forall w a w' o, m w = (a, w', o) -> R w w' /\ P a.

Lemma keeps_ret {A} (P : A -> Prop) a : P a -> keeps P (ret a).
Proof. by intros HP w a' w' o [= <- <- <-]. Qed.

Lemma keeps_bind {A B} (P : A -> Prop) (Q : B -> Prop) (m : act V A) (k : A -> act V B) :
  keeps P m -> (forall a, P a -> keeps Q (k a)) -> keeps Q (bind m k).
Proof.
  intros Hm Hk w b w' o (a & w1 & o1 & o2 & H1 & H2 & _)%bind_inv.
  apply Hm in H1 as [H1 Ha]. apply Hk in H2 as [H2 Hb]; [|done]. split; [by transitivity w1|done].
Qed.

Lemma keeps_then {A B} (Q : B -> Prop) (m : act V A) (k : A -> act V B) :
  keeps (fun _ => True) m -> (forall a, keeps Q (k a)) -> keeps Q (bind m k).
Proof. intros Hm Hk. eapply keeps_bind; [exact Hm|auto]. Qed.

Lemma keeps_weaken {A} (P Q : A -> Prop) (m : act V A) : keeps P m -> (forall a, P a -> Q a) -> keeps Q m.
Proof. intros Hm HPQ w a w' o Hr. apply Hm in Hr as [? ?]. auto. Qed.

(** An action that looks at the world first. *)
Lemma keeps_read {A B} (P : A -> Prop) (f : world V -> B) (k : B -> act V A) :
  (forall b, keeps P (k b)) -> keeps P (fun w => k (f w) w).
Proof. intros Hk w a w' o Hr. by eapply Hk. Qed.

Lemma keeps_user {A} (f : world V -> A * world V) : (forall w, R w (f w).2) -> keeps (fun _ => True) (user f).
Proof. intros Hf w a w' o. unfold user. specialize (Hf w). destruct (f w). by intros [= <- <- <-]. Qed.

Lemma keeps_emit ts render t (o : out) : keeps (fun _ => True) (emit (V := V) ts render t o).
Proof.
  intros w a w' os. destruct o; intros [= <- <- <-]; (split; [|done]); eapply respected_conn;
    [apply send_only_conn|apply send_raw_only_conn].
Qed.

Lemma keeps_emit_opt ts render t o : keeps (fun _ => True) (emit_opt (V := V) ts render t o).
Proof. destruct o; [apply keeps_emit|by apply keeps_ret]. Qed.

Lemma keeps_emit_then {B} (Q : B -> Prop) ts render t o (k : unit -> act V B) :
  keeps Q (k tt) -> keeps Q (bind (emit ts render t o) k).
Proof. intros Hk. eapply keeps_bind; [apply keeps_emit|]. by intros []. Qed.
End keeps.
#[export] Hint Resolve keeps_ret keeps_emit keeps_emit_opt keeps_user : keeps.

Section user_code.
Context {V Req HS BS AS : Type} (R : relation (world V)) `{!Respected R}.
Context (to_string : ws_response -> result string string) (render : json -> string).

Abbreviation handler := (@handler V Req HS).
Abbreviation hooks := (@hooks V BS AS).
Abbreviation task_env := (@task_env V Req HS BS AS).
Abbreviation task := (@task V HS BS AS).
Abbreviation server := (@server V Req HS BS AS).

(** ** User code respects the relation *)

Definition handler_keeps (h : handler) : Prop := forall st w, R w (h_poll h st w).2.
Definition before_keeps (h : @before_hook V BS) : Prop := forall st w, R w (bh_poll h st w).2.
Definition after_keeps (h : @after_hook V AS) : Prop := forall st w, R w (ah_poll h st w).2.
Definition hooks_keep (hs : hooks) : Prop := Forall before_keeps (before hs) /\ Forall after_keeps (after hs).
Definition env_keeps (e : task_env) : Prop := handler_keeps (te_handler e) /\ hooks_keep (te_hooks e).
Definition server_keeps (s : server) : Prop :=
  hooks_keep (sv_hooks s) /\ map_Forall (fun _ ep => handler_keeps (we_handler ep)) (sv_handlers s).

(** The hooks a task has still to run are among those of the server. *)
Definition work_ok (w : @work V HS BS AS) : Prop :=
  match w with
  | WBefore hs _ _ => Forall before_keeps hs
  | WAfter hs _ _ _ => Forall after_keeps hs
  | _ => True
  end.

Definition running (tk : task) : Prop :=
  match tk with Running w _ => work_ok w /\ w <> WDone | Finished => False end.
Definition tasks_ok (tasks : list (task_env * task)) : Prop := Forall (fun et => env_keeps et.1 /\ running et.2) tasks.

(** ** The stages of a request *)

Section task.
Context (t : toolbox) (e : task_env).

Lemma run_before_keeps hs : forall cur schema params ctx,
  Forall before_keeps hs ->
  keeps R (fun r => match r with SPending (hs', _, _) => Forall before_keeps hs' | _ => True end)
    (run_before hs cur schema params ctx).
Proof.
  induction hs as [|h hs IH]; intros cur schema params ctx Hf; cbn [run_before]; [by apply keeps_ret|].
  pose proof Hf as Hall. inversion_clear Hf. eapply keeps_bind; [done|by apply keeps_user|].
  intros [st|[ctx' [u|err]]] _; [by apply keeps_ret|by apply IH|by apply keeps_ret].
Qed.

Lemma run_after_keeps hs : forall cur schema outcome ctx,
  Forall after_keeps hs ->
  keeps R (fun r => match r with SPending (hs', _) => Forall after_keeps hs' | _ => True end)
    (run_after hs cur schema outcome ctx).
Proof.
  induction hs as [|h hs IH]; intros cur schema outcome ctx Hf; cbn [run_after]; [by apply keeps_ret|].
  pose proof Hf as Hall. inversion_clear Hf. eapply keeps_bind; [done|by apply keeps_user|].
  intros [st|u] _; [by apply keeps_ret|by apply IH].
Qed.

Lemma handle_poll_keeps h env ctx f :
  handler_keeps h -> keeps R (fun _ => True) (handle_poll to_string render h t env ctx f).
Proof.
  intros Hh. assert (Hr : forall hs, keeps R (fun _ => True) (poll_running to_string render h t env ctx hs)).
  { intros hs. eapply keeps_bind; [done|by apply keeps_user|].
    intros [st|resp] _; [by apply keeps_ret|]. eapply keeps_bind; [done|by apply keeps_emit_opt|]. eauto with keeps. }
  destruct f as [req|hs]; simpl; [|done]. destruct (h_from_value h req); [done|].
  apply keeps_emit_then; [done|]. by apply keeps_ret.
Qed.

Hypothesis He : env_keeps e.

Lemma poll_after_keeps hs cur outcome ctx :
  Forall after_keeps hs -> keeps R (fun r => work_ok r.1) (poll_after e hs cur outcome ctx).
Proof. intros Hf. eapply keeps_bind; [done|by apply run_after_keeps|]. by intros [[hs' st]|u] H; apply keeps_ret. Qed.

Lemma poll_handler_keeps f ctx : keeps R (fun r => work_ok r.1) (poll_handler to_string render t e f ctx).
Proof.
  destruct He as [Hh [_ Ha]]. eapply keeps_bind; [done|by apply handle_poll_keeps|].
  intros [st|u] _; [by apply keeps_ret|by apply poll_after_keeps].
Qed.

Lemma poll_before_keeps hs cur ctx :
  Forall before_keeps hs -> keeps R (fun r => work_ok r.1) (poll_before to_string render t e hs cur ctx).
Proof.
  intros Hf. destruct He as [_ [_ Ha]]. eapply keeps_bind; [done|by apply run_before_keeps|].
  intros [[[hs' st] ctx']|[ctx' [u|err]]] Hr; [by apply keeps_ret|by apply poll_handler_keeps|].
  apply keeps_emit_then; [done|]. by apply poll_after_keeps.
Qed.

Lemma work_poll_keeps w : work_ok w -> keeps R (fun r => work_ok r.1) (work_poll to_string render t e w).
Proof.
  destruct w; simpl; intros Hw; [by apply poll_before_keeps|by apply poll_handler_keeps|by apply poll_after_keeps|by apply keeps_ret].
Qed.
End task.
End user_code.
