(* ===== verification/Slots.v ===== *)
(** * The in-flight slots of a session

    Every accepted request takes one slot of [max_inflight_requests]; its task gives
    it back when it finishes or is dropped.  This file runs a session
    ([session_run], then the drop of what is left) and counts: [slots w] is the
    counter of the server.

    User code cannot reach the counter; [keeps same_slots] says that an action leaves
    it alone, and the hypotheses of the section say it of user code. *)

From S2P Require Import Prelude BMap Json ModelTypes ErrorCode Peer Message Outbound ServerConfig Limits Basics Toolbox Mcp Handler Headers Request Session Keeps.

(** Sends do not count. *)
Lemma emit_slots {V} ts render t o (w : world V) u w' os : emit ts render t o w = (u, w', os) -> slots w' = slots w.
Proof. intros H. by apply (keeps_emit same_slots) in H as [H _]. Qed.

Lemma emit_then_slots {V B} ts render t o (b : B) (w : world V) r w' os :
  (do! _ <- emit ts render t o in ret b) w = (r, w', os) -> slots w' = slots w /\ r = b.
Proof. intros H. exact (keeps_emit_then same_slots (fun r => r = b) _ _ _ _ _ (keeps_ret _ _ b eq_refl) _ _ _ _ H). Qed.

Section slots.
Context {V Req HS BS AS : Type}.
Context (to_string : ws_response -> result string string) (render : json -> string).
Context (parse_json : bytes -> option json) (serde_error : json -> string).
Context (parse_request : bytes -> result ws_request string).

Abbreviation handler := (@handler V Req HS).
Abbreviation hooks := (@hooks V BS AS).
Abbreviation task_env := (@task_env V Req HS BS AS).
Abbreviation task := (@task V HS BS AS).
Abbreviation server := (@server V Req HS BS AS).
Abbreviation env_keeps := (@env_keeps V Req HS BS AS same_slots).
Abbreviation running := (@running V HS BS AS same_slots).
Abbreviation tasks_ok := (@tasks_ok V Req HS BS AS same_slots).

Section task.
Context (config : ws_server_config) (t : toolbox) (e : task_env).
Hypothesis He : env_keeps e.

Lemma finish_slots expired responded elapsed w tk w' o :
  finish to_string render config t e expired responded elapsed w = (tk, w', o) ->
  tk = Finished /\ slots w' = slots w - 1.
Proof.
  intros Hf. split; [by apply finish_post in Hf as [-> _]|]. revert Hf. unfold finish.
  intros (u & w1 & o1 & o2 & Ho & Hk & _)%bind_inv. apply bind_inv in Hk as (u2 & w2 & o3 & o4 & Hx & Hk & _).
  assert (H2 : slots w2 = slots w1).
  { unfold on_expiry in Hx. destruct (_ && _ && _); [by eapply emit_slots|by injection Hx as <- <- <-]. }
  assert (H1 : slots w1 = slots w).
  { unfold observe_time in Ho. destruct (observe_request_time _ _ _) as [l ev] eqn:E. injection Ho as _ <- _.
    unfold observe_request_time in E. unfold slots. simpl.
    destruct (warn_request_time config); [destruct (_ <=? _)%Z|]; by injection E as <- _. }
  unfold bind, drop_slot, ret in Hk. injection Hk as _ <- _.
  transitivity (slots w2 - 1); [done|]. by rewrite H2, H1.
Qed.

(** One poll of a running task. *)
Lemma task_poll_slots tk ev w tk' w' o :
  running tk -> task_poll to_string render config t e tk ev w = (tk', w', o) ->
  (running tk' /\ slots w' = slots w) \/ (tk' = Finished /\ slots w' = slots w - 1).
Proof.
  destruct tk as [wk r|]; [|done]. intros [Hok Hd]. cbn [task_poll].
  intros (x & w1 & o1 & o2 & Hp & Hk & _)%bind_inv. destruct x as [wk' r'].
  assert (Hw : slots w1 = slots w /\ work_ok same_slots wk').
  { destruct (polls_work config ev); [by apply (work_poll_keeps same_slots to_string render t e He _ Hok) in Hp|by injection Hp as <- <- <- _]. }
  destruct Hw as [<- Hok'].
  destruct wk'; try (destruct (timer config ev); [|injection Hk as <- <- _; by left]);
    apply finish_slots in Hk as [-> ->]; by right.
Qed.
End task.

(** ** The session *)

Section session.
Context (server : server) (conn_info : ws_connection V).
Hypothesis Hserver : server_keeps same_slots server.

Abbreviation config := (sv_config server).
Abbreviation handle_message := (handle_message to_string render parse_json serde_error parse_request server conn_info).
Abbreviation session_step := (session_step to_string render parse_json serde_error parse_request server conn_info).

(** A slot is granted only below the limit. *)
Definition below (n : nat) : Prop := forall c, max_inflight_requests config = Some c -> n < c.

(** What dispatching a frame does to the counter. *)
Definition dispatch_slots (n : nat) (d : @dispatch V Req HS BS AS) (n' : nat) : Prop :=
  match d with DTask e => n' = S n /\ below n /\ env_keeps e | _ => n' = n end.
Definition option_slots (n : nat) (x : option task_env) (n' : nat) : Prop :=
  match x with Some e => n' = S n /\ below n /\ env_keeps e | None => n' = n end.

Lemma acquire_slot_slots w ok w' o :
  acquire_slot server w = (ok, w', o) -> if ok then slots w' = S (slots w) /\ below (slots w) else slots w' = slots w.
Proof.
  unfold acquire_slot, acquire_request. pose proof (acquire_sequential config "inflight_requests" (lim w)) as Ha.
  destruct (acquire config "inflight_requests" (lim w)) as [[b l] ev]. destruct Ha as (Hr & Hc & _).
  intros [= <- <- <-]. destruct b; [|done]. split; [done|]. intros c Hcap.
  destruct (Nat.lt_ge_cases (slots w) c) as [|Hge]; [done|]. assert (true = false); [|done]. apply Hr. by exists c.
Qed.

Lemma endpoint_keeps code ep : sv_handlers server !! code = Some ep -> handler_keeps same_slots (we_handler ep).
Proof. destruct Hserver as [_ Hm]. apply Hm. Qed.

Lemma acquired_slots ep env params ctx (busy : act V unit) w d w' o :
  handler_keeps same_slots (we_handler ep) -> keeps same_slots (fun _ => True) busy ->
  (do! ok <- acquire_slot server in
   if negb ok then do! _ <- busy in ret None
   else ret (Some (TaskEnv (we_handler ep) (sv_hooks server) (we_schema ep) env params ctx))) w = (d, w', o) ->
  option_slots (slots w) d (slots w').
Proof.
  intros Hep Hb (ok & w1 & o1 & o2 & Ha & Hk & _)%bind_inv. apply acquire_slot_slots in Ha. destruct ok; simpl in Hk.
  - destruct Ha as [Ha Hb']. injection Hk as <- <- _. split; [done|]. split; [done|]. split; [done|apply Hserver].
  - apply bind_inv in Hk as (u & w2 & o3 & o4 & Hm & Hr & _). injection Hr as <- <- _.
    apply Hb in Hm as [Hm _]. simpl. by rewrite Hm, Ha.
Qed.

Lemma handle_mcp_frame_slots mcp frame ctx w x w' o :
  handle_mcp_frame to_string render server conn_info mcp frame ctx w = (x, w', o) ->
  option_slots (slots w) x (slots w').
Proof.
  unfold handle_mcp_frame.
  assert (Hemit : forall out, (do! _ <- emit to_string render (sv_toolbox server) out in ret None) w = (x, w', o) ->
            option_slots (slots w) x (slots w')).
  { intros out Hm. apply emit_then_slots in Hm as [Hm ->]; done. }
  destruct frame as [req|err]; [|apply Hemit].
  destruct (is_notification req); [by intros [= <- <- _]|].
  destruct (route _ _ _) as [frame|id code args|]; [apply Hemit| |by intros [= <- <- _]].
  destruct (sv_handlers server !! code) as [ep|] eqn:Hep; [|apply Hemit].
  apply acquired_slots; [by eapply endpoint_keeps|]. apply keeps_emit_opt, _.
Qed.

Lemma handle_request_slots ctx req w d w' o :
  handle_request to_string render server conn_info ctx req w = (d, w', o) ->
  dispatch_slots (slots w) d (slots w').
Proof.
  unfold handle_request.
  assert (Hemit : forall out, (do! _ <- emit to_string render (sv_toolbox server) out in ret DKeep) w = (d, w', o) ->
            dispatch_slots (slots w) d (slots w')).
  { intros out Hm. apply emit_then_slots in Hm as [Hm ->]; done. }
  destruct (sv_handlers server !! rq_method req) as [ep|] eqn:Hep; [|apply Hemit].
  destruct (negb _); [apply Hemit|].
  intros (ok & w1 & o1 & o2 & Ha & Hk & _)%bind_inv. apply acquire_slot_slots in Ha. destruct ok; simpl in Hk.
  - destruct Ha as [Ha Hb]. injection Hk as <- <- _. split; [done|]. split; [done|]. split; [by eapply endpoint_keeps|apply Hserver].
  - apply emit_then_slots in Hk as [Hk ->]. simpl. by rewrite Hk, Ha.
Qed.

Lemma handle_message_slots msg w d w' o :
  handle_message msg w = (d, w', o) -> dispatch_slots (slots w) d (slots w').
Proof.
  unfold Session.handle_message. intros (u & w1 & o1 & o2 & Ho & Hk & _)%bind_inv.
  destruct (observe_bytes_inv server msg w) as (l & ev & Hob & Hl). rewrite Hob in Ho. injection Ho as _ <- _.
  assert (Hs : slots (set_limits w l ev) = slots w) by done. rewrite <- Hs. clear Hs Hl Hob.
  revert Hk. generalize (set_limits w l ev). intros w1 Hk.
  assert (Hleg : (if mcp_only config
                  then do! _ <- emit to_string render (sv_toolbox server) (ORaw (x_connection_id (from_conn (conn conn_info w1))) mcp_only_error) in ret DKeep
                  else handle_legacy to_string render parse_request server conn_info (from_conn (conn conn_info w1)) msg) w1
                 = (d, w', o2) -> dispatch_slots (slots w1) d (slots w')).
  { destruct (mcp_only config).
    - intros Hm. apply emit_then_slots in Hm as [Hm ->]; done.
    - assert (Hp : forall b, (match parse_request b with
          | Err err => do! _ <- emit to_string render (sv_toolbox server) (OResp (x_connection_id (from_conn (conn conn_info w1))) (request_error (from_conn (conn conn_info w1)) BAD_REQUEST err)) in ret DKeep
          | Ok req => handle_request to_string render server conn_info (from_conn (conn conn_info w1)) req end) w1 = (d, w', o2) ->
          dispatch_slots (slots w1) d (slots w')).
      { intros b. destruct (parse_request b) as [req|err]; [apply handle_request_slots|].
        intros Hm. apply emit_then_slots in Hm as [Hm ->]; done. }
      destruct msg; simpl; try apply Hp; by intros [= <- <- _]. }
  destruct (sv_mcp server) as [mcp|]; [destruct (detect _ _ _) as [frame|]|];
    [|apply Hleg; by destruct (mcp_only config)..].
  apply bind_inv in Hk as (x & w2 & o3 & o4 & Hx & Hr & _). apply handle_mcp_frame_slots in Hx.
  destruct x as [e|]; injection Hr as <- <- _; done.
Qed.

(** *** The loop *)

(** The counter is [n] and the tasks of the session, and within the limit, or [b] when
    it started above it. *)
Definition counted (n b : nat) (tasks : list (task_env * task)) (w : world V) : Prop :=
  slots w = n + length tasks /\ tasks_ok tasks
  /\ forall c, max_inflight_requests config = Some c -> slots w <= Nat.max c b.

Lemma counted_delete n b tasks i et w w' : tasks !! i = Some et -> counted n b tasks w ->
  slots w' = slots w - 1 -> counted n b (delete i tasks) w'.
Proof.
  intros Hi (Hs & Hok & Hb) Hw. pose proof (lookup_lt_Some _ _ _ Hi). split_and!.
  - rewrite length_delete by eauto. lia.
  - by apply Forall_delete.
  - intros c Hc. specialize (Hb c Hc). lia.
Qed.

Lemma counted_insert n b tasks i e tk et w w' : tasks !! i = Some et -> counted n b tasks w ->
  env_keeps e -> running tk -> slots w' = slots w -> counted n b (<[i := (e, tk)]> tasks) w'.
Proof.
  intros Hi (Hs & Hok & Hb) He Hr Hw. unfold counted. rewrite length_insert, Hw. split_and!; [done| |done].
  by apply Forall_insert.
Qed.

Lemma counted_start n b tasks e w w' : counted n b tasks w -> env_keeps e ->
  slots w' = S (slots w) -> below (slots w) -> counted n b (tasks ++ [(e, task_start e)]) w'.
Proof.
  intros (Hs & Hok & Hb) He Hw Hlt. split_and!.
  - rewrite length_app. simpl. lia.
  - apply Forall_app. split; [done|]. constructor; [|done]. split; [done|]. split; [|done]. apply He.
  - intros c Hc. specialize (Hlt c Hc). lia.
Qed.

Lemma poll_tasks_slots n b polls : forall tasks w finished tasks' w' o,
  counted n b tasks w ->
  poll_tasks to_string render server tasks polls w = ((finished, tasks'), w', o) -> counted n b tasks' w'.
Proof.
  induction polls as [|[i ev] polls IH]; intros tasks w finished tasks' w' o Hcount; cbn [poll_tasks].
  - by intros [= <- <- <- <-].
  - destruct (tasks !! i) as [[e tk]|] eqn:Hi; [|by apply IH].
    intros (tk' & w1 & o1 & o2 & Hp & Hk & _)%bind_inv.
    pose proof Hcount as (_ & Hok & _). pose proof (Forall_lookup_1 _ _ _ _ Hok Hi) as [He Hr].
    apply task_poll_slots in Hp; [|done|done]. destruct Hp as [[Hr' Hw]|[-> Hw]].
    + destruct tk' as [wk r|]; [|done]. eapply IH; [|exact Hk]. by eapply counted_insert.
    + injection Hk as <- <- <- _. by eapply counted_delete.
Qed.

Lemma counted_world n b tasks w w' : counted n b tasks w -> slots w' = slots w -> counted n b tasks w'.
Proof. unfold counted. by intros Hc ->. Qed.

Lemma rx_try_recv_slots w m w' : rx_try_recv conn_info w = (m, w') -> slots w' = slots w.
Proof.
  unfold rx_try_recv. destruct (my_state _ w); [|by intros [= _ <-]].
  destruct (try_recv _) as [[v|err] q]; by intros [= _ <-].
Qed.
Lemma rx_recv_slots waker w m w' : rx_recv conn_info waker w = (m, w') -> slots w' = slots w.
Proof. unfold rx_recv. destruct (my_state _ w); [|by intros [= _ <-]]. destruct (recv_poll _ _). by intros [= _ <-]. Qed.

Lemma on_inbound_slots n b tk s inb w s' sent w' o :
  counted n b (s_tasks s) w ->
  on_inbound to_string render parse_json serde_error parse_request server conn_info tk s inb w = ((s', sent), w', o) ->
  counted n b (s_tasks s') w'.
Proof.
  intros Hc. unfold on_inbound. destruct inb as [[m|err]|]; [|by intros [= <- _ <- _]..].
  intros (d & w1 & o1 & o2 & Hm & Hk & _)%bind_inv. apply handle_message_slots in Hm.
  destruct d as [| |e]; injection Hk as <- _ <- _; simpl in *; [by eapply counted_world..|].
  destruct Hm as (Hw & Hlt & He). by eapply counted_start.
Qed.

Lemma session_step_slots n b waker tk s w s' sent w' o :
  counted n b (s_tasks s) w -> session_step waker tk s w = ((s', sent), w', o) -> counted n b (s_tasks s') w'.
Proof.
  intros Hc. unfold Session.session_step. destruct (s_phase s).
  - by intros [= <- _ <- _].
  - destruct (rx_try_recv conn_info w) as [[msg|] w1] eqn:Hr; apply rx_try_recv_slots in Hr;
      pose proof (counted_world _ _ _ _ _ Hc Hr).
    + destruct (idle _ _ _); [by intros [= <- _ <- _]|]. unfold after_send, ret.
      destruct (tk_send tk); by intros [= <- _ <- _].
    + by intros [= <- _ <- _].
  - destruct (idle _ _ _); [by intros [= <- _ <- _]|]. unfold poll_select.
    intros ([finished tasks] & w1 & o1 & o2 & Hp & Hk & _)%bind_inv. apply (poll_tasks_slots n b) in Hp; [|done].
    destruct finished; [by injection Hk as <- _ <- _|].
    destruct (rx_recv conn_info waker w1) as [out w2] eqn:Hr. apply rx_recv_slots in Hr.
    pose proof (counted_world _ _ _ _ _ Hp Hr). destruct out as [[msg|]|]; simpl in Hk.
    + unfold after_send, ret in Hk. destruct (tk_send tk); by injection Hk as <- _ <- _.
    + by injection Hk as <- _ <- _.
    + unfold priority4, select in Hk. destruct (tk_inbound tk) as [inb|].
      * eapply on_inbound_slots; [|exact Hk]. done.
      * destruct (my_end _ _); by injection Hk as <- _ <- _.
  - by intros [= <- _ <- _].
Qed.

Lemma session_run_slots n b waker evs : forall s w s' sent w' o,
  Forall (fun te => forall w, slots (te.2 w) = slots w) evs ->
  counted n b (s_tasks s) w ->
  session_run to_string render parse_json serde_error parse_request server conn_info waker evs s w = ((s', sent), w', o) ->
  counted n b (s_tasks s') w'.
Proof.
  induction evs as [|[tk env] evs IH]; intros s w s' sent w' o Hevs Hc; cbn [session_run].
  - by intros [= <- _ <- _].
  - inversion_clear Hevs as [|? ? Henv Hevs'].
    intros ([s1 sent1] & w1 & o1 & o2 & Hp & Hk & _)%bind_inv. apply (session_step_slots n b) in Hp; [|done].
    apply bind_inv in Hk as ([s2 sent2] & w2 & o3 & o4 & Hr & Hk & _). injection Hk as <- _ <- _. simpl in *.
    eapply IH; [done| |exact Hr]. eapply counted_world; [done|]. apply Henv.
Qed.

Lemma drop_tasks_slots n b tasks : forall w u w' o,
  counted n b tasks w -> drop_tasks tasks w = (u, w', o) -> slots w' = n.
Proof.
  induction tasks as [|[e tk] tasks IH]; intros w u w' o (Hs & Hok & Hb); cbn [drop_tasks].
  - intros [= _ <- _]. rewrite Hs. simpl. lia.
  - inversion_clear Hok as [|? ? Het Hok']. destruct Het as [_ Hr]. intros (u1 & w1 & o1 & o2 & Hd & Hk & _)%bind_inv.
    destruct tk as [wk r|]; [|done]. injection Hd as _ <- _. simpl in Hs.
    eapply IH; [|exact Hk]. split_and!; [|done|]; change (slots (set_limits w _ _)) with (slots w - 1); [lia|].
    intros c Hc. specialize (Hb c Hc). lia.
Qed.

Lemma run_slots waker now evs w r w' o :
  Forall (fun te => forall w, slots (te.2 w) = slots w) evs ->
  Session.run to_string render parse_json serde_error parse_request server conn_info waker now evs w = (r, w', o) ->
  slots w' = slots w.
Proof.
  intros Hevs. unfold Session.run. intros ([s sent] & w1 & o1 & o2 & Hr & Hk & _)%bind_inv.
  apply (session_run_slots (slots w) (slots w)) in Hr; [|done|split_and!; [simpl; lia|constructor|lia]].
  apply bind_inv in Hk as (u & w2 & o3 & o4 & Hd & Hk & _). eapply drop_tasks_slots in Hd; [|exact Hr].
  apply bind_inv in Hk as (u2 & w3 & o5 & o6 & Hx & Hk & _). injection Hk as _ <- _.
  unfold drop_rx in Hx. injection Hx as _ <- _. rewrite <- Hd. by destruct (my_state _ w2).
Qed.
End session.
End slots.
