(* ===== verification/Connection.v ===== *)
(** * The life of a connection: [src/libs/ws/server.rs]

    [serve_connection], from the [OnConnect] hooks to the clean-up, over the session
    of [Session].  What happens outside is in a [schedule]: the ids, whether the
    authentication was cut short, the steps of the session, and what the rest of the
    process does between all these. *)

From S2P Require Import Prelude BMap Json ModelTypes ErrorCode Peer Message Outbound ServerConfig Limits Basics Toolbox Mcp Handler Headers Request Session Keeps Slots.

(** [get_conn_id] of [src/libs/utils.rs]: the process-wide counter, a [u32]. *)
Definition get_conn_id (next : Z) : Z * Z := (next, wrap32 (next + 1)).

(** The ids of [n] connections, in the order of the counter's [fetch_add]s. *)
Fixpoint conn_ids (n : nat) (next : Z) : list Z :=
  match n with
  | O => []
  | S n => let '(id, next) := get_conn_id next in id :: conn_ids n next
  end.

Section connection.
Context {V Req HS BS AS : Type}.
Context (to_string : ws_response -> result string string) (render : json -> string).
Context (parse_json : bytes -> option json) (serde_error : json -> string).
Context (parse_request : bytes -> result ws_request string).

Abbreviation hooks := (@hooks V BS AS).
Abbreviation server := (@server V Req HS BS AS).

(** ** [ConnectionCleanup] *)

(** The task that runs the [OnDisconnect] hooks on a thread of its own. *)
Record disconnect_task := DisconnectTask {
  dt_hooks : list (@on_disconnect_hook V);
  dt_connection_id : Z;
  dt_peer : peer_identity;
}.

Record connection_cleanup := ConnectionCleanup { cl_job : option (hooks * ws_connection V) }.

Definition cleanup_dispatch (c : connection_cleanup) : act V (option disconnect_task * connection_cleanup) := fun w =>
  match cl_job c with
  | None => ret (None, c) w
  | Some (hooks, conn) =>
      let w := states_remove (c_connection_id conn) w in
      match on_disconnect hooks with
      | [] => ret (None, ConnectionCleanup None) w
      | hs => ret (Some (DisconnectTask hs (c_connection_id conn) (c_peer conn)), ConnectionCleanup None) w
      end
  end.

Definition cleanup_drop (c : connection_cleanup) : act V (list disconnect_task) :=
  do! r <- cleanup_dispatch c in ret (option_list r.1).

(** [finish] dispatches and is then dropped. *)
Definition cleanup_finish (c : connection_cleanup) : act V (list disconnect_task) :=
  do! r <- cleanup_dispatch c in
  do! ts <- cleanup_drop r.2 in
  ret (option_list r.1 ++ ts).

(** ** [serve_connection] *)

(** How the wait for the authentication ends: with its result, at the deadline, or
    with the connection's future dropped; in the last two cases the effect it has had
    is given. *)
Inductive auth_end := AuthDone | AuthDeadline (partial : world V -> world V) | AuthDropped (partial : world V -> world V).

Record schedule := Schedule {
  sc_connection_id : Z;
  sc_log_id : Z;
  sc_before_auth : world V -> world V;
  sc_auth : auth_end;
  sc_before_session : world V -> world V;
  sc_now : Z;
  sc_waker : nat;
  sc_events : list (tick * (world V -> world V));
}.

(** [with_deadline], flattened; [None] is a dropped future. *)
Definition with_deadline (timeout : option Z) (how : auth_end) (m : act V (result unit string)) : act V (option (result unit string)) :=
  match how, timeout with
  | AuthDropped partial, _ => fun w => (None, partial w, [])
  | AuthDeadline partial, Some _ => fun w => (Some (Err "connection deadline exceeded"), partial w, [])
  | _, _ => do! r <- m in ret (Some r)
  end.

(** [Arc::new(WsConnection ..)]. *)
Definition new_conn (conn : ws_connection V) (w : world V) : world V :=
  World (states w) (<[c_connection_id conn := conn]> (conns w)) (lim w) (limit_events w).

(** [state.end.cancel()]. *)
Definition cancel_end (connection_id : Z) : act V unit := fun w =>
  (tt, match get_state connection_id w with
       | Some s => put_state w connection_id (WsStreamState (message_queue s) true)
       | None => w
       end, []).

Inductive served :=
  | SRefused (err : custom_error)
  | SDropped
  | SServed (auth : result unit string) (last : phase) (frames : list wire_message).

Context (server : server).
Abbreviation config := (sv_config server).

Definition run_session_connection (conn : ws_connection V) (sc : schedule) : act V (phase * list wire_message) := fun w =>
  run to_string render parse_json serde_error parse_request server conn (sc_waker sc) (sc_now sc) (sc_events sc)
    (sc_before_session sc w).

(** The [OnConnect] hooks, and the registration of the peer they accept. *)
Definition open_connection (peer : peer_identity) (connection_id log_id : Z) (w : world V)
    : result (ws_connection V) custom_error * world V :=
  match run_on_connect (on_connect (sv_hooks server)) peer ext_new w with
  | ((_, Err err), w) => (Err err, w)
  | ((extensions, Ok _), w) =>
      let conn := WsConnection connection_id 0 [] peer extensions log_id in
      (Ok conn, states_insert (c_connection_id conn) (channel (message_buffer_size config)) (new_conn conn w))
  end.

Definition authenticate (conn : ws_connection V) (auth_protocol : option string) (how : auth_end)
    : act V (option (result unit string)) :=
  with_deadline (handshake_timeout config) how
    (sv_auth_controller server (sv_toolbox server) (default "" auth_protocol) conn).

(** A failed authentication is reported, and the session told to drain. *)
Definition report_auth (conn : ws_connection V) (auth_result : result unit string) : act V unit := fun w =>
  let raw_ctx := from_conn (default conn (conns w !! c_connection_id conn)) in
  match auth_result with
  | Ok _ => ret tt w
  | Err err =>
      (do! _ <- emit to_string render (sv_toolbox server) (OResp (x_connection_id raw_ctx) (request_error raw_ctx BAD_REQUEST err)) in
       cancel_end (c_connection_id conn)) w
  end.

(** The end of the connection's future: it runs to its end after a failed
    authentication (the flush has a timeout) or a finished session, and is dropped
    otherwise. *)
Definition close_connection (auth_result : result unit string) (last : phase) (cleanup : connection_cleanup)
    : act V (list disconnect_task) :=
  match auth_result, last with
  | Err _, _ | _, PExit _ => cleanup_finish cleanup
  | _, _ => cleanup_drop cleanup
  end.

Definition after_auth (conn : ws_connection V) (sc : schedule) (cleanup : connection_cleanup)
    (auth_result : option (result unit string)) : act V (served * list disconnect_task) :=
  match auth_result with
  | None => do! ts <- cleanup_drop cleanup in ret (SDropped, ts)
  | Some auth_result =>
      do! _ <- report_auth conn auth_result in
      do! r <- run_session_connection conn sc in
      do! ts <- close_connection auth_result r.1 cleanup in
      ret (SServed auth_result r.1 r.2, ts)
  end.

Definition cleanup_of (conn : ws_connection V) : connection_cleanup := ConnectionCleanup (Some (sv_hooks server, conn)).

Definition serve_connection (peer : peer_identity) (auth_protocol : option string) (sc : schedule)
    : act V (served * list disconnect_task) := fun w =>
  match open_connection peer (sc_connection_id sc) (sc_log_id sc) w with
  | (Err err, w) => ret (SRefused err, []) w
  | (Ok conn, w) =>
      (do! auth_result <- authenticate conn auth_protocol (sc_auth sc) in
       after_auth conn sc (cleanup_of conn) auth_result) (sc_before_auth sc w)
  end.

(** [post_upgrade_connection]: the end of the WebSocket path. *)
Definition post_upgrade_connection (addr : socket_addr) (protocol : string) (sc : schedule) : act V (served * list disconnect_task) :=
  serve_connection (Network addr) (Some protocol) sc.

(** [handle_session_connection]. *)
Definition handle_session_connection (conn : ws_connection V) (sc : schedule) : act V (list disconnect_task) :=
  do! r <- run_session_connection conn sc in
  let cleanup := cleanup_of conn in
  match r.1 with PExit _ => cleanup_finish cleanup | _ => cleanup_drop cleanup end.

(** ** Lemmas *)

(** The tasks a clean-up should start: one, if there is a hook to run. *)
Definition disconnect_tasks (conn_id : Z) (peer : peer_identity) : list disconnect_task :=
  match on_disconnect (sv_hooks server) with [] => [] | hs => [DisconnectTask hs conn_id peer] end.

Lemma cleanup_finish_eq conn w :
  cleanup_finish (cleanup_of conn) w
  = (disconnect_tasks (c_connection_id conn) (c_peer conn), states_remove (c_connection_id conn) w, []).
Proof.
  unfold cleanup_finish, cleanup_drop, cleanup_dispatch, bind, disconnect_tasks. simpl.
  by destruct (on_disconnect (sv_hooks server)).
Qed.

Lemma cleanup_drop_eq conn w :
  cleanup_drop (cleanup_of conn) w
  = (disconnect_tasks (c_connection_id conn) (c_peer conn), states_remove (c_connection_id conn) w, []).
Proof.
  unfold cleanup_drop, cleanup_dispatch, bind, disconnect_tasks. simpl.
  by destruct (on_disconnect (sv_hooks server)).
Qed.

Lemma close_connection_eq auth conn (ph : phase) w :
  close_connection auth ph (cleanup_of conn) w
  = (disconnect_tasks (c_connection_id conn) (c_peer conn), states_remove (c_connection_id conn) w, []).
Proof. destruct auth, ph; first [apply cleanup_drop_eq|apply cleanup_finish_eq]. Qed.

(** The stages of what follows the authentication. *)
Lemma after_auth_inv conn sc r w res ts w' o :
  after_auth conn sc (cleanup_of conn) r w = ((res, ts), w', o) ->
  ts = disconnect_tasks (c_connection_id conn) (c_peer conn)
  /\ match r with
     | None => res = SDropped /\ w' = states_remove (c_connection_id conn) w
     | Some auth => exists w1 o1 ph frames w2 o2,
         report_auth conn auth w = (tt, w1, o1)
         /\ run_session_connection conn sc w1 = ((ph, frames), w2, o2)
         /\ res = SServed auth ph frames /\ w' = states_remove (c_connection_id conn) w2
     end.
Proof.
  unfold after_auth. destruct r as [auth|].
  - intros ([] & w1 & o1 & o2 & Hr & Hk & _)%bind_inv. apply bind_inv in Hk as ([ph frames] & w2 & o3 & o4 & Hs & Hk & _).
    apply bind_inv in Hk as (ts' & w3 & o5 & o6 & Hc & Hk & _). rewrite close_connection_eq in Hc.
    injection Hc as <- <- _. injection Hk as <- <- <- _. split; [done|]. by exists w1, o1, ph, frames, w2, o3.
  - intros (ts' & w1 & o1 & o2 & Hc & Hk & _)%bind_inv. rewrite cleanup_drop_eq in Hc.
    injection Hc as <- <- _. by injection Hk as <- <- <- _.
Qed.

(** After the authentication: whatever happens, the entry is gone. *)
Lemma after_auth_cleaned conn sc r w res ts w' o :
  after_auth conn sc (cleanup_of conn) r w = ((res, ts), w', o) ->
  (forall err, res <> SRefused err)
  /\ states w' !! c_connection_id conn = None
  /\ ts = disconnect_tasks (c_connection_id conn) (c_peer conn).
Proof.
  intros [-> Hr]%after_auth_inv.
  assert (Hd : forall w0 : world V, states (states_remove (c_connection_id conn) w0) !! c_connection_id conn = None)
    by (intros w0; simpl; by rewrite lookup_delete_eq).
  destruct r as [auth|]; [destruct Hr as (w1 & o1 & ph & fr & w2 & o2 & _ & _ & -> & ->)|destruct Hr as [-> ->]]; by split_and!.
Qed.

(** *** In-flight slots *)

Definition schedule_keeps (sc : schedule) : Prop :=
  match sc_auth sc with
  | AuthDone => True
  | AuthDeadline partial | AuthDropped partial => forall w, slots (partial w) = slots w
  end
  /\ (forall w, slots (sc_before_auth sc w) = slots w) /\ (forall w, slots (sc_before_session sc w) = slots w)
  /\ Forall (fun te => forall w, slots (te.2 w) = slots w) (sc_events sc).

(** The whole server: hooks, handlers and the controller. *)
Definition all_keep (R : relation (world V)) : Prop :=
  server_keeps R server
  /\ Forall (fun h : on_connect_hook => forall peer ext w, R w (h peer ext w).2) (on_connect (sv_hooks server))
  /\ (forall t header conn, keeps R (fun _ => True) (sv_auth_controller server t header conn)).

Lemma all_keep_sub (R R' : relation (world V)) : all_keep R -> (forall w w', R w w' -> R' w w') -> all_keep R'.
Proof.
  intros (((Hb & Ha) & Hh) & Hoc & Hau) HR. split_and!; [split; [split|]| |].
  - eapply Forall_impl; [exact Hb|]. intros h Hk st w. apply HR, Hk.
  - eapply Forall_impl; [exact Ha|]. intros h Hk st w. apply HR, Hk.
  - intros code ep Hep st w. apply HR. by apply (Hh code ep).
  - eapply Forall_impl; [exact Hoc|]. intros h Hk peer ext w. apply HR, Hk.
  - intros t header conn w a w' o Hr. apply Hau in Hr as [Hr _]. split; [by apply HR|done].
Qed.

Lemma run_on_connect_keeps R `{!Respected R} hs peer : forall ext (w : world V),
  Forall (fun h : on_connect_hook => forall peer ext w, R w (h peer ext w).2) hs ->
  R w (run_on_connect hs peer ext w).2.
Proof.
  induction hs as [|h hs IH]; intros ext w Hf; simpl; [done|]. inversion_clear Hf as [|? ? Hh Hf'].
  specialize (Hh peer ext w). destruct (h peer ext w) as [[ext' [u|e]] w1]; simpl in *; [|done].
  transitivity w1; [done|]. by apply IH.
Qed.

Lemma authenticate_keeps R `{!Respected R} conn auth_protocol how :
  all_keep R ->
  match how with AuthDone => True | AuthDeadline partial | AuthDropped partial => forall w, R w (partial w) end ->
  keeps R (fun _ => True) (authenticate conn auth_protocol how).
Proof.
  intros (_ & _ & Ha) Hh. unfold authenticate, with_deadline.
  destruct how as [|partial|partial]; [|destruct (handshake_timeout config)|];
    try (eapply keeps_bind; [done|apply Ha|intros; by apply keeps_ret]);
    intros wa a wb ob [= <- <- <-]; by split.
Qed.

Lemma cancel_end_only_conn c w u w' o : cancel_end c w = (u, w', o) -> only_conn c w w'.
Proof.
  unfold cancel_end, get_state. intros [= _ <- _]. destruct (states w !! c) eqn:Hc; [|apply only_conn_refl].
  apply only_conn_put. by rewrite Hc.
Qed.

Lemma report_auth_keeps R `{!Respected R} conn auth : keeps R (fun _ => True) (report_auth conn auth).
Proof.
  intros w u w' o. unfold report_auth. destruct auth; [by intros [= <- <- <-]|].
  apply (keeps_emit_then R (fun _ => True)). intros w1 u1 w2 o2 Hc. split; [|done].
  by eapply respected_conn, cancel_end_only_conn.
Qed.

Lemma after_auth_slots conn sc r w res ts w' o :
  server_keeps same_slots server -> schedule_keeps sc ->
  after_auth conn sc (cleanup_of conn) r w = ((res, ts), w', o) -> slots w' = slots w.
Proof.
  intros Hs (_ & _ & Hb & Hev) [_ Hr]%after_auth_inv. destruct r as [auth|]; [|by destruct Hr as [_ ->]].
  destruct Hr as (w1 & o1 & ph & fr & w2 & o2 & Ha & Hr & _ & ->). apply (report_auth_keeps same_slots) in Ha as [Ha _].
  unfold run_session_connection in Hr. apply run_slots in Hr; [|done|done]. rewrite Hb in Hr.
  transitivity (slots w2); [done|]. rewrite Hr. exact Ha.
Qed.

(** ** Properties *)

(** C27: every connection is cleaned up exactly once.  A peer that an
    [OnConnect] hook refuses leaves nothing behind: the server's own part has no
    effect, sends nothing and starts nothing.  For every other peer, however the
    authentication and the session end (deadline and drop of the connection's future
    included), the connection is out of the table afterwards and the [OnDisconnect]
    hooks, if there are any, are started exactly once, for this connection. *)
Theorem serve_cleans_up peer auth_protocol sc w res ts w' o :
  serve_connection peer auth_protocol sc w = ((res, ts), w', o) ->
  match run_on_connect (on_connect (sv_hooks server)) peer ext_new w with
  | ((_, Err err), w1) => res = SRefused err /\ w' = w1 /\ o = [] /\ ts = []
  | ((_, Ok _), _) =>
      (forall err, res <> SRefused err)
      /\ states w' !! sc_connection_id sc = None
      /\ ts = disconnect_tasks (sc_connection_id sc) peer
  end.
Proof.
  unfold serve_connection, open_connection. destruct (run_on_connect _ _ _ _) as [[ext [u|err]] w1].
  - intros (r & w2 & o1 & o2 & _ & Hk & _)%bind_inv. apply after_auth_cleaned in Hk as (Hr & Hs & Ht). done.
  - by intros [= <- <- <- <-].
Qed.

(** A connection returns every in-flight slot it takes.  However its
    requests, its authentication and its session end, when the connection is over
    the counter of in-flight requests is what it was: no slot leaks and none is
    returned twice.  (User code, and what other tasks do in between, are assumed to
    leave the counter alone, which is private to the library.) *)
Theorem slots_returned peer auth_protocol sc w r w' o :
  all_keep same_slots -> schedule_keeps sc ->
  serve_connection peer auth_protocol sc w = (r, w', o) -> slots w' = slots w.
Proof.
  intros Hall Hsc. pose proof Hall as (Hs & Hoc & _). unfold serve_connection, open_connection.
  pose proof (run_on_connect_keeps same_slots _ peer ext_new w Hoc) as Hw.
  destruct (run_on_connect _ _ _ _) as [[ext [u|err]] w1]; [|by intros [= _ <- _]].
  intros (ar & w2 & o1 & o2 & Hd & Hk & _)%bind_inv. destruct r as [res ts]. apply after_auth_slots in Hk; [|done..].
  destruct Hsc as (Hsa & Hba & _). apply (authenticate_keeps same_slots) in Hd as [Hd _]; [|done|by destruct (sc_auth sc)].
  rewrite Hk, Hd, Hba. exact Hw.
Qed.

End connection.

(** *** Connection ids *)

Lemma conn_ids_lookup n : forall next i x, (0 <= next <= u32_max)%Z ->
  conn_ids n next !! i = Some x -> i < n /\ x = ((next + Z.of_nat i) mod 4294967296)%Z.
Proof.
  induction n as [|n IH]; intros next i x Hn; simpl; [done|]. destruct i as [|i]; simpl.
  - intros [= <-]. split; [lia|]. rewrite Z.add_0_r, Z.mod_small; unfold u32_max in *; lia.
  - intros Hx. apply IH in Hx as [Hi ->]; [|apply wrap32_range]. split; [lia|].
    unfold wrap32. rewrite Z.add_mod_idemp_l by lia. f_equal. lia.
Qed.

(** Connection ids do not repeat.  Among up to 2^32 consecutive calls of
    [get_conn_id], by any threads, no two return the same id, wherever the counter
    starts. *)
Theorem conn_ids_distinct n next :
  (0 <= next <= u32_max)%Z -> (Z.of_nat n <= 4294967296)%Z -> NoDup (conn_ids n next).
Proof.
  intros Hnext Hn. apply NoDup_alt. intros i j x Hi Hj.
  apply conn_ids_lookup in Hi as [Hi ->], Hj as [Hj Hx]; try done.
  pose proof (Z.div_mod (next + Z.of_nat i) 4294967296 ltac:(lia)).
  pose proof (Z.div_mod (next + Z.of_nat j) 4294967296 ltac:(lia)). nia.
Qed.

(** *** Witnesses: one connection, one request, then the peer leaves *)

Definition w_watched : @hooks unit (request_context unit) unit :=
  Hooks [w_grant] [] [fun _ ext w => ((ext, Ok tt), w)] [fun _ _ w => w].
Definition w_srv : @server unit json (bool * json) (request_context unit) unit :=
  Server simple_auth_controller config_default (<[20%Z := w_endpoint]> ∅) (set_ws_states toolbox_new false false) None w_watched.
Definition w_visit : @schedule unit :=
  Schedule 7 9 id AuthDone id 0 1
    [(Tick 0 (Ok tt) [] None, id); (Tick 0 (Ok tt) [] None, fun w => new_conn w_conn w);
     (Tick 0 (Ok tt) [] (Some (Some (Ok (Text [])))), id); (Tick 0 (Ok tt) [] None, id);
     (Tick 0 (Ok tt) [] None, id); (Tick 0 (Ok tt) [(0, PollEvent true false 0)] (Some None), id)].
Definition w_serve := serve_connection w_text w_json w_parse_json w_serde_error w_parse_request w_srv Unknown None w_visit w_state.

Lemma serve_cleans_up_witness :
  states w_serve.1.2 !! 7%Z = None /\ length w_serve.1.1.2 = 1 /\ slots w_serve.1.2 = 0.
Proof.
  destruct w_serve as [[[res ts] w'] o] eqn:Hs.
  pose proof (serve_cleans_up w_text w_json w_parse_json w_serde_error w_parse_request w_srv Unknown None w_visit
                w_state res ts w' o Hs) as Hc.
  simpl in Hc. destruct Hc as (_ & Hst & ->). split; [exact Hst|]. split; [reflexivity|].
  vm_compute in Hs. injection Hs as _ <- _. vm_compute. reflexivity.
Defined.

Lemma w_srv_keeps : all_keep w_srv same_slots.
Proof.
  split; [|split].
  - split; [split; repeat constructor; by intros|]. apply map_Forall_insert_2; [|apply map_Forall_empty].
    intros [[] v] w; done.
  - repeat constructor.
  - intros t header conn w a w' o [= <- <- <-]. by split.
Qed.

Lemma slots_returned_witness : slots w_serve.1.2 = slots w_state.
Proof.
  destruct w_serve as [[r w'] o] eqn:Hs.
  apply (slots_returned w_text w_json w_parse_json w_serde_error w_parse_request w_srv Unknown None w_visit w_state r w' o);
    [exact w_srv_keeps| |exact Hs]. split; [exact I|]. split; [done|]. split; [done|]. repeat constructor.
Defined.

Lemma conn_ids_distinct_witness : NoDup (conn_ids 5 4294967294).
Proof. apply conn_ids_distinct; unfold u32_max; simpl; lia. Defined.
