(* ===== verification/Server.v ===== *)
(** * All the connections of a server: [src/libs/ws/server.rs]

    The connections of a server share its connection table, its limits and the counter
    of the connection ids, and are polled in any order.  [Connection] follows one of
    them, from [OnConnect] to its clean-up; here any number of them run together, one
    [move] of one connection at a time, with whatever else the process does in between.

    Two theorems.  Each connection of the composed system behaves as
    [serve_connection] does ([connection_refines]), so what is proved of one connection
    holds of each of many.  And the books of the shared state are right at every moment
    ([server_books]): the counter of in-flight requests is the number of running
    requests of all connections, and the table holds exactly the connections that are
    being served. *)

From S2P Require Import Prelude BMap Json ModelTypes ErrorCode Peer Message Outbound ServerConfig Limits Basics Toolbox Mcp Handler Headers Request Session Keeps Slots Connection.

Section server.
Context {V Req HS BS AS : Type}.
Context (to_string : ws_response -> result string string) (render : json -> string).
Context (parse_json : bytes -> option json) (serde_error : json -> string).
Context (parse_request : bytes -> result ws_request string).
Context (server : @server V Req HS BS AS).

Abbreviation config := (sv_config server).
Abbreviation sess := (@sess V Req HS BS AS).
Abbreviation session_step := (session_step to_string render parse_json serde_error parse_request server).
Abbreviation session_run := (session_run to_string render parse_json serde_error parse_request server).
Abbreviation serve_connection := (serve_connection to_string render parse_json serde_error parse_request server).

(** ** The future of one connection, suspended *)

(** Before its first poll, waiting for the authentication, in the session (with the
    waker of its task and what it has written), or over. *)
Inductive life :=
  | LPending (peer : peer_identity) (auth_protocol : option string)
  | LAuth (conn : ws_connection V) (auth_protocol : option string)
  | LSession (conn : ws_connection V) (auth : result unit string) (waker : nat) (s : sess) (frames : list wire_message)
  | LOver (res : served) (tasks : list (@disconnect_task V)).

(** What its next poll meets: the drawn log id; how the authentication ends, the time
    and the waker at the start of the session; one step of the session; or the drop of
    the future. *)
Inductive move :=
  | MOpen (log_id : Z)
  | MAuth (how : @auth_end V) (now : Z) (waker : nat)
  | MStep (tk : tick)
  | MDrop.

Definition end_session (conn : ws_connection V) (auth : result unit string) (s : sess) (frames : list wire_message)
    : act V life :=
  do! _ <- drop_tasks (s_tasks s) in
  do! _ <- drop_rx conn in
  do! ts <- close_connection auth (s_phase s) (cleanup_of server conn) in
  ret (LOver (SServed auth (s_phase s) frames) ts).

(** A move, with the process-wide counter of connection ids. *)
Definition life_move (l : life) (m : move) (next : Z) : act V (life * Z) :=
  match l, m with
  | LPending peer auth_protocol, MOpen log_id => fun w =>
      let '(connection_id, next') := get_conn_id next in
      match open_connection server peer connection_id log_id w with
      | (Err err, w) => ret (LOver (SRefused err) [], next) w
      | (Ok conn, w) => ret (LAuth conn auth_protocol, next') w
      end
  | LAuth conn auth_protocol, MAuth how now waker =>
      do! r <- authenticate server conn auth_protocol how in
      match r with
      | None => do! ts <- cleanup_drop (cleanup_of server conn) in ret (LOver SDropped ts, next)
      | Some auth =>
          do! _ <- report_auth to_string render server conn auth in
          ret (LSession conn auth waker (Sess PHead [] now) [], next)
      end
  | LSession conn auth waker s frames, MStep tk =>
      do! r <- session_step conn waker tk s in
      match s_phase r.1 with
      | PExit _ => do! l <- end_session conn auth r.1 (frames ++ r.2) in ret (l, next)
      | _ => ret (LSession conn auth waker r.1 (frames ++ r.2), next)
      end
  | LSession conn auth waker s frames, MDrop => do! l <- end_session conn auth s frames in ret (l, next)
  | _, _ => ret (l, next)
  end.

(** ** All of them *)

Record fleet := Fleet { f_world : world V; f_next : Z; f_lives : list life }.

Inductive event :=
  | EAccept (peer : peer_identity) (auth_protocol : option string)
  | EMove (i : nat) (m : move)
  | EElse (f : world V -> world V).

Definition fleet_step (e : event) (y : fleet) : fleet * list out :=
  match e with
  | EAccept peer auth_protocol => (Fleet (f_world y) (f_next y) (f_lives y ++ [LPending peer auth_protocol]), [])
  | EMove i m =>
      match f_lives y !! i with
      | None => (y, [])
      | Some l =>
          let '((l, next), w, o) := life_move l m (f_next y) (f_world y) in
          (Fleet w next (<[i := l]> (f_lives y)), o)
      end
  | EElse f => (Fleet (f (f_world y)) (f_next y) (f_lives y), [])
  end.

Fixpoint fleet_run (evs : list event) (y : fleet) : fleet * list out :=
  match evs with
  | [] => (y, [])
  | e :: evs =>
      let '(y, o1) := fleet_step e y in
      let '(y, o2) := fleet_run evs y in
      (y, o1 ++ o2)
  end.

(** The connections accepted, in order. *)
Definition accepted_peers (evs : list event) : list (peer_identity * option string) :=
  omap (fun e => match e with EAccept peer auth_protocol => Some (peer, auth_protocol) | _ => None end) evs.

(** ** Refinement: each connection is served as [serve_connection] does *)

(** How far a connection has come along [serve_connection].  The world it last saw may
    have changed in any way since. *)
Definition served_so_far (peer : peer_identity) (auth_protocol : option string) (l : life) : Prop :=
  let opened conn := exists id log w w1, open_connection server peer id log w = (Ok conn, w1) in
  match l with
  | LPending p a => p = peer /\ a = auth_protocol
  | LAuth conn a => a = auth_protocol /\ opened conn
  | LSession conn auth waker s frames =>
      opened conn
      /\ (exists how w w1 o w2 o1, authenticate server conn auth_protocol how w = (Some auth, w1, o)
            /\ report_auth to_string render server conn auth w1 = (tt, w2, o1))
      /\ exists now, forall w, exists evs w0 o,
           session_run conn waker evs (Sess PHead [] now) w0 = ((s, frames), w, o)
  | LOver res ts => exists sc w w' o, serve_connection peer auth_protocol sc w = ((res, ts), w', o)
  end.

Lemma session_run_snoc conn waker tk env evs : forall s w s1 f1 w1 o1 s2 f2 w2 o2,
  session_run conn waker evs s w = ((s1, f1), w1, o1) ->
  session_step conn waker tk s1 w1 = ((s2, f2), w2, o2) ->
  session_run conn waker (evs ++ [(tk, env)]) s w = ((s2, f1 ++ f2), env w2, o1 ++ o2).
Proof.
  induction evs as [|[tk' env'] evs IH]; intros s w s1 f1 w1 o1 s2 f2 w2 o2 Hr Hs; simpl in *.
  - injection Hr as <- <- <- <-. unfold bind. rewrite Hs. simpl. by rewrite !app_nil_r.
  - apply bind_inv in Hr as ([sa fa] & wa & oa & ob & Ha & Hk & ->).
    apply bind_inv in Hk as ([sb fb] & wb & oc & od & Hb & Hk & ->). injection Hk as <- <- <- <-.
    unfold bind. rewrite Ha. rewrite (IH _ _ _ _ _ _ _ _ _ _ Hb Hs). simpl.
    by rewrite <- !app_assoc, !app_nil_r.
Qed.

(** The end of a session closes the run of [serve_connection]. *)
Lemma end_session_serves peer auth_protocol conn auth waker s frames w l w' o :
  served_so_far peer auth_protocol (LSession conn auth waker s frames) ->
  end_session conn auth s frames w = (l, w', o) -> served_so_far peer auth_protocol l.
Proof.
  intros ((id & log & w0 & w1 & Hopen) & (how & w2 & w3 & o3 & w4 & o4 & Hauth & Hrep) & now & Hrun).
  unfold end_session. intros (u & w5 & o5 & o6 & Hd & Hk & ->)%bind_inv.
  apply bind_inv in Hk as (u2 & w6 & o7 & o8 & Hx & Hk & ->). apply bind_inv in Hk as (ts & w7 & o9 & o10 & Hc & Hk & ->).
  injection Hk as <- <- <-. destruct (Hrun w) as (evs & w8 & o11 & Hr).
  exists (Schedule id log (fun _ => w2) how (fun _ => w8) now waker evs), w0. simpl.
  unfold Connection.serve_connection. cbn [sc_connection_id sc_log_id sc_auth sc_before_auth]. rewrite Hopen.
  unfold bind at 1. rewrite Hauth. unfold after_auth. unfold bind at 1. rewrite Hrep. unfold bind at 1.
  unfold run_session_connection, Session.run. cbn [sc_waker sc_now sc_events sc_before_session].
  unfold bind at 1. rewrite Hr. unfold bind at 1. cbn [fst snd]. rewrite Hd. unfold bind at 1. rewrite Hx. simpl.
  unfold bind. rewrite Hc. simpl. eauto.
Qed.

Lemma life_move_serves peer auth_protocol l m next w l' next' w' o :
  served_so_far peer auth_protocol l -> life_move l m next w = ((l', next'), w', o) ->
  served_so_far peer auth_protocol l'.
Proof.
  intros Hl. destruct l as [p a|conn a|conn auth waker s frames|res ts], m as [log|how now waker'|tk|];
    try by intros [= <- _ _ _].
  - destruct Hl as [-> ->]. cbn. destruct (open_connection server peer next log w) as [[conn|err] w1] eqn:Hopen;
      intros [= <- _ _ _]; [split; [done|]; by eexists _, _, _, _|].
    exists (Schedule next log id AuthDone id 0 0 []), w. unfold Connection.serve_connection. simpl. rewrite Hopen. by eexists _, _.
  - destruct Hl as [-> (id & log & w0 & w1 & Hopen)]. cbn [life_move].
    intros (r & w2 & o2 & o3 & Ha & Hk & ->)%bind_inv. destruct r as [auth|].
    + apply bind_inv in Hk as ([] & w3 & o4 & o5 & Hr & Hk & ->). injection Hk as <- _ _ _. split_and!.
      * by eexists _, _, _, _.
      * by eexists _, _, _, _, _, _.
      * exists now. intros w4. by exists [], w4, [].
    + apply bind_inv in Hk as (ts & w3 & o4 & o5 & Hr & Hk & ->). injection Hk as <- _ _ _.
      exists (Schedule id log (fun _ => w) how (fun w => w) 0 0 []), w0. unfold Connection.serve_connection.
      cbn [sc_connection_id sc_log_id sc_auth sc_before_auth]. rewrite Hopen. unfold bind at 1. rewrite Ha.
      unfold after_auth, bind. rewrite Hr. simpl. by eexists _, _.
  - cbn [life_move]. intros ([s1 f1] & w1 & o1 & o2 & Hs & Hk & ->)%bind_inv. cbn [fst snd] in Hk.
    assert (Hnext : served_so_far peer auth_protocol (LSession conn auth waker s1 (frames ++ f1))).
    { destruct Hl as (Ho & Ha & now & Hr). split; [done|]. split; [done|]. exists now. intros w2.
      destruct (Hr w) as (evs & w0 & o0 & He). exists (evs ++ [(tk, fun _ => w2)]), w0, (o0 ++ o1).
      by eapply (session_run_snoc conn waker tk (fun _ => w2)). }
    destruct (s_phase s1) eqn:Hph; try (by injection Hk as <- _ _ _).
    apply bind_inv in Hk as (l & w3 & o3 & o4 & He & Hk & _). injection Hk as <- _ _ _.
    by eapply end_session_serves.
  - cbn [life_move]. intros (l & w1 & o1 & o2 & He & Hk & _)%bind_inv. injection Hk as <- _ _ _.
    by eapply end_session_serves.
Qed.

(** One connection is accepted for each life, and each life is served so far. *)
Definition all_served (peers : list (peer_identity * option string)) (y : fleet) : Prop :=
  Forall2 (fun p l => served_so_far p.1 p.2 l) peers (f_lives y).

Lemma fleet_run_serves evs : forall y peers y' o,
  all_served peers y -> fleet_run evs y = (y', o) -> all_served (peers ++ accepted_peers evs) y'.
Proof.
  induction evs as [|e evs IH]; intros y peers y' o Hy; cbn [fleet_run].
  - intros [= <- _]. by rewrite app_nil_r.
  - destruct (fleet_step e y) as [y1 o1] eqn:He. destruct (fleet_run evs y1) as [y2 o2] eqn:Hr. intros [= <- _].
    destruct e as [peer ap|i m|f]; simpl in He.
    + injection He as <- _. cbn. change (omap _ evs) with (accepted_peers evs).
      replace (peers ++ (peer, ap) :: accepted_peers evs) with ((peers ++ [(peer, ap)]) ++ accepted_peers evs)
        by (by rewrite <- app_assoc).
      eapply IH; [|exact Hr]. apply Forall2_app; [done|]. by repeat constructor.
    + eapply IH; [|exact Hr]. destruct (f_lives y !! i) as [l|] eqn:Hi; [|by injection He as <- _].
      destruct (life_move l m (f_next y) (f_world y)) as [[[l' next'] w'] o'] eqn:Hm. injection He as <- _.
      destruct (Forall2_lookup_r _ _ _ _ _ Hy Hi) as (p & Hp & Hl).
      unfold all_served. simpl. rewrite <- (list_insert_id peers i p Hp).
      apply Forall2_insert; [done|]. by eapply life_move_serves.
    + eapply IH; [|exact Hr]. by injection He as <- _.
Qed.

(** ** The table of connections

    No stage of a session registers or removes a connection. *)

Abbreviation dispatch := (@dispatch V Req HS BS AS).
Abbreviation task_env := (@task_env V Req HS BS AS).
Abbreviation task := (@task V HS BS AS).
Abbreviation envs_ok := (@env_keeps V Req HS BS AS same_table).
Abbreviation tasks_kept := (@tasks_ok V Req HS BS AS same_table).

Lemma keeps_limits {A B} (f : limit_state -> A * limit_state * list limit_event) (g : A -> B) :
  keeps same_table (fun _ => True) (fun w : world V => let '(a, l, ev) := f (lim w) in (g a, set_limits w l ev, [])).
Proof. intros w b w' o. destruct (f (lim w)) as [[a l] ev]. intros [= _ <- _]. by split. Qed.

Lemma keeps_state {A} (f : world V -> A * world V) :
  (forall w, same_table w (f w).2) -> keeps same_table (fun _ => True) (fun w => let '(a, w) := f w in ret a w).
Proof. intros Hf w a w' o. specialize (Hf w). destruct (f w). intros [= <- <- _]. by split. Qed.

Lemma set_limits_table (w : world V) l ev : same_table w (set_limits w l ev).
Proof. done. Qed.

Lemma put_queue_table conn (w : world V) s q : my_state conn w = Some s -> same_table w (put_queue conn w s q).
Proof. intros Hs. eapply respected_conn, only_conn_put. unfold my_state in Hs. by rewrite Hs. Qed.

Lemma rx_try_recv_table conn (w : world V) m w' : rx_try_recv conn w = (m, w') -> same_table w w'.
Proof.
  unfold rx_try_recv. destruct (my_state conn w) eqn:Hs; [|by intros [= _ <-]].
  destruct (try_recv _) as [[v|err] q]; intros [= _ <-]; by apply put_queue_table.
Qed.

Lemma rx_recv_table conn waker (w : world V) m w' : rx_recv conn waker w = (m, w') -> same_table w w'.
Proof.
  unfold rx_recv. destruct (my_state conn w) eqn:Hs; [|by intros [= _ <-]].
  destruct (recv_poll _ _) as [r q]. intros [= _ <-]. by apply put_queue_table.
Qed.

Lemma drop_rx_table conn : keeps same_table (fun _ => True) (drop_rx (V := V) conn).
Proof.
  intros w u w' o. unfold drop_rx. intros [= _ <- _]. split; [|done].
  destruct (my_state conn w) eqn:Hs; [by apply put_queue_table|done].
Qed.

Lemma task_drop_table tk : keeps same_table (fun _ => True) (@task_drop V HS BS AS tk).
Proof. intros w u w' o. destruct tk; intros [= _ <- _]; by split. Qed.

Lemma drop_tasks_table tasks : keeps same_table (fun _ => True) (@drop_tasks V Req HS BS AS tasks).
Proof.
  induction tasks as [|[e tk] tasks IH]; cbn [drop_tasks]; [by apply keeps_ret|].
  eapply keeps_bind; [apply _|apply task_drop_table|by intros].
Qed.

Lemma finish_table e expired responded elapsed :
  keeps same_table (fun tk => tk = Finished)
    (finish to_string render config (sv_toolbox server) (e : task_env) expired responded elapsed).
Proof.
  apply keeps_then; [done| |intros _; apply keeps_then; [done| |intros _; apply keeps_then; [done| |]]].
  - intros w u w' o. unfold observe_time. destruct (observe_request_time _ _ _). intros [= _ <- _]. split; [done|exact I].
  - unfold on_expiry. destruct (_ && _ && _); [by apply keeps_emit|by apply keeps_ret].
  - intros w u w' o [= _ <- _]. split; [done|exact I].
  - intros _. by apply keeps_ret.
Qed.

Lemma task_poll_table e tk ev : envs_ok e -> running same_table tk ->
  keeps same_table (fun tk' => tk' = Finished \/ running same_table tk')
    (task_poll to_string render config (sv_toolbox server) e tk ev).
Proof.
  intros He. destruct tk as [wk r|]; [|done]. intros [Hok Hd]. cbn [task_poll].
  eapply keeps_bind with (P := fun wr => work_ok same_table wr.1); [apply _| |].
  { destruct (polls_work config ev); [by apply work_poll_keeps|by apply keeps_ret]. }
  intros [wk' r'] Hok'. simpl in Hok'.
  assert (Hfin : forall expired, keeps same_table (fun tk' => tk' = Finished \/ running same_table tk')
    (finish to_string render config (sv_toolbox server) e expired r' (pe_elapsed ev))).
  { intros expired. eapply keeps_weaken; [apply finish_table|]. intros tk' ->. by left. }
  destruct wk'; try apply Hfin; (destruct (timer config ev); [apply Hfin|]; apply keeps_ret; [done|by right]).
Qed.

Lemma poll_tasks_table polls : forall tasks, tasks_kept tasks ->
  keeps same_table (fun r => tasks_kept r.2) (poll_tasks to_string render server tasks polls).
Proof.
  induction polls as [|[i ev] polls IH]; intros tasks Hok; cbn [poll_tasks]; [by apply keeps_ret|].
  destruct (tasks !! i) as [[e tk]|] eqn:Hi; [|by apply IH].
  pose proof (Forall_lookup_1 _ _ _ _ Hok Hi) as [He Hr].
  eapply keeps_bind; [apply _|by apply task_poll_table|]. intros tk' Htk.
  destruct tk' as [wk r|]; [|apply keeps_ret; [done|by apply Forall_delete]].
  apply IH. apply Forall_insert; [done|]. split; [done|]. by destruct Htk.
Qed.

Section session_table.
Context (conn_info : ws_connection V).
Hypothesis Hserver : server_keeps same_table server.

Definition option_kept (x : option task_env) : Prop := from_option envs_ok True x.
Definition dispatch_kept (d : dispatch) : Prop := match d with DTask e => envs_ok e | _ => True end.

Lemma emit_then_table {B} (P : B -> Prop) o b : P b ->
  keeps (V := V) same_table P (do! _ <- emit to_string render (sv_toolbox server) o in ret b).
Proof. intros Hb. apply keeps_emit_then; [done|]. by apply keeps_ret. Qed.

Lemma acquire_slot_table : keeps same_table (fun _ => True) (acquire_slot server).
Proof. apply keeps_limits. Qed.

Lemma endpoint_env code ep env params ctx : sv_handlers server !! code = Some ep ->
  envs_ok (TaskEnv (we_handler ep) (sv_hooks server) (we_schema ep) env params ctx).
Proof. destruct Hserver as [Hh Hm]. intros Hep. split; [by apply (Hm code ep)|done]. Qed.

Lemma handle_mcp_frame_table mcp frame ctx :
  keeps same_table option_kept (handle_mcp_frame to_string render server conn_info mcp frame ctx).
Proof.
  intros w x w' o. unfold handle_mcp_frame.
  destruct frame as [req|err]; [|by apply emit_then_table]. destruct (is_notification req); [by apply keeps_ret|].
  destruct (route _ _ _) as [frame|id code args|]; [by apply emit_then_table| |by apply keeps_ret].
  destruct (sv_handlers server !! code) as [ep|] eqn:Hep; [|by apply emit_then_table].
  apply keeps_then; [done|apply acquire_slot_table|]. intros ok. destruct (negb ok).
  - apply keeps_then; [done|by apply keeps_emit_opt|]. intros _. by apply keeps_ret.
  - apply keeps_ret; [done|]. by eapply endpoint_env.
Qed.

Lemma handle_request_table ctx req :
  keeps same_table dispatch_kept (handle_request to_string render server conn_info ctx req).
Proof.
  intros w x w' o. unfold handle_request.
  destruct (sv_handlers server !! rq_method req) as [ep|] eqn:Hep; [|by apply emit_then_table].
  destruct (negb _); [by apply emit_then_table|].
  apply keeps_then; [done|apply acquire_slot_table|]. intros ok. destruct (negb ok).
  - by apply emit_then_table.
  - apply keeps_ret; [done|]. by eapply endpoint_env.
Qed.

Lemma handle_legacy_table ctx msg :
  keeps same_table dispatch_kept (handle_legacy to_string render parse_request server conn_info ctx msg).
Proof.
  assert (Hp : forall b, keeps same_table dispatch_kept
    match parse_request b with
    | Err err => do! _ <- emit to_string render (sv_toolbox server) (OResp (x_connection_id ctx) (request_error ctx BAD_REQUEST err)) in ret DKeep
    | Ok req => handle_request to_string render server conn_info ctx req
    end).
  { intros b. destruct (parse_request b); [apply handle_request_table|by apply emit_then_table]. }
  destruct msg; simpl; first [apply Hp|by apply keeps_ret].
Qed.

Lemma handle_message_table msg :
  keeps same_table dispatch_kept (handle_message to_string render parse_json serde_error parse_request server conn_info msg).
Proof.
  eapply keeps_bind with (P := fun _ => True); [apply _| |].
  { intros w u w' o. unfold observe_bytes. destruct (observe_message _ _ _). intros [= _ <- _]. by split. }
  intros _ _ w d w' o.
  assert (Hleg : (if mcp_only config
     then (do! _ <- emit to_string render (sv_toolbox server) (ORaw (x_connection_id (from_conn (Session.conn conn_info w))) mcp_only_error) in ret DKeep) w
     else handle_legacy to_string render parse_request server conn_info (from_conn (Session.conn conn_info w)) msg w) = (d, w', o) ->
     same_table w w' /\ dispatch_kept d).
  { destruct (mcp_only config); [by apply emit_then_table|apply handle_legacy_table]. }
  destruct (sv_mcp server) as [mcp|]; [destruct (detect _ _ _) as [frame|]|]; [|exact Hleg..].
  eapply keeps_bind; [apply _|apply handle_mcp_frame_table|]. intros [e|] He; by apply keeps_ret.
Qed.

Lemma on_inbound_table tk s inb : tasks_kept (s_tasks s) ->
  keeps same_table (fun r => tasks_kept (s_tasks r.1))
    (on_inbound to_string render parse_json serde_error parse_request server conn_info tk s inb).
Proof.
  intros Hok. unfold on_inbound. destruct inb as [[m|err]|]; [|by apply keeps_ret..].
  eapply keeps_bind; [apply _|apply handle_message_table|]. intros [| |e] He; apply keeps_ret; [done..|].
  simpl. apply Forall_app. split; [done|]. constructor; [|done]. split; [done|]. split; [|done]. apply He.
Qed.

Lemma session_step_table waker tk s : tasks_kept (s_tasks s) ->
  keeps same_table (fun r => tasks_kept (s_tasks r.1)) (session_step conn_info waker tk s).
Proof.
  intros Hok. unfold Session.session_step. destruct (s_phase s); try by apply keeps_ret.
  - intros w [s' sent] w' o. destruct (rx_try_recv conn_info w) as [[msg|] w1] eqn:Hr; apply rx_try_recv_table in Hr.
    + destruct (idle _ _ _); [by intros [= <- _ <- _]|]. unfold after_send, ret.
      destruct (tk_send tk); by intros [= <- _ <- _].
    + by intros [= <- _ <- _].
  - destruct (idle _ _ _); [by apply keeps_ret|]. unfold poll_select.
    eapply keeps_bind; [apply _|by apply poll_tasks_table|]. intros [finished tasks] Ht w [s' sent] w' o.
    destruct finished; [by intros [= <- _ <- _]|].
    destruct (rx_recv conn_info waker w) as [out w2] eqn:Hr. apply rx_recv_table in Hr.
    destruct out as [[msg|]|]; simpl.
    + unfold after_send, ret. destruct (tk_send tk); by intros [= <- _ <- _].
    + by intros [= <- _ <- _].
    + unfold priority4, select. destruct (tk_inbound tk) as [inb|].
      * intros Hi. apply on_inbound_table in Hi as [Hi Ho]; [|done]. split; [by transitivity w2|done].
      * destruct (my_end _ _); by intros [= <- _ <- _].
Qed.
End session_table.

(** ** The books of the shared state *)

Definition tasks_of (l : life) : list (task_env * task) :=
  match l with LSession _ _ _ s _ => s_tasks s | _ => [] end.
Definition in_flight (l : life) : nat := length (tasks_of l).
Definition registered (l : life) : option Z :=
  match l with LAuth conn _ | LSession conn _ _ _ _ => Some (c_connection_id conn) | _ => None end.
Definition opened (l : life) : nat := match l with LPending _ _ => 0 | _ => 1 end.

(** What an event brings from outside leaves the books alone. *)
Definition event_keeps (e : event) : Prop :=
  match e with
  | EElse f => forall w, same_books w (f w)
  | EMove _ (MAuth (AuthDeadline partial) _ _) | EMove _ (MAuth (AuthDropped partial) _ _) =>
      forall w, same_books w (partial w)
  | _ => True
  end.

Section books.
Hypothesis Hall : all_keep server same_books.

Abbreviation counted := (@counted V Req HS BS AS server).

(** One connection, when the others have [n] requests in flight and the ids [ids]. *)
Definition life_books (n : nat) (ids : list Z) (l : life) (w : world V) : Prop :=
  counted n 0 (tasks_of l) w /\ tasks_kept (tasks_of l)
  /\ forall c, is_Some (states w !! c) <-> c ∈ option_list (registered l) ++ ids.

Lemma keep_slots : all_keep server same_slots.
Proof. eapply all_keep_sub; [exact Hall|]. by intros w w' []. Qed.
Lemma keep_table : all_keep server same_table.
Proof. eapply all_keep_sub; [exact Hall|]. by intros w w' []. Qed.

Lemma life_books_world n ids l w w' : same_books w w' -> life_books n ids l w -> life_books n ids l w'.
Proof.
  intros [Hs Ht] (Hc & Hk & Hd). split_and!; [by eapply counted_world|done|]. intros c. by rewrite (Ht c).
Qed.

(** An entry is removed, and the connection is over. *)
Lemma life_books_removed n ids l w c res ts : registered l = Some c -> tasks_of l = [] -> c ∉ ids ->
  life_books n ids l w -> life_books n ids (LOver res ts) (states_remove c w).
Proof.
  intros Hr Ht Hc (Hn & Hk & Hd). rewrite Ht in *. split_and!; [done|done|]. intros c'. simpl.
  destruct (decide (c' = c)) as [->|Hne].
  - rewrite lookup_delete_eq. split; [by intros []|done].
  - rewrite lookup_delete_ne by done. rewrite (Hd c'), Hr. simpl. set_solver.
Qed.

Lemma end_session_books n ids conn auth waker s frames w l w' o :
  c_connection_id conn ∉ ids -> life_books n ids (LSession conn auth waker s frames) w ->
  end_session conn auth s frames w = (l, w', o) ->
  life_books n ids l w' /\ registered l = None /\ opened l = 1.
Proof.
  intros Hc (Hn & Hk & Hd). unfold end_session.
  intros (u & w1 & o1 & o2 & Ht & Hr & _)%bind_inv. apply bind_inv in Hr as (u2 & w2 & o3 & o4 & Hx & Hr & _).
  apply bind_inv in Hr as (ts & w3 & o5 & o6 & Hcl & Hr & _). injection Hr as <- <- _.
  rewrite close_connection_eq in Hcl. injection Hcl as _ <- _. split; [|by split].
  assert (Ht1 : same_table w w1) by (apply drop_tasks_table in Ht; apply Ht).
  assert (Ht2 : same_table w1 w2) by (apply drop_rx_table in Hx; apply Hx).
  pose proof Hn as (_ & _ & Hcap). simpl in Hcap. pose proof (drop_tasks_slots _ _ _ _ _ _ _ _ Hn Ht) as Hs1.
  assert (Hs2 : slots w2 = slots w1) by (unfold drop_rx in Hx; injection Hx as _ <- _; by destruct (my_state _ w1)).
  eapply (life_books_removed n ids (LAuth conn None)); [done|done|done|]. split_and!; [split_and!|constructor|].
  - simpl. rewrite Hs2, Hs1. lia.
  - constructor.
  - intros c Hmax. specialize (Hcap c Hmax). destruct Hn as [Hn _]. simpl in Hn. rewrite Hs2, Hs1. lia.
  - intros c. by rewrite (Ht2 c), (Ht1 c), (Hd c).
Qed.

(** Every move keeps the books of its connection. *)
Lemma life_move_books n ids l m next w l' next' w' o :
  event_keeps (EMove 0 m) -> (opened l = 0 -> next ∉ ids) -> (forall c, registered l = Some c -> c ∉ ids) ->
  life_books n ids l w -> life_move l m next w = ((l', next'), w', o) ->
  life_books n ids l' w'
  /\ (l' = l /\ next' = next
     \/ registered l' = Some next /\ next' = wrap32 (next + 1) /\ opened l = 0
     \/ next' = next /\ opened l' = 1 /\ (registered l' = registered l \/ registered l' = None)).
Proof.
  intros Hm Hnext Hids Hl.
  destruct l as [p a|conn a|conn auth waker s frames|res ts], m as [log|how now waker'|tk|];
    try (intros [= <- <- <- _]; split; [done|by left]).
  - cbn [life_move get_conn_id]. pose proof Hall as (_ & Hoc & _). unfold open_connection.
    pose proof (run_on_connect_keeps same_books _ p ext_new w Hoc) as Hw.
    destruct (run_on_connect _ _ _ _) as [[ext [u|err]] w1]; simpl in Hw;
      apply (life_books_world _ _ _ _ _ Hw) in Hl as (Hn & Hk & Hd); intros [= <- <- <- _].
    + specialize (Hnext eq_refl). split; [|right; left; done]. split_and!; [done|done|]. intros c. simpl. destruct (decide (c = next)) as [->|Hne].
      * rewrite lookup_insert_eq. split; [intros; left|eauto].
      * rewrite lookup_insert_ne by done. rewrite (Hd c). simpl. set_solver.
    + split; [done|]. right. right. split_and!; [done|done|by left].
  - cbn [life_move]. intros (r & w1 & o1 & o2 & Ha & Hk & _)%bind_inv.
    pose proof (authenticate_keeps server same_books conn a how Hall) as Hau.
    apply Hau in Ha as [Ha _]; [|by destruct how].
    apply (life_books_world _ _ _ _ _ Ha) in Hl. destruct r as [auth|].
    + apply bind_inv in Hk as (u & w2 & o3 & o4 & Hr & Hk & _). injection Hk as <- <- <- _.
      apply (report_auth_keeps _ _ _ same_books) in Hr as [Hr _]. apply (life_books_world _ _ _ _ _ Hr) in Hl.
      split; [exact Hl|]. right. right. split_and!; [done|done|by left].
    + apply bind_inv in Hk as (ts & w2 & o3 & o4 & Hr & Hk & _). injection Hk as <- <- <- _.
      rewrite cleanup_drop_eq in Hr. injection Hr as _ <- _.
      split; [|right; right; split_and!; [done|done|by right]].
      eapply life_books_removed; [| | |exact Hl]; [done|done|]. by apply Hids.
  - cbn [life_move]. destruct Hl as (Hn & Hk & Hd).
    intros ([s1 f1] & w1 & o1 & o2 & Hs & Hr & _)%bind_inv. cbn [fst snd] in Hr.
    pose proof keep_slots as [Hks _]. pose proof keep_table as [Hkt _].
    pose proof (session_step_table conn Hkt waker tk s Hk _ _ _ _ Hs) as [Ht Hk1].
    apply (session_step_slots to_string render parse_json serde_error parse_request server conn Hks n 0) in Hs; [|done].
    assert (Hl1 : life_books n ids (LSession conn auth waker s1 (frames ++ f1)) w1).
    { split_and!; [done|done|]. intros c. rewrite (Ht c). apply Hd. }
    destruct (s_phase s1); try (injection Hr as <- <- <- _; split; [exact Hl1|]; right; right; split_and!; [done|done|by left]).
    apply bind_inv in Hr as (l & w2 & o3 & o4 & He & Hr & _). injection Hr as <- <- <- _.
    eapply (end_session_books n ids conn auth waker) in He as (He & Hre & Ho); [|by apply Hids|done].
    split; [exact He|]. right. right. split_and!; [done|done|by right].
  - cbn [life_move]. intros (l & w1 & o1 & o2 & He & Hr & _)%bind_inv. injection Hr as <- <- <- _.
    eapply (end_session_books n ids conn auth waker) in He as (He & Hre & Ho); [|by apply Hids|done].
    split; [exact He|]. right. right. split_and!; [done|done|by right].
Qed.
Lemma insert_perm {A} (l : list A) i x y : l !! i = Some x -> <[i := y]> l ≡ₚ y :: delete i l.
Proof.
  intros Hi. pose proof (lookup_lt_Some _ _ _ Hi). rewrite insert_take_drop by done.
  rewrite delete_take_drop. by rewrite Permutation_middle.
Qed.

(** The whole: [lives] in any order, [first] the counter of ids at the start. *)
Record fleet_books (first : Z) (w : world V) (next : Z) (lives : list life) : Prop := {
  fb_slots : slots w = sum_list_with in_flight lives;
  fb_limit : forall c, max_inflight_requests config = Some c -> slots w <= c;
  fb_tasks : Forall (fun l => tasks_ok same_slots (tasks_of l) /\ tasks_kept (tasks_of l)) lives;
  fb_table : forall c, is_Some (states w !! c) <-> c ∈ omap registered lives;
  fb_ids : NoDup (omap registered lives);
  fb_next : exists k : nat, k <= sum_list_with opened lives /\ next = wrap32 (first + Z.of_nat k)
    /\ Forall (fun c => exists j : nat, j < k /\ c = wrap32 (first + Z.of_nat j)) (omap registered lives);
}.

Lemma fleet_books_perm first w next lives lives' :
  lives ≡ₚ lives' -> fleet_books first w next lives -> fleet_books first w next lives'.
Proof.
  intros Hp [Hs Hl Ht Hd Hi (k & Hk & Hn & Hf)]. assert (Ho : omap registered lives ≡ₚ omap registered lives') by (by apply omap_Permutation). split.
  - by rewrite <- Hp.
  - done.
  - by rewrite <- Hp.
  - intros c. by rewrite Hd, Ho.
  - by rewrite <- Ho.
  - exists k. by rewrite <- Hp.
Qed.

Lemma wrap32_distinct first (j k : nat) : j < k -> (Z.of_nat k < 4294967296)%Z ->
  wrap32 (first + Z.of_nat j) <> wrap32 (first + Z.of_nat k).
Proof.
  intros Hj Hk. unfold wrap32. intros Heq.
  pose proof (Z.div_mod (first + Z.of_nat j) 4294967296 ltac:(lia)). pose proof (Z.div_mod (first + Z.of_nat k) 4294967296 ltac:(lia)). nia.
Qed.

Lemma opened_le lives : sum_list_with opened lives <= length lives.
Proof. induction lives as [|[] lives IH]; simpl; lia. Qed.

(** A move of the head. *)
Lemma head_move_books first w next l rest m l' next' w' o :
  event_keeps (EMove 0 m) -> (Z.of_nat (S (length rest)) <= 4294967296)%Z ->
  fleet_books first w next (l :: rest) -> life_move l m next w = ((l', next'), w', o) ->
  fleet_books first w' next' (l' :: rest).
Proof.
  intros Hm Hlen [Hs Hl Ht Hd Hi (k & Hk & Hn & Hf)] Hmove. inversion_clear Ht as [|? ? [Ht1 Ht2] Hrest].
  simpl in Hs, Hk. pose proof (opened_le rest) as Hop.
  assert (Heq : omap registered (l :: rest) = option_list (registered l) ++ omap registered rest)
    by (simpl; by destruct (registered l)).
  assert (Heq' : omap registered (l' :: rest) = option_list (registered l') ++ omap registered rest)
    by (simpl; by destruct (registered l')).
  rewrite Heq in *. apply Forall_app in Hf as [Hf1 Hf2]. apply NoDup_app in Hi as (Hi1 & Hi2 & Hi3).
  assert (Hbooks : life_books (sum_list_with in_flight rest) (omap registered rest) l w).
  { split_and!; [split_and!|done|done]; [change (length (tasks_of l)) with (in_flight l); lia|done|]. intros c Hc. specialize (Hl c Hc). lia. }
  assert (Hfresh : opened l = 0 -> next ∉ omap registered rest).
  { intros Ho Hin. rewrite Ho in Hk. rewrite Forall_forall in Hf2. destruct (Hf2 _ Hin) as (j & Hj & Heqj).
    rewrite Hn in Heqj. symmetry in Heqj. revert Heqj. apply wrap32_distinct; lia. }
  eapply life_move_books in Hmove as (((Hn1 & Hn2 & Hn3) & Hk2 & Hd2) & Hcase); [|done|done|by intros c Hc; apply Hi2; rewrite Hc; left|done].
  split.
  - simpl. rewrite Hn1. change (length (tasks_of l')) with (in_flight l'). lia.
  - intros c Hc. specialize (Hn3 c Hc). lia.
  - by constructor.
  - intros c. by rewrite Hd2, Heq'.
  - rewrite Heq'. destruct Hcase as [[-> ->]|[(-> & _ & Ho)|(_ & _ & [->| ->])]]; [by apply NoDup_app| |by apply NoDup_app|done].
    constructor; [by apply Hfresh|done].
  - rewrite Heq'. simpl sum_list_with. destruct Hcase as [[-> ->]|[(Hr & -> & Ho)|(-> & -> & Hr)]].
    + exists k. split; [done|]. split; [done|]. by apply Forall_app.
    + exists (S k). assert (opened l' = 1) as -> by (by destruct l'). rewrite Ho in Hk. split; [lia|]. split.
      { rewrite Hn. unfold wrap32. rewrite Z.add_mod_idemp_l by lia. f_equal. lia. }
      rewrite Hr. apply Forall_app. split; [constructor; [exists k; split; [lia|exact Hn]|done]|].
      eapply Forall_impl; [exact Hf2|]. intros c (j & Hj & ->). exists j. split; [lia|done].
    + exists k. split; [destruct l; simpl in Hk; lia|]. split; [done|].
      apply Forall_app. split; [|done]. by destruct Hr as [->| ->].
Qed.

Lemma fleet_run_books first evs : forall y y' o,
  Forall event_keeps evs -> (Z.of_nat (length (f_lives y) + length (accepted_peers evs)) <= 4294967296)%Z ->
  fleet_books first (f_world y) (f_next y) (f_lives y) -> fleet_run evs y = (y', o) ->
  fleet_books first (f_world y') (f_next y') (f_lives y').
Proof.
  induction evs as [|e evs IH]; intros y y' o Hevs Hlen Hy; cbn [fleet_run]; [by intros [= <- _]|].
  inversion_clear Hevs as [|? ? He Hevs']. destruct (fleet_step e y) as [y1 o1] eqn:Hs.
  destruct (fleet_run evs y1) as [y2 o2] eqn:Hr. intros [= <- _]. eapply IH; [done| | |exact Hr].
  - destruct e as [peer ap|i m|f]; simpl in Hs, Hlen.
    + injection Hs as <- _. simpl. rewrite length_app. simpl. lia.
    + destruct (f_lives y !! i); [|by injection Hs as <- _].
      destruct (life_move _ _ _ _) as [[[l' next'] w'] o']. injection Hs as <- _. simpl. by rewrite length_insert.
    + by injection Hs as <- _.
  - destruct e as [peer ap|i m|f]; simpl in Hs.
    + injection Hs as <- _. eapply (fleet_books_perm _ _ _ (LPending peer ap :: f_lives y)); [apply Permutation_cons_append|].
      destruct Hy as [H1 H2 H3 H4 H5 H6]. split; try done.
      constructor; [split; constructor|done].
    + destruct (f_lives y !! i) as [l|] eqn:Hi; [|by injection Hs as <- _].
      destruct (life_move _ _ _ _) as [[[l' next'] w'] o'] eqn:Hm. injection Hs as <- _. simpl.
      pose proof (lookup_lt_Some _ _ _ Hi) as Hlt. pose proof (insert_perm _ _ _ l' Hi) as Hp'.
      pose proof (delete_Permutation _ _ _ Hi) as Hp.
      eapply fleet_books_perm; [symmetry; exact Hp'|]. eapply head_move_books; [| |eapply fleet_books_perm; [exact Hp|exact Hy]|exact Hm].
      * exact He.
      * rewrite length_delete by eauto. lia.
    + injection Hs as <- _. simpl. destruct Hy as [H1 H2 H3 H4 H5 H6]. destruct (He (f_world y)) as [Hsl Htb]. split; try done.
      * by rewrite Hsl.
      * intros c Hc. rewrite Hsl. by apply H2.
      * intros c. rewrite (Htb c). apply H4.
Qed.
End books.

Lemma omap_inj {A B} (f : A -> option B) (l : list A) : NoDup (omap f l) -> forall i j x y b,
  l !! i = Some x -> l !! j = Some y -> f x = Some b -> f y = Some b -> i = j.
Proof.
  intros Hnd i j x y b Hi Hj Hx Hy. destruct (decide (i = j)) as [|Hne]; [done|exfalso].
  rewrite (delete_Permutation _ _ _ Hi) in Hnd. simpl in Hnd. rewrite Hx in Hnd. apply NoDup_cons in Hnd as [Hnin _].
  apply Hnin, list_elem_of_omap. exists y. split; [|done]. apply list_elem_of_lookup.
  destruct (Nat.lt_ge_cases j i).
  - exists j. by rewrite list_lookup_delete_lt.
  - exists (j - 1). rewrite list_lookup_delete_ge by lia. by replace (S (j - 1)) with j by lia.
Qed.

Definition over (l : life) : Prop := match l with LOver _ _ => True | _ => False end.

Lemma over_in_flight lives : Forall over lives -> sum_list_with in_flight lives = 0 /\ omap registered lives = [].
Proof. by induction 1 as [|[] lives Ho _ IH]. Qed.

(** ** Properties *)


(** From an empty start. *)
Lemma fleet_books_start evs w0 first y o :
  all_keep server same_books -> Forall event_keeps evs ->
  (Z.of_nat (length (accepted_peers evs)) <= 4294967296)%Z -> (0 <= first <= u32_max)%Z ->
  slots w0 = 0 -> states w0 = ∅ -> fleet_run evs (Fleet w0 first []) = (y, o) ->
  fleet_books first (f_world y) (f_next y) (f_lives y).
Proof.
  intros Hall Hevs Hlen Hfirst Hs0 Ht0 Hr. eapply (fleet_run_books Hall first) in Hr; [done|done|done|].
  split; simpl.
  - done.
  - intros. lia.
  - constructor.
  - intros c. rewrite Ht0, lookup_empty. split; [by intros []|by intros ?%not_elem_of_nil].
  - constructor.
  - exists 0. split_and!; [lia| |constructor]. rewrite Z.add_0_r. symmetry. by apply wrap32_small.
Qed.

(** No entry of the table means nothing is registered. *)
Lemma no_registered_empty (w : world V) lives :
  (forall c, is_Some (states w !! c) <-> c ∈ omap registered lives) -> omap registered lives = [] -> states w = ∅.
Proof.
  intros H He. apply map_empty. intros c. apply eq_None_not_Some. rewrite H, He. by intros ?%not_elem_of_nil.
Qed.


End server.

(** *** Witness: two connections, interleaved; the first asks and leaves, the second is dropped *)

Definition w_tick (polls : list (nat * poll_event)) (inb : option (option (result wire_message stream_error))) : tick :=
  Tick 0 (Ok tt) polls inb.
Definition w_events : list (@event unit) :=
  [EAccept Unknown None; EMove 0 (MOpen 9); EAccept Unknown None; EMove 0 (MAuth AuthDone 0 1); EMove 1 (MOpen 10);
   EElse (new_conn w_conn); EMove 0 (MStep (w_tick [] None)); EMove 1 (MAuth AuthDone 0 2); EMove 0 (MStep (w_tick [] None));
   EMove 1 (MStep (w_tick [] None)); EMove 0 (MStep (w_tick [] (Some (Some (Ok (Text []))))))].
Definition w_leave : list (@event unit) :=
  [EMove 1 MDrop; EMove 0 (MStep (w_tick [] None)); EMove 0 (MStep (w_tick [] None));
   EMove 0 (MStep (w_tick [(0, PollEvent true false 0)] None)); EMove 0 (MStep (w_tick [(0, PollEvent true false 0)] None));
   EMove 0 (MStep (w_tick [(0, PollEvent true false 0)] None)); EMove 0 (MStep (w_tick [] None));
   EMove 0 (MStep (w_tick [] None)); EMove 0 (MStep (w_tick [] None)); EMove 0 (MStep (w_tick [] (Some None)))].
Definition w_fleet (evs : list (@event unit)) :=
  fleet_run w_text w_json w_parse_json w_serde_error w_parse_request w_srv evs (Fleet (World ∅ ∅ limit_default []) 7 []).

Lemma w_srv_books : all_keep w_srv same_books.
Proof.
  split; [|split].
  - split; [split; repeat constructor; by intros|]. apply map_Forall_insert_2; [|apply map_Forall_empty].
    by intros [[] v] w.
  - constructor; [|constructor]. by intros peer ext w.
  - intros t header conn w a w' o [= <- <- <-]. by split.
Qed.


