(* ===== verification/Push.v ===== *)
(** * Topics and their subscribers: [src/libs/ws/push.rs]

    [SubscribeManager]: for each topic, the subscribers by connection.  A publication
    holds the topic's entry of the [DashMap] while it sends, so it is one step.

    [values] is the order in which a [HashMap] yields its entries, which is
    unspecified; [code_of] is the topic's [Into<u32>]; published data is the outcome
    of its serialization. *)

From S2P Require Import Prelude BMap Json ModelTypes ErrorCode Peer Message Outbound ServerConfig Limits Basics Toolbox Mcp Handler.

(** [toolbox.send], with its result. *)
Definition send_to {V} (to_string : ws_response -> result string string) (t : toolbox) (conn_id : Z) (resp : ws_response)
    : act V bool := fun w =>
  let '(ok, w) := send to_string t w conn_id resp in (ok, w, [OResp conn_id resp]).

(** Whether [toolbox.send] can reach a connection. *)
Definition reachable {V} (t : toolbox) (w : world V) (conn_id : Z) : bool :=
  match send_msg t, states w !! conn_id with Some _, Some _ => true | _, _ => false end.

Section push.
Context {V : Type} {Key : Type} `{Countable Key}.
Context (to_string : ws_response -> result string string) (code_of : Key -> Z).

Record subscriber_context := SubscriberContext {
  sub_ctx : request_context V;
  sub_stream_seq : Z;   (* u32 *)
}.

Abbreviation subscribers := (gmap Z subscriber_context).

(** [SubscribeManager]: its [topics]. *)
Abbreviation subscribe_manager := (gmap Key subscribers).
Definition manager_new : subscribe_manager := ∅.

Context (values : gmap Z subscriber_context -> list (Z * subscriber_context)).

Definition add_topic (m : subscribe_manager) (topic : Key) : subscribe_manager :=
  match m !! topic with Some _ => m | None => <[topic := ∅]> m end.
Definition add_topics (m : subscribe_manager) (topics : list Key) : subscribe_manager :=
  fold_left add_topic topics m.

Definition subscribe (m : subscribe_manager) (topic : Key) (ctx : request_context V) : subscribe_manager :=
  let subscribers := default ∅ (m !! topic) in
  <[topic := <[x_connection_id ctx := SubscriberContext ctx 0]> subscribers]> m.
Definition subscribe_multi (m : subscribe_manager) (topics : list Key) (ctx : request_context V) : subscribe_manager :=
  fold_left (fun m topic => subscribe m topic ctx) topics m.

Definition unsubscribe (m : subscribe_manager) (topic : Key) (connection_id : Z) : subscribe_manager :=
  match m !! topic with
  | Some subscribers => <[topic := delete connection_id subscribers]> m
  | None => m
  end.
Definition unsubscribe_multi (m : subscribe_manager) (topics : list Key) (connection_id : Z) : subscribe_manager :=
  fold_left (fun m topic => unsubscribe m topic connection_id) topics m.

(** ** [publish_with_filter] *)

Definition stream_frame (stream_code : Z) (data : json) (sub : subscriber_context) : ws_response :=
  Stream (x_seq (sub_ctx sub)) (x_method (sub_ctx sub)) (sub_stream_seq sub) stream_code data.

(** [sub.stream_seq += 1], as a release build computes it. *)
Definition next_seq (sub : subscriber_context) : subscriber_context :=
  SubscriberContext (sub_ctx sub) (wrap32 (sub_stream_seq sub + 1)).

(** The loop: the subscribers with their new numbers, and the dead connections. *)
Fixpoint deliver (t : toolbox) (stream_code : Z) (data : json) (filter : request_context V -> bool)
    (subs : list (Z * subscriber_context)) (acc : subscribers) : act V (subscribers * list Z) :=
  match subs with
  | [] => ret (acc, [])
  | (id, sub) :: subs =>
      if negb (filter (sub_ctx sub)) then deliver t stream_code data filter subs acc
      else
        do! ok <- send_to to_string t (x_connection_id (sub_ctx sub)) (stream_frame stream_code data sub) in
        do! r <- deliver t stream_code data filter subs (<[id := next_seq sub]> acc) in
        ret (r.1, if ok then r.2 else x_connection_id (sub_ctx sub) :: r.2)
  end.

Definition remove_dead (dead : list Z) (s : subscribers) : subscribers := fold_left (fun s id => delete id s) dead s.

Definition publish_with_filter (t : toolbox) (topic : Key) (msg : result json string)
    (filter : request_context V -> bool) (m : subscribe_manager) : act V subscribe_manager :=
  match m !! topic with
  | None => ret m
  | Some topic_2 =>
      match msg with
      | Err _ => ret m
      | Ok data =>
          do! r <- deliver t (code_of topic) data filter (values topic_2) topic_2 in
          ret (<[topic := remove_dead r.2 r.1]> m)
      end
  end.

Definition publish_to_all (t : toolbox) (topic : Key) (msg : result json string) (m : subscribe_manager)
    : act V subscribe_manager :=
  publish_with_filter t topic msg (fun _ => true) m.

(** ** Lemmas *)

Hypothesis values_perm : forall s, values s ≡ₚ map_to_list s.

(** A subscriber is stored under its connection. *)
Definition subscribers_wf (s : subscribers) : Prop :=
  forall id sub, s !! id = Some sub -> x_connection_id (sub_ctx sub) = id.

Lemma send_to_spec t c resp (w : world V) ok w' o :
  send_to to_string t c resp w = (ok, w', o) ->
  ok = reachable t w c /\ o = [OResp c resp] /\ forall c', reachable t w' c' = reachable t w c'.
Proof.
  unfold send_to. pose proof (send_only_conn to_string t w c resp) as (Ho & Hc & _).
  destruct (send to_string t w c resp) as [b w1] eqn:Hs. intros [= <- <- <-]. simpl in *.
  split; [|split; [done|]].
  - unfold send, send_closure, reachable in *. destruct (send_msg t); [|by injection Hs as <- _].
    destruct (states w !! c); [|by injection Hs as <- _]. by destruct (to_string resp); injection Hs as <- _.
  - intros c'. unfold reachable. destruct (send_msg t); [|done]. destruct (decide (c' = c)) as [->|Hne]; [|by rewrite Ho].
    destruct Hc as [H1 H2]. destruct (states w1 !! c), (states w !! c); try done; [destruct H1|destruct H2]; done.
Qed.

(** What a publication does to one entry. *)
Definition published (t : toolbox) (w : world V) (filter : request_context V -> bool) (id : Z) (sub : subscriber_context)
    : option subscriber_context :=
  if filter (sub_ctx sub) then if reachable t w id then Some (next_seq sub) else None else Some sub.

Definition frame_to (stream_code : Z) (data : json) (p : Z * subscriber_context) : out :=
  OResp p.1 (stream_frame stream_code data p.2).

Lemma deliver_spec t code data flt subs : forall acc w acc' dead w' o,
  Forall (fun p => x_connection_id (sub_ctx p.2) = p.1) subs -> NoDup subs.*1 ->
  deliver t code data flt subs acc w = ((acc', dead), w', o) ->
  o = map (frame_to code data) (List.filter (fun p => flt (sub_ctx p.2)) subs)
  /\ (forall id, id ∉ subs.*1 -> acc' !! id = acc !! id /\ id ∉ dead)
  /\ (forall id sub, (id, sub) ∈ subs ->
        acc' !! id = (if flt (sub_ctx sub) then Some (next_seq sub) else acc !! id)
        /\ (id ∈ dead <-> flt (sub_ctx sub) = true /\ reachable t w id = false))
  /\ (forall c, reachable t w' c = reachable t w c).
Proof.
  induction subs as [|[id sub] subs IH]; intros acc w acc' dead w' o Hwf Hnd; cbn [deliver].
  - intros [= <- <- <- <-]. split; [done|]. split; [|split; [|done]].
    + intros id _. split; [done|apply not_elem_of_nil].
    + intros id sub. intros Hx; by apply elem_of_nil in Hx.
  - inversion_clear Hwf as [|? ? Hid Hwf']. inversion_clear Hnd as [|? ? Hni Hnd']. simpl in Hid, Hni.
    destruct (flt (sub_ctx sub)) eqn:Hf; simpl.
    + intros (ok & w1 & o1 & o2 & Hs & Hk & ->)%bind_inv. rewrite Hid in Hs, Hk.
      apply bind_inv in Hk as ([acc1 dead1] & w2 & o3 & o4 & Hd & Hk & ->). simpl in Hk.
      injection Hk as <- <- <- <-. apply send_to_spec in Hs as (-> & -> & Hr1).
      apply IH in Hd as (-> & Hout & Hin & Hr2); [|done..]. rewrite Hf. simpl. rewrite app_nil_r.
      destruct (Hout id Hni) as [Hacc Hdead]. rewrite lookup_insert_eq in Hacc.
      split; [done|]. split; [|split; [|intros c; by rewrite Hr2, Hr1]].
      * intros c Hc. rewrite not_elem_of_cons in Hc. destruct Hc as [Hne Hc]. destruct (Hout c Hc) as [Ha Hx].
        rewrite lookup_insert_ne in Ha by done. split; [done|].
        destruct (reachable t w id); [done|]. rewrite not_elem_of_cons. done.
      * intros c s [[= -> ->]|Hin']%elem_of_cons.
        -- rewrite Hf, Hacc. split; [done|]. destruct (reachable t w id).
           ++ split; [done|]. by intros [_ ?].
           ++ split; [done|]. intros _. by left.
        -- assert (Hne : c <> id) by (intros ->; apply Hni; by apply (list_elem_of_fmap_2 fst) in Hin').
           destruct (Hin c s Hin') as [Ha Hx]. rewrite lookup_insert_ne in Ha by done. split; [done|].
           rewrite Hr1 in Hx. destruct (reachable t w id); [done|]. rewrite elem_of_cons, Hx. naive_solver.
    + intros Hd. apply IH in Hd as (-> & Hout & Hin & Hr); [|done..]. rewrite Hf. split; [done|]. split; [|split; [|done]].
      * intros c Hc. rewrite not_elem_of_cons in Hc. destruct Hc as [_ Hc]. by apply Hout.
      * intros c s [[= -> ->]|Hin']%elem_of_cons; [|by apply Hin].
        rewrite Hf. destruct (Hout id Hni) as [-> Hx]. split; [done|]. split; [done|]. by intros [? _].
Qed.

Lemma remove_dead_lookup dead : forall (s : subscribers) id,
  remove_dead dead s !! id = if decide (id ∈ dead) then None else s !! id.
Proof.
  unfold remove_dead. induction dead as [|d dead IH]; intros s id; cbn [fold_left].
  - destruct (decide (id ∈ [])) as [Hx|]; [by apply elem_of_nil in Hx|done].
  - rewrite IH. destruct (decide (id = d)) as [->|Hne].
    + rewrite (decide_True (P := _ ∈ _ :: _)) by (by left). rewrite lookup_delete_eq. by destruct (decide _).
    + rewrite (decide_ext (id ∈ _ :: _) (id ∈ dead)) by (rewrite elem_of_cons; naive_solver).
      by rewrite lookup_delete_ne.
Qed.

Lemma publish_lemma t topic data flt m s (w : world V) m' w' o :
  m !! topic = Some s -> subscribers_wf s ->
  publish_with_filter t topic (Ok data) flt m w = (m', w', o) ->
  exists s', m' = <[topic := s']> m
    /\ (forall id, s' !! id = s !! id ≫= published t w flt id)
    /\ o ≡ₚ map (frame_to (code_of topic) data) (List.filter (fun p => flt (sub_ctx p.2)) (map_to_list s))
    /\ (forall c, reachable t w' c = reachable t w c).
Proof.
  intros Hm Hwf. unfold publish_with_filter. rewrite Hm.
  intros ([acc dead] & w1 & o1 & o2 & Hd & Hk & ->)%bind_inv. injection Hk as <- <- <-.
  assert (Hall : Forall (fun p => x_connection_id (sub_ctx p.2) = p.1) (values s)).
  { apply Forall_forall. intros [id sub] Hin. rewrite values_perm in Hin. apply elem_of_map_to_list in Hin. by apply Hwf. }
  assert (Hnd : NoDup (values s).*1) by (rewrite values_perm; apply NoDup_fst_map_to_list).
  apply deliver_spec in Hd as (-> & Hout & Hin & Hr); [|done..].
  exists (remove_dead dead acc). split; [done|]. split; [|split; [|done]].
  - intros id. rewrite remove_dead_lookup. destruct (s !! id) as [sub|] eqn:Hs; simpl.
    + assert (He : (id, sub) ∈ values s) by (rewrite values_perm; by apply elem_of_map_to_list).
      destruct (Hin id sub He) as [-> Hx]. unfold published.
      destruct (decide (id ∈ dead)) as [Hy|Hy]; rewrite Hx in Hy.
      * destruct Hy as [-> ->]. done.
      * destruct (flt (sub_ctx sub)); [|done]. destruct (reachable t w id); [done|]. by destruct Hy.
    + destruct (Hout id) as [-> Hx]; [|by rewrite decide_False].
      intros Hy. rewrite values_perm in Hy. apply list_elem_of_fmap in Hy as ([i sub] & -> & Hy).
      apply elem_of_map_to_list in Hy. simpl in Hs. congruence.
  - rewrite app_nil_r. apply Permutation_map, filter_bool_perm, values_perm.
Qed.

(** Publications to one topic, with what happens to the world in between. *)
Fixpoint publish_run (t : toolbox) (topic : Key) (msgs : list (json * (request_context V -> bool) * (world V -> world V)))
    (m : subscribe_manager) : act V subscribe_manager :=
  match msgs with
  | [] => ret m
  | (data, flt, env) :: msgs =>
      do! m <- publish_with_filter t topic (Ok data) flt m in
      fun w => publish_run t topic msgs m (env w)
  end.

(** The stream numbers of the frames for one connection. *)
Definition number_to (id : Z) (x : out) : option Z :=
  match x with OResp c (Stream _ _ n _ _) => if decide (c = id) then Some n else None | _ => None end.
Definition numbers_to (id : Z) (o : list out) : list Z := omap (number_to id) o.

Lemma numbers_to_other code data flt id (s : subscribers) :
  s !! id = None ->
  numbers_to id (map (frame_to code data) (List.filter (fun p => flt (sub_ctx p.2)) (map_to_list s))) = [].
Proof.
  intros Hs. assert (Hl : Forall (fun p : Z * subscriber_context => p.1 <> id) (map_to_list s)).
  { apply Forall_forall. intros [i sub] Hin Hi. apply elem_of_map_to_list in Hin. simpl in Hi. congruence. }
  revert Hl. generalize (map_to_list s). intros l. induction 1 as [|p l Hp _ IH]; simpl; [done|].
  destruct (flt (sub_ctx p.2)); [|done]. simpl. by rewrite decide_False.
Qed.

Lemma numbers_to_cons code data id sub o :
  numbers_to id (frame_to code data (id, sub) :: o) = sub_stream_seq sub :: numbers_to id o.
Proof. unfold numbers_to. simpl. by rewrite decide_True. Qed.

Lemma numbers_to_published code data flt id (s : subscribers) o :
  o ≡ₚ map (frame_to code data) (List.filter (fun p => flt (sub_ctx p.2)) (map_to_list s)) ->
  numbers_to id o = match s !! id with Some sub => if flt (sub_ctx sub) then [sub_stream_seq sub] else [] | None => [] end.
Proof.
  intros Ho. assert (Hp : numbers_to id o ≡ₚ numbers_to id (map (frame_to code data) (List.filter (fun p => flt (sub_ctx p.2)) (map_to_list s)))).
  { unfold numbers_to. by rewrite Ho. }
  destruct (s !! id) as [sub|] eqn:Hs.
  2: { rewrite numbers_to_other in Hp by done. by apply Permutation_nil_r in Hp. }
  assert (Hd : numbers_to id (map (frame_to code data) (List.filter (fun p => flt (sub_ctx p.2)) (map_to_list s)))
    ≡ₚ numbers_to id (map (frame_to code data) (List.filter (fun p => flt (sub_ctx p.2)) ((id, sub) :: map_to_list (delete id s))))).
  { unfold numbers_to. apply omap_Permutation, Permutation_map, filter_bool_perm. symmetry. by apply map_to_list_delete. }
  rewrite Hd in Hp. cbn [List.filter snd] in Hp.
  pose proof (numbers_to_other code data flt id (delete id s) ltac:(apply lookup_delete_eq)) as Hrest.
  destruct (flt (sub_ctx sub)); [|rewrite Hrest in Hp; by apply Permutation_nil_r in Hp].
  cbn [map] in Hp. rewrite numbers_to_cons, Hrest in Hp. by apply Permutation_singleton_r in Hp.
Qed.

Lemma published_wf t (w : world V) flt (s s' : subscribers) :
  subscribers_wf s -> (forall id, s' !! id = s !! id ≫= published t w flt id) -> subscribers_wf s'.
Proof.
  intros Hwf Hs id sub. rewrite Hs. destruct (s !! id) as [old|] eqn:Ho; simpl; [|done]. apply Hwf in Ho.
  unfold published. destruct (flt _); [destruct (reachable t w id); [|done]|]; by intros [= <-].
Qed.

Lemma publish_run_unsubscribed t topic id msgs : forall m s (w : world V) m' w' o,
  m !! topic = Some s -> subscribers_wf s -> s !! id = None ->
  publish_run t topic msgs m w = (m', w', o) ->
  numbers_to id o = [] /\ m' !! topic ≫= lookup id = None.
Proof.
  induction msgs as [|[[data flt] env] msgs IH]; intros m s w m' w' o Hm Hwf Hid; cbn [publish_run].
  - intros [= <- <- <-]. by rewrite Hm.
  - intros (m1 & w1 & o1 & o2 & Hp & Hk & ->)%bind_inv.
    apply (publish_lemma _ _ _ _ _ s) in Hp as (s' & -> & Hs' & Ho & _); [|done..].
    apply (numbers_to_published _ _ _ id) in Ho. rewrite Hid in Ho.
    unfold numbers_to in *. rewrite omap_app, Ho. simpl. eapply IH; [apply lookup_insert_eq| | |exact Hk].
    + by eapply published_wf.
    + by rewrite Hs', Hid.
Qed.

(** ** Properties *)

(** One publication.  Each subscriber that passes the filter is sent
    exactly one frame, with its request's [seq] and [method], the topic's code and
    its next stream number, and nobody else is sent anything; a subscriber whose
    connection is gone is removed, the others that were sent a frame have their
    number advanced, and every other entry and topic is as it was. *)
Theorem publish_spec t topic data flt m s (w : world V) m' w' o :
  m !! topic = Some s -> subscribers_wf s ->
  publish_with_filter t topic (Ok data) flt m w = (m', w', o) ->
  (forall id, m' !! topic ≫= lookup id = s !! id ≫= published t w flt id)
  /\ (forall topic', topic' <> topic -> m' !! topic' = m !! topic')
  /\ o ≡ₚ map (frame_to (code_of topic) data) (List.filter (fun p => flt (sub_ctx p.2)) (map_to_list s)).
Proof.
  intros Hm Hwf Hp. apply (publish_lemma _ _ _ _ _ s) in Hp as (s' & -> & Hs & Ho & _); [|done..].
  split_and!; [|intros topic' Hne; by rewrite lookup_insert_ne by congruence|done]. intros id. rewrite lookup_insert_eq. apply Hs.
Qed.

End push.
Arguments subscriber_context V : clear implicits.

(** *** Witnesses: two subscribers of a topic, one of which is not connected *)

Definition w_ctx (id : Z) : request_context unit :=
  from_conn (WsConnection id 0 [] Unknown ext_new 9).
Definition w_topic : gmap Z (subscriber_context unit) :=
  <[7%Z := SubscriberContext (w_ctx 7) 4294967295]> (<[8%Z := SubscriberContext (w_ctx 8) 0]> ∅).
Definition w_manager : gmap Z (gmap Z (subscriber_context unit)) := <[1%Z := w_topic]> ∅.
Definition w_toolbox : toolbox := set_ws_states toolbox_new false false.
Definition w_connected : world unit := states_insert 7 (channel 4) w_state.
Definition w_all : request_context unit -> bool := fun _ => true.
Definition w_text : ws_response -> result string string := fun _ => Ok "".

Lemma w_topic_wf : subscribers_wf w_topic.
Proof.
  intros id sub. unfold w_topic. rewrite !lookup_insert_Some, lookup_empty.
  intros [[<- <-]|[_ [[<- <-]|[_ H]]]]; done.
Qed.

Lemma publish_spec_witness :
  exists m' : gmap Z (gmap Z (subscriber_context unit)), (m' !! 1%Z ≫= lookup 7%Z) = Some (SubscriberContext (w_ctx 7) 0) /\ (m' !! 1%Z ≫= lookup 8%Z) = None.
Proof.
  destruct (publish_with_filter w_text id map_to_list w_toolbox 1%Z (Ok JNull) w_all w_manager w_connected) as [[m' w'] o] eqn:Hp.
  destruct (publish_spec w_text id map_to_list (fun _ => Permutation_refl _) w_toolbox 1%Z JNull w_all w_manager w_topic
              w_connected m' w' o eq_refl w_topic_wf Hp) as (Hs & _).
  exists m'. rewrite !Hs. split; vm_compute; reflexivity.
Defined.

