(* ===== verification/Subs.v ===== *)
(** * Keyed subscriptions: [src/libs/ws/subs.rs]

    [SubscriptionManager]: the subscribers of one stream by connection, and for each
    key the connections that follow it.

    [elements_of] and [values] are the orders in which a [HashSet] and a [HashMap]
    yield their entries, which are unspecified; published data is the outcome of its
    serialization. *)

From S2P Require Import Prelude BMap Json ModelTypes ErrorCode Peer Message Outbound ServerConfig Limits Basics Toolbox Mcp Handler Push.

Section subs.
Context {V S : Type} {Key : Type} `{Countable Key}.
Context (to_string : ws_response -> result string string).

Record subscribe_context := SubscribeContext {
  sc_ctx : request_context V;
  sc_stream_seq : Z;   (* AtomicU32 *)
  sc_settings : S;
}.

Record subscription_manager := SubscriptionManager {
  stream_code : Z;
  subscribes : gmap Z subscribe_context;
  mappings : gmap Key (gset Z);
}.

Context (elements_of : gset Z -> list Z).
Context (values : gmap Z subscribe_context -> list (Z * subscribe_context)).

Definition subscriptions_new (code : Z) : subscription_manager := SubscriptionManager code ∅ ∅.

Definition set_subscribes (m : subscription_manager) (s : gmap Z subscribe_context) : subscription_manager :=
  SubscriptionManager (stream_code m) s (mappings m).
(** ** Subscribing *)

Definition add_mapping (id : Z) (k : gmap Key (gset Z)) (key : Key) : gmap Key (gset Z) :=
  <[key := {[id]} ∪ default ∅ (k !! key)]> k.

Definition subscribe_with (m : subscription_manager) (ctx : request_context V) (keys : list Key)
    (new : unit -> S) (modify : subscribe_context -> subscribe_context) : subscription_manager :=
  let id := x_connection_id ctx in
  let sub := match subscribes m !! id with
             | Some sub => modify sub
             | None => SubscribeContext ctx 0 (new tt)
             end in
  SubscriptionManager (stream_code m) (<[id := sub]> (subscribes m)) (fold_left (add_mapping id) keys (mappings m)).

Definition subscribe (m : subscription_manager) (ctx : request_context V) (setting : S)
    (modify : subscribe_context -> subscribe_context) : subscription_manager :=
  subscribe_with m ctx [] (fun _ => setting) modify.
Definition subscribe_with_keys (m : subscription_manager) (ctx : request_context V) (keys : list Key) (setting : S)
    (modify : subscribe_context -> subscribe_context) : subscription_manager :=
  subscribe_with m ctx keys (fun _ => setting) modify.

Definition unsubscribe (m : subscription_manager) (connection_id : Z) : subscription_manager :=
  SubscriptionManager (stream_code m) (delete connection_id (subscribes m))
    ((fun set => set ∖ {[connection_id]}) <$> mappings m).

Definition drop_mapping (id : Z) (k : gmap Key (gset Z)) (key : Key) : gmap Key (gset Z) :=
  match k !! key with
  | Some set => let set := set ∖ {[id]} in if decide (set = ∅) then delete key k else <[key := set]> k
  | None => k
  end.

(** [remove] may change the subscription through its [&mut]. *)
Definition unsubscribe_with (m : subscription_manager) (connection_id : Z)
    (remove : subscribe_context -> subscribe_context * (bool * list Key)) : subscription_manager :=
  match subscribes m !! connection_id with
  | None => m
  | Some sub =>
      let '(sub, (remove1, keys)) := remove sub in
      let s := <[connection_id := sub]> (subscribes m) in
      SubscriptionManager (stream_code m) (if remove1 then delete connection_id s else s)
        (fold_left (drop_mapping connection_id) keys (mappings m))
  end.

(** ** Publishing *)

Definition sub_frame (m : subscription_manager) (data : json) (sub : subscribe_context) : ws_response :=
  Stream (x_seq (sc_ctx sub)) (x_method (sc_ctx sub)) (sc_stream_seq sub) (stream_code m) data.

(** [fetch_add] on the number of one subscriber. *)
Definition count_frame (m : subscription_manager) (id : Z) (sub : subscribe_context) : subscription_manager :=
  set_subscribes m (<[id := SubscribeContext (sc_ctx sub) (wrap32 (sc_stream_seq sub + 1)) (sc_settings sub)]> (subscribes m)).

Definition publish_to (t : toolbox) (m : subscription_manager) (connection_id : Z) (msg : result json string)
    : act V subscription_manager :=
  match subscribes m !! connection_id with
  | None => ret m
  | Some sub =>
      match msg with
      | Err _ => ret m
      | Ok data =>
          do! ok <- send_to to_string t (x_connection_id (sc_ctx sub)) (sub_frame m data sub) in
          let m := count_frame m connection_id sub in
          ret (if ok then m else unsubscribe m (x_connection_id (sc_ctx sub)))
      end
  end.

Fixpoint publish_list (t : toolbox) (m : subscription_manager) (conn_ids : list Z) (msg : result json string)
    : act V subscription_manager :=
  match conn_ids with
  | [] => ret m
  | id :: conn_ids => do! m <- publish_to t m id msg in publish_list t m conn_ids msg
  end.

Definition publish_to_key (t : toolbox) (m : subscription_manager) (key : Key) (msg : result json string)
    : act V subscription_manager :=
  match mappings m !! key with
  | None => ret m
  | Some conn_ids => publish_list t m (elements_of conn_ids) msg
  end.

(** The inner loop of [publish_to_keys]: [published.insert(id)] before each send. *)
Fixpoint publish_new (t : toolbox) (m : subscription_manager) (published : gset Z) (conn_ids : list Z)
    (msg : result json string) : act V (subscription_manager * gset Z) :=
  match conn_ids with
  | [] => ret (m, published)
  | id :: conn_ids =>
      if decide (id ∈ published) then publish_new t m published conn_ids msg
      else
        do! m <- publish_to t m id msg in
        publish_new t m ({[id]} ∪ published) conn_ids msg
  end.

Fixpoint publish_keys (t : toolbox) (m : subscription_manager) (published : gset Z) (keys : list Key)
    (msg : result json string) : act V (subscription_manager * gset Z) :=
  match keys with
  | [] => ret (m, published)
  | key :: keys =>
      match mappings m !! key with
      | None => publish_keys t m published keys msg
      | Some conn_ids =>
          do! r <- publish_new t m published (elements_of conn_ids) msg in
          publish_keys t r.1 r.2 keys msg
      end
  end.

Definition publish_to_keys (t : toolbox) (m : subscription_manager) (keys : list Key) (msg : result json string)
    : act V subscription_manager :=
  do! r <- publish_keys t m ∅ keys msg in ret r.1.

(** [publish_with_filter]: the loop, then the dead connections. *)
Fixpoint publish_subs (t : toolbox) (m : subscription_manager)
    (filter : subscribe_context -> option (result json string)) (subs : list (Z * subscribe_context))
    : act V (subscription_manager * list Z) :=
  match subs with
  | [] => ret (m, [])
  | (id, sub) :: subs =>
      match filter sub with
      | None | Some (Err _) => publish_subs t m filter subs
      | Some (Ok data) =>
          do! ok <- send_to to_string t (x_connection_id (sc_ctx sub)) (sub_frame m data sub) in
          do! r <- publish_subs t (count_frame m id sub) filter subs in
          ret (r.1, if ok then r.2 else x_connection_id (sc_ctx sub) :: r.2)
      end
  end.

Definition publish_with_filter (t : toolbox) (m : subscription_manager)
    (filter : subscribe_context -> option (result json string)) : act V subscription_manager :=
  do! r <- publish_subs t m filter (values (subscribes m)) in
  ret (fold_left unsubscribe r.2 r.1).

Definition publish_to_all (t : toolbox) (m : subscription_manager) (msg : result json string)
    : act V subscription_manager :=
  publish_with_filter t m (fun _ => Some msg).

(** ** Lemmas *)

Hypothesis elements_perm : forall s, elements_of s ≡ₚ elements s.

Definition subscribes_wf (m : subscription_manager) : Prop :=
  forall id sub, subscribes m !! id = Some sub -> x_connection_id (sc_ctx sub) = id.

(** Whether [id] follows [key]. *)
Definition follows (m : subscription_manager) (key : Key) (id : Z) : Prop :=
  exists set, mappings m !! key = Some set /\ id ∈ set.

(** The connections a list of frames is for. *)
Definition conns_of (o : list out) : list Z :=
  map (fun x => match x with OResp c _ => c | ORaw c _ => c end) o.

(** [m'] differs from [m] only in the subscriptions of [ids]. *)
Definition same_but (ids : gset Z) (m m' : subscription_manager) : Prop :=
  forall j, j ∉ ids ->
    subscribes m' !! j = subscribes m !! j /\ (forall key, follows m' key j <-> follows m key j).

Lemma same_but_trans ids ids' m m1 m2 :
  ids ⊆ ids' -> same_but ids m m1 -> same_but ids' m1 m2 -> same_but ids' m m2.
Proof.
  intros Hsub H1 H2 j Hj. destruct (H1 j) as [E1 F1]; [set_solver|]. destruct (H2 j Hj) as [E2 F2].
  split; [congruence|]. intros key. by rewrite F2, F1.
Qed.

Lemma follows_unsubscribe m id key j : j <> id -> follows (unsubscribe m id) key j <-> follows m key j.
Proof.
  intros Hj. unfold follows, unsubscribe. simpl. rewrite lookup_fmap. split.
  - intros (set & Hs & Hin). destruct (mappings m !! key) as [set'|]; [|done]. injection Hs as <-. exists set'. set_solver.
  - intros (set & -> & Hin). eexists. split; [done|]. set_solver.
Qed.

Lemma publish_to_post t m id data (w : world V) m' w' o :
  subscribes_wf m -> publish_to t m id (Ok data) w = (m', w', o) ->
  subscribes_wf m' /\ same_but {[id]} m m' /\ conns_of o = (if decide (is_Some (subscribes m !! id)) then [id] else []).
Proof.
  intros Hwf. unfold publish_to. destruct (subscribes m !! id) as [sub|] eqn:Hs.
  2: { intros [= <- <- <-]. split; [done|]. split; [done|]. rewrite decide_False; [done|]. by intros [? ?]. }
  intros (ok & w1 & o1 & o2 & Ho & Hk & ->)%bind_inv. apply send_to_spec in Ho as (_ & -> & _).
  pose proof (Hwf _ _ Hs) as Hid. rewrite Hid in *. injection Hk as <- <- <-.
  assert (Hc : subscribes_wf (count_frame m id sub) /\ same_but {[id]} m (count_frame m id sub)).
  { split.
    - intros j s. unfold count_frame. simpl. intros [[<- <-]|[_ Hj]]%lookup_insert_Some; [done|by apply Hwf].
    - intros j Hj. split; [|done]. unfold count_frame. simpl. rewrite lookup_insert_ne; [done|]. set_solver. }
  destruct Hc as [Hw1 Hsame]. rewrite decide_True by done.
  assert (Hu : subscribes_wf (unsubscribe (count_frame m id sub) id) /\ same_but {[id]} m (unsubscribe (count_frame m id sub) id)).
  { split.
    - intros j s. unfold unsubscribe. simpl. intros [_ [[<- <-]|[_ Hj]]%lookup_insert_Some]%lookup_delete_Some; [done|by apply Hwf].
    - intros j Hj. assert (Hne : j <> id) by set_solver. destruct (Hsame j Hj) as [E F]. split.
      + unfold unsubscribe. simpl in *. by rewrite lookup_delete_ne by congruence.
      + intros key. rewrite follows_unsubscribe by done. apply F. }
  destruct ok; [by split_and!|]. destruct Hu. by split_and!.
Qed.

(** What publishing to the connections of [new], out of the [published] ones, leads
    to: each of them that is subscribed gets one frame. *)
Definition published_to (m m' : subscription_manager) (published published' : gset Z) (o : list out) : Prop :=
  subscribes_wf m' /\ published ⊆ published' /\ same_but published' m m'
  /\ NoDup (conns_of o)
  /\ forall j, j ∈ conns_of o <-> j ∈ published' ∖ published /\ is_Some (subscribes m !! j).

Lemma published_to_trans m m1 m2 p p1 p2 o1 o2 :
  published_to m m1 p p1 o1 -> published_to m1 m2 p1 p2 o2 -> published_to m m2 p p2 (o1 ++ o2).
Proof.
  intros (_ & Hs1 & Hb1 & Hn1 & Ho1) (Hw2 & Hs2 & Hb2 & Hn2 & Ho2). split_and!; [done|set_solver| | |].
  - by eapply same_but_trans.
  - unfold conns_of. rewrite map_app. apply NoDup_app. split; [done|]. split; [|done].
    intros j Hj1 Hj2. apply Ho1 in Hj1. apply Ho2 in Hj2. set_solver.
  - intros j. unfold conns_of. rewrite map_app, elem_of_app. fold (conns_of o1) (conns_of o2). rewrite Ho1, Ho2.
    destruct (decide (j ∈ p1)) as [Hj|Hj].
    + set_solver.
    + destruct (Hb1 j Hj) as [-> _]. set_solver.
Qed.

Lemma publish_new_post t data conn_ids : forall m published (w : world V) m' published' w' o,
  subscribes_wf m -> publish_new t m published conn_ids (Ok data) w = ((m', published'), w', o) ->
  published_to m m' published published' o /\ published' = list_to_set conn_ids ∪ published.
Proof.
  induction conn_ids as [|id conn_ids IH]; intros m published w m' published' w' o Hwf; cbn [publish_new].
  - intros [= <- <- <- <-]. split; [|set_solver]. split_and!; try done; [constructor|]. intros j. simpl. set_solver.
  - destruct (decide (id ∈ published)) as [Hin|Hni].
    + intros Hp. apply IH in Hp as [Hp ->]; [|done]. split; [done|]. set_solver.
    + intros (m1 & w1 & o1 & o2 & Hp & Hk & ->)%bind_inv. apply publish_to_post in Hp as (Hw1 & Hs & Ho); [|done].
      apply IH in Hk as [Hk ->]; [|done]. split; [|set_solver]. eapply published_to_trans; [|exact Hk].
      split_and!; [done|set_solver| | |].
      * intros j Hj. apply Hs. set_solver.
      * rewrite Ho. destruct (decide _); [apply NoDup_singleton|constructor].
      * intros j. rewrite Ho. destruct (decide _) as [Hd|Hd]; [set_solver|].
        rewrite elem_of_difference, elem_of_union, elem_of_singleton. split; [by intros ?%elem_of_nil|].
        intros [[[->|?] ?] ?]; done.
Qed.

Lemma publish_keys_post t data keys : forall m published (w : world V) m' published' w' o,
  subscribes_wf m -> publish_keys t m published keys (Ok data) w = ((m', published'), w', o) ->
  published_to m m' published published' o
  /\ forall j, j ∈ published' <-> j ∈ published \/ exists key, key ∈ keys /\ follows m key j.
Proof.
  induction keys as [|key keys IH]; intros m published w m' published' w' o Hwf; cbn [publish_keys].
  - intros [= <- <- <- <-]. split.
    + split_and!; try done; [constructor|]. intros j. simpl. set_solver.
    + intros j. split; [auto|]. intros [?|(key & Hk & _)]; [done|]. by apply elem_of_nil in Hk.
  - destruct (mappings m !! key) as [set|] eqn:Hset.
    + intros ([m1 p1] & w1 & o1 & o2 & Hp & Hk & ->)%bind_inv. simpl in Hk.
      apply publish_new_post in Hp as [Hp ->]; [|done]. pose proof Hp as (Hw1 & _ & Hb & _).
      apply IH in Hk as [Hk Hin]; [|done]. split; [by eapply published_to_trans|].
      assert (Hels : forall j, j ∈ (list_to_set (elements_of set) : gset Z) <-> j ∈ set).
      { intros j. rewrite elem_of_list_to_set, elements_perm. apply elem_of_elements. }
      intros j. rewrite Hin, elem_of_union, Hels. split.
      * intros [[Hj|Hj]|(k & Hk' & Hf)]; [|by left|].
        -- right. exists key. split; [by left|]. by exists set.
        -- destruct (decide (j ∈ (list_to_set (elements_of set) ∪ published : gset Z))) as [Hy|Hy].
           ++ apply elem_of_union in Hy as [Hy|Hy]; [|by left]. right. exists key. split; [by left|].
              exists set. split; [done|]. by apply Hels.
           ++ right. exists k. split; [by right|]. by apply Hb.
      * intros [Hj|(k & [->|Hk']%elem_of_cons & Hf)]; [by left; right| |].
        -- left; left. destruct Hf as (set' & Hs' & Hj). congruence.
        -- destruct (decide (j ∈ (list_to_set (elements_of set) ∪ published : gset Z))) as [Hy|Hy].
           ++ left. apply elem_of_union in Hy as [Hy|Hy]; [left; by apply Hels|by right].
           ++ right. exists k. split; [done|]. by apply Hb.
    + intros Hk. apply IH in Hk as [Hk Hin]; [|done]. split; [done|]. intros j. rewrite Hin. split.
      * intros [?|(k & ? & ?)]; [by left|]. right. exists k. split; [by right|done].
      * intros [?|(k & [->|?]%elem_of_cons & Hf)]; [by left| |right; eauto].
        destruct Hf as (set & Hs & _). congruence.
Qed.

(** ** Properties *)

(** C36: publishing to several keys reaches each follower once.  Whatever the
    keys and their overlap, and whichever connections turn out to be dead on the way,
    the connections sent a frame are exactly the subscribed followers of the keys,
    each exactly once; no other subscription or mapping changes. *)
Theorem publish_to_keys_once t m keys data (w : world V) m' w' o :
  subscribes_wf m -> publish_to_keys t m keys (Ok data) w = (m', w', o) ->
  NoDup (conns_of o)
  /\ (forall j, j ∈ conns_of o <-> (exists key, key ∈ keys /\ follows m key j) /\ is_Some (subscribes m !! j))
  /\ (forall j, (forall key, key ∈ keys -> ~ follows m key j) ->
        subscribes m' !! j = subscribes m !! j /\ forall key, follows m' key j <-> follows m key j)
  /\ subscribes_wf m'.
Proof.
  intros Hwf. unfold publish_to_keys. intros ([m1 p1] & w1 & o1 & o2 & Hp & Hk & ->)%bind_inv.
  injection Hk as <- <- <-. apply publish_keys_post in Hp as [(Hw1 & _ & Hb & Hn & Ho) Hin]; [|done].
  rewrite app_nil_r. split_and!; [done| | |done].
  - intros j. rewrite Ho, difference_empty_L, Hin. set_solver.
  - intros j Hj. apply Hb. rewrite Hin. intros [?|(key & Hk & Hf)]; [set_solver|]. by eapply Hj.
Qed.

End subs.

(** *** Witnesses: two keys with a common follower *)

Definition w_sub (id : Z) : @subscribe_context unit unit := SubscribeContext (w_ctx id) 0 tt.
Definition w_subs : @subscription_manager unit unit Z _ _ :=
  SubscriptionManager 5 (<[7%Z := w_sub 7]> (<[8%Z := w_sub 8]> ∅)) (<[1%Z := {[7%Z]}]> (<[2%Z := {[7%Z; 8%Z]}]> ∅)).

Lemma publish_to_keys_once_witness :
  let '(_, _, o) := publish_to_keys w_text elements w_toolbox w_subs [1; 2]%Z (Ok JNull) w_connected in
  conns_of o = [7; 8]%Z /\ NoDup (conns_of o).
Proof.
  destruct (publish_to_keys w_text elements w_toolbox w_subs [1; 2]%Z (Ok JNull) w_connected) as [[m' w'] o] eqn:Hp.
  destruct (publish_to_keys_once w_text elements (fun _ => Permutation_refl _) w_toolbox w_subs [1; 2]%Z JNull w_connected m' w' o)
    as [Hn _]; [|exact Hp|].
  - intros id sub. unfold w_subs. simpl. rewrite !lookup_insert_Some, lookup_empty.
    intros [[<- <-]|[_ [[<- <-]|[_ H]]]]; [reflexivity|reflexivity|discriminate].
  - split; [|exact Hn]. vm_compute in Hp. injection Hp as _ _ <-. reflexivity.
Defined.
