(* ===== verification/Upgrade.v ===== *)
(** * The WebSocket opening handshake: [src/libs/ws/tungstenite/upgrader.rs]

    What this server decides itself: how a request head is read, which requests are
    answered in HTTP and how, the CORS policy, and what an upgrade hands to the
    session.

    The HTTP parsing and the 101 and 4xx responses belong to the [nago_wss] crate:
    [head_end], [parse_request], [build_rejection], [build_response] and
    [DEFAULT_MAX_HEAD] are parameters, as are the build's [WS_SERVER_NAME] and
    [CARGO_PKG_VERSION].  Responses are strings of bytes. *)

From S2P Require Import Prelude Message ServerConfig.

(** The parts of [nago_wss::proto::handshake] that the upgrader matches on. *)
Inductive http_method := Get | Head | Options | Other (name : string).
Record http_request := HttpRequest {
  hr_method : http_method;
  hr_path : string;
  hr_key : bytes;
  hr_protocols : list string;
  hr_headers : list (string * string);
}.
Inductive http_parsed := Plain (request : http_request) | Upgrade (request : http_request).

Definition ALLOWED_METHODS : string := "GET, HEAD, OPTIONS".
Definition DEFAULT_ALLOW_HEADERS : string :=
  "Content-Type, Authorization, Sec-WebSocket-Key, Sec-WebSocket-Version, Sec-WebSocket-Extensions, Sec-WebSocket-Protocol".

(** [eq_ignore_ascii_case]. *)
Definition eq_ignore_ascii_case (a b : string) : bool := bool_decide (to_ascii_lowercase a = to_ascii_lowercase b).

Definition header (request : http_request) (name : string) : option string :=
  option_map snd (List.find (fun h => eq_ignore_ascii_case h.1 name) (hr_headers request)).

Definition safe_byte (a : ascii) : bool := bool_decide (a = byte_of 9) || in_range 32 126 a.
Definition is_safe_header_value (value : string) : bool :=
  negb (is_empty_str value) && string_forallb safe_byte value.

(** ** [plain_response] *)

Definition CRLF : string := String (byte_of 13) (String (byte_of 10) EmptyString).

Fixpoint header_lines (extra : list (string * string)) : string :=
  match extra with
  | [] => EmptyString
  | (name, value) :: extra => name +:+ ": " +:+ value +:+ CRLF +:+ header_lines extra
  end.

Definition plain_response (status : string) (extra : list (string * string)) : string :=
  "HTTP/1.1 " +:+ status +:+ CRLF +:+ "Connection: close" +:+ CRLF +:+ "Content-Length: 0" +:+ CRLF
    +:+ header_lines extra +:+ CRLF.

(** ** [Headers] *)

Record headers := MkHeaders { hd_server : string; hd_cors : list (string * string) }.

Section upgrade.
Context (ws_server_name : option string) (version : string).
Context (DEFAULT_MAX_HEAD : nat).
Context (head_end : bytes -> option nat).
Context {upgrade_error : Type} (HeadTooLarge : upgrade_error).
Context (parse_request : bytes -> nat -> result http_parsed upgrade_error).
Context (build_rejection : upgrade_error -> list (string * string) -> string).
Context (build_response : bytes -> option string -> list (string * string) -> string).

Definition headers_new (config : ws_server_config) (origin requested_headers : option string) : headers :=
  let app := default (server_name config) ws_server_name in
  let server := app +:+ " endpointlibs/" +:+ version in
  let allow_headers := match requested_headers with
                       | Some value => if is_safe_header_value value then value else DEFAULT_ALLOW_HEADERS
                       | None => DEFAULT_ALLOW_HEADERS
                       end in
  match allow_cors_urls config with
  | None =>
      MkHeaders server
        [("Access-Control-Allow-Origin", "*"); ("Timing-Allow-Origin", "*");
         ("Access-Control-Allow-Methods", ALLOWED_METHODS); ("Access-Control-Allow-Headers", allow_headers);
         ("Access-Control-Max-Age", "86400")]
  | Some domains =>
      match origin with
      | None => MkHeaders server []
      | Some origin =>
          if negb (existsb (fun domain => bool_decide (domain = origin)) domains) then MkHeaders server []
          else
            MkHeaders server
              [("Access-Control-Allow-Origin", origin); ("Timing-Allow-Origin", origin); ("Vary", "Origin");
               ("Access-Control-Allow-Credentials", "true"); ("Access-Control-Allow-Methods", ALLOWED_METHODS);
               ("Access-Control-Allow-Headers", allow_headers); ("Access-Control-Max-Age", "86400")]
      end
  end.

Definition headers_from_request (config : ws_server_config) (request : http_request) : headers :=
  headers_new config (header request "origin") (header request "access-control-request-headers").

Definition ok_extra (h : headers) : list (string * string) :=
  [("Server", hd_server h); ("X-Content-Type-Options", "nosniff")] ++ hd_cors h.
Definition error_extra (h : headers) : list (string * string) :=
  ok_extra h ++ [("Cache-Control", "no-store")].

(** ** [read_head] *)

Inductive head_outcome := HeadDone (head rest : bytes) | HeadEof | HeadTooLarge'.

(** The answers of [read]: a chunk of at most [CHUNK] bytes (an empty one is the end
    of the stream), or an error.  [None]: still waiting. *)
Definition CHUNK : nat := Z.to_nat 2048.
Inductive head_read := HeadChunk (chunk : bytes) | HeadReadErr (e : string).

Definition head_ready (buffer : bytes) : option head_outcome :=
  match head_end buffer with
  | Some end_ => Some (HeadDone (take end_ buffer) (drop end_ buffer))
  | None => if Nat.ltb DEFAULT_MAX_HEAD (length buffer) then Some HeadTooLarge' else None
  end.

Fixpoint read_head (buffer : bytes) (reads : list head_read) : option (result head_outcome string) * list head_read :=
  match head_ready buffer with
  | Some outcome => (Some (Ok outcome), reads)
  | None =>
      match reads with
      | [] => (None, [])
      | HeadReadErr err :: reads => (Some (Err ("reading the request head: " +:+ err)), reads)
      | HeadChunk [] :: reads => (Some (Ok HeadEof), reads)
      | HeadChunk chunk :: reads => read_head (buffer ++ chunk) reads
      end
  end.

(** ** [upgrade_inner] *)

(** The result of the upgrade: answered in HTTP, or a session with the offered
    protocols, the message limits and the bytes read past the head. *)
Record upgrade_event := UpgradeEvent { ue_protocol : string; ue_limit : option nat; ue_rest : bytes }.

(** [write] is the outcome of writing a response. *)
Definition write_all (write : result unit string) : result unit string :=
  map_err (fun err => "writing the handshake response: " +:+ err) write.

Definition plain_reply (config : ws_server_config) (request : http_request) : string :=
  let headers := headers_from_request config request in
  match hr_method request with
  | Options | Get | Head => plain_response "200 OK" (ok_extra headers)
  | Other _ => plain_response "405 Method Not Allowed" (error_extra headers ++ [("Allow", ALLOWED_METHODS)])
  end.

(** The response written, and the result. *)
Definition upgrade_inner (config : ws_server_config) (head : head_outcome) (write : result unit string)
    : option string * result (option upgrade_event) string :=
  match head with
  | HeadEof => (None, Ok None)
  | HeadTooLarge' =>
      (Some (build_rejection HeadTooLarge (error_extra (headers_new config None None))),
       let* _ := write_all write in Ok None)
  | HeadDone head rest =>
      match parse_request head DEFAULT_MAX_HEAD with
      | Err error => (Some (build_rejection error (error_extra (headers_new config None None))), Ok None)
      | Ok (Plain request) => (Some (plain_reply config request), let* _ := write_all write in Ok None)
      | Ok (Upgrade request) =>
          let selected := List.hd_error (hr_protocols request) in
          (Some (build_response (hr_key request) selected (ok_extra (headers_from_request config request))),
           let* _ := write_all write in
           Ok (Some (UpgradeEvent (join ", " (hr_protocols request)) (max_message_bytes config) rest)))
      end
  end.

(** [upgrade_stream]: [late] is whether the timer fired before the upgrade was over,
    which is then dropped. *)
Definition upgrade_stream (config : ws_server_config) (late : bool) (upgrade : result (option upgrade_event) string)
    : result (option upgrade_event) string :=
  match handshake_timeout config with
  | Some _ => if late then Err "HTTP upgrade deadline exceeded" else upgrade
  | None => upgrade
  end.

(** ** Lemmas *)

(** *** The head *)

(** What [head_end] does: the place where the head ends depends only on the bytes
    before it. *)
Definition head_end_local : Prop :=
  forall b e, head_end b = Some e ->
    e <= length b
    /\ forall n, head_end (take n b) = if Nat.leb e (Nat.min n (length b)) then Some e else None.

Lemma read_head_split (Hlocal : head_end_local) s e chunks : forall buffer,
  head_end s = Some e -> e <= DEFAULT_MAX_HEAD -> buffer ++ concat chunks = s -> Forall (fun c => c <> []) chunks ->
  exists k, read_head buffer (map HeadChunk chunks)
    = (Some (Ok (HeadDone (take e s) (drop e (buffer ++ concat (take k chunks))))), map HeadChunk (drop k chunks))
    /\ take e s ++ drop e (buffer ++ concat (take k chunks)) = buffer ++ concat (take k chunks).
Proof.
  intros buffer Hs Hmax. destruct (Hlocal _ _ Hs) as [He Hpre].
  assert (Hready : forall b c, b ++ c = s -> head_ready b
    = if Nat.leb e (length b) then Some (HeadDone (take e s) (drop e b)) else None).
  { intros b c Hbc. unfold head_ready. specialize (Hpre (length b)). rewrite <- Hbc in Hpre at 1.
    rewrite take_app_length, <- Hbc, length_app in Hpre. rewrite Nat.min_l in Hpre by lia. rewrite Hpre.
    destruct (Nat.leb_spec e (length b)).
    - f_equal. f_equal. rewrite <- Hbc. by rewrite take_app_le.
    - by destruct (Nat.ltb_spec DEFAULT_MAX_HEAD (length b)); [lia|]. }
  assert (Hdone : forall b c, b ++ c = s -> e <= length b -> take e s ++ drop e b = b).
  { intros b c Hbc Hle. rewrite <- Hbc, take_app_le by done. by rewrite take_drop. }
  revert buffer. induction chunks as [|chunk chunks IH]; intros buffer Hb Hne.
  - simpl in Hb. exists 0. simpl. rewrite app_nil_r in Hb |- *.
    rewrite (Hready buffer []) by (by rewrite app_nil_r). subst buffer.
    destruct (Nat.leb_spec e (length s)); [|lia]. split; [done|]. apply (Hdone s []); [by rewrite app_nil_r|done].
  - inversion_clear Hne as [|? ? Hc Hne']. cbn [map read_head].
    rewrite (Hready buffer (concat (chunk :: chunks))) by done.
    destruct (Nat.leb_spec e (length buffer)).
    + exists 0. simpl. rewrite app_nil_r. split; [done|]. by apply (Hdone buffer (concat (chunk :: chunks))).
    + destruct chunk as [|a chunk]; [done|]. destruct (IH (buffer ++ a :: chunk)) as (k & Hk & Hr).
      * rewrite <- app_assoc. done.
      * done.
      * exists (S k). cbn [take drop concat]. rewrite app_assoc. by split.
Qed.

(** *** Responses *)

Definition lf : ascii := byte_of 10.
Definition no_lf (s : string) : bool := string_forallb (fun a => negb (bool_decide (a = lf))) s.
(** A line as [split_on lf] leaves it. *)
Definition cr_line (s : string) : string := s +:+ String (byte_of 13) EmptyString.

Lemma no_lf_app s1 s2 : no_lf (s1 +:+ s2) = no_lf s1 && no_lf s2.
Proof.
  unfold no_lf. induction s1 as [|a s1 IH]; [done|]. change (String a s1 +:+ s2) with (String a (s1 +:+ s2)).
  cbn [string_forallb]. by rewrite IH, andb_assoc.
Qed.

Lemma safe_no_lf s : is_safe_header_value s = true -> no_lf s = true.
Proof.
  unfold is_safe_header_value, no_lf. intros [_ Hs]%andb_true_iff. induction s as [|a s IH]; [done|].
  cbn [string_forallb] in *. apply andb_true_iff in Hs as [Ha Hs]. rewrite IH by done.
  unfold safe_byte in Ha. destruct (decide (a = lf)) as [->|Hne]; [by vm_compute in Ha|]. by rewrite bool_decide_eq_false_2.
Qed.

Lemma split_line s rest : no_lf s = true -> split_on lf (s +:+ CRLF +:+ rest) = cr_line s :: split_on lf rest.
Proof.
  intros Hs. assert (Hl : no_lf (cr_line s) = true) by (unfold cr_line; by rewrite no_lf_app, Hs).
  replace (s +:+ CRLF +:+ rest) with (cr_line s +:+ String lf rest) by (unfold cr_line; by rewrite append_assoc').
  rewrite split_on_app, split_on_none; done.
Qed.

Definition header_line (h : string * string) : string := h.1 +:+ ": " +:+ h.2.

Lemma split_header_lines extra rest :
  forallb (fun h => no_lf h.1 && no_lf h.2) extra = true ->
  split_on lf (header_lines extra +:+ rest) = map (fun h => cr_line (header_line h)) extra ++ split_on lf rest.
Proof.
  induction extra as [|[name value] extra IH]; [done|]. cbn [forallb header_lines fst snd].
  intros [[Hn Hv]%andb_true_iff He]%andb_true_iff.
  replace ((name +:+ ": " +:+ value +:+ CRLF +:+ header_lines extra) +:+ rest)
    with (header_line (name, value) +:+ CRLF +:+ (header_lines extra +:+ rest))
    by (unfold header_line; simpl; rewrite !append_assoc'; done).
  rewrite split_line by (unfold header_line; simpl; rewrite !no_lf_app, Hn, Hv; done). by rewrite IH.
Qed.

Lemma split_plain_response status extra :
  no_lf status = true -> forallb (fun h => no_lf h.1 && no_lf h.2) extra = true ->
  split_on lf (plain_response status extra)
  = map cr_line (("HTTP/1.1 " +:+ status) :: "Connection: close" :: "Content-Length: 0" :: map header_line extra)
    ++ [cr_line ""; ""].
Proof.
  intros Hs He. unfold plain_response.
  replace ("HTTP/1.1 " +:+ status +:+ CRLF +:+ "Connection: close" +:+ CRLF +:+ "Content-Length: 0" +:+ CRLF +:+ header_lines extra +:+ CRLF)
    with (("HTTP/1.1 " +:+ status) +:+ CRLF +:+ ("Connection: close" +:+ CRLF +:+ ("Content-Length: 0" +:+ CRLF +:+ (header_lines extra +:+ CRLF))))
    by (simpl; repeat rewrite append_assoc'; done).
  rewrite !split_line by (try done; by rewrite no_lf_app, Hs). rewrite split_header_lines by done.
  cbn [map app]. do 3 f_equal. rewrite map_map. done.
Qed.

Definition clean (extra : list (string * string)) : Prop := forallb (fun h => no_lf h.1 && no_lf h.2) extra = true.

(** The operator's part of the headers holds no line break. *)
Definition clean_config (config : ws_server_config) : Prop :=
  no_lf (default (server_name config) ws_server_name) = true /\ no_lf version = true
  /\ match allow_cors_urls config with Some domains => Forall (fun d => no_lf d = true) domains | None => True end.

Lemma ok_extra_clean config origin requested : clean_config config -> clean (ok_extra (headers_new config origin requested)).
Proof.
  intros (Hn & Hv & Hd). unfold headers_new.
  set (server := _ +:+ _ +:+ version). assert (Hs : no_lf server = true) by (unfold server; by rewrite !no_lf_app, Hn, Hv).
  set (allow := match requested with Some _ => _ | None => _ end).
  assert (Ha : no_lf allow = true).
  { unfold allow. destruct requested as [v|]; [|done]. destruct (is_safe_header_value v) eqn:Hsafe; [by apply safe_no_lf|done]. }
  clearbody server allow. unfold clean, ok_extra. destruct (allow_cors_urls config) as [domains|].
  - destruct origin as [o|]; [|simpl; by rewrite Hs]. destruct (existsb _ domains) eqn:He; [|simpl; by rewrite Hs].
    apply existsb_exists in He as (d & Hin & Hdo). apply bool_decide_eq_true in Hdo as ->.
    rewrite Forall_forall in Hd. specialize (Hd o ltac:(by apply list_elem_of_In)). cbn -[no_lf]. rewrite Hs, Ha, Hd. done.
  - cbn -[no_lf]. by rewrite Hs, Ha.
Qed.

Lemma header_line_ok extra : clean extra -> Forall (fun l => l <> "" /\ no_lf l = true) (map header_line extra).
Proof.
  unfold clean. induction extra as [|[n v] extra IH]; [constructor|]. cbn [forallb map fst snd].
  intros [[Hn Hv]%andb_true_iff He]%andb_true_iff. constructor; [|by apply IH].
  unfold header_line. cbn [fst snd]. split; [by destruct n|]. by rewrite !no_lf_app, Hn, Hv.
Qed.

Lemma clean_snoc extra n v : clean extra -> no_lf n = true -> no_lf v = true -> clean (extra ++ [(n, v)]).
Proof. unfold clean. intros He Hn Hv. rewrite forallb_app, He. simpl. by rewrite Hn, Hv. Qed.

Lemma plain_response_lines status extra :
  no_lf status = true -> clean extra ->
  exists lines, split_on lf (plain_response status extra) = map cr_line lines ++ [cr_line ""; ""]
    /\ Forall (fun l => l <> "" /\ no_lf l = true) lines.
Proof.
  intros Hs He. eexists. split; [by apply split_plain_response|].
  constructor; [split; [done|by rewrite no_lf_app, Hs]|]. repeat (constructor; [by split|]). by apply header_line_ok.
Qed.

(** ** Properties *)

(** C32: the request head is read whole, and nothing after it is lost.
    However the network cuts the client's bytes, when they hold a complete head of
    acceptable size, [read_head] returns exactly that head, and the bytes it has read
    past it, which the session gets, continue with those still unread. *)
Theorem read_head_any_split s e chunks :
  head_end_local -> head_end s = Some e -> e <= DEFAULT_MAX_HEAD ->
  concat chunks = s -> Forall (fun c => c <> []) chunks ->
  exists rest unread, read_head [] (map HeadChunk chunks) = (Some (Ok (HeadDone (take e s) rest)), map HeadChunk unread)
    /\ take e s ++ rest ++ concat unread = s.
Proof.
  intros Hl Hs He Hc Hn. destruct (read_head_split Hl s e chunks [] Hs He Hc Hn) as (k & Hr & Happ).
  eexists _, (drop k chunks). split; [exact Hr|]. rewrite app_assoc, Happ. simpl. rewrite <- concat_app, take_drop. done.
Qed.

(** C31: no request can split a response.  Whatever the request holds, line
    breaks in its headers included, the plain HTTP response is a sequence of non-empty
    lines and then exactly one empty line, at the very end, provided the operator's
    own settings hold no line break. *)
Theorem no_response_splitting config request :
  clean_config config ->
  exists lines, split_on lf (plain_reply config request) = map cr_line lines ++ [cr_line ""; ""]
    /\ Forall (fun l => l <> "" /\ no_lf l = true) lines.
Proof.
  intros Hc. pose proof (ok_extra_clean config (header request "origin") (header request "access-control-request-headers") Hc) as He.
  unfold plain_reply. destruct (hr_method request); apply plain_response_lines; try done.
  unfold error_extra. repeat apply clean_snoc; done.
Qed.

(** Credentials are only for listed origins.  The response allows an origin
    to use credentials only when the operator gave a list, the first [Origin] header
    of the request is on it, and that very origin is the only one allowed; without a
    list every origin is allowed, never with credentials; an origin off the list gets
    no CORS header at all. *)
Theorem cors_policy config request :
  let cors := hd_cors (headers_from_request config request) in
  (forall v, ("Access-Control-Allow-Credentials", v) ∈ cors ->
     exists domains o, allow_cors_urls config = Some domains /\ header request "origin" = Some o /\ o ∈ domains
       /\ forall o', ("Access-Control-Allow-Origin", o') ∈ cors -> o' = o)
  /\ (forall o, ("Access-Control-Allow-Origin", o) ∈ cors ->
        match allow_cors_urls config with None => o = "*" | Some domains => header request "origin" = Some o /\ o ∈ domains end).
Proof using Type.
  unfold headers_from_request, headers_new. destruct (allow_cors_urls config) as [domains|]; cbn [hd_cors].
  - destruct (header request "origin") as [o|]; [|split; intros ? Hin; by apply elem_of_nil in Hin].
    destruct (existsb _ domains) eqn:He; cbn [negb hd_cors]; [|split; intros ? Hin; by apply elem_of_nil in Hin].
    apply existsb_exists in He as (d & Hin & Hdo). apply bool_decide_eq_true in Hdo as ->. apply list_elem_of_In in Hin.
    assert (Ho : forall o', ("Access-Control-Allow-Origin", o') ∈
       [("Access-Control-Allow-Origin", o); ("Timing-Allow-Origin", o); ("Vary", "Origin");
        ("Access-Control-Allow-Credentials", "true"); ("Access-Control-Allow-Methods", ALLOWED_METHODS);
        ("Access-Control-Allow-Headers", match header request "access-control-request-headers" with
           Some value => if is_safe_header_value value then value else DEFAULT_ALLOW_HEADERS | None => DEFAULT_ALLOW_HEADERS end);
        ("Access-Control-Max-Age", "86400")] -> o' = o).
    { intros o' Ho'. rewrite !elem_of_cons, elem_of_nil in Ho'. by destruct_or! Ho'; simplify_eq. }
    split; [intros v _; by exists domains, o|]. intros o' ->%Ho. done.
  - split; intros v Hin; rewrite !elem_of_cons, elem_of_nil in Hin; by destruct_or! Hin; simplify_eq.
Qed.
End upgrade.

(** *** Witnesses: the head ends at the first empty line *)

Definition w_ends (a b c d : ascii) : bool :=
  bool_decide ([a; b; c; d] = [byte_of 13; byte_of 10; byte_of 13; byte_of 10]).
Fixpoint w_head_end (b : bytes) : option nat :=
  match b with
  | x1 :: ((x2 :: x3 :: x4 :: _) as t) => if w_ends x1 x2 x3 x4 then Some 4 else option_map S (w_head_end t)
  | _ => None
  end.

Lemma w_head_end_cons x1 t :
  w_head_end (x1 :: t)
  = match t with
    | x2 :: x3 :: x4 :: _ => if w_ends x1 x2 x3 x4 then Some 4 else option_map S (w_head_end t)
    | _ => None
    end.
Proof. by destruct t as [|x2 [|x3 [|x4 t]]]. Qed.

Lemma w_head_end_short b : length b < 4 -> w_head_end b = None.
Proof. destruct b as [|? [|? [|? [|? b]]]]; try done. simpl. lia. Qed.

Lemma w_head_end_bound b : forall e, w_head_end b = Some e -> 4 <= e <= length b.
Proof.
  induction b as [|x1 t IH]; intros e; [done|]. rewrite w_head_end_cons.
  destruct t as [|x2 [|x3 [|x4 t]]]; try done. destruct (w_ends x1 x2 x3 x4); [intros [= <-]; simpl; lia|].
  destruct (w_head_end _) as [e'|] eqn:He; [|done]. intros [= <-]. specialize (IH _ eq_refl). cbn [length] in *. lia.
Qed.

Lemma w_head_end_local : head_end_local w_head_end.
Proof.
  intros b e Hb. split; [by apply w_head_end_bound in Hb as [_ ?]|]. revert e Hb.
  induction b as [|x1 t IH]; intros e Hb n; [done|]. pose proof (w_head_end_bound _ _ Hb) as Hbound.
  destruct (Nat.lt_ge_cases n 4) as [Hn|Hn].
  { rewrite w_head_end_short by (rewrite length_take; lia). by destruct (Nat.leb_spec e (Nat.min n (length (x1 :: t)))); [lia|]. }
  rewrite w_head_end_cons in Hb. destruct t as [|x2 [|x3 [|x4 t]]]; try done.
  destruct n as [|n]; [lia|]. cbn [take]. rewrite w_head_end_cons. do 3 (destruct n as [|n]; [lia|]). cbn [take] in *.
  destruct (w_ends x1 x2 x3 x4).
  - injection Hb as <-. by destruct (Nat.leb_spec 4 (Nat.min (S (S (S (S n)))) (length (x1 :: x2 :: x3 :: x4 :: t)))); [|simpl in *; lia].
  - destruct (w_head_end (x2 :: x3 :: x4 :: t)) as [e'|] eqn:He; [|done]. injection Hb as <-.
    specialize (IH _ eq_refl (S (S (S n)))). cbn [take] in IH. rewrite IH.
    cbn [length]. set (m := length t).
    destruct (Nat.leb_spec e' (Nat.min (S (S (S n))) (S (S (S m))))), (Nat.leb_spec (S e') (Nat.min (S (S (S (S n)))) (S (S (S (S m)))))); try done; lia.
Qed.

Definition w_request_bytes : bytes := bytes_of_string "GET /" ++ [byte_of 13; byte_of 10; byte_of 13; byte_of 10].
Definition w_stream : bytes := w_request_bytes ++ bytes_of_string "first frame".

Lemma read_head_any_split_witness :
  exists rest unread,
    read_head 100 w_head_end [] (map HeadChunk [take 7 w_stream; take 5 (drop 7 w_stream); drop 12 w_stream])
      = (Some (Ok (HeadDone w_request_bytes rest)), map HeadChunk unread)
    /\ w_request_bytes ++ rest ++ concat unread = w_stream.
Proof.
  destruct (read_head_any_split 100 w_head_end w_stream 9 [take 7 w_stream; take 5 (drop 7 w_stream); drop 12 w_stream])
    as (rest & unread & Hr & Hs).
  - exact w_head_end_local.
  - vm_compute. reflexivity.
  - lia.
  - vm_compute. reflexivity.
  - repeat constructor; discriminate.
  - exists rest, unread. split; [exact Hr|exact Hs].
Defined.

Definition w_listed : ws_server_config :=
  {| cfg_name := ""; address := ""; pub_certs := None; priv_key := None; insecure := false; debug := false;
     message_buffer_size := 1; drop_conn_on_buffer_full := false; header_only := false;
     allow_cors_urls := Some ["https://app"]; server_name := "srv"; mcp_only := false; max_connections := None;
     max_message_bytes := None; max_inflight_requests := None; request_timeout := None; handshake_timeout := None;
     idle_timeout := None; warn_connections := None; warn_message_bytes := None; warn_inflight_requests := None;
     warn_request_time := None; on_limit := false |}.
(** A preflight that tries to smuggle a header. *)
Definition w_evil : http_request :=
  HttpRequest Options "/" [] [] [("Origin", "https://app"); ("Access-Control-Request-Headers", "x" +:+ CRLF +:+ "Set-Cookie: a=b")].

Lemma no_response_splitting_witness :
  exists lines, split_on lf (plain_reply None "1" w_listed w_evil) = map cr_line lines ++ [cr_line ""; ""] /\ length lines = 12.
Proof.
  destruct (no_response_splitting None "1" w_listed w_evil) as (lines & Hs & _).
  - split; [reflexivity|]. split; [reflexivity|]. repeat constructor.
  - exists lines. split; [exact Hs|]. apply (f_equal length) in Hs. rewrite length_app, length_map in Hs.
    assert (Hl : length (split_on lf (plain_reply None "1" w_listed w_evil)) = 14) by (vm_compute; reflexivity).
    rewrite Hl in Hs. simpl in Hs. lia.
Defined.

Lemma cors_policy_witness :
  exists domains o, allow_cors_urls w_listed = Some domains /\ header w_evil "origin" = Some o /\ o ∈ domains.
Proof.
  destruct (cors_policy None "1" w_listed w_evil) as [Hc _].
  destruct (Hc "true") as (domains & o & Hd & Ho & Hin & _).
  - vm_compute. do 3 right. left.
  - exists domains, o. split; [exact Hd|]. split; [exact Ho|exact Hin].
Defined.
