(* ===== verification/Aggregation.v ===== *)
(** * Error aggregation: [src/libs/log/error_aggregation.rs]

    The background task's treatment of one entry ([aggregate]), the queries of the
    container, and the capture of a tracing event.  The channel in front of the task
    is unbounded and ordered, so the task sees the entries in the order they were
    sent.

    [normalize_message] applies its patterns with the [regex] crate, a parameter; the
    aggregation is proved for any such function.
    [iter] is the order in which the [HashMap] yields its entries. *)

From Stdlib Require Import Sorting.Sorted.
From S2P Require Import Prelude.

Record error_entry := ErrorEntry {
  ee_message : string;
  ee_timestamp : Z;
  ee_target : string;
  ee_count : nat;
}.

Record error_stats := ErrorStats {
  es_count : nat;
  es_first_seen : Z;
  es_last_seen : Z;
  es_message : string;
  es_target : string;
  es_normalized_key : string;
}.

Record aggregation_config := AggregationConfig { agg_limit : nat; agg_normalize : bool }.
Definition aggregation_default : aggregation_config := AggregationConfig 100 true.

(** ** [normalize_message]

    [replace_all pattern text replacement]: [Regex::replace_all].  The order matters:
    a later pattern sees the placeholders of the earlier ones. *)
Definition NORMALIZATIONS : list (string * string) :=
  [("\d{4}-\d{2}-\d{2}[T ]\d{2}:\d{2}:\d{2}(?:\.\d+)?(?:Z|[+-]\d{2}:\d{2})?", "<TIMESTAMP>");
   ("\b[0-9a-fA-F]{8}-?[0-9a-fA-F]{4}-?[0-9a-fA-F]{4}-?[0-9a-fA-F]{4}-?[0-9a-fA-F]{12}\b", "<UUID>");
   ("\b(?:\d{1,3}\.){3}\d{1,3}\b", "<IP>");
   ("(?:/[\w\-./]+)|(?:[A-Z]:\\[\w\-\\./]+)", "<PATH>");
   ("\b0x[0-9a-fA-F]+\b", "<HEX>");
   ("\b\d+\.?\d*\b", "<NUM>");
   ("\s+", " ")].

Definition normalize_message (replace_all : string -> string -> string -> string) (message : string) : string :=
  trim (fold_left (fun normalized p => replace_all p.1 normalized p.2) NORMALIZATIONS message).

Section aggregation.
Context (normalize_message : string -> string).
Context (iter : gmap (string * string) error_stats -> list ((string * string) * error_stats)).

Abbreviation storage := (gmap (string * string) error_stats).

(** ** [aggregation_task] *)

Definition key_of (config : aggregation_config) (entry : error_entry) : string * string :=
  (ee_target entry, if agg_normalize config then normalize_message (ee_message entry) else ee_message entry).

(** [Iterator::min_by_key]: the first of the least entries. *)
Fixpoint min_by_first_seen (l : list ((string * string) * error_stats)) : option ((string * string) * error_stats) :=
  match l with
  | [] => None
  | p :: l =>
      match min_by_first_seen l with
      | Some q => if (es_first_seen q.2 <? es_first_seen p.2)%Z then Some q else Some p
      | None => Some p
      end
  end.

Definition evict (map : storage) : storage :=
  match min_by_first_seen (iter map) with
  | Some (oldest_key, _) => delete oldest_key map
  | None => map
  end.

Definition aggregate (config : aggregation_config) (map : storage) (entry : error_entry) : storage :=
  let key := key_of config entry in
  match map !! key with
  | Some stats =>
      <[key := ErrorStats (S (es_count stats)) (es_first_seen stats) (ee_timestamp entry) (ee_message entry)
                 (es_target stats) (es_normalized_key stats)]> map
  | None =>
      let map := if Nat.leb (agg_limit config) (size map) then evict map else map in
      <[key := ErrorStats 1 (ee_timestamp entry) (ee_timestamp entry) (ee_message entry) (ee_target entry) key.2]> map
  end.

Definition aggregation_task (config : aggregation_config) (entries : list error_entry) : storage :=
  fold_left (aggregate config) entries ∅.

(** ** Queries *)

(** [sort_by_key] with [Reverse]: stable, most recent first. *)
Fixpoint insert_recent {A} (time : A -> Z) (x : A) (l : list A) : list A :=
  match l with
  | [] => [x]
  | y :: l' => if (time x <? time y)%Z then y :: insert_recent time x l' else x :: l
  end.
Definition sort_recent {A} (time : A -> Z) (l : list A) : list A := foldr (insert_recent time) [] l.

Definition entry_of (stats : error_stats) : error_entry :=
  ErrorEntry (es_message stats) (es_last_seen stats) (es_target stats) (es_count stats).

(** [sort_by] is the caller's order, if any, as the sorting it amounts to. *)
Definition get_errors (map : storage) (limit offset : nat) (sort_by : option (list error_entry -> list error_entry))
    : list error_entry :=
  let entries := List.map (fun p => entry_of p.2) (iter map) in
  let entries := match sort_by with Some cmp => cmp entries | None => sort_recent ee_timestamp entries end in
  take limit (drop offset entries).

Definition get_stats (map : storage) (limit offset : nat) : list error_stats :=
  take limit (drop offset (sort_recent es_last_seen (List.map snd (iter map)))).

Definition error_count (map : storage) : nat := size map.
Definition clear : storage := ∅.
Definition get_all_errors (config : aggregation_config) (map : storage) : list error_entry :=
  get_errors map (agg_limit config) 0 None.
Definition get_latest (map : storage) (n : nat) : list error_entry := get_errors map n 0 None.

(** ** [on_event] *)

(** [Itertools::find_or_first]. *)
Definition find_or_first (f : string -> bool) (fields : list string) : option string :=
  match List.find f fields with
  | Some x => Some x
  | None => List.hd_error fields
  end.

(** The target of the entry, from the names of the event's fields: a [Field]
    displays as its name. *)
Definition event_target (fields : list string) (target : string) : string :=
  match find_or_first (fun name => bool_decide (name = "caller_location")) fields with
  | Some location => location +:+ " (" +:+ target +:+ ")"
  | None => target
  end.

(** [MessageVisitor]: the [Debug] of the message, without its quotes. *)
Definition quote : ascii := byte_of 34.
Definition unquote (s : string) : string :=
  match s with
  | String a (String b r) =>
      match List.rev (bytes_of_string (String b r)) with
      | z :: m => if bool_decide (a = quote) && bool_decide (z = quote) then string_of_bytes (List.rev m) else s
      | [] => s
      end
  | s => s
  end.

(** [fields]: the names with the [Debug] of the values, in order; the visitor keeps
    the last [message]. *)
Definition event_message (fields : list (string * string)) : string :=
  fold_left (fun m f => if bool_decide (f.1 = "message") then unquote f.2 else m) fields EmptyString.

Definition on_event (is_error : bool) (target : string) (fields : list (string * string)) (now : Z) : option error_entry :=
  if is_error then
    Some (ErrorEntry (event_message fields) now (event_target (List.map fst fields) target) 1)
  else None.

(** ** [ErrorAggregationContainer]

    The container and its background task share the storage and the channel.  Dropping
    the container cancels the task, and with it the receiver; the layers, which hold
    their own senders, then send into a closed channel, which they ignore. *)
Record container := Container {
  ct_storage : storage;
  ct_queue : list error_entry;     (* sent and not yet received *)
  ct_task_handle : option unit;
  ct_config : aggregation_config;
}.

Definition container_new (config : aggregation_config) : container := Container ∅ [] (Some tt) config.

(** [get_error_aggregation]: the layer holds a sender of the container. *)
Record error_layer := ErrorLayer { el_container : container }.
Definition get_error_aggregation (error_aggregation : aggregation_config) : container * error_layer :=
  let error_container := container_new error_aggregation in
  (error_container, ErrorLayer error_container).

(** [on_event]'s [unbounded_send], one turn of the task's loop, [clear] and the drop. *)
Definition unbounded_send (entry : error_entry) (c : container) : container :=
  match ct_task_handle c with
  | Some _ => Container (ct_storage c) (ct_queue c ++ [entry]) (ct_task_handle c) (ct_config c)
  | None => c
  end.
Definition task_turn (c : container) : container :=
  match ct_task_handle c, ct_queue c with
  | Some h, entry :: queue => Container (aggregate (ct_config c) (ct_storage c) entry) queue (Some h) (ct_config c)
  | _, _ => c
  end.
Definition container_clear (c : container) : container := Container clear (ct_queue c) (ct_task_handle c) (ct_config c).
Definition container_drop (c : container) : container :=
  match ct_task_handle c with
  | Some _ => Container (ct_storage c) [] None (ct_config c)
  | None => c
  end.

Inductive container_op := OSend (entry : error_entry) | OTurn | OClear | ODrop.
Definition container_step (c : container) (op : container_op) : container :=
  match op with
  | OSend entry => unbounded_send entry c
  | OTurn => task_turn c
  | OClear => container_clear c
  | ODrop => container_drop c
  end.
Definition container_run (config : aggregation_config) (ops : list container_op) : container :=
  fold_left container_step ops (container_new config).

(** The entries sent before the drop. *)
Fixpoint sent_entries (ops : list container_op) : list error_entry :=
  match ops with
  | [] | ODrop :: _ => []
  | OSend entry :: ops => entry :: sent_entries ops
  | _ :: ops => sent_entries ops
  end.

(** ** Lemmas *)

(** The storage holds what was received since the last clear; the rest of [sent] was
    cleared, is queued, or was lost with the container. *)
Definition tracks (config : aggregation_config) (sent : list error_entry) (c : container) : Prop :=
  ct_config c = config /\ exists cleared received lost,
    sent = cleared ++ received ++ ct_queue c ++ lost
    /\ ct_storage c = aggregation_task config received
    /\ (is_Some (ct_task_handle c) -> lost = []).

Definition heard (c : container) (op : container_op) : list error_entry :=
  match op, ct_task_handle c with OSend entry, Some _ => [entry] | _, _ => [] end.

Lemma container_step_tracks config sent c op : tracks config sent c -> tracks config (sent ++ heard c op) (container_step c op).
Proof.
  intros (Hcfg & cleared & received & lost & -> & Hst & Hl).
  destruct c as [st queue [h|] cfg], op as [entry| | |]; simpl in *; subst cfg;
    try (rewrite app_nil_r; split; [done|]; exists cleared, received, lost; by split_and!).
  - rewrite Hl by done. split; [done|]. exists cleared, received, []. rewrite !app_nil_r. by rewrite <- !app_assoc.
  - rewrite app_nil_r. destruct queue as [|entry queue]; (split; [done|]); [by exists cleared, received, lost|].
    exists cleared, (received ++ [entry]), lost. split_and!; [by rewrite <- app_assoc| |done].
    unfold aggregation_task. by rewrite fold_left_app, Hst.
  - rewrite app_nil_r. split; [done|]. exists (cleared ++ received), [], lost. by rewrite <- app_assoc.
  - rewrite app_nil_r. split; [done|]. exists cleared, received, (queue ++ lost). split_and!; [done|done|by intros []].
  - rewrite app_nil_r. split; [done|]. exists (cleared ++ received), [], lost. rewrite <- app_assoc. by split_and!.
Qed.

(** However sends, turns of the task and clears interleave, the errors are received in
    the order in which they were sent, each at most once, and the storage holds those
    received since the last clear, aggregated; what is not received yet is queued, or
    lost with the container. *)
Lemma container_run_spec config ops : tracks config (sent_entries ops) (container_run config ops).
Proof.
  assert (forall c sent, tracks config sent c ->
    tracks config (sent ++ match ct_task_handle c with Some _ => sent_entries ops | None => [] end)
      (fold_left container_step ops c)) as H.
  { induction ops as [|op ops IH]; intros c sent Hc; simpl.
    - replace (match ct_task_handle c with Some _ => [] | None => [] end) with (@nil error_entry) by (by destruct (ct_task_handle c)).
      by rewrite app_nil_r.
    - apply (container_step_tracks _ _ _ op), IH in Hc. rewrite <- app_assoc in Hc.
      destruct c as [st [|entry' queue] [h|] cfg], op as [entry| | |]; exact Hc. }
  apply (H (container_new config) []). split; [done|]. by exists [], [], [].
Qed.

Hypothesis iter_perm : forall m, iter m ≡ₚ map_to_list m.

Lemma min_by_first_seen_spec l p : min_by_first_seen l = Some p ->
  p ∈ l /\ forall q, q ∈ l -> (es_first_seen p.2 <= es_first_seen q.2)%Z.
Proof.
  revert p. induction l as [|x l IH]; intros p; simpl; [done|].
  destruct (min_by_first_seen l) as [q|] eqn:Hq.
  - destruct (IH q eq_refl) as [Hin Hmin]. destruct (Z.ltb_spec (es_first_seen q.2) (es_first_seen x.2)); intros [= <-].
    + split; [by right|]. intros r [->|Hr]%elem_of_cons; [lia|by apply Hmin].
    + split; [by left|]. intros r [->|Hr]%elem_of_cons; [lia|]. specialize (Hmin r Hr). lia.
  - intros [= <-]. split; [by left|]. destruct l as [|y l]; [|simpl in Hq; by repeat case_match].
    intros r [->|Hr]%elem_of_cons; [lia|by apply elem_of_nil in Hr].
Qed.

Lemma min_by_first_seen_none l : min_by_first_seen l = None -> l = [].
Proof. destruct l; simpl; [done|]. by repeat case_match. Qed.

Lemma evict_spec (m : storage) :
  m ≠ ∅ ->
  exists k stats, m !! k = Some stats /\ evict m = delete k m
    /\ forall k' stats', m !! k' = Some stats' -> (es_first_seen stats <= es_first_seen stats')%Z.
Proof.
  intros Hne. unfold evict. destruct (min_by_first_seen (iter m)) as [[k stats]|] eqn:Hmin.
  - apply min_by_first_seen_spec in Hmin as [Hin Hle]. exists k, stats. rewrite iter_perm in Hin.
    split; [by apply elem_of_map_to_list in Hin|]. split; [done|]. intros k' stats' Hk'.
    apply (Hle (k', stats')). rewrite iter_perm. by apply elem_of_map_to_list.
  - apply min_by_first_seen_none in Hmin. exfalso. apply Hne. apply map_to_list_empty_iff.
    apply Permutation_nil_r. by rewrite <- iter_perm, Hmin.
Qed.

Lemma aggregate_size config m e :
  size m <= Nat.max 1 (agg_limit config) -> size (aggregate config m e) <= Nat.max 1 (agg_limit config).
Proof.
  intros Hs. unfold aggregate. destruct (m !! key_of config e) as [stats|] eqn:Hk.
  - rewrite map_size_insert_Some; [done|by eexists].
  - destruct (Nat.leb_spec (agg_limit config) (size m)) as [Hfull|Hroom].
    + destruct (decide (m = ∅)) as [->|Hne].
      * unfold evict. assert (iter ∅ = []) as -> by (apply Permutation_nil_r; by rewrite iter_perm, map_to_list_empty).
        simpl. rewrite map_size_insert_None by apply lookup_empty. rewrite map_size_empty. lia.
      * destruct (evict_spec m Hne) as (k & stats & Hm & -> & _).
        rewrite map_size_insert_None by (rewrite lookup_delete_None; by right).
        rewrite map_size_delete_Some by (by eexists). lia.
    + rewrite map_size_insert_None by done. lia.
Qed.

Lemma aggregate_key config m e :
  exists stats, aggregate config m e !! key_of config e = Some stats
    /\ es_message stats = ee_message e /\ es_last_seen stats = ee_timestamp e
    /\ es_count stats = match m !! key_of config e with Some old => S (es_count old) | None => 1 end.
Proof. unfold aggregate. destruct (m !! key_of config e); eexists; by rewrite lookup_insert_eq. Qed.

Lemma insert_recent_perm {A} (time : A -> Z) x l : insert_recent time x l ≡ₚ x :: l.
Proof. induction l as [|y l IH]; simpl; [done|]. destruct (_ <? _)%Z; [|done]. rewrite IH. apply Permutation_swap. Qed.

Lemma sort_recent_perm {A} (time : A -> Z) (l : list A) : sort_recent time l ≡ₚ l.
Proof. induction l as [|x l IH]; simpl; [done|]. by rewrite insert_recent_perm, IH. Qed.

Lemma insert_recent_sorted {A} (time : A -> Z) x l :
  Sorted (fun a b => time b <= time a)%Z l -> Sorted (fun a b => time b <= time a)%Z (insert_recent time x l).
Proof.
  induction 1 as [|y l Hl IH Hy]; simpl; [by repeat constructor|].
  destruct (Z.ltb_spec (time x) (time y)).
  - constructor; [done|]. destruct l as [|z l]; simpl; [constructor; lia|].
    destruct (_ <? _)%Z; constructor; [by inversion Hy|lia].
  - constructor; [by constructor|]. constructor. lia.
Qed.

Lemma sort_recent_sorted {A} (time : A -> Z) (l : list A) : Sorted (fun a b => time b <= time a)%Z (sort_recent time l).
Proof. induction l as [|x l IH]; simpl; [constructor|]. by apply insert_recent_sorted. Qed.

(** ** Properties *)

(** The store is bounded and never forgets the latest error.  After
    any sequence of errors it holds at most [limit] of them (one, when [limit] is 0);
    the last one is among them, with its own message and time, counted once more than
    before; and what made room for it, if anything, had the earliest first
    occurrence. *)
Theorem aggregation_bounded config entries e :
  let before := aggregation_task config entries in
  let after := aggregation_task config (entries ++ [e]) in
  size after <= Nat.max 1 (agg_limit config)
  /\ (exists stats, after !! key_of config e = Some stats
        /\ es_message stats = ee_message e /\ es_last_seen stats = ee_timestamp e
        /\ es_count stats = match before !! key_of config e with Some old => S (es_count old) | None => 1 end)
  /\ forall k stats, before !! k = Some stats -> after !! k = None ->
       agg_limit config <= size before
       /\ forall k' stats', before !! k' = Some stats' -> (es_first_seen stats <= es_first_seen stats')%Z.
Proof.
  intros before after. assert (Hafter : after = aggregate config before e) by (unfold after, aggregation_task; by rewrite fold_left_app).
  assert (Hb : size before <= Nat.max 1 (agg_limit config)).
  { apply (Forall_fold_left (fun m => size m <= Nat.max 1 (agg_limit config))); [rewrite map_size_empty; lia|].
    intros m x _ Hm. by apply aggregate_size. }
  rewrite Hafter. split; [by apply aggregate_size|]. split; [apply aggregate_key|].
  intros k stats Hk. unfold aggregate. destruct (before !! key_of config e) as [old|] eqn:Hold.
  - intros [Hn _]%lookup_insert_None. congruence.
  - intros [Hn Hne]%lookup_insert_None. destruct (Nat.leb_spec (agg_limit config) (size before)) as [Hfull|]; [|congruence].
    split; [done|]. destruct (evict_spec before) as (k1 & s1 & Hk1 & He & Hmin); [intros He; by rewrite He, lookup_empty in Hk|].
    rewrite He in Hn. apply lookup_delete_None in Hn as [->|Hn]; [|congruence]. rewrite Hk1 in Hk. injection Hk as ->. done.
Qed.
End aggregation.

(** *** Witness: a store for two errors sees a third *)

Definition w_entry (message : string) (time : Z) : error_entry := ErrorEntry message time "t" 1.

Lemma aggregation_bounded_witness :
  size (aggregation_task id map_to_list (AggregationConfig 2 false) ([w_entry "a" 1; w_entry "b" 2; w_entry "a" 3] ++ [w_entry "c" 4])) <= 2.
Proof.
  apply (aggregation_bounded id map_to_list (fun _ => Permutation_refl _) (AggregationConfig 2 false)
           [w_entry "a" 1; w_entry "b" 2; w_entry "a" 3] (w_entry "c" 4)).
Defined.
