(* ===== verification/Signal.v ===== *)
(** * Shutdown and signals: [src/libs/signal.rs]

    [Shutdown] is a flag and a [Notify] of the nagoya crate.  The crate is not part
    of the repository: [NotifyLaws] states what its documentation promises, and the
    theorems hold for every implementation of it.  [cancel] and [cancelled] run on
    different threads, so each of their accesses is a step of its own. *)

From S2P Require Import Prelude.

(** ** The interface of [Notify] *)

(** A [Notified] future, named by a number: not created yet, not registered,
    registered, or woken. *)
Inductive waiter_status := Free | Idle | Waiting | Woken.
#[export] Instance waiter_status_eq_dec : EqDecision waiter_status.
Proof. solve_decision. Defined.

(** [notified] creates a future; [enable] registers it, and is [true] if it is
    complete already; [poll] is [true] if it is complete. *)
Class Notify (N : Type) := {
  notify_new : N;
  status : N -> nat -> waiter_status;
  notified : N -> N * nat;
  enable : nat -> N -> N * bool;
  notified_poll : nat -> N -> N * bool;
  notified_drop : nat -> N -> N;
  notify_waiters : N -> N;
}.

(** An incomplete [enable] or [poll] leaves the future registered, a woken future is
    complete, [notify_waiters] wakes every registered future, and no operation on one
    future touches another.  Nothing is assumed of a future that is not registered
    when [notify_waiters] runs: no permit is kept. *)
Class NotifyLaws (N : Type) `{Notify N} : Prop := {
  notified_free n : status n (notified n).2 = Free;
  notified_live n : status (notified n).1 (notified n).2 <> Free;
  notified_other n j : j <> (notified n).2 -> status (notified n).1 j = status n j;
  enable_pending i n : (enable i n).2 = false -> status (enable i n).1 i = Waiting;
  enable_live i n : status n i <> Free -> status (enable i n).1 i <> Free;
  enable_other i n j : j <> i -> status (enable i n).1 j = status n j;
  poll_pending i n : (notified_poll i n).2 = false -> status n i <> Woken /\ status (notified_poll i n).1 i = Waiting;
  poll_live i n : status n i <> Free -> status (notified_poll i n).1 i <> Free;
  poll_other i n j : j <> i -> status (notified_poll i n).1 j = status n j;
  drop_other i n j : j <> i -> status (notified_drop i n) j = status n j;
  notify_wakes n i : status n i = Waiting \/ status n i = Woken -> status (notify_waiters n) i = Woken;
  notify_live n i : status n i <> Free -> status (notify_waiters n) i <> Free;
}.

(** ** [Shutdown] *)

Section shutdown.
Context {N : Type} `{Notify N}.

Record shutdown := Shutdown { flag : bool; notify : N }.

(** [Shutdown::new]. *)
Definition shutdown_new : shutdown := Shutdown false notify_new.

(** The two accesses of [cancel]. *)
Definition cancel_store (s : shutdown) : shutdown := Shutdown true (notify s).
Definition cancel_notify (s : shutdown) : shutdown := Shutdown (flag s) (notify_waiters (notify s)).
Definition cancel (s : shutdown) : shutdown := cancel_notify (cancel_store s).

Definition is_cancelled (s : shutdown) : bool := flag s.

(** Where a [cancelled] future is in its loop. *)
Inductive waiter :=
  | WStart                          (* about to call [notified] *)
  | WEnable (id : nat)              (* about to call [enable] *)
  | WReady (id : nat)               (* [enable] was [true]: about to read the flag *)
  | WCheck (id : nat)               (* [enable] was [false]: about to read the flag *)
  | WAwait (id : nat)               (* in [notified.await] *)
  | WExit (id : nat) (done : bool)  (* about to drop [notified], then return or loop *)
  | WDone.

(** One access. *)
Definition waiter_step (w : waiter) (s : shutdown) : waiter * shutdown :=
  match w with
  | WStart => let r := notified (notify s) in (WEnable r.2, Shutdown (flag s) r.1)
  | WEnable id =>
      let r := enable id (notify s) in
      (if r.2 then WReady id else WCheck id, Shutdown (flag s) r.1)
  | WReady id => (WExit id (is_cancelled s), s)
  | WCheck id => (if is_cancelled s then WExit id true else WAwait id, s)
  | WAwait id =>
      let r := notified_poll id (notify s) in
      (if r.2 then WExit id false else WAwait id, Shutdown (flag s) r.1)
  | WExit id done => (if done then WDone else WStart, Shutdown (flag s) (notified_drop id (notify s)))
  | WDone => (WDone, s)
  end.

(** A poll with no other thread in between: on to [Ready] ([WDone]), or until the
    await is pending. *)
Fixpoint cancelled_poll (fuel : nat) (w : waiter) (s : shutdown) : waiter * shutdown :=
  match fuel with
  | O => (w, s)
  | S fuel =>
      let r := waiter_step w s in
      match w, r.1 with
      | _, WDone | WAwait _, WAwait _ => r
      | _, w => cancelled_poll fuel w r.2
      end
  end.

(** ** Interleavings *)

(** Any number of waiters, and of calls of [cancel] ([true]: stored, about to
    notify). *)
Record sys := Sys { sh : shutdown; waiters : list waiter; cancels : list bool }.

(** [pin!(notified)] is dropped with the future of [cancelled]. *)
Definition waiter_id (w : waiter) : option nat :=
  match w with
  | WEnable id | WReady id | WCheck id | WAwait id | WExit id _ => Some id
  | WStart | WDone => None
  end.
Definition waiter_drop (w : waiter) (s : shutdown) : shutdown :=
  match waiter_id w with
  | Some id => Shutdown (flag s) (notified_drop id (notify s))
  | None => s
  end.

Inductive sstep : sys -> sys -> Prop :=
  | ss_wait x : sstep x (Sys (sh x) (waiters x ++ [WStart]) (cancels x))
  | ss_waiter x i w :
      waiters x !! i = Some w ->
      sstep x (Sys (waiter_step w (sh x)).2 (<[i := (waiter_step w (sh x)).1]> (waiters x)) (cancels x))
  | ss_drop x i w :
      waiters x !! i = Some w ->
      sstep x (Sys (waiter_drop w (sh x)) (<[i := WDone]> (waiters x)) (cancels x))
  | ss_store x : sstep x (Sys (cancel_store (sh x)) (waiters x) (cancels x ++ [true]))
  | ss_notify x i :
      cancels x !! i = Some true ->
      sstep x (Sys (cancel_notify (sh x)) (waiters x) (<[i := false]> (cancels x))).

Inductive sreach : sys -> Prop :=
  | sreach_init : sreach (Sys shutdown_new [] [])
  | sreach_step x y : sreach x -> sstep x y -> sreach y.

(** ** The invariant *)

Context `{!NotifyLaws N}.

Definition st (s : shutdown) (id : nat) : waiter_status := status (notify s) id.

(** What a waiter knows about its own future. *)
Definition own_ok (w : waiter) (s : shutdown) : Prop :=
  match w with
  | WCheck id | WAwait id => st s id = Waiting \/ st s id = Woken
  | _ => forall id, waiter_id w = Some id -> st s id <> Free
  end.

(** A parked waiter that has not been woken is still to be notified. *)
Definition covered (w : waiter) (s : shutdown) (cs : list bool) : Prop :=
  match w with
  | WAwait id => st s id = Waiting -> flag s = true -> true ∈ cs
  | WExit _ true => flag s = true
  | _ => True
  end.

Definition sinv (x : sys) : Prop :=
  (forall i w, waiters x !! i = Some w -> own_ok w (sh x) /\ covered w (sh x) (cancels x))
  /\ (forall i j w v id, waiters x !! i = Some w -> waiters x !! j = Some v ->
        waiter_id w = Some id -> waiter_id v = Some id -> i = j).

Lemma own_live w s id : own_ok w s -> waiter_id w = Some id -> st s id <> Free.
Proof. destruct w; simpl; intros Ho E; try (by apply Ho); injection E as <-; destruct Ho as [-> | ->]; done. Qed.

(** A step touches no other live future, and does not change the flag. *)
Lemma waiter_step_frame w s j :
  st s j <> Free -> waiter_id w <> Some j -> st (waiter_step w s).2 j = st s j.
Proof.
  unfold st. destruct w; simpl; intros Hj Hid; try done.
  - apply notified_other. intros ->. by rewrite notified_free in Hj.
  - apply enable_other. congruence.
  - apply poll_other. congruence.
  - apply drop_other. congruence.
Qed.

Lemma waiter_step_flag w s : flag (waiter_step w s).2 = flag s.
Proof. by destruct w. Qed.

(** Its own future stays live, and is the one it had or a new one. *)
Lemma waiter_step_own w s :
  own_ok w s -> own_ok (waiter_step w s).1 (waiter_step w s).2.
Proof.
  unfold st in *. destruct w as [|id|id|id|id|id []|]; simpl; intros Ho; try done.
  - intros id [= <-]. apply notified_live.
  - destruct (enable id (notify s)).2 eqn:E; simpl.
    + intros ? [= <-]. apply enable_live. by apply Ho.
    + left. by apply enable_pending.
  - destruct (is_cancelled s); simpl; [|done]. intros ? [= <-]. unfold st in *. by destruct Ho as [-> | ->].
  - destruct (notified_poll id (notify s)).2 eqn:E; simpl.
    + intros ? [= <-]. apply poll_live. unfold st in *. by destruct Ho as [-> | ->].
    + left. by apply poll_pending in E as [_ ?].
Qed.

Lemma waiter_step_id w s id :
  waiter_id (waiter_step w s).1 = Some id -> waiter_id w = Some id \/ st s id = Free.
Proof.
  unfold st. destruct w as [|?|?|?|?|? []|]; simpl; intros Hid; repeat case_match; simpl in Hid; simplify_eq;
    auto using notified_free.
Qed.

Lemma waiter_step_covered w s cs :
  own_ok w s -> covered w s cs -> covered (waiter_step w s).1 (waiter_step w s).2 cs.
Proof.
  unfold st in *. destruct w as [|id|id|id|id|id []|]; simpl; intros Ho Hc; try done.
  - by destruct (enable id (notify s)).2.
  - unfold is_cancelled. by destruct (flag s).
  - unfold is_cancelled. destruct (flag s) eqn:E; simpl; congruence.
  - destruct (notified_poll id (notify s)).2 eqn:E; simpl; [done|]. apply poll_pending in E as [Hw _].
    intros _. apply Hc. unfold st in Ho. by destruct Ho.
Qed.

(** What the others know survives a change that keeps their futures. *)
Lemma own_ok_frame w s s' :
  (forall id, waiter_id w = Some id -> st s' id = st s id) -> own_ok w s -> own_ok w s'.
Proof. destruct w; simpl; intros Hf Ho; try (intros ? [= <-]); rewrite ?Hf by done; auto; by apply Ho. Qed.

Lemma covered_frame w s s' cs :
  (forall id, waiter_id w = Some id -> st s' id = st s id) -> flag s' = flag s -> covered w s cs -> covered w s' cs.
Proof. intros Hf Hg. destruct w as [| | | |id|id []|]; simpl; rewrite ?Hg, ?Hf by done; done. Qed.

(** The invariant is kept when one waiter changes to [w'] and the state to [s'], if
    the waiter keeps its part and the other waiters' futures are untouched. *)
Lemma sinv_update x i w w' s' :
  sinv x -> waiters x !! i = Some w ->
  (forall j, st (sh x) j <> Free -> waiter_id w <> Some j -> st s' j = st (sh x) j) -> flag s' = flag (sh x) ->
  own_ok w' s' -> covered w' s' (cancels x) ->
  (forall id, waiter_id w' = Some id -> waiter_id w = Some id \/ st (sh x) id = Free) ->
  sinv (Sys s' (<[i := w']> (waiters x)) (cancels x)).
Proof.
  intros [Hall Huniq] Hi Hf Hg Ho Hc Hid.
  assert (Hother : forall j v id, j <> i -> waiters x !! j = Some v -> waiter_id v = Some id ->
                     st (sh x) id <> Free /\ waiter_id w <> Some id).
  { intros j v id Hji Hj Hv. destruct (Hall j v Hj) as [Hov _]. split; [by eapply own_live|].
    intros Hw. by destruct Hji, (Huniq j i v w id). }
  split; simpl.
  - intros j v Hj. apply list_lookup_insert_Some in Hj as [(-> & <- & _)|[Hji Hj]]; [done|].
    destruct (Hall j v Hj) as [Hov Hcv]. assert (forall id, waiter_id v = Some id -> st s' id = st (sh x) id).
    { intros id Hv. destruct (Hother j v id ltac:(done) Hj Hv). by apply Hf. }
    split; [by eapply own_ok_frame|by eapply covered_frame].
  - intros j k v u id Hj Hk Hv Hu.
    apply list_lookup_insert_Some in Hj as [(-> & <- & _)|[Hji Hj]], Hk as [(-> & <- & _)|[Hki Hk]]; [done| | |by eapply Huniq].
    + destruct (Hother k u id ltac:(done) Hk Hu). by destruct (Hid id Hv).
    + destruct (Hother j v id ltac:(done) Hj Hv). by destruct (Hid id Hu).
Qed.

Lemma sstep_inv x y : sinv x -> sstep x y -> sinv y.
Proof.
  intros Hx Hs. pose proof Hx as [Hall Huniq]. destruct Hs as [x|x i w Hi|x i w Hi|x|x i Hi].
  - split; simpl.
    + intros j v [Hj|[_ Hj]]%lookup_app_Some; [by apply (Hall j)|].
      apply list_lookup_singleton_Some in Hj as [_ <-]. done.
    + intros j k v u id [Hj|[_ Hj]]%lookup_app_Some [Hk|[_ Hk]]%lookup_app_Some Hv Hu; [by eapply Huniq|..];
        repeat match goal with H : [_] !! _ = Some _ |- _ => apply list_lookup_singleton_Some in H as [_ <-] end; done.
  - destruct (Hall i w Hi) as [Ho Hc]. apply (sinv_update x i w); auto using waiter_step_frame, waiter_step_flag,
      waiter_step_own, waiter_step_covered, waiter_step_id.
  - apply (sinv_update x i w); unfold waiter_drop, st; try done; destruct (waiter_id w) eqn:E; simpl; try done.
    intros j _ Hj. apply drop_other. congruence.
  - split; simpl; [|done]. intros j v Hj. destruct (Hall j v Hj) as [Ho Hc]. split; [by destruct v|].
    destruct v as [| | | |id|id []|]; simpl; try done. intros _ _. apply elem_of_app. right. left.
  - assert (Hw : forall v, own_ok v (sh x) -> own_ok v (cancel_notify (sh x))).
    { intros v Ho. destruct v; simpl in *; unfold st, cancel_notify in *; simpl; try (right; by apply notify_wakes).
      all: intros; apply notify_live; by apply Ho. }
    split; simpl; [|done]. intros j v Hj. destruct (Hall j v Hj) as [Ho Hc]. split; [by apply Hw|].
    destruct v as [| | | |id|id []|]; simpl in *; try done. unfold st, cancel_notify in *. simpl in *.
    by rewrite notify_wakes.
Qed.

Lemma sreach_inv x : sreach x -> sinv x.
Proof. induction 1 as [|x y _ IH Hs]; [split; simpl; intros; simplify_eq|by eapply sstep_inv]. Qed.

(** One step of the loop, for the cases where it goes on. *)
Lemma cancelled_poll_on fuel w s :
  (waiter_step w s).1 <> WDone -> (forall id, w <> WAwait id \/ (waiter_step w s).1 <> WAwait id) ->
  cancelled_poll (S fuel) w s = cancelled_poll fuel (waiter_step w s).1 (waiter_step w s).2.
Proof.
  cbn [cancelled_poll]. destruct (waiter_step w s) as [w' s'] eqn:E. cbn [fst snd]. intros Hd Ha.
  destruct w, w'; try done. exfalso. cbn in E. injection E as E _.
  destruct (notified_poll id (notify s)).2; [done|]. injection E as <-. by destruct (Ha id).
Qed.

Lemma poll_checked fuel id s : flag s = true -> (cancelled_poll (S (S fuel)) (WCheck id) s).1 = WDone.
Proof. intros Hf. rewrite cancelled_poll_on; simpl; unfold is_cancelled; rewrite Hf; auto. Qed.

Lemma poll_ready fuel id s : flag s = true -> (cancelled_poll (S (S fuel)) (WReady id) s).1 = WDone.
Proof. intros Hf. rewrite cancelled_poll_on; simpl; unfold is_cancelled; rewrite ?Hf; auto. Qed.

Lemma poll_enable fuel id s : flag s = true -> (cancelled_poll (3 + fuel) (WEnable id) s).1 = WDone.
Proof.
  intros Hf. simpl Nat.add. rewrite cancelled_poll_on; simpl waiter_step; cbn [fst snd].
  - destruct (enable id (notify s)).2; [by apply poll_ready|by apply poll_checked].
  - by destruct (enable id (notify s)).2.
  - by left.
Qed.

Lemma poll_start fuel s : flag s = true -> (cancelled_poll (4 + fuel) WStart s).1 = WDone.
Proof. intros Hf. simpl Nat.add. rewrite cancelled_poll_on; simpl waiter_step; [by apply poll_enable|done|by left]. Qed.

Lemma poll_exit fuel id done s : flag s = true -> (cancelled_poll (5 + fuel) (WExit id done) s).1 = WDone.
Proof.
  intros Hf. simpl Nat.add. destruct done; [done|].
  rewrite cancelled_poll_on; simpl waiter_step; [by apply poll_start|done|by left].
Qed.

(** A poll after the flag is set ends the wait, unless the waiter is parked. *)
Lemma poll_after_cancel w s :
  flag s = true -> (forall id, w = WAwait id -> st s id = Woken) -> (cancelled_poll 7 w s).1 = WDone.
Proof.
  intros Hf Hw. destruct w as [|id|id|id|id|id d|].
  - by apply (poll_start 3).
  - by apply (poll_enable 4).
  - by apply (poll_ready 5).
  - by apply (poll_checked 5).
  - assert (Hp : (notified_poll id (notify s)).2 = true).
    { destruct (notified_poll id (notify s)).2 eqn:E; [done|]. apply poll_pending in E as [Hn _]. by destruct Hn, (Hw id). }
    rewrite cancelled_poll_on; simpl waiter_step; rewrite Hp; [by apply (poll_exit 1)|done|by right].
  - by apply (poll_exit 2).
  - done.
Qed.

(** ** The process-wide flag, and signals *)

(** [CANCELLATION_TOKEN] is a [Shutdown]. *)
Definition set_terminate_flag (s : shutdown) : shutdown := cancel s.
Definition get_terminate_flag (s : shutdown) : bool := is_cancelled s.

(** The warning, if it is logged. *)
Definition inform_terminate (signal_alias : string) (s : shutdown) : shutdown * option string :=
  if get_terminate_flag s then (s, None)
  else (set_terminate_flag s, Some ("received " +:+ signal_alias +:+ " signal, terminating program")).

(** One poll of [wait_for_signals]: what each [recv] answers.  [None] is [Pending]. *)
Definition wait_for_signals (term int : bool) (s : shutdown) : option (shutdown * option string) :=
  if term then Some (inform_terminate "SIGTERM" s)
  else if int then Some (inform_terminate "SIGINT" s)
  else None.

(** [signal_received_silent], once its signals are registered. *)
Definition signal_received_silent (term int : bool) : option unit := if term || int then Some tt else None.

(** ** Properties *)

(** C18: a cancel is never lost.  However the accesses of any number of
    waiters and of calls of [cancel] interleave: a wait ends only if the flag is set;
    and when a [cancel] has finished (no call is between its two accesses), every
    parked waiter has been woken, and any waiter that is polled completes in that
    poll. *)
Theorem cancel_not_lost x i w :
  sreach x -> waiters x !! i = Some w ->
  (forall id, w = WExit id true -> flag (sh x) = true)
  /\ (flag (sh x) = true -> true ∉ cancels x ->
      (forall id, w = WAwait id -> st (sh x) id = Woken) /\ (cancelled_poll 7 w (sh x)).1 = WDone).
Proof.
  intros [Hall _]%sreach_inv Hi. destruct (Hall i w Hi) as [Ho Hc]. split; [by intros id ->|]. intros Hf Hn.
  assert (Hw : forall id, w = WAwait id -> st (sh x) id = Woken).
  { intros id ->. simpl in *. destruct Ho as [Hs|Hs]; [|done]. exfalso. by apply Hn, Hc. }
  split; [done|by apply poll_after_cancel].
Qed.

(** SIGTERM comes first, and the first signal is the one reported.
    A poll of [wait_for_signals] completes exactly when a signal has arrived; it sets
    the flag; with both signals pending the log names SIGTERM; and once the flag is
    set nothing more is logged or woken. *)
Theorem wait_for_signals_spec term int s :
  match wait_for_signals term int s with
  | None => term = false /\ int = false
  | Some (s', log) =>
      get_terminate_flag s' = true
      /\ (flag s = true -> s' = s /\ log = None)
      /\ (flag s = false -> s' = cancel s
          /\ log = Some ("received " +:+ (if term then "SIGTERM" else "SIGINT") +:+ " signal, terminating program"))
  end.
Proof.
  destruct s as [[] n], term, int; simpl; split_and?; done.
Qed.
End shutdown.
Arguments shutdown N : clear implicits.
Arguments sys N : clear implicits.

(** *** [init_signals] *)

Inductive signal_kind := Terminate | Interrupt.

Section signals.
(** [nagoya::signal::Signal]: [P] is what the process has registered. *)
Context {P Sig E : Type} (signal_new : signal_kind -> P -> result Sig E * P) (signal_drop : Sig -> P -> P).

Definition init_signals (p : P) : result (Sig * Sig) E * P :=
  match signal_new Terminate p with
  | (Err e, p) => (Err e, p)
  | (Ok sigterm, p) =>
      match signal_new Interrupt p with
      | (Err e, p) => (Err e, signal_drop sigterm p)
      | (Ok sigint, p) => (Ok (sigterm, sigint), p)
      end
  end.
End signals.

(** *** A [Notify], and a run *)

(** The futures by number. *)
#[local] Instance list_notify : Notify (list waiter_status) := {
  notify_new := [];
  status n i := default Free (n !! i);
  notified n := (n ++ [Idle], length n);
  enable i n := match n !! i with Some (Idle | Waiting) => (<[i := Waiting]> n, false) | _ => (n, true) end;
  notified_poll i n := match n !! i with Some (Idle | Waiting) => (<[i := Waiting]> n, false) | _ => (n, true) end;
  notified_drop i n := <[i := Free]> n;
  notify_waiters n := (fun s => match s with Waiting => Woken | s => s end) <$> n;
}.

#[local] Instance list_notify_laws : NotifyLaws (list waiter_status).
Proof.
  split; simpl; intros.
  - by rewrite lookup_ge_None_2.
  - by rewrite lookup_app_r, Nat.sub_diag.
  - destruct (decide (j < length n)); [by rewrite lookup_app_l|].
    rewrite !lookup_ge_None_2; rewrite ?length_app; simpl; [done|lia..].
  - destruct (n !! i) as [[]|] eqn:Hi; simpl in *; try done; rewrite list_lookup_insert_eq; try done; by eapply lookup_lt_Some.
  - destruct (n !! i) as [[]|] eqn:Hi; simpl in *; rewrite ?Hi; try done; rewrite list_lookup_insert_eq; try done; by eapply lookup_lt_Some.
  - destruct (n !! i) as [[]|]; simpl; rewrite ?list_lookup_insert_ne; done.
  - destruct (n !! i) as [[]|] eqn:Hi; simpl in *; try done; rewrite list_lookup_insert_eq; try done; by eapply lookup_lt_Some.
  - destruct (n !! i) as [[]|] eqn:Hi; simpl in *; rewrite ?Hi; try done; rewrite list_lookup_insert_eq; try done; by eapply lookup_lt_Some.
  - destruct (n !! i) as [[]|]; simpl; rewrite ?list_lookup_insert_ne; done.
  - by rewrite list_lookup_insert_ne.
  - rewrite list_lookup_fmap. destruct (n !! i) as [[]|]; simpl in *; naive_solver.
  - rewrite list_lookup_fmap. by destruct (n !! i) as [[]|].
Qed.

(** A waiter parks, then a thread stores the flag and notifies. *)
Definition w_parked_sys : sys (list waiter_status) := Sys (Shutdown true [Woken]) [WAwait 0] [false].

Lemma w_parked_reach : sreach w_parked_sys.
Proof.
  set (n0 := Shutdown false [] : shutdown (list waiter_status)).
  set (n1 := Shutdown false [Waiting] : shutdown (list waiter_status)).
  pose proof (sreach_step _ _ sreach_init (ss_wait (Sys n0 [] []))) as H1.
  pose proof (sreach_step _ _ H1 (ss_waiter (Sys n0 [WStart] []) 0 WStart eq_refl)) as H2.
  pose proof (sreach_step _ _ H2 (ss_waiter (Sys (Shutdown false [Idle]) [WEnable 0] []) 0 (WEnable 0) eq_refl)) as H3.
  pose proof (sreach_step _ _ H3 (ss_waiter (Sys n1 [WCheck 0] []) 0 (WCheck 0) eq_refl)) as H4.
  pose proof (sreach_step _ _ H4 (ss_store (Sys n1 [WAwait 0] []))) as H5.
  exact (sreach_step _ _ H5 (ss_notify (Sys (Shutdown true [Waiting]) [WAwait 0] [true]) 0 eq_refl)).
Qed.

Lemma cancel_not_lost_witness : (cancelled_poll 7 (WAwait 0) (sh w_parked_sys)).1 = WDone.
Proof.
  apply (cancel_not_lost w_parked_sys 0 (WAwait 0) w_parked_reach eq_refl); [reflexivity|].
  by intros H%list_elem_of_singleton.
Defined.
