(* ===== verification/Scheduler.v ===== *)
(** * Periodic jobs: [src/libs/scheduler.rs]

    The period of a job is an [Arc<RwLock<Duration>>] that the job shares with its
    triggers: a cell of a store, named by a number.  A spawned task is detached, so
    the loop of a job is a machine that only sleeps and spawns. *)

From S2P Require Import Prelude.

(** The cells, in nanoseconds. *)
Abbreviation durations := (list Z).

Section scheduler.
Context {Task : Type}.

Record adaptive_job := AdaptiveJob { job_duration : nat; job_task : Task }.
Record job_trigger := JobTrigger { trigger_duration : nat }.

Definition job_new (duration : Z) (task : Task) (ds : durations) : adaptive_job * durations :=
  (AdaptiveJob (length ds) task, ds ++ [duration]).

Definition job_set_duration (job : adaptive_job) (duration : Z) (ds : durations) : durations :=
  <[job_duration job := duration]> ds.
Definition get_trigger (job : adaptive_job) : job_trigger := JobTrigger (job_duration job).
Definition trigger_set_duration (t : job_trigger) (duration : Z) (ds : durations) : durations :=
  <[trigger_duration t := duration]> ds.

Record scheduler := Scheduler { pending_jobs : list adaptive_job }.

Definition scheduler_new : scheduler := Scheduler [].

Definition add_job (s : scheduler) (duration : Z) (task : Task) (ds : durations) : scheduler * durations :=
  let '(job, ds) := job_new duration task ds in (Scheduler (pending_jobs s ++ [job]), ds).

Definition add_adaptive_job (s : scheduler) (duration : Z) (task : Task) (ds : durations)
    : job_trigger * scheduler * durations :=
  let '(job, ds) := job_new duration task ds in
  (get_trigger job, Scheduler (pending_jobs s ++ [job]), ds).

(** ** [AdaptiveJob::run] *)

(** The sleep the job is in: since when, and for how long. *)
Record sleeping := Sleeping { since : Z; period : Z }.

(** A spawned task, and the sleep before it. *)
Record tick := MkTick { tk_task : Task; tk_sleep : sleeping; tk_at : Z }.

Definition read_duration (job : adaptive_job) (ds : durations) : Z := default 0%Z (ds !! job_duration job).

(** The top of the loop at time [now]. *)
Definition job_sleep (job : adaptive_job) (now : Z) (ds : durations) : sleeping :=
  Sleeping now (read_duration job ds).

(** One poll: [fired] is what the sleeps polled in it answer, one after the other; a
    poll ends at the first that is pending. *)
Fixpoint job_poll (job : adaptive_job) (now : Z) (ds : durations) (fired : list bool) (s : sleeping)
    : list tick * sleeping :=
  match fired with
  | true :: fired =>
      let '(ticks, s') := job_poll job now ds fired (job_sleep job now ds) in
      (MkTick (job_task job) s now :: ticks, s')
  | _ => ([], s)
  end.

(** A run: each poll at its time, with the cells as they are then. *)
Fixpoint job_run (job : adaptive_job) (polls : list (Z * durations * list bool)) (s : sleeping) : list tick * sleeping :=
  match polls with
  | [] => ([], s)
  | (now, ds, fired) :: polls =>
      let '(t1, s) := job_poll job now ds fired s in
      let '(t2, s) := job_run job polls s in
      (t1 ++ t2, s)
  end.

(** [Scheduler::spawn]: every job starts its loop. *)
Definition scheduler_spawn (s : scheduler) (now : Z) (ds : durations) : list (adaptive_job * sleeping) :=
  map (fun job => (job, job_sleep job now ds)) (pending_jobs s).

(** ** Properties *)

(** The sleeps of a run follow each other: each starts when the last task was
    spawned, and takes the period the cell held at that moment. *)
Fixpoint chained (job : adaptive_job) (polls : list (Z * durations * list bool)) (s : sleeping) (ticks : list tick) : Prop :=
  match ticks with
  | [] => True
  | t :: ticks =>
      tk_sleep t = s /\ tk_task t = job_task job
      /\ exists now ds fired, (now, ds, fired) ∈ polls /\ tk_at t = now
           /\ chained job polls (job_sleep job now ds) ticks
  end.

Lemma job_poll_chained job now ds fired : forall s polls ticks s' rest,
  job_poll job now ds fired s = (ticks, s') -> (exists f, (now, ds, f) ∈ polls) ->
  chained job polls s' rest -> chained job polls s (ticks ++ rest).
Proof.
  induction fired as [|[] fired IH]; intros s polls ticks s' rest; simpl; try by intros [= <- <-].
  destruct (job_poll job now ds fired (job_sleep job now ds)) as [ts s1] eqn:E. intros [= <- <-] [f Hf] Hr.
  simpl. split_and!; try done. exists now, ds, f. split_and!; try done. eapply IH; eauto.
Qed.

Lemma job_run_chained job all polls : forall s ticks s',
  polls ⊆ all -> job_run job polls s = (ticks, s') -> chained job all s ticks.
Proof.
  induction polls as [|[[now ds] fired] polls IH]; intros s ticks s' Hsub; simpl; [by intros [= <- _]|].
  destruct (job_poll job now ds fired s) as [t1 s1] eqn:E1, (job_run job polls s1) as [t2 s2] eqn:E2.
  intros [= <- _]. eapply job_poll_chained; [done|exists fired; apply Hsub; left|].
  eapply IH; [|done]. intros x Hx. apply Hsub. by right.
Qed.

(** The loop of a job.  Every task comes after one sleep; the first sleep starts
    with the loop and every other at the moment the task before it was spawned, whether
    that task has finished or not; and a sleep takes the period the cell holds when it
    starts, so a trigger takes effect from the next tick. *)
Theorem job_run_spec job polls s ticks s' :
  job_run job polls s = (ticks, s') -> chained job polls s ticks.
Proof. by apply job_run_chained. Qed.

(** A trigger reaches its own job and no other. *)
Theorem trigger_reaches_its_job s duration task ds t s' ds' d :
  Forall (fun job => job_duration job < length ds) (pending_jobs s) ->
  add_adaptive_job s duration task ds = (t, s', ds') ->
  map (fun job => read_duration job (trigger_set_duration t d ds')) (pending_jobs s')
  = map (fun job => read_duration job ds) (pending_jobs s) ++ [d].
Proof.
  intros Hf [= <- <- <-]. simpl. rewrite map_app. unfold read_duration, trigger_set_duration. simpl. f_equal.
  - apply map_ext_in. intros job Hj%list_elem_of_In. rewrite Forall_forall in Hf. specialize (Hf job Hj).
    by rewrite list_lookup_insert_ne, lookup_app_l by lia.
  - rewrite list_lookup_insert_eq; [done|]. rewrite length_app. simpl. lia.
Qed.
End scheduler.
