(* ===== verification/Accept.v ===== *)
(** * The accept loops: [serve_shard] and [serve_with] of [src/libs/ws/server.rs]

    A loop holds the live connections of one thread, each with its slot of the
    [connections] limit, and accepts new ones; it is a machine advanced by polls.
    What the listener, the timers, the stop and the connections answer in a poll is
    an input.  The shards share only the limits, so each access to them is a step of
    its own ([sys_step]). *)

From S2P Require Import Prelude ServerConfig Limits.

(** ** Durations, in nanoseconds *)

Definition backoff_min : Z := 10000000.
Definition backoff_max : Z := 1000000000.

(** [(backoff * 2).min(Duration::from_secs(1))]. *)
Definition backoff_next (backoff : Z) : Z := Z.min (backoff * 2) backoff_max.

(** ** A loop *)

Section accept_loop.
(** [A]: what [accept] yields; [C]: the future of a connection; [CI]: what happens in
    one poll of it.  [conn_poll] is [None] when the connection is over. *)
Context {A C CI : Type} (conn_new : A -> Z -> C) (conn_poll : C -> Z -> CI -> option C).
Context (config : ws_server_config).

(** The future [accepted]: in the sleep before the retry, or in [listener.accept()]. *)
Inductive accept_fut := ASleep (until : Z) | AAccept.

(** Where the loop is: waiting; in [acquire] for an accepted stream, with the count
    it saw and whether the warning is done; dropping its connections; returned. *)
Inductive loop_pc :=
  | PWait (accepted : accept_fut)
  | PAcquire (a : A) (current : option (nat * bool))
  | PDrop
  | PReturned.

Record loop := Loop {
  lp_connections : list C;
  lp_backoff : Z;
  lp_retry_at : option Z;
  lp_pc : loop_pc;
}.

(** The top of an iteration: a new [accepted] future. *)
Definition next_iteration (connections : list C) (backoff : Z) (retry_at : option Z) : loop :=
  Loop connections backoff retry_at (PWait (match retry_at with Some at_ => ASleep at_ | None => AAccept end)).

Definition loop_new : loop := next_iteration [] backoff_min None.

(** What happens in one poll: whether the stop is ready, whether the sleep is over,
    the answer of [accept], and the connections that are polled, by their place. *)
Record loop_in := LoopIn {
  li_now : Z;
  li_stop : bool;
  li_slept : bool;
  li_accept : option (result A string);
  li_conns : list (nat * CI);
}.

(** One poll of [accepted]: its output, and where it is if there is none. *)
Definition accepted_poll (f : accept_fut) (i : loop_in) : option (result A string) * accept_fut :=
  match f with
  | ASleep until => if li_slept i then (li_accept i, AAccept) else (None, ASleep until)
  | AAccept => (li_accept i, AAccept)
  end.

(** [connections.next()]: the woken connections are polled until one is over, and
    that one is removed. *)
Fixpoint next_poll (now : Z) (polls : list (nat * CI)) (cs : list C) : list C * bool :=
  match polls with
  | [] => (cs, false)
  | (k, ci) :: polls =>
      match cs !! k with
      | None => next_poll now polls cs
      | Some c =>
          match conn_poll c now ci with
          | None => (delete k cs, true)
          | Some c => next_poll now polls (<[k := c]> cs)
          end
      end
  end.

(** One step of a loop.  [select] takes its left arm when it is ready: the stop, then
    [accepted], then the connections. *)
Definition loop_step (i : loop_in) (lp : loop) (l : limit_state) : loop * limit_state * list limit_event :=
  let '(Loop cs backoff retry_at pc) := lp in
  match pc with
  | PWait f =>
      if li_stop i then (Loop cs backoff retry_at PDrop, l, [])
      else
        match accepted_poll f i with
        | (Some (Err _), _) => (next_iteration cs (backoff_next backoff) (Some (li_now i + backoff)%Z), l, [])
        | (Some (Ok a), _) => (Loop cs backoff_min None (PAcquire a None), l, [])
        | (None, f) =>
            match next_poll (li_now i) (li_conns i) cs with
            | (cs, true) => (next_iteration cs backoff retry_at, slot_drop "connections" l, [])
            | (cs, false) => (Loop cs backoff retry_at (PWait f), l, [])
            end
        end
  | PAcquire a None =>
      let '(l, current) := acquire_add Connections l in
      (Loop cs backoff retry_at (PAcquire a (Some (current, false))), l, [])
  | PAcquire a (Some (current, false)) =>
      let '(l, ev) := acquire_warn config Connections current l in
      (Loop cs backoff retry_at (PAcquire a (Some (current, true))), l, ev)
  | PAcquire a (Some (current, true)) =>
      let '(ok, l, ev) := acquire_decide config Connections current l in
      (next_iteration (if ok then cs ++ [conn_new a (li_now i)] else cs) backoff retry_at, l, ev)
  | PDrop =>
      match cs with
      | [] => (Loop [] backoff retry_at PReturned, l, [])
      | _ :: cs => (Loop cs backoff retry_at PDrop, slot_drop "connections" l, [])
      end
  | PReturned => (lp, l, [])
  end.

(** [serve_with] has no stop. *)
Definition serve_with_step (i : loop_in) (lp : loop) (l : limit_state) : loop * limit_state * list limit_event :=
  loop_step (LoopIn (li_now i) false (li_slept i) (li_accept i) (li_conns i)) lp l.

(** ** The shards together *)

Record shards := Shards { sh_limits : limit_state; sh_loops : list loop; sh_events : list limit_event }.

Inductive sys_step : shards -> shards -> Prop :=
  | sys_loop x k lp i lp' l ev :
      sh_loops x !! k = Some lp -> loop_step i lp (sh_limits x) = (lp', l, ev) ->
      sys_step x (Shards l (<[k := lp']> (sh_loops x)) (sh_events x ++ ev)).

Inductive sys_reach (n : nat) : shards -> Prop :=
  | sys_init : sys_reach n (Shards limit_default (replicate n loop_new) [])
  | sys_more x y : sys_reach n x -> sys_step x y -> sys_reach n y.

(** *** The limit system they implement *)

Definition loop_pending (lp : loop) : list (nat * bool) :=
  match lp_pc lp with PAcquire _ (Some p) => [p] | _ => [] end.

Definition live (x : shards) : nat := sum_list_with (fun lp => length (lp_connections lp)) (sh_loops x).
Definition attempts (x : shards) : list (nat * bool) := flat_map loop_pending (sh_loops x).

Definition implements (x : shards) (a : lsys) : Prop :=
  state a = sh_limits x /\ pending a ≡ₚ attempts x /\ held a = live x /\ events a = sh_events x.

(** ** Lemmas *)

Lemma next_poll_length now polls : forall cs cs' b,
  next_poll now polls cs = (cs', b) -> length cs = (if b then S (length cs') else length cs').
Proof.
  induction polls as [|[k ci] polls IH]; intros cs cs' b; simpl; [by intros [= <- <-]|].
  destruct (cs !! k) as [c|] eqn:Hk; [|by apply IH]. destruct (conn_poll c now ci) as [c'|].
  - intros H%IH. by rewrite length_insert in H.
  - intros [= <- <-]. apply lookup_lt_Some in Hk. rewrite length_delete; [lia|by apply lookup_lt_is_Some_2].
Qed.

Lemma insert_split {B} (l : list B) k x y :
  l !! k = Some x -> exists l1 l2, l = l1 ++ x :: l2 /\ <[k := y]> l = l1 ++ y :: l2.
Proof.
  intros Hk. exists (take k l), (drop (S k) l). split; [by rewrite take_drop_middle|].
  apply insert_take_drop. by eapply lookup_lt_Some.
Qed.

(** What a step of one loop is to the limits. *)
Lemma loop_step_cases i lp l lp' l' ev :
  loop_step i lp l = (lp', l', ev) ->
  (l' = l /\ ev = [] /\ loop_pending lp' = loop_pending lp /\ length (lp_connections lp') = length (lp_connections lp))
  \/ (l' = slot_drop "connections" l /\ ev = [] /\ loop_pending lp' = loop_pending lp
      /\ length (lp_connections lp) = S (length (lp_connections lp')))
  \/ (exists current, acquire_add Connections l = (l', current) /\ ev = [] /\ loop_pending lp = []
      /\ loop_pending lp' = [(current, false)] /\ lp_connections lp' = lp_connections lp)
  \/ (exists current, acquire_warn config Connections current l = (l', ev) /\ loop_pending lp = [(current, false)]
      /\ loop_pending lp' = [(current, true)] /\ lp_connections lp' = lp_connections lp)
  \/ (exists current ok, acquire_decide config Connections current l = (ok, l', ev)
      /\ loop_pending lp = [(current, true)] /\ loop_pending lp' = []
      /\ length (lp_connections lp') = (if ok then S (length (lp_connections lp)) else length (lp_connections lp))).
Proof.
  destruct lp as [cs b r [f|a [[current []]|]| |]]; simpl.
  - destruct (li_stop i); [intros [= <- <- <-]; by left|].
    destruct (accepted_poll f i) as [[[a|e]|] f']; [intros [= <- <- <-]; by left|intros [= <- <- <-]; by left|].
    destruct (next_poll (li_now i) (li_conns i) cs) as [cs' []] eqn:E; apply next_poll_length in E;
      intros [= <- <- <-]; [right; left|left]; done.
  - destruct (acquire_decide config Connections current l) as [[ok l1] ev1] eqn:E. intros [= <- <- <-].
    do 4 right. exists current, ok. split_and!; try done. destruct ok; simpl; [rewrite length_app; simpl; lia|done].
  - destruct (acquire_warn config Connections current l) as [l1 ev1] eqn:E. intros [= <- <- <-].
    do 3 right. left. by exists current.
  - intros [= <- <- <-]. do 2 right. left. by exists (S (counter Connections l)).
  - destruct cs as [|c cs]; intros [= <- <- <-]; [by left|right; by left].
  - intros [= <- <- <-]. by left.
Qed.

(** The step of one loop in the whole: what the others hold is unchanged. *)
Lemma sys_split x k lp lp' l ev :
  sh_loops x !! k = Some lp ->
  exists rest others, attempts x ≡ₚ loop_pending lp ++ rest /\ live x = length (lp_connections lp) + others
    /\ attempts (Shards l (<[k := lp']> (sh_loops x)) ev) ≡ₚ loop_pending lp' ++ rest
    /\ live (Shards l (<[k := lp']> (sh_loops x)) ev) = length (lp_connections lp') + others.
Proof.
  intros Hk. destruct (insert_split (sh_loops x) k lp lp' Hk) as (l1 & l2 & E & E').
  exists (flat_map loop_pending (l1 ++ l2)), (sum_list_with (fun lp => length (lp_connections lp)) (l1 ++ l2)).
  unfold attempts, live. simpl. rewrite E', E, !flat_map_app, !sum_list_with_app. simpl.
  split_and!; [|lia| |lia]; rewrite (Permutation_app_swap_app (flat_map _ _)); done.
Qed.

Lemma sys_step_simulates x y a :
  sys_step x y -> implements x a ->
  exists b, implements y b /\ (b = a \/ lstep config Connections a b).
Proof.
  intros [x' k lp i lp' l ev Hk Hs] (Hst & Hp & Hh & He).
  destruct (sys_split x' k lp lp' l (sh_events x' ++ ev) Hk) as (rest & others & Ha & Hl & Ha' & Hl').
  set (y' := Shards l _ _) in *. rewrite Hl in Hh. rewrite Ha in Hp. clear Ha Hl.
  destruct (loop_step_cases _ _ _ _ _ _ Hs) as
    [(-> & -> & Hpe & Hle)|[(-> & -> & Hpe & Hle)|[(cur & Hadd & -> & Hpe & Hpe' & Hle)|
     [(cur & Hw & Hpe & Hpe' & Hle)|(cur & ok & Hd & Hpe & Hpe' & Hle)]]]].
  - exists a. split; [|by left]. split_and!; [done|by rewrite Ha', Hpe, Hp|lia|simpl; by rewrite app_nil_r].
  - exists (Lsys (slot_drop (slot_name Connections) (state a)) (pending a) (held a - 1) (events a)). split.
    + split_and!; simpl; [by rewrite Hst|by rewrite Ha', Hpe, Hp|lia|by rewrite app_nil_r].
    + right. apply step_release. lia.
  - exists (Lsys l ((cur, false) :: pending a) (held a) (events a)). split.
    + split_and!; simpl; [done|by rewrite Ha', Hpe', Hp, Hpe|rewrite Hl', Hle; lia|by rewrite app_nil_r].
    + right. apply step_add. by rewrite Hst.
  - rewrite Hpe in Hp. simpl in Hp. apply Permutation_cons_inv_r in Hp as (l1 & l2 & E & Hp).
    exists (Lsys l (l1 ++ (cur, true) :: l2) (held a) (events a ++ ev)). split.
    + split_and!; simpl; [done| |rewrite Hl', Hle; lia|by rewrite He].
      rewrite Ha', Hpe', Hp. simpl. by rewrite Permutation_middle.
    + right. by apply step_warn with (current := cur); [|rewrite Hst].
  - rewrite Hpe in Hp. simpl in Hp. apply Permutation_cons_inv_r in Hp as (l1 & l2 & E & Hp).
    exists (Lsys l (l1 ++ l2) (if ok then S (held a) else held a) (events a ++ ev)). split.
    + split_and!; simpl; [done| |rewrite Hl', Hle; destruct ok; lia|by rewrite He].
      by rewrite Ha', Hpe', Hp.
    + right. by apply step_decide with (current := cur); [|rewrite Hst].
Qed.

Lemma sys_reach_implements n x : sys_reach n x -> exists a, lreach config Connections a /\ implements x a.
Proof.
  induction 1 as [|x y _ (a & Ha & Hi) Hs].
  - exists (Lsys limit_default [] 0 []). split; [constructor|]. unfold implements, attempts, live. simpl.
    split_and!; try done; clear; induction n; simpl; done.
  - destruct (sys_step_simulates x y a Hs Hi) as (b & Hb & [->|Hab]); eauto using lreach_step.
Qed.

(** A loop that has returned holds nothing. *)
Definition returned_empty (lp : loop) : Prop := lp_pc lp = PReturned -> lp_connections lp = [].

Lemma returned_empty_reach n x : sys_reach n x -> Forall returned_empty (sh_loops x).
Proof.
  induction 1 as [|x y _ IH Hy]; [by apply Forall_replicate|].
  - destruct Hy as [x k lp i lp' l ev Hk Hs]. simpl. apply Forall_insert; [done|]. rewrite Forall_lookup in IH. specialize (IH k lp Hk). unfold returned_empty in *.
    destruct lp as [cs b r [f|a [[current []]|]| |]]; simpl in *; repeat case_match; simplify_eq; simpl; try done.
    all: unfold next_iteration; simpl; done.
Qed.

(** The counter, and the live connections it stands for. *)
Lemma sys_reach_books n x :
  sys_reach n x ->
  (forall c, max_connections config = Some c -> live x <= c)
  /\ counter Connections (sh_limits x) = length (attempts x) + live x
  /\ (Forall (fun lp => lp_pc lp = PReturned) (sh_loops x) -> length (attempts x) + live x = 0).
Proof.
  intros Hx. pose proof (returned_empty_reach n x Hx) as Hr.
  destruct (sys_reach_implements n x Hx) as (a & Ha & Hi).
  destruct Hi as (Hst & Hp & Hh & _). apply lreach_inv in Ha as (Hc & Hcap & _).
  rewrite Hst, Hp, Hh in Hc. split_and!; [|done|].
  - intros c Hk. specialize (Hcap c Hk). lia.
  - intros Hf. unfold attempts, live. clear - Hf Hr.
    induction (sh_loops x) as [|lp lps IH]; [done|]. inversion_clear Hf as [|? ? Hp Hf'].
    inversion_clear Hr as [|? ? He Hr']. simpl. unfold loop_pending at 1. rewrite Hp. simpl.
    rewrite (He Hp). simpl. by apply IH.
Qed.

(** ** Properties *)

(** C16: the accept loops implement the connection limit.  Whatever the
    listeners, the stops and the connections of any number of shards do, and however
    the shards interleave at the accesses of the shared counter, what happens is a run
    of the limit system in which the slots held are the live connections.  So the live
    connections of all shards never exceed the maximum, the counter is exactly the
    live connections plus the accepts being decided, and when every loop has returned
    it is zero again: a connection that ends, or is dropped by a stop, returns its
    slot. *)
Theorem connection_cap n x :
  sys_reach n x ->
  (exists a, lreach config Connections a /\ implements x a)
  /\ (forall c, max_connections config = Some c -> live x <= c)
  /\ counter Connections (sh_limits x) = length (attempts x) + live x
  /\ (Forall (fun lp => lp_pc lp = PReturned) (sh_loops x) -> counter Connections (sh_limits x) = 0).
Proof.
  intros Hx. destruct (sys_reach_books n x Hx) as (Hcap & Hc & Hf).
  split_and!; [by eapply sys_reach_implements|done|done|]. intros Hr. rewrite Hc. by apply Hf.
Qed.

(** ** Retries after a failed accept *)

(** The [k]-th delay: 10 ms doubled [k] times, at most a second. *)
Definition delay (k : nat) : Z := Z.min (backoff_min * 2 ^ Z.of_nat k) backoff_max.

Lemma delay_next k : backoff_next (delay k) = delay (S k).
Proof.
  unfold backoff_next, delay, backoff_min, backoff_max. rewrite Nat2Z.inj_succ, Z.pow_succ_r by lia.
  pose proof (Z.pow_pos_nonneg 2 (Z.of_nat k)). lia.
Qed.

Lemma delay_zero : delay 0 = backoff_min.
Proof. reflexivity. Qed.

(** The answer of [accept] that a step consumes. *)
Definition accept_result (i : loop_in) (lp : loop) : option bool :=
  match lp_pc lp with
  | PWait f => if li_stop i then None else option_map is_ok (accepted_poll f i).1
  | _ => None
  end.

(** A run of one loop, with whatever the other shards do to the limits in between.
    The clock does not go back and a sleep does not end early ([slept_ok]); the
    history is the answers consumed, the newest first, with their times. *)
Definition slept_ok (i : loop_in) (lp : loop) : Prop :=
  forall until, lp_pc lp = PWait (ASleep until) -> li_slept i = true -> (until <= li_now i)%Z.

Inductive loop_run (t0 : Z) : Z -> loop -> list (Z * bool) -> Prop :=
  | run_init : loop_run t0 t0 loop_new []
  | run_step t lp h i l lp' l' ev :
      loop_run t0 t lp h -> (t <= li_now i)%Z -> slept_ok i lp ->
      loop_step i lp l = (lp', l', ev) ->
      loop_run t0 (li_now i) lp'
        (match accept_result i lp with Some ok => (li_now i, ok) :: h | None => h end).

(** The failures since the last success. *)
Fixpoint failures (h : list (Z * bool)) : nat :=
  match h with (_, false) :: h => S (failures h) | _ => 0 end.

(** Every answer that follows failures comes their delay later. *)
Fixpoint spaced (h : list (Z * bool)) : Prop :=
  match h with
  | (t', _) :: ((t, false) :: h') as rest => (t + delay (failures h') <= t')%Z /\ spaced rest
  | _ :: rest => spaced rest
  | [] => True
  end.

(** When the next [accept] may be called. *)
Definition not_before (h : list (Z * bool)) : option Z :=
  match h with (t, false) :: h' => Some (t + delay (failures h'))%Z | _ => None end.

(** While the loop waits or accepts, its fields say what the history says. *)
Definition loop_inv (t : Z) (lp : loop) (h : list (Z * bool)) : Prop :=
  spaced h
  /\ match lp_pc lp with
     | PWait f =>
         lp_backoff lp = delay (failures h) /\ lp_retry_at lp = not_before h
         /\ forall at_, not_before h = Some at_ -> f = ASleep at_ \/ (f = AAccept /\ (at_ <= t)%Z)
     | PAcquire _ _ => lp_backoff lp = delay (failures h) /\ lp_retry_at lp = None /\ not_before h = None
     | _ => True
     end.

Lemma spaced_cons t ok h : spaced h -> (forall at_, not_before h = Some at_ -> (at_ <= t)%Z) -> spaced ((t, ok) :: h).
Proof. destruct h as [|[t1 []] h]; simpl; try done. intros Hs Hn. split; [by apply Hn|done]. Qed.

Lemma next_iteration_inv t cs h b r :
  spaced h -> b = delay (failures h) -> r = not_before h -> loop_inv t (next_iteration cs b r) h.
Proof. intros Hs -> ->. split; [done|]. simpl. split_and!; try done. intros at_ ->. by left. Qed.

Lemma loop_step_inv t lp h i l lp' l' ev :
  loop_inv t lp h -> (t <= li_now i)%Z -> slept_ok i lp -> loop_step i lp l = (lp', l', ev) ->
  loop_inv (li_now i) lp' (match accept_result i lp with Some ok => (li_now i, ok) :: h | None => h end).
Proof.
  destruct lp as [cs b r [f|a [[current []]|]| |]]; intros [Hsp Hi] Ht Hsl; simpl in *; unfold accept_result; simpl.
  - destruct Hi as (-> & -> & Hf). destruct (li_stop i); [by intros [= <- _ _]|].
    assert (Hready : forall res, (accepted_poll f i).1 = Some res -> forall at_, not_before h = Some at_ -> (at_ <= li_now i)%Z).
    { intros res Hr at_ Hat. destruct (Hf at_ Hat) as [->|[-> ?]]; [|lia]. simpl in Hr.
      destruct (li_slept i) eqn:E; [|done]. by apply (Hsl at_). }
    destruct (accepted_poll f i) as [[[a|e]|] f'] eqn:E; simpl in *.
    + intros [= <- _ _]. split; [by eapply spaced_cons; [|eauto]|]. done.
    + intros [= <- _ _]. apply next_iteration_inv; [by eapply spaced_cons; [|eauto]|by rewrite delay_next|done].
    + destruct (next_poll (li_now i) (li_conns i) cs) as [cs' []]; intros [= <- _ _].
      * by apply next_iteration_inv.
      * split; [done|]. simpl. split_and!; try done. intros at_ Hat.
        destruct (Hf at_ Hat) as [->|[-> ?]]; simpl in E.
        -- destruct (li_slept i) eqn:Es; simplify_eq; [right; split; [done|by apply Hsl]|by left].
        -- simplify_eq. right. split; [done|lia].
  - destruct Hi as (-> & -> & Hn). destruct (acquire_decide config Connections current l) as [[ok l1] ev1].
    intros [= <- _ _]. by apply next_iteration_inv.
  - destruct (acquire_warn config Connections current l) as [l1 ev1]. by intros [= <- _ _].
  - by intros [= <- _ _].
  - destruct cs; by intros [= <- _ _].
  - by intros [= <- _ _].
Qed.

Lemma loop_run_inv t0 t lp h : loop_run t0 t lp h -> loop_inv t lp h.
Proof. induction 1; [split; [done|]; simpl; split_and!; try done|by eapply loop_step_inv]. Qed.

(** Failed accepts are spaced out.  In every run of a loop, after the
    [k]-th failure in a row [accept] is not called again for [10 * 2^(k-1)] ms, or a
    second if that is more, however many connections end in the meantime (each of
    which restarts the wait); a success ends the delay, also of a connection that the
    limit then refuses. *)
Theorem accept_retries_spaced t0 t lp h :
  loop_run t0 t lp h ->
  spaced h
  /\ forall i, (t <= li_now i)%Z -> slept_ok i lp -> is_Some (accept_result i lp) ->
       forall at_, not_before h = Some at_ -> (at_ <= li_now i)%Z.
Proof.
  intros Hr. pose proof (loop_run_inv _ _ _ _ Hr) as [Hs _]. split; [done|].
  intros i Ht Hsl [ok Hok] at_ Hat. destruct (loop_step i lp limit_default) as [[lp' l'] ev] eqn:E.
  pose proof (loop_run_inv _ _ _ _ (run_step t0 t lp h i limit_default lp' l' ev Hr Ht Hsl E)) as [Hs' _].
  rewrite Hok in Hs'. destruct h as [|[t1 []] h]; try done. injection Hat as <-. by destruct Hs'.
Qed.

(** Steps one after the other. *)
Fixpoint loop_steps (ins : list loop_in) (lp : loop) (l : limit_state) : loop * limit_state :=
  match ins with
  | [] => (lp, l)
  | i :: ins => let '(lp, l, _) := loop_step i lp l in loop_steps ins lp l
  end.

(** [accept] answers whenever it is asked, and no stop comes. *)
Definition accept_ready (i : loop_in) : Prop := li_stop i = false /\ li_slept i = true /\ is_Some (li_accept i).

Definition accepting (lp : loop) : Prop := match lp_pc lp with PWait _ | PAcquire _ _ => True | _ => False end.

(** A ready accept goes before the connections.  As long as
    [accept] always has an answer (a peer that keeps connecting is enough, refused or
    not), no live connection is polled, however many of them have been woken: after
    any number of steps their futures are what they were. *)
Theorem ready_accepts_starve ins lp l :
  Forall accept_ready ins -> accepting lp ->
  lp_connections lp `prefix_of` lp_connections (loop_steps ins lp l).1.
Proof.
  intros Hf. revert lp l. induction Hf as [|i ins (Hst & Hsl & [r Hr]) Hf IH]; intros lp l Ha; simpl; [done|].
  destruct (loop_step i lp l) as [[lp' l'] ev] eqn:E.
  assert (Hstep : lp_connections lp `prefix_of` lp_connections lp' /\ accepting lp').
  { destruct lp as [cs b rt [f|a [[current []]|]| |]]; simpl in *; try done.
    - rewrite Hst in E. assert (Hp : (accepted_poll f i) = (Some r, AAccept)) by (destruct f; simpl; by rewrite ?Hsl, Hr).
      rewrite Hp in E. destruct r; injection E as <- _ _; done.
    - destruct (acquire_decide config Connections current l) as [[[] l1] ev1]; injection E as <- _ _; simpl; [|done].
      split; [by apply prefix_app_r|done].
    - destruct (acquire_warn config Connections current l). by injection E as <- _ _.
    - by injection E as <- _ _. }
  destruct Hstep. etransitivity; [done|by apply IH].
Qed.
End accept_loop.

(** ** The connections of [serve_shard] *)

(** [default_upgrader] and [set_upgrader]; [ws] is the feature, [nago_wss] the upgrader it
    brings. *)
Definition default_upgrader {U} (ws : bool) (nago_wss : U) : option U := if ws then Some nago_wss else None.
Definition set_upgrader {U} (upgrader : U) (old : option U) : option U := Some upgrader.

(** What [handle_ws_handshake_and_connection] answers when it cannot upgrade; without the
    feature it is another function, which never can. *)
Definition no_ws_feature : string :=
  "WebSocket upgrades require a backend that can create WS streams (enable the `ws` feature)".
Definition upgrade_refusal {U} (ws : bool) (upgrader : option U) : option string :=
  if ws then
    match upgrader with
    | Some _ => None
    | None => Some "No WS backend configured; call set_upgrader() before listen()"
    end
  else Some no_ws_feature.

(** A server built with the feature upgrades, whatever upgrader is set on it; one built
    without it never does, even with an upgrader of its own. *)
Lemma upgrades_with_feature {U} (ws : bool) (nago_wss : U) (set : option U) :
  let upgrader := match set with Some u => set_upgrader u (default_upgrader ws nago_wss) | None => default_upgrader ws nago_wss end in
  upgrade_refusal ws upgrader = None <-> ws = true.
Proof. destruct ws, set; simpl; split; congruence. Qed.

Section shard_connection.
(** [Chan]: the accepted stream; [Event]: an upgrade ([UpgradeEvent]); [refusal]: why
    the server cannot upgrade ([upgrade_refusal]), if it cannot. *)
Context {Chan Event : Type} (refusal : option string).

Inductive conn_end :=
  | EHandshake (err : string)   (* logged, and the future returns *)
  | EUpgrade (err : string)
  | EAnswered                   (* answered in HTTP, without a session *)
  | EServed.

(** Where the future is; a wait under a deadline has the time its timer fires. *)
Inductive conn_stage :=
  | SNew (stream : Chan)
  | SHandshake (timer : option Z)
  | SUpgrade (timer : option Z)
  | SServe (event : Event)
  | SOver (how : conn_end).

Record shard_conn := ShardConn { sc_deadline : option Z; sc_stage : conn_stage }.

(** Pushed by the loop at [now]: the deadline starts at the accept. *)
Definition shard_conn_new (handshake_timeout : option Z) (stream : Chan) (now : Z) : shard_conn :=
  ShardConn (option_map (fun timeout => now + timeout)%Z handshake_timeout) (SNew stream).

(** [end.saturating_duration_since(now)], and the timer of [nagoya::timeout] that
    starts now. *)
Definition remaining (deadline : option Z) (now : Z) : option Z := option_map (fun end_ => Z.max 0 (end_ - now)) deadline.
Definition timer_from (deadline : option Z) (now : Z) : option Z := option_map (fun d => now + d)%Z (remaining deadline now).

(** What a wait under a deadline answers in a poll. *)
Inductive wait_in (R : Type) := WOutput (r : R) | WExpired | WPending.
Arguments WOutput {R} _.
Arguments WExpired {R}.
Arguments WPending {R}.

(** [with_deadline(remaining, future).await.and_then(|result| result)]; without a
    deadline there is no timer to expire. *)
Definition wait_poll {R} (timer : option Z) (w : wait_in (result R string)) : option (result R string) :=
  match w, timer with
  | WOutput r, _ => Some r
  | WExpired, Some _ => Some (Err "connection deadline exceeded")
  | WExpired, None | WPending, _ => None
  end.

Record conn_in := ConnIn {
  ci_handshake : wait_in (result Chan string);
  ci_upgrade : wait_in (result (option Event) string);
  ci_served : bool;
}.

(** The stages the future can pass in one poll. *)
Definition start (c : shard_conn) (now : Z) : conn_stage :=
  match sc_stage c with SNew _ => SHandshake (timer_from (sc_deadline c) now) | s => s end.

Definition handshake_poll (deadline : option Z) (now : Z) (i : conn_in) (s : conn_stage) : conn_stage :=
  match s with
  | SHandshake timer =>
      match wait_poll timer (ci_handshake i) with
      | None => SHandshake timer
      | Some (Err err) => SOver (EHandshake err)
      | Some (Ok _) =>
          match refusal with
          | None => SUpgrade (timer_from deadline now)
          | Some err => SOver (EUpgrade err)
          end
      end
  | s => s
  end.

Definition upgrade_poll (i : conn_in) (s : conn_stage) : conn_stage :=
  match s with
  | SUpgrade timer =>
      match wait_poll timer (ci_upgrade i) with
      | None => SUpgrade timer
      | Some (Err err) => SOver (EUpgrade err)
      | Some (Ok None) => SOver EAnswered
      | Some (Ok (Some event)) => SServe event
      end
  | s => s
  end.

Definition served_poll (i : conn_in) (s : conn_stage) : conn_stage :=
  match s with SServe event => if ci_served i then SOver EServed else SServe event | s => s end.

Definition conn_stage_poll (c : shard_conn) (now : Z) (i : conn_in) : conn_stage :=
  served_poll i (upgrade_poll i (handshake_poll (sc_deadline c) now i (start c now))).

Definition shard_conn_poll (c : shard_conn) (now : Z) (i : conn_in) : option shard_conn :=
  match conn_stage_poll c now i with
  | SOver _ => None
  | s => Some (ShardConn (sc_deadline c) s)
  end.

(** [serve_shard]: its loop, over these connections. *)
Definition serve_shard_step (config : ws_server_config) :=
  loop_step (shard_conn_new (handshake_timeout config)) shard_conn_poll config.

(** ** The handshake budget *)

(** A connection as it can be at time [now]: its timer, if it is in a wait, fires at
    the deadline, or fired when the wait began after it. *)
Definition conn_wf (now : Z) (c : shard_conn) : Prop :=
  match sc_stage c with
  | SHandshake timer | SUpgrade timer =>
      match sc_deadline c, timer with
      | Some d, Some t => (t <= Z.max d now)%Z
      | None, None => True
      | _, _ => False
      end
  | _ => True
  end.

(** nagoya's timer fires: a wait whose time has come is not pending. *)
Definition fires {R} (timer : option Z) (now : Z) (w : wait_in R) : Prop :=
  forall t, timer = Some t -> (t <= now)%Z -> w <> WPending.

Definition timers_fire (c : shard_conn) (now : Z) (i : conn_in) : Prop :=
  (forall timer, start c now = SHandshake timer -> fires timer now (ci_handshake i))
  /\ (forall timer, handshake_poll (sc_deadline c) now i (start c now) = SUpgrade timer -> fires timer now (ci_upgrade i)).

Lemma timer_from_spec deadline now :
  timer_from deadline now = option_map (fun d => Z.max d now) deadline.
Proof. unfold timer_from, remaining. destruct deadline as [d|]; simpl; [|done]. f_equal. lia. Qed.

Lemma start_wf c now t : conn_wf t c -> (t <= now)%Z -> conn_wf now (ShardConn (sc_deadline c) (start c now)).
Proof.
  destruct c as [d [s|timer|timer|e|h]]; unfold conn_wf; simpl; try done; rewrite ?timer_from_spec.
  - destruct d as [d|]; simpl; [lia|done].
  - destruct d, timer; simpl; lia || done.
  - destruct d, timer; simpl; lia || done.
Qed.

Lemma handshake_wf d now i s :
  conn_wf now (ShardConn d s) -> conn_wf now (ShardConn d (handshake_poll d now i s)).
Proof.
  destruct s as [s|timer|timer|e|h]; simpl; try done. intros Hw.
  destruct (wait_poll timer (ci_handshake i)) as [[ch|err]|]; [|done..].
  destruct refusal; [done|]. unfold conn_wf. simpl. rewrite timer_from_spec. destruct d; simpl; [lia|done].
Qed.

Lemma conn_poll_wf c now t i : conn_wf t c -> (t <= now)%Z -> conn_wf now (ShardConn (sc_deadline c) (conn_stage_poll c now i)).
Proof.
  intros Hw Ht. pose proof (handshake_wf (sc_deadline c) now i _ (start_wf c now t Hw Ht)) as Hh.
  unfold conn_stage_poll. destruct (handshake_poll (sc_deadline c) now i (start c now)) as [s|timer|timer|e|h]; simpl; try done.
  - destruct (wait_poll timer (ci_upgrade i)) as [[[ev|]|err]|]; simpl; try done. by destruct (ci_served i).
  - by destruct (ci_served i).
Qed.

(** A wait of a well-formed connection whose deadline has passed is over. *)
Lemma wait_over {R} d timer now (w : wait_in (result R string)) :
  (timer = Some d)%Z -> (d <= now)%Z -> fires timer now w -> is_Some (wait_poll timer w).
Proof. intros -> Hd Hf. destruct w as [r| |]; simpl; eauto. by destruct (Hf d). Qed.

End shard_connection.

(** ** The connections of [serve_with]

    Already established: the future is [serve_connection] under the slot. *)
Section local_connection.
Context {A : Type}.

Definition local_conn_poll (c : A) (now : Z) (served : bool) : option A := if served then None else Some c.

(** [serve_with]: the check before the loop, then its loop. *)
Definition serve_with_start (config : ws_server_config) (mcp_enabled : bool) : result (@loop A A) string :=
  let* _ := validate_protocol_mode config mcp_enabled in Ok loop_new.
Definition serve_with_poll (config : ws_server_config) :=
  serve_with_step (fun (a : A) (_ : Z) => a) local_conn_poll config.
End local_connection.

(** *** Witnesses: two shards, a limit of one connection *)

Abbreviation w_loop := (@loop nat (@shard_conn nat unit)).
Abbreviation w_loop_in := (@loop_in nat (@conn_in nat unit)).

Fixpoint sys_run (config : ws_server_config) (steps : list (nat * w_loop_in)) (x : @shards nat (@shard_conn nat unit))
    : @shards nat (@shard_conn nat unit) :=
  match steps with
  | [] => x
  | (k, i) :: steps =>
      match sh_loops x !! k with
      | None => sys_run config steps x
      | Some lp =>
          let '(lp, l, ev) := serve_shard_step None config i lp (sh_limits x) in
          sys_run config steps (Shards l (<[k := lp]> (sh_loops x)) (sh_events x ++ ev))
      end
  end.

Lemma sys_run_reach config n steps : forall x,
  sys_reach (shard_conn_new (handshake_timeout config)) (shard_conn_poll None) config n x ->
  sys_reach (shard_conn_new (handshake_timeout config)) (shard_conn_poll None) config n (sys_run config steps x).
Proof.
  induction steps as [|[k i] steps IH]; intros x Hx; simpl; [done|].
  destruct (sh_loops x !! k) as [lp|] eqn:Hk; [|by apply IH].
  destruct (serve_shard_step None config i lp (sh_limits x)) as [[lp' l] ev] eqn:E.
  apply IH. eapply sys_more; [done|]. by eapply sys_loop.
Qed.

Definition w_accept (now : Z) : w_loop_in := LoopIn now false true (Some (Ok 7)) [].
Definition w_idle (now : Z) : w_loop_in := LoopIn now false false None [].
Definition w_fail (now : Z) : w_loop_in := LoopIn now false true (Some (Err "EMFILE")) [].

(** Both shards accept; the second is refused. *)
Definition w_shards := sys_run w_config
  [(0, w_accept 1); (1, w_accept 1); (0, w_idle 2); (1, w_idle 2); (0, w_idle 2); (1, w_idle 2); (0, w_idle 3); (1, w_idle 3)]
  (Shards limit_default (replicate 2 loop_new) []).

Lemma connection_cap_witness : live w_shards <= 1 /\ live w_shards = 1 /\ counter Connections (sh_limits w_shards) = 1.
Proof.
  destruct (connection_cap (shard_conn_new (handshake_timeout w_config)) (shard_conn_poll None) w_config 2 w_shards) as (_ & Hc & Hn & _).
  - apply sys_run_reach. apply sys_init.
  - split; [by apply Hc|]. split; [vm_compute; reflexivity|]. rewrite Hn. vm_compute. reflexivity.
Defined.

(** A failure at 5 ns: the next accept is not before 10 ms and 5 ns. *)
Definition w_failed : w_loop := (serve_shard_step None w_config (w_fail 5) loop_new limit_default).1.1.

Lemma accept_retries_spaced_witness : spaced [(5, false)%Z] /\ not_before [(5, false)%Z] = Some 10000005%Z.
Proof.
  split; [|reflexivity].
  refine (proj1 (accept_retries_spaced (shard_conn_new (handshake_timeout w_config)) (shard_conn_poll None) w_config
                   0 5 w_failed [(5, false)%Z] _)).
  refine (run_step _ _ _ 0 0 loop_new [] (w_fail 5) limit_default w_failed limit_default [] (run_init _ _ _ 0) _ _ eq_refl).
  - simpl. lia.
  - intros u Hu. discriminate Hu.
Defined.

Definition w_live : w_loop := next_iteration [ShardConn None (SServe tt)] backoff_min None.

Lemma ready_accepts_starve_witness :
  [ShardConn None (SServe tt)] `prefix_of`
  lp_connections (loop_steps (shard_conn_new None) (shard_conn_poll None) w_config
                    (repeat (LoopIn 9 false true (Some (Ok 7)) [(0, ConnIn (WPending _) (WPending _) true)]) 9) w_live limit_default).1.
Proof.
  apply (ready_accepts_starve (shard_conn_new None) (shard_conn_poll None) w_config _ w_live limit_default).
  - repeat constructor; by eexists.
  - exact I.
Defined.

(** A peer that never finishes the handshake: over at its deadline. *)
Definition w_slow : @shard_conn nat unit := shard_conn_new (Some 100%Z) 7 0.

