(* ===== verification/Whole.v ===== *)
(** * The whole server: [src/libs/ws/server.rs]

    [Accept] models the loops of [serve_shard] that accept connections and hold a slot for
    each, [Server] the connections that are being served, over their shared table.  Here
    they are put together: the future a loop holds for an accepted connection is first in
    its handshake and its upgrade, then it is a connection of [Server].  The loops of all
    shards, the connections and the rest of the process take steps in any order.  (Of the
    shared [WsLimits] the loops use the counter of connections, the sessions the counter
    of requests in flight.)

    The connection table is then bounded by the limit of the accept loops, which never
    look at it, and a server that has stopped has returned everything. *)

From S2P Require Import Prelude BMap Json ModelTypes ErrorCode Peer Message Outbound ServerConfig Limits Basics Toolbox Mcp Handler Headers Request Session Keeps Slots Connection Server Accept.
From stdpp Require Import relations.

(** ** The connections the loops are serving

    The future of an accepted connection is [shard_conn], at [SServe] from the upgrade on;
    the event it then has says which connection of the fleet it serves. *)

Section whole.
Context {Chan V Req HS BS AS : Type}.
Context (to_string : ws_response -> result string string) (render : json -> string).
Context (parse_json : bytes -> option json) (serde_error : json -> string).
Context (parse_request : bytes -> result ws_request string).
Context (server : @server V Req HS BS AS) (refusal : option string).

Abbreviation config := (sv_config server).
Abbreviation conn := (@shard_conn Chan nat).
Abbreviation loop := (@loop Chan conn).
Abbreviation shards := (@shards Chan conn).
Abbreviation fleet := (@fleet V Req HS BS AS).
Abbreviation life := (@life V Req HS BS AS).
Abbreviation fleet_step := (fleet_step to_string render parse_json serde_error parse_request server).
Abbreviation fleet_run := (fleet_run to_string render parse_json serde_error parse_request server).
Abbreviation serve_shard_step := (@serve_shard_step Chan nat refusal config).
Abbreviation sys_reach := (sys_reach (shard_conn_new (handshake_timeout config)) (@shard_conn_poll Chan nat refusal) config).

Definition served_as (c : conn) : option nat := match sc_stage c with SServe i => Some i | _ => None end.
Definition serving (lp : loop) : list nat := omap served_as (lp_connections lp).
Definition all_serving (x : shards) : list nat := flat_map serving (sh_loops x).

(** What a step of a loop does to the connections it serves: one begins, as the next of
    the fleet; one that is not registered any more (over, or dropped before it began to
    be) ends. *)
Inductive change : list nat * fleet -> list nat * fleet -> Prop :=
  | change_order s s' y : s ≡ₚ s' -> change (s, y) (s', y)
  | change_begin s y peer auth_protocol :
      change (s, y) (length (f_lives y) :: s, (fleet_step (EAccept peer auth_protocol) y).1)
  | change_end s y i l : f_lives y !! i = Some l -> registered l = None -> change (i :: s, y) (s, y).

(** A step of a loop, with what it does to its connections; a move of a connection that
    some loop holds; or anything else the process does. *)
Inductive whole_step : shards * fleet -> shards * fleet -> Prop :=
  | whole_loop x k lp i lp' l ev y y' :
      sh_loops x !! k = Some lp -> serve_shard_step i lp (sh_limits x) = (lp', l, ev) ->
      rtc change (serving lp, y) (serving lp', y') ->
      whole_step (x, y) (Shards l (<[k := lp']> (sh_loops x)) (sh_events x ++ ev), y')
  | whole_move x y i m :
      i ∈ all_serving x -> event_keeps (EMove i m) -> whole_step (x, y) (x, (fleet_step (EMove i m) y).1)
  | whole_else x y f : event_keeps (EElse f) -> whole_step (x, y) (x, (fleet_step (EElse f) y).1).

(** From [n] shards that have just started, an empty table and no running request. *)
Inductive whole_reach (n : nat) (w0 : world V) (first : Z) : shards * fleet -> Prop :=
  | whole_init : whole_reach n w0 first (Shards limit_default (replicate n loop_new) [], Fleet w0 first [])
  | whole_more s t : whole_reach n w0 first s -> whole_step s t -> whole_reach n w0 first t.

(** ** The loops, and the connections they hold *)

Lemma whole_sys n w0 first s : whole_reach n w0 first s -> sys_reach n s.1.
Proof.
  induction 1 as [|s t _ IH Hs]; [constructor|]. destruct Hs; [|exact IH..].
  eapply sys_more; [exact IH|]. by eapply sys_loop.
Qed.

Lemma length_omap_le {B C} (f : B -> option C) l : length (omap f l) <= length l.
Proof. induction l as [|b l IH]; simpl; [lia|]. destruct (f b); simpl; [by apply le_n_S|by apply le_S]. Qed.

Lemma all_serving_live x : length (all_serving x) <= live x.
Proof.
  assert (Hs : forall lp : loop, length (serving lp) <= length (lp_connections lp)) by (intros lp; apply length_omap_le).
  unfold all_serving, live. induction (sh_loops x) as [|lp lps IH]; simpl; [lia|].
  rewrite length_app. specialize (Hs lp). lia.
Qed.

Lemma all_serving_split x k lp lp' l ev :
  sh_loops x !! k = Some lp ->
  exists rest, all_serving x ≡ₚ serving lp ++ rest
               /\ all_serving (Shards l (<[k := lp']> (sh_loops x)) ev) ≡ₚ serving lp' ++ rest.
Proof.
  intros Hk. destruct (insert_split (sh_loops x) k lp lp' Hk) as (l1 & l2 & E & E').
  exists (flat_map serving (l1 ++ l2)). unfold all_serving. simpl. rewrite E', E, !flat_map_app. simpl.
  split; by rewrite (Permutation_app_swap_app (flat_map _ _)).
Qed.

(** ** The invariant *)

Section invariant.
Context (w0 : world V) (first : Z).

Definition reached (y : fleet) : Prop := exists evs o,
  fleet_run evs (Fleet w0 first []) = (y, o) /\ Forall event_keeps evs /\ length (accepted_peers evs) = length (f_lives y).

(** The served connections of the loops are distinct connections of the fleet, and every
    registered one is among them. *)
Definition owned (s : list nat) (y : fleet) : Prop :=
  NoDup s /\ Forall (fun i => i < length (f_lives y)) s
  /\ (forall i l, f_lives y !! i = Some l -> is_Some (registered l) -> i ∈ s) /\ reached y.

Lemma fleet_run_snoc e evs : forall y y1 o1,
  fleet_run evs y = (y1, o1) -> exists o2, fleet_run (evs ++ [e]) y = ((fleet_step e y1).1, o2).
Proof.
  induction evs as [|e' evs IH]; intros y y1 o1; cbn [fleet_run app].
  - intros [= <- _]. destruct (fleet_step e y) as [y2 o2]. by eexists.
  - destruct (fleet_step e' y) as [y2 o2]. destruct (fleet_run evs y2) as [y3 o3] eqn:E. intros [= <- _].
    destruct (IH _ _ _ E) as [o4 ->]. by eexists.
Qed.

Lemma reached_step e y : event_keeps e -> reached y -> reached (fleet_step e y).1.
Proof.
  intros He (evs & o & Hr & Hk & Hl). destruct (fleet_run_snoc e evs _ _ _ Hr) as [o2 Hr2].
  exists (evs ++ [e]), o2. split; [exact Hr2|]. split; [apply Forall_app; by repeat constructor|].
  unfold accepted_peers in *. rewrite omap_app, length_app, Hl. destruct e as [peer ap|i m|f]; simpl.
  - by rewrite length_app.
  - destruct (f_lives y !! i); [|simpl; lia]. destruct (life_move _ _ _ _ _ _ _ _ _) as [[[l' n'] w'] o']. simpl.
    rewrite length_insert. lia.
  - lia.
Qed.

Lemma change_owned rest a b : change a b -> owned (a.1 ++ rest) a.2 -> owned (b.1 ++ rest) b.2.
Proof.
  intros Hc (Hnd & Hlt & Hreg & Hr). destruct Hc as [s s' y Hp|s y peer ap|s y i l Hi Hl]; cbn [fst snd] in *.
  - split_and!; try done; setoid_rewrite <- Hp; done.
  - assert (Hlen : length (f_lives (fleet_step (EAccept peer ap) y).1) = S (length (f_lives y)))
      by (simpl; rewrite length_app; simpl; lia).
    split_and!; [| | |by apply reached_step].
    + simpl. constructor; [|done]. intros Hin. rewrite Forall_forall in Hlt. specialize (Hlt _ Hin). lia.
    + rewrite Hlen. simpl. constructor; [lia|]. eapply Forall_impl; [exact Hlt|]. simpl. lia.
    + intros i l Hi Hl. simpl in Hi. apply lookup_app_Some in Hi as [Hi|[_ Hi]]; [right; by eapply Hreg|].
      apply list_lookup_singleton_Some in Hi as [_ <-]. by destruct Hl.
  - simpl in *. apply NoDup_cons in Hnd as [_ Hnd]. apply Forall_cons in Hlt as [_ Hlt]. split_and!; try done.
    intros j l' Hj Hl'. specialize (Hreg j l' Hj Hl'). apply elem_of_cons in Hreg as [->|]; [|done].
    rewrite Hi in Hj. injection Hj as ->. rewrite Hl in Hl'. by destruct Hl'.
Qed.

Lemma changes_owned rest a b : rtc change a b -> owned (a.1 ++ rest) a.2 -> owned (b.1 ++ rest) b.2.
Proof. induction 1 as [|a b c Hc _ IH]; [done|]. intros Ha. apply IH. by eapply change_owned. Qed.

Lemma move_owned s y i m : i ∈ s -> event_keeps (EMove i m) -> owned s y -> owned s (fleet_step (EMove i m) y).1.
Proof.
  intros Hi Hm (Hnd & Hlt & Hreg & Hr). pose proof (reached_step _ _ Hm Hr) as Hr'. simpl in *.
  destruct (f_lives y !! i) as [l|] eqn:E; [|split_and!; done].
  destruct (life_move _ _ _ _ _ _ _ _ _) as [[[l' n'] w'] o']. split_and!; try done; simpl in *.
  - by rewrite length_insert.
  - intros j l2 Hj Hl2. destruct (decide (i = j)) as [->|Hne]; [done|].
    rewrite list_lookup_insert_ne in Hj by done. by eapply Hreg.
Qed.

Lemma owned_perm s s' y : s ≡ₚ s' -> owned s y -> owned s' y.
Proof. intros Hp (Hnd & Hlt & Hreg & Hr). split_and!; try done; setoid_rewrite <- Hp; done. Qed.

Lemma whole_owned n s : whole_reach n w0 first s -> owned (all_serving s.1) s.2.
Proof.
  induction 1 as [|s t _ IH Hs].
  - simpl. assert (all_serving (Shards limit_default (replicate n (@loop_new Chan conn)) []) = []) as ->.
    { unfold all_serving. simpl. induction n; simpl; auto. }
    split_and!; [constructor|constructor|done|]. exists [], []. split_and!; [done|constructor|done].
  - destruct Hs as [x k lp i lp' l ev y y' Hk Hl Hc|x y i m Hi Hm|x y f Hf]; cbn [fst snd] in *.
    + destruct (all_serving_split x k lp lp' l (sh_events x ++ ev) Hk) as (rest & H1 & H2).
      eapply owned_perm; [symmetry; exact H2|]. apply (changes_owned rest _ _ Hc). by eapply owned_perm.
    + by apply move_owned.
    + destruct IH as (Hnd & Hlt & Hreg & Hr). split_and!; try done. by apply (reached_step (EElse f)).
Qed.
End invariant.

(** ** The table against the served connections *)

Lemma size_listed (w : world V) ids :
  NoDup ids -> (forall c, is_Some (states w !! c) <-> c ∈ ids) -> size (states w) = length ids.
Proof.
  intros Hnd Hw. rewrite <- size_dom. rewrite <- (size_list_to_set (C := gset Z) ids Hnd). f_equal.
  apply set_eq. intros c. by rewrite elem_of_dom, elem_of_list_to_set.
Qed.

Lemma registered_served (lives : list life) s :
  NoDup (omap registered lives) -> (forall i l, lives !! i = Some l -> is_Some (registered l) -> i ∈ s) ->
  length (omap registered lives) <= length s.
Proof.
  intros Hnd Hreg. etrans; [|apply (length_omap_le (fun i => l ← lives !! i; registered l))].
  apply submseteq_length, NoDup_submseteq; [done|]. intros c (l & Hl & Hc)%list_elem_of_omap.
  apply list_elem_of_lookup in Hl as [i Hi]. apply list_elem_of_omap. exists i. rewrite Hi. split; [|done].
  by eapply Hreg.
Qed.

Lemma none_served (lives : list life) :
  (forall i l, lives !! i = Some l -> ~ is_Some (registered l)) -> Forall (fun l => registered l = None) lives.
Proof. intros H. apply Forall_lookup. intros i l Hi. apply eq_None_not_Some. by eapply H. Qed.

(** ** Property *)

(** C7: a running server is bounded, and a stopped one has returned everything.
    From shards that have just started, whatever the listeners, the stops, the clients
    and the scheduling do: the connection table never holds more connections than the
    accept loops hold slots, so never more than the maximum they were given; the
    requests in flight stay within theirs; and once every loop has returned, no
    connection slot is taken and the table is empty.  The table and the slots are kept
    by different code, a connection enters the one after the other and leaves it before;
    what joins them is that a loop polls the futures it holds a slot for, and no other. *)
Theorem whole_server_bounded n w0 first x y :
  all_keep server same_books -> (0 <= first <= u32_max)%Z -> slots w0 = 0 -> states w0 = ∅ ->
  whole_reach n w0 first (x, y) -> (Z.of_nat (length (f_lives y)) <= 4294967296)%Z ->
  size (states (f_world y)) <= live x
  /\ (forall c, max_connections config = Some c -> size (states (f_world y)) <= c)
  /\ (forall c, max_inflight_requests config = Some c -> slots (f_world y) <= c)
  /\ (Forall (fun lp => lp_pc lp = PReturned) (sh_loops x) ->
        counter Connections (sh_limits x) = 0 /\ states (f_world y) = ∅).
Proof.
  intros Hall Hf Hs0 Ht0 Hx Hlen.
  destruct (whole_owned w0 first n _ Hx) as (_ & _ & Hreg & evs & o & Hrun & Hk & Hacc). cbn [fst snd] in *.
  rewrite <- Hacc in Hlen.
  destruct (fleet_books_start _ _ _ _ _ server evs w0 first y o Hall Hk Hlen Hf Hs0 Ht0 Hrun) as [_ Hlim _ Htab Hnd _].
  destruct (sys_reach_books _ _ _ _ _ (whole_sys n w0 first _ Hx)) as (Hcap & Hcount & Hret). cbn [fst] in *.
  assert (Hsize : size (states (f_world y)) <= live x).
  { rewrite (size_listed _ _ Hnd Htab). etrans; [by apply registered_served|apply all_serving_live]. }
  split_and!; [done| |done|].
  - intros c Hc. specialize (Hcap c Hc). lia.
  - intros Hr. specialize (Hret Hr). split; [lia|]. apply map_size_empty_inv. lia.
Qed.
End whole.

(** *** Witness: one shard accepts, serves and ends a connection, then is stopped *)

Abbreviation w_whole := (@shards nat (@shard_conn nat nat) * @fleet unit json (bool * json) (request_context unit) unit)%type.
Definition w_start : w_whole := (Shards limit_default [loop_new] [], Fleet (World ∅ ∅ limit_default []) 7 []).
Abbreviation w_reach := (whole_reach w_text w_json w_parse_json w_serde_error w_parse_request w_srv None 1 (World ∅ ∅ limit_default []) 7).

Definition w_loop_does (i : @loop_in nat (@conn_in nat nat)) (s : w_whole) : w_whole :=
  match sh_loops s.1 with
  | [lp] =>
      let '(lp, l, ev) := serve_shard_step None (sv_config w_srv) i lp (sh_limits s.1) in
      (Shards l [lp] (sh_events s.1 ++ ev), s.2)
  | _ => s
  end.
Definition w_moves (e : event) (s : w_whole) : w_whole :=
  (s.1, (fleet_step w_text w_json w_parse_json w_serde_error w_parse_request w_srv e s.2).1).

Definition w_in (stop : bool) (accept : option (result nat string)) (conns : list (nat * @conn_in nat nat)) :=
  LoopIn 1 stop (bool_decide (is_Some accept)) accept conns.
Definition w_accepted : w_whole :=
  Nat.iter 3 (w_loop_does (w_in false None [])) (w_loop_does (w_in false (Some (Ok 7)) []) w_start).
Definition w_begun : w_whole :=
  w_moves (EAccept Unknown None)
    (w_loop_does (w_in false None [(0, ConnIn (WOutput _ (Ok 7)) (WOutput _ (Ok (Some 0))) false)]) w_accepted).
Definition w_opened : w_whole := w_moves (EMove 0 (MOpen 9)) w_begun.
Definition w_dropped : w_whole := w_moves (EMove 0 (MAuth (AuthDropped id) 0 0)) w_opened.
Definition w_stopped : w_whole := Nat.iter 3 (w_loop_does (w_in true None [])) w_dropped.

Abbreviation w_change := (change w_text w_json w_parse_json w_serde_error w_parse_request w_srv).

Lemma w_does i s t lp lp' :
  w_reach s -> t.1 = (w_loop_does i s).1 -> sh_loops s.1 = [lp] -> sh_loops (w_loop_does i s).1 = [lp'] ->
  rtc w_change (serving lp, s.2) (serving lp', t.2) -> w_reach t.
Proof.
  intros Hs Et E E' Hc. eapply whole_more; [exact Hs|]. destruct s as [x y], t as [x' y']. cbn [fst snd] in *.
  unfold w_loop_does in *. cbn [fst snd] in *. rewrite E in *.
  destruct (serve_shard_step _ _ _ _ _) as [[lp2 l] ev] eqn:Hl. cbn [fst snd] in *. simpl in E'. injection E' as <-. subst x'.
  replace [lp2] with (<[0 := lp2]> (sh_loops x)) by (by rewrite E). eapply whole_loop; [by rewrite E|exact Hl|exact Hc].
Qed.

Lemma w_quiet i s lp lp' :
  w_reach s -> sh_loops s.1 = [lp] -> sh_loops (w_loop_does i s).1 = [lp'] -> serving lp = serving lp' ->
  (w_loop_does i s).2 = s.2 -> w_reach (w_loop_does i s).
Proof.
  intros Hs E E' Es Ey. eapply w_does; [done|reflexivity|done|done|]. by rewrite Es, Ey.
Qed.

Lemma w_opened_reach : w_reach w_opened.
Proof.
  assert (H0 : w_reach w_start) by exact (whole_init _ _ _ _ _ w_srv None 1 _ 7).
  assert (H1 : w_reach w_accepted).
  { unfold w_accepted. cbn [Nat.iter]. do 4 (eapply w_quiet; [|reflexivity..]). exact H0. }
  assert (H2 : w_reach w_begun).
  { eapply w_does; [exact H1|reflexivity|reflexivity|reflexivity|]. eapply rtc_once, (change_begin _ _ _ _ _ _ []). }
  eapply whole_more; [exact H2|]. apply whole_move; [|exact I]. apply list_elem_of_here.
Qed.

Lemma w_stopped_reach : w_reach w_stopped.
Proof.
  assert (H3 : w_reach w_dropped).
  { eapply whole_more; [exact w_opened_reach|]. apply whole_move; [apply list_elem_of_here|by intros w]. }
  unfold w_stopped. cbn [Nat.iter].
  eapply w_quiet; [|reflexivity..].
  eapply w_does; [|reflexivity|reflexivity|reflexivity|eapply rtc_once, change_end; reflexivity].
  eapply w_quiet; [|reflexivity..]. exact H3.
Qed.

Lemma whole_server_bounded_witness :
  size (states (f_world w_opened.2)) = 1 /\ size (states (f_world w_opened.2)) <= live w_opened.1
  /\ counter Connections (sh_limits w_stopped.1) = 0 /\ states (f_world w_stopped.2) = ∅.
Proof.
  pose proof (fun x y => whole_server_bounded (Chan := nat) w_text w_json w_parse_json w_serde_error w_parse_request w_srv None 1
                (World ∅ ∅ limit_default []) 7 x y w_srv_books ltac:(unfold u32_max; lia) eq_refl eq_refl) as Hb.
  split; [vm_compute; reflexivity|]. split.
  - refine (proj1 (Hb w_opened.1 w_opened.2 w_opened_reach _)). vm_compute. discriminate.
  - refine (proj2 (proj2 (proj2 (Hb w_stopped.1 w_stopped.2 w_stopped_reach _))) _); [vm_compute; discriminate|repeat constructor].
Defined.
