(* ===== verification/Listen.v ===== *)
(** * Listening: [src/libs/ws/listener.rs] and [listen_on] of [src/libs/ws/server.rs]

    The choice of an address to bind, the conversions between the address types of
    std and of nagoya, and the start and stop of the shard threads.  Sockets,
    reactors and threads are nagoya's and the system's: what they answer is an
    argument. *)

From S2P Require Import Prelude ServerConfig.

(** ** Addresses *)

(** [nagoya::reactor::Addr], whose four cases the source matches. *)
Inductive addr :=
  | AddrV4 (octets : list Z) (port : Z)
  | AddrV6 (octets : list Z) (port : Z)
  | AddrV6Scoped (octets : list Z) (port scope_id : Z)
  | AddrPath (path : string).

(** [std::net::SocketAddr]. *)
Inductive std_socket_addr :=
  | SockV4 (octets : list Z) (port : Z)
  | SockV6 (octets : list Z) (port flowinfo scope_id : Z).

Definition to_socket_addr (a : addr) : result std_socket_addr string :=
  match a with
  | AddrV4 octets port => Ok (SockV4 octets port)
  | AddrV6 octets port => Ok (SockV6 octets port 0 0)
  | AddrV6Scoped octets port scope_id => Ok (SockV6 octets port 0 scope_id)
  | AddrPath _ => Err "a Unix-domain peer has no SocketAddr; serve it through SessionListener"
  end.

Definition nagoya_addr (a : std_socket_addr) : addr :=
  match a with
  | SockV4 octets port => AddrV4 octets port
  | SockV6 octets port _ _ => AddrV6 octets port
  end.

(** [nagoya_addr] is the inverse of [socket_addr] on every address but a
    scoped one.  A peer's address comes back as it was, except that a scoped IPv6
    address comes back without its scope; the other way round, an address of std comes
    back exactly when it has neither flow information nor a scope; and only a path has
    no [SocketAddr]. *)
Theorem addr_conversions a s :
  match to_socket_addr a with
  | Ok sa => nagoya_addr sa = match a with AddrV6Scoped octets port _ => AddrV6 octets port | _ => a end
  | Err _ => exists path, a = AddrPath path
  end
  /\ (to_socket_addr (nagoya_addr s) = Ok s
      <-> match s with SockV4 _ _ => True | SockV6 _ _ flowinfo scope_id => flowinfo = 0%Z /\ scope_id = 0%Z end).
Proof.
  split; [destruct a; simpl; eauto|]. destruct s as [o p|o p f sc]; simpl; [done|].
  split; [by intros [= <- <-]|by intros [-> ->]].
Qed.

(** ** [TcpListener] *)

(** [accept]: the address of the peer is converted, or the accept fails; there is no
    handshake. *)
Definition tcp_accept {C} (accepted : result (C * addr) string) : result (C * std_socket_addr) string :=
  let* ca := accepted in
  let* sa := to_socket_addr ca.2 in
  Ok (ca.1, sa).
Definition tcp_handshake {C} (channel : C) : result C string := Ok channel.

Section bind.
(** [L]: a listener; [S]: the state of the system. *)
Context {L S : Type} (show : list addr -> string).

(** [bind_any_with]: [last] is the last failure. *)
Fixpoint bind_loop (all addrs : list addr) (bind : addr -> S -> result L string * S) (last : option string) (s : S)
    : result L string * S :=
  match addrs with
  | [] =>
      (match last with
       | Some err => Err ("None of " +:+ show all +:+ " could be bound: " +:+ err)
       | None => Err "no address to bind"
       end, s)
  | a :: addrs =>
      match bind a s with
      | (Ok listener, s) => (Ok listener, s)
      | (Err err, s) => bind_loop all addrs bind (Some err) s
      end
  end.

Definition bind_any_with (addrs : list addr) (bind : addr -> S -> result L string * S) (s : S) : result L string * S :=
  bind_loop addrs addrs bind None s.

(** The failed attempts on [addrs], from [s]: the last error and the state after. *)
Fixpoint all_refused (addrs : list addr) (bind : addr -> S -> result L string * S) (s : S) : option (list string * S) :=
  match addrs with
  | [] => Some ([], s)
  | a :: addrs =>
      match bind a s with
      | (Ok _, _) => None
      | (Err err, s) => option_map (fun r => (err :: r.1, r.2)) (all_refused addrs bind s)
      end
  end.

Definition bind_error (all : list addr) (errs : list string) : string :=
  match errs with
  | [] => "no address to bind"
  | _ => "None of " +:+ show all +:+ " could be bound: " +:+ List.last errs ""
  end.

Lemma bind_loop_spec all addrs bind : forall last s,
  match bind_loop all addrs bind last s with
  | (Ok l, s') => exists tried a rest errs s1, addrs = tried ++ a :: rest
                    /\ all_refused tried bind s = Some (errs, s1) /\ bind a s1 = (Ok l, s')
  | (Err e, s') => exists errs, all_refused addrs bind s = Some (errs, s') /\ e = bind_error all (option_list last ++ errs)
  end.
Proof.
  induction addrs as [|a addrs IH]; intros last s; simpl.
  - destruct last; by exists [].
  - destruct (bind a s) as [[l|err] s1] eqn:E.
    + exists [], a, addrs, [], s. done.
    + specialize (IH (Some err) s1). destruct (bind_loop all addrs bind (Some err) s1) as [[l|e] s'].
      * destruct IH as (tried & a' & rest & errs & s2 & -> & Hr & Hb). exists (a :: tried), a', rest, (err :: errs), s2.
        split_and!; [done| |done]. simpl. by rewrite E, Hr.
      * destruct IH as (errs & Hr & ->). exists (err :: errs). rewrite Hr. split; [done|]. simpl.
        destruct last as [e0|]; simpl; done.
Qed.

(** One address is bound, the first the system accepts.  On success
    every address before it was refused, it was bound, and none after it was tried;
    on failure every address was tried and refused, in order, and the error is the
    last one, or says there was no address. *)
Theorem bind_any_first addrs bind s :
  match bind_any_with addrs bind s with
  | (Ok l, s') => exists tried a rest errs s1, addrs = tried ++ a :: rest
                    /\ all_refused tried bind s = Some (errs, s1) /\ bind a s1 = (Ok l, s')
  | (Err e, s') => exists errs, all_refused addrs bind s = Some (errs, s') /\ e = bind_error addrs errs
  end.
Proof. apply (bind_loop_spec addrs addrs bind None s). Qed.
End bind.

(** The two ways to bind, over nagoya's, and the choice among addresses with each. *)
Section tcp_listener.
Context {L H : Type} (nagoya_bind nagoya_bind_shared : addr -> H -> result L string) (nagoya_local_addr : L -> result addr string).
Context (show : list addr -> string).

Record tcp_listener := TcpListener { tl_listener : L }.

Definition tcp_bind (a : addr) (handle : H) : result tcp_listener string :=
  let* listener := nagoya_bind a handle in Ok (TcpListener listener).
Definition tcp_bind_shared (a : addr) (handle : H) : result tcp_listener string :=
  let* listener := nagoya_bind_shared a handle in Ok (TcpListener listener).
Definition tcp_bind_any (addrs : list addr) (handle : H) : result tcp_listener string :=
  (bind_any_with show addrs (fun a (_ : unit) => (tcp_bind a handle, tt)) tt).1.
Definition tcp_bind_any_shared (addrs : list addr) (handle : H) : result tcp_listener string :=
  (bind_any_with show addrs (fun a (_ : unit) => (tcp_bind_shared a handle, tt)) tt).1.
Definition tcp_local_addr (l : tcp_listener) : result addr string :=
  let* a := nagoya_local_addr (tl_listener l) in Ok a.

(** What is bound is an address of the list that nagoya accepts, and nothing else makes it
    fail than that there is none. *)
Lemma tcp_bind_any_ok addrs handle l :
  tcp_bind_any addrs handle = Ok l -> exists a, a ∈ addrs /\ nagoya_bind a handle = Ok (tl_listener l).
Proof.
  unfold tcp_bind_any. pose proof (bind_loop_spec show addrs addrs (fun a (_ : unit) => (tcp_bind a handle, tt)) None tt) as Hs.
  unfold bind_any_with. destruct (bind_loop _ _ _ _ _ _) as [[l'|e] []]; simpl; [|done]. intros [= ->].
  destruct Hs as (tried & a & rest & errs & s1 & -> & _ & Hb). exists a. split; [set_solver|].
  injection Hb as Hb. unfold tcp_bind in Hb. destruct (nagoya_bind a handle); [|done]. by injection Hb as <-.
Qed.
End tcp_listener.

(** ** [listen_on] *)

(** What the thread that listens does, in order. *)
Inductive action :=
  | StartShard (shard : nat)
  | ServeFirst
  | CancelAll
  | JoinShard (shard : nat).

(** The threads started from [shard] on, and the failure, if one could not be: [spawn]
    is the error of [std::thread::Builder::spawn]. *)
Fixpoint spawn_shards (spawn : nat -> option string) (todo shard : nat) : list nat * option (nat * string) :=
  match todo with
  | O => ([], None)
  | Datatypes.S todo =>
      match spawn shard with
      | Some err => ([], Some (shard, err))
      | None => let '(threads, failed) := spawn_shards spawn todo (Datatypes.S shard) in (shard :: threads, failed)
      end
  end.

(** [listen_on] with more than one shard, from the spawns on; [served] is what the
    loop of the first shard returns. *)
Definition run_shards (spawn : nat -> option string) (shards : nat) (served : result unit string) : list action * result unit string :=
  let '(threads, failed) := spawn_shards spawn (shards - 1) 1 in
  match failed with
  | Some (shard, err) =>
      (map StartShard threads ++ [CancelAll] ++ map JoinShard threads,
       Err ("failed to start shard " +:+ pretty shard +:+ ": " +:+ err))
  | None =>
      (map StartShard threads ++ [ServeFirst; CancelAll] ++ map JoinShard threads, served)
  end.

Section listen_on.
(** [resolve], [Reactor::local], the two ways to bind with [local_addr], and what the
    loops return.  [L] is a listener. *)
Context {L : Type} (resolve : string -> Z -> result (list addr) string).
Context (reactor : result unit string) (bind_any bind_any_shared : list addr -> result L string).
Context (local_addr : L -> result addr string).
Context (serve : L -> result unit string) (spawn : nat -> option string).

Definition listen_on (config : ws_server_config) (mcp_enabled : bool) (shards : nat) : list action * result unit string :=
  let checked :=
    let* _ := validate_protocol_mode config mcp_enabled in
    let* _ := refuse_tls_config config in
    let* hp := split_host_port (address config) in
    let* addrs := map_err (fun _ => "Failed to lookup host to bind: " +:+ address config) (resolve hp.1 hp.2) in
    let* _ := reactor in
    Ok addrs in
  match checked with
  | Err err => ([], Err err)
  | Ok addrs =>
      if Nat.leb shards 1 then
        match bind_any addrs with
        | Err err => ([], Err err)
        | Ok listener => ([ServeFirst], serve listener)
        end
      else
        match (let* listener := bind_any_shared addrs in let* _ := local_addr listener in Ok listener) with
        | Err err => ([], Err err)
        | Ok listener => run_shards spawn shards (serve listener)
        end
  end.

Lemma spawn_shards_spec todo : forall shard,
  match spawn_shards spawn todo shard with
  | (threads, None) => threads = seq shard todo
  | (threads, Some (k, err)) => k < shard + todo /\ threads = seq shard (k - shard) /\ shard <= k /\ spawn k = Some err
  end.
Proof.
  induction todo as [|todo IH]; intros shard; simpl; [done|]. destruct (spawn shard) as [err|] eqn:E.
  - split_and!; try lia; [|done]. by rewrite Nat.sub_diag.
  - specialize (IH (Datatypes.S shard)). destruct (spawn_shards spawn todo (Datatypes.S shard)) as [threads [[k err]|]].
    + destruct IH as (Hk & -> & Hle & Hs). split_and!; try lia; [|done].
      by replace (k - shard) with (Datatypes.S (k - Datatypes.S shard)) by lia.
    + by rewrite IH.
Qed.

(** No shard thread outlives [listen].  Whatever happens (a check that
    fails, a thread that cannot be started, an error or a stop of the first shard), the
    threads started are shards 1, 2, .. in order, and each of them is joined, after all
    were told to stop; all the shards run exactly when none failed to start, and then
    the result is that of the first shard, which stops the others when it returns. *)
Theorem listen_joins_all config mcp_enabled shards :
  match listen_on config mcp_enabled shards with
  | (acts, res) =>
      exists n, n <= shards - 1
        /\ ((acts = [] /\ n = 0 /\ exists err, res = Err err)
            \/ (acts = [ServeFirst] /\ n = 0 /\ shards <= 1)
            \/ (acts = map StartShard (seq 1 n) ++ [ServeFirst; CancelAll] ++ map JoinShard (seq 1 n)
                /\ n = shards - 1 /\ exists listener, res = serve listener)
            \/ (acts = map StartShard (seq 1 n) ++ [CancelAll] ++ map JoinShard (seq 1 n)
                /\ n < shards - 1 /\ exists err, spawn (Datatypes.S n) = Some err /\ is_ok res = false))
  end.
Proof.
  unfold listen_on. destruct (let* _ := validate_protocol_mode config mcp_enabled in _) as [addrs|err]; [|exists 0; eauto 6 with lia].
  destruct (Nat.leb_spec shards 1).
  - destruct (bind_any addrs) as [l|err]; exists 0; [|eauto 6 with lia]. split; [lia|]. right. by left.
  - destruct (let* listener := bind_any_shared addrs in _) as [l|err]; [|exists 0; eauto 6 with lia].
    unfold run_shards. pose proof (spawn_shards_spec (shards - 1) 1) as Hs.
    destruct (spawn_shards spawn (shards - 1) 1) as [threads [[k err]|]].
    + destruct Hs as (Hk & -> & Hle & Hsp). exists (k - 1). split; [lia|]. do 3 right. split_and!; [done|lia|].
      exists err. split; [|done]. by replace (Datatypes.S (k - 1)) with k by lia.
    + subst threads. exists (shards - 1). split; [lia|]. right. right. left. eauto.
Qed.

(** [listen] stops on a signal, [listen_until] when a future of the caller resolves; which
    it is decides only what the first shard waits for ([signals]: the futures of SIGTERM and
    SIGINT). *)
Inductive stop_source (F : Type) := StopSignals | StopWhen (stop : F).
Arguments StopSignals {F}.
Arguments StopWhen {F} _.
Definition stop_of {F} (stop : option F) : stop_source F :=
  match stop with None => StopSignals | Some stop => StopWhen stop end.
Definition listen {F} (config : ws_server_config) (mcp_enabled : bool) (shards : nat) : stop_source F * (list action * result unit string) :=
  (stop_of None, listen_on config mcp_enabled shards).
Definition listen_until {F} (stop : F) (config : ws_server_config) (mcp_enabled : bool) (shards : nat)
    : stop_source F * (list action * result unit string) :=
  (stop_of (Some stop), listen_on config mcp_enabled shards).
End listen_on.
