(* ===== verification/Client.v ===== *)
(** * The client: [src/libs/ws/client.rs]

    [WsClient] sends requests with increasing sequence numbers and waits for the
    response to the last one.  The connection of nago-wss and the [MessageStream] of
    a local transport are interfaces: their operations are effects on a state, each
    with the value the await ends with.

    [to_string] and [from_str] are serde_json's on the request and on
    [WsResponseGeneric<T>]; [Value] is serde_json's parser. *)

From S2P Require Import Prelude Json Message LogLevel Basics Toolbox.

(** [wss::Connection]: [read] is [None] after a clean close. *)
Class NagoConnection (K : Type) := {
  conn_read : K -> result (option (@n_message Z)) string * K;
  conn_write : @n_message Z -> K -> result unit string * K;
  conn_pong : bytes -> K -> result unit string * K;
  conn_close : K -> result unit string * K;
}.

(** [MessageStream] of [src/libs/ws/traits.rs]. *)
Class MessageStream (M : Type) := {
  ms_send : wire_message -> M -> result unit string * M;
  ms_recv : M -> option (result wire_message string) * M;
}.

(** The two conversions; a [CloseCode] is a [u16]. *)
Definition into_nago (m : wire_message) : @n_message Z := to_backend id m.
Definition from_nago (m : @n_message Z) : wire_message := from_backend id m.

(** [WsResponseGeneric<Resp>]. *)
Inductive response (T : Type) :=
  | GImmediate (method seq : Z) (params : T)
  | GStream (original_seq method stream_seq stream_code : Z) (data : T)
  | GError (method code seq : Z) (log_id : string) (params : json)
  | GLog (seq log_id : Z) (level : log_level) (message : string)
  | GForwarded (method seq : Z)
  | GClose.
Arguments GImmediate {T} _ _ _.
Arguments GStream {T} _ _ _ _ _.
Arguments GError {T} _ _ _ _ _.
Arguments GLog {T} _ _ _ _.
Arguments GForwarded {T} _ _.
Arguments GClose {T}.

Section client.
Context {K M P T : Type} `{NagoConnection K} `{MessageStream M}.
Context (to_string : Z -> Z -> P -> result string string) (from_str : bytes -> result (response T) string).
Context (parse_value : bytes -> result json string) (show_params : json -> string).

Inductive ws_stream :=
  | Plain (c : K)
  | Secure (c : K)
  | Channel (s : M).

Record ws_client := WsClient { stream : ws_stream; seq : Z }.

Definition with_stream (c : ws_client) (s : ws_stream) : ws_client := WsClient s (seq c).

Definition from_stream (s : M) : ws_client := WsClient (Channel s) 0.

(** ** The backend edge *)

Definition send_to (c : K) (message : wire_message) : result unit string * K :=
  let '(r, c) := conn_write (into_nago message) c in
  (map_err (fun err => "websocket write failed: " +:+ err) r, c).

Definition next_from (c : K) : option (result wire_message string) * K :=
  match conn_read c with
  | (Ok None, c) => (None, c)
  | (Ok (Some (NPing payload)), c) =>
      match conn_pong payload c with
      | (Err err, c) => (Some (Err ("failed to answer ping: " +:+ err)), c)
      | (Ok _, c) => (Some (Ok (Ping payload)), c)
      end
  | (Ok (Some other), c) => (Some (Ok (from_nago other)), c)
  | (Err err, c) => (Some (Err ("websocket read failed: " +:+ err)), c)
  end.

Definition close_to (c : K) : result unit string * K :=
  let '(r, c) := conn_close c in
  (map_err (fun err => "websocket close failed: " +:+ err) r, c).

(** ** The stream helpers *)

Definition stream_send (msg : wire_message) (c : ws_client) : result unit string * ws_client :=
  match stream c with
  | Plain k => let '(r, k) := send_to k msg in (r, with_stream c (Plain k))
  | Secure k => let '(r, k) := send_to k msg in (r, with_stream c (Secure k))
  | Channel s =>
      let '(r, s) := ms_send msg s in
      (map_err (fun err => "message stream send failed: " +:+ err) r, with_stream c (Channel s))
  end.

Definition stream_next (c : ws_client) : option (result wire_message string) * ws_client :=
  match stream c with
  | Plain k => let '(r, k) := next_from k in (r, with_stream c (Plain k))
  | Secure k => let '(r, k) := next_from k in (r, with_stream c (Secure k))
  | Channel s =>
      let '(r, s) := ms_recv s in
      (option_map (map_err (fun err => "message stream recv failed: " +:+ err)) r, with_stream c (Channel s))
  end.

Definition stream_close (c : ws_client) : result unit string * ws_client :=
  match stream c with
  | Plain k => let '(r, k) := close_to k in (r, with_stream c (Plain k))
  | Secure k => let '(r, k) := close_to k in (r, with_stream c (Secure k))
  | Channel s => let '(_, s) := ms_send (Close None) s in (Ok tt, with_stream c (Channel s))
  end.

(** ** The public operations *)

(** [self.seq += 1] on a [u32], as a release build computes it. *)
Definition next_seq (c : ws_client) : Z := wrap32 (seq c + 1).

Definition send_req (method : Z) (params : P) (c : ws_client) : result unit string * ws_client :=
  let c := WsClient (stream c) (next_seq c) in
  match to_string method (seq c) params with
  | Err err => (Err err, c)
  | Ok req => stream_send (Text (bytes_of_string req)) c
  end.

Definition send_raw (request_bytes : bytes) (c : ws_client) : result unit string * ws_client :=
  if utf8_valid request_bytes then stream_send (Text request_bytes) c
  else (Err "Invalid UTF-8 in request bytes", c).

Definition kind_of (m : wire_message) : string :=
  match m with
  | Text _ => "text" | Binary _ => "binary" | Ping _ => "ping" | Pong _ => "pong" | Close _ => "close"
  end.

Definition recv_raw (c : ws_client) : result json string * ws_client :=
  match stream_next c with
  | (None, c) => (Err "Connection closed", c)
  | (Some (Err err), c) => (Err err, c)
  | (Some (Ok (Text text)), c) => (parse_value text, c)
  | (Some (Ok other), c) => (Err ("Expected text message, got " +:+ kind_of other), c)
  end.

(** One turn of the loop of [recv_resp], on the answer of [stream_next]: [None] goes
    round again. *)
Definition recv_turn (answer : option (result wire_message string)) (c : ws_client) : option (result T string * ws_client) :=
  match answer with
  | None => Some (Err "Connection closed", c)
  | Some (Err err) => Some (Err err, c)
  | Some (Ok (Text text)) =>
      match from_str text with
      | Err err => Some (Err err, c)
      | Ok (GImmediate _ s params) =>
          if (s =? seq c)%Z then Some (Ok params, c)
          else Some (Err ("Seq mismatch this: " +:+ pretty (seq c) +:+ " got: " +:+ pretty s), c)
      | Ok (GStream _ _ _ _ _) | Ok (GForwarded _ _) | Ok (GLog _ _ _ _) => None
      | Ok GClose => Some (Err "unreachable", c)
      | Ok (GError _ code _ _ params) => Some (Err ("Error: " +:+ pretty code +:+ " " +:+ show_params params), c)
      end
  | Some (Ok (Close _)) =>
      match stream_close c with
      | (Err err, c) => Some (Err err, c)
      | (Ok _, c) => Some (Err "Connection closed", c)
      end
  | Some (Ok _) => None
  end.

(** The loop, at most [fuel] turns; [None] is out of fuel. *)
Fixpoint recv_resp (fuel : nat) (c : ws_client) : option (result T string * ws_client) :=
  match fuel with
  | O => None
  | S fuel =>
      let '(answer, c) := stream_next c in
      match recv_turn answer c with
      | Some r => Some r
      | None => recv_resp fuel c
      end
  end.

Definition request (fuel : nat) (method_id : Z) (params : P) (c : ws_client) : option (result T string * ws_client) :=
  match send_req method_id params c with
  | (Err err, c) => Some (Err err, c)
  | (Ok _, c) => recv_resp fuel c
  end.

Definition close (c : ws_client) : result unit string * ws_client := stream_close c.

(** ** Lemmas *)

(** Frames [recv_resp] passes over: streams, forwarded notices, logs, and everything
    that is neither text nor a close. *)
Definition skippable (m : wire_message) : Prop :=
  match m with
  | Text text =>
      match from_str text with
      | Ok (GStream _ _ _ _ _) | Ok (GForwarded _ _) | Ok (GLog _ _ _ _) => True
      | _ => False
      end
  | Close _ => False
  | _ => True
  end.

(** Receiving skippable frames, any number of them. *)
Inductive skips : ws_client -> ws_client -> Prop :=
  | skips_none c : skips c c
  | skips_one c m c1 c2 : stream_next c = (Some (Ok m), c1) -> skippable m -> skips c1 c2 -> skips c c2.

Lemma stream_next_seq c a c' : stream_next c = (a, c') -> seq c' = seq c.
Proof. unfold stream_next. destruct (stream c); [destruct (next_from _)..|destruct (ms_recv _)]; by intros [= _ <-]. Qed.

Lemma skips_seq c c' : skips c c' -> seq c' = seq c.
Proof. induction 1 as [|c m c1 c2 Hn _ _ IH]; [done|]. by rewrite IH, (stream_next_seq _ _ _ Hn). Qed.

Lemma recv_turn_none a c : recv_turn a c = None <-> exists m, a = Some (Ok m) /\ skippable m.
Proof.
  unfold recv_turn, skippable. destruct a as [[m|err]|]; [|split; [done|by intros (? & ? & _)]..].
  destruct m as [t|b|b|b|f]; try (split; [intros _; by eexists|done]).
  - split.
    + intros Ht. exists (Text t). split; [done|]. destruct (from_str t) as [[]|]; try done. by destruct (_ =? _)%Z.
    + intros (m & [= <-] & Hs). by destruct (from_str t) as [[]|].
  - split; [|by intros (m & [= <-] & [])]. by destruct (stream_close c) as [[[]|] ?].
Qed.

(** The loop is: skip, then take the first frame that decides. *)
Lemma recv_resp_skips c c1 a c2 r :
  skips c c1 -> stream_next c1 = (a, c2) -> recv_turn a c2 = Some r -> exists fuel, recv_resp fuel c = Some r.
Proof.
  induction 1 as [c|c m c' c1 Hn Hm _ IH]; intros Ha Hr.
  - exists 1. simpl. by rewrite Ha, Hr.
  - destruct (IH Ha Hr) as [fuel Hf]. exists (S fuel). simpl. rewrite Hn.
    by rewrite (proj2 (recv_turn_none (Some (Ok m)) c')) by eauto.
Qed.

Lemma recv_resp_inv fuel : forall c r, recv_resp fuel c = Some r ->
  exists c1 a c2, skips c c1 /\ stream_next c1 = (a, c2) /\ recv_turn a c2 = Some r.
Proof.
  induction fuel as [|fuel IH]; intros c r; simpl; [done|].
  destruct (stream_next c) as [a c'] eqn:Hn. destruct (recv_turn a c') as [r'|] eqn:Ht.
  - intros [= <-]. exists c, a, c'. split_and!; try done. constructor.
  - intros (c1 & a' & c2 & Hs & Ha & Hr)%IH. apply recv_turn_none in Ht as (m & -> & Hm).
    exists c1, a', c2. split_and!; try done. by econstructor.
Qed.

Lemma recv_turn_ok a c v c' :
  recv_turn a c = Some (Ok v, c') <->
  c' = c /\ exists text m, a = Some (Ok (Text text)) /\ from_str text = Ok (GImmediate m (seq c) v).
Proof.
  unfold recv_turn. split.
  - destruct a as [[[t|b|b|b|f]|err]|]; try done.
    + destruct (from_str t) as [[m s p| | | | |]|] eqn:E; try done. destruct (Z.eqb_spec s (seq c)) as [->|]; [|done].
      intros [= <- <-]. split; [done|]. by exists t, m.
    + by destruct (stream_close c) as [[[]|] ?].
  - intros (-> & t & m & -> & ->). by rewrite Z.eqb_refl.
Qed.

(** ** Properties *)

(** C20: [recv_resp] returns a value only for its own request.  It succeeds
    exactly when, after any number of streams, logs, forwarded notices and frames that
    are not text, an immediate response with the current sequence number arrives, and
    its value is that response's; a response with another number, an error, a close or
    a frame that does not parse before it ends the wait with an error. *)
Theorem recv_resp_spec c v c' :
  (exists fuel, recv_resp fuel c = Some (Ok v, c'))
  <-> exists c1 text m, skips c c1 /\ stream_next c1 = (Some (Ok (Text text)), c')
        /\ from_str text = Ok (GImmediate m (seq c) v).
Proof.
  split.
  - intros [fuel (c1 & a & c2 & Hs & Ha & [-> (text & m & -> & Hf)]%recv_turn_ok)%recv_resp_inv].
    exists c1, text, m. split_and!; try done. by rewrite Hf, (stream_next_seq _ _ _ Ha), (skips_seq _ _ Hs).
  - intros (c1 & text & m & Hs & Ha & Hf). eapply recv_resp_skips; [done..|]. apply recv_turn_ok.
    split; [done|]. exists text, m. split; [done|]. by rewrite Hf, (stream_next_seq _ _ _ Ha), (skips_seq _ _ Hs).
Qed.

(** *** A request and its response *)

Section round_trip.
(** The server: its parser of requests and its encoder of responses; [to_json] and
    [decode] are the two ends of the parameters' and the results' types. *)
Context (parse_request : bytes -> result ws_request string) (encode : ws_response -> result string string).
Context (to_json : P -> json) (decode : json -> result T string).

(** serde reads back what it wrote. *)
Definition requests_parse : Prop := forall method s params text,
  to_string method s params = Ok text -> parse_request (bytes_of_string text) = Ok (WsRequest method s (to_json params)).
Definition responses_parse : Prop := forall method s v text t,
  encode (Immediate method s v) = Ok text -> decode v = Ok t -> from_str (bytes_of_string text) = Ok (GImmediate method s t).

End round_trip.

(** A [Ping] read from the socket is answered with its payload before the caller sees
    it; nothing else writes. *)
Theorem next_from_pings k :
  match conn_read k with
  | (Ok (Some (NPing payload)), k1) =>
      (next_from k).2 = (conn_pong payload k1).2
      /\ (is_ok (conn_pong payload k1).1 = true -> (next_from k).1 = Some (Ok (Ping payload)))
  | (r, k1) =>
      (next_from k).2 = k1
      /\ (next_from k).1 = match r with Ok (Some m) => Some (Ok (from_nago m)) | Ok None => None
                                      | Err e => Some (Err ("websocket read failed: " +:+ e)) end
  end.
Proof.
  unfold next_from. destruct (conn_read k) as [[[m|]|e] k1]; [|done..].
  destruct m; try done. by destruct (conn_pong b k1) as [[]].
Qed.
End client.

(** *** Witnesses: a local transport, with frames given in advance *)

(** Frames to receive, and frames sent. *)
#[local] Instance w_channel : MessageStream (list wire_message * list wire_message) := {
  ms_send m s := (Ok tt, (s.1, s.2 ++ [m]));
  ms_recv s := match s.1 with m :: ms => (Some (Ok m), (ms, s.2)) | [] => (None, s) end;
}.
#[local] Instance w_no_socket : NagoConnection unit := {
  conn_read k := (Ok None, k); conn_write _ k := (Ok tt, k); conn_pong _ k := (Ok tt, k); conn_close k := (Ok tt, k);
}.

Definition w_u32 (z : Z) : bool := ((0 <=? z) && (z <=? u32_max))%Z.
Definition w_words (m s : Z) : bytes := le_bytes 4 m ++ le_bytes 4 s.

(** A codec of requests and responses without parameters: two words, with a letter
    before a response. *)
Definition w_to_string (m s : Z) (_ : unit) : result string string :=
  if w_u32 m && w_u32 s then Ok (string_of_bytes (w_words m s)) else Err "range".
Definition w_parse_request (b : bytes) : result ws_request string :=
  Ok (WsRequest (of_le (take 4 b)) (of_le (drop 4 b)) JNull).
Definition w_encode (r : ws_response) : result string string :=
  match r with
  | Immediate m s _ => if w_u32 m && w_u32 s then Ok (string_of_bytes ("I"%char :: w_words m s)) else Err "range"
  | _ => Err "other"
  end.
Definition w_from_str (b : bytes) : result (response unit) string :=
  match b with
  | a :: b =>
      if ascii_dec a "I" then Ok (GImmediate (of_le (take 4 b)) (of_le (drop 4 b)) tt)
      else Ok (GLog 0 0 Info "note")
  | [] => Err "empty"
  end.

Lemma w_words_back m s : w_u32 m && w_u32 s = true -> of_le (take 4 (w_words m s)) = m /\ of_le (drop 4 (w_words m s)) = s.
Proof.
  unfold w_u32, u32_max. intros [Hm Hs]%andb_true_iff. apply andb_true_iff in Hm as [? ?], Hs as [? ?]. unfold w_words.
  rewrite take_app_length', drop_app_length', !of_le_le_bytes by (by rewrite length_le_bytes).
  split; apply Z.mod_small; lia.
Qed.

Lemma w_requests : requests_parse w_to_string w_parse_request (fun _ => JNull).
Proof.
  intros m s p text. unfold w_to_string. destruct (w_u32 m && w_u32 s) eqn:E; [|done]. intros Ht.
  assert (text = string_of_bytes (w_words m s)) as -> by congruence.
  rewrite bytes_of_string_of_bytes. unfold w_parse_request. by destruct (w_words_back m s E) as [-> ->].
Qed.

Lemma w_responses : responses_parse w_from_str w_encode (fun _ => Ok tt).
Proof.
  intros m s v text []. cbn [w_encode]. destruct (w_u32 m && w_u32 s) eqn:E; [|done]. intros Ht _.
  assert (text = string_of_bytes ("I"%char :: w_words m s)) as -> by congruence.
  rewrite bytes_of_string_of_bytes. unfold w_from_str. destruct (ascii_dec "I" "I"); [|done].
  by destruct (w_words_back m s E) as [-> ->].
Qed.

(** A log, then the response to request 1. *)
Definition w_reply : string := string_of_bytes ("I"%char :: w_words 20 1).
Abbreviation w_client := (@ws_client unit (list wire_message * list wire_message)).
Definition w_c0 : w_client := from_stream ([Text ["L"%char]; Text (bytes_of_string w_reply)], []).
Definition w_c1 : w_client := (send_req w_to_string 20 tt w_c0).2.
Definition w_c2 : w_client := (stream_next w_c1).2.
Definition w_c3 : w_client := (stream_next w_c2).2.

Lemma w_skips : skips w_from_str w_c1 w_c2.
Proof. apply (skips_one _ w_c1 (Text ["L"%char]) w_c2 w_c2); [done|exact I|constructor]. Qed.

