(* ===== verification/Connect.v ===== *)
(** * Connecting: [WsTarget], [WsClientBuilder] and the handshake key of
    [src/libs/ws/client.rs]

    The URL parser, the resolver, the sockets, the TLS session and the upgrade are
    other crates: arguments, with the value each await ends with. *)

From S2P Require Import Prelude Message Listen Client.

(** ** [handshake_entropy] *)

(** The clock, [COUNTER.fetch_add(1)] and the address of a local, as [u64]s, in the
    order of a little-endian machine ([to_ne_bytes]). *)
Definition u64_modulus : Z := 18446744073709551616.

Definition handshake_entropy (nanos address counter : Z) : bytes * Z :=
  (le_bytes 8 nanos ++ le_bytes 8 (Z.lxor counter address), (counter + 1) mod u64_modulus)%Z.

Lemma le_bytes_8_inj a b : le_bytes 8 a = le_bytes 8 b -> (a mod u64_modulus = b mod u64_modulus)%Z.
Proof. intros E%(f_equal of_le). by rewrite !of_le_le_bytes in E. Qed.

Lemma lxor_cancel a c c' :
  (Z.lxor c a mod u64_modulus = Z.lxor c' a mod u64_modulus -> c mod u64_modulus = c' mod u64_modulus)%Z.
Proof.
  change u64_modulus with (2 ^ 64)%Z. intros E. apply Z.bits_inj'. intros i Hi.
  destruct (Z.lt_ge_cases i 64) as [Hlt|Hge]; [|by rewrite !Z.mod_pow2_bits_high by lia].
  apply (f_equal (fun z => Z.testbit z i)) in E. rewrite !Z.mod_pow2_bits_low in * by lia.
  rewrite !Z.lxor_spec in E. by destruct (Z.testbit c i), (Z.testbit c' i), (Z.testbit a i).
Qed.

(** Handshake keys do not repeat.  Two connections have the same
    sixteen bytes only if they saw the same clock and, with the address of the local
    the same, the same value of the counter: up to 2^64 connections opened in the same
    nanosecond all differ. *)
Theorem entropy_distinct nanos nanos' address counter counter' :
  (handshake_entropy nanos address counter).1 = (handshake_entropy nanos' address counter').1 ->
  (nanos mod u64_modulus = nanos' mod u64_modulus /\ counter mod u64_modulus = counter' mod u64_modulus)%Z.
Proof.
  unfold handshake_entropy. cbn [fst]. intros [Hn Hc]%app_inj_1; [|by rewrite !length_le_bytes]. split; [by apply le_bytes_8_inj|].
  by apply lxor_cancel with (a := address), le_bytes_8_inj.
Qed.

(** ** [AcceptAllVerifier]

    rustls's [ServerCertVerifier], over the bytes of certificates, messages and
    signatures; the time is a [UnixTime]. *)
Record server_cert_verifier := ServerCertVerifier {
  verify_server_cert : bytes -> list bytes -> string -> bytes -> Z -> result unit string;
  verify_tls12_signature : bytes -> bytes -> bytes -> result unit string;
  verify_tls13_signature : bytes -> bytes -> bytes -> result unit string;
  supported_verify_schemes : list string;
}.

Definition AcceptAllVerifier : server_cert_verifier :=
  ServerCertVerifier (fun _end_entity _intermediates _server_name _ocsp_response _now => Ok tt)
    (fun _message _cert _dss => Ok tt) (fun _message _cert _dss => Ok tt)
    ["ECDSA_NISTP256_SHA256"; "ECDSA_NISTP384_SHA384"; "RSA_PSS_SHA256"; "RSA_PSS_SHA384"; "RSA_PSS_SHA512";
     "RSA_PKCS1_SHA256"; "RSA_PKCS1_SHA384"; "RSA_PKCS1_SHA512"].

Section connect.
(** [url] is [nago_wss::client::Url]: its fields, and [host_header] its method. *)
Record url := Url { u_secure : bool; u_host : string; u_port : Z; u_path : string }.
Context (host_header : url -> string).

(** [tls]: whether the feature [ws-client-tls] is on.  [Tcp] and [Tls] are the two
    sockets, [K] an upgraded connection, [Cfg] a [ClientConfig]. *)
Context (tls : bool) {Tcp Tls K M Cfg Name Session : Type}.
Context (url_parse : string -> result url string) (resolve : string -> Z -> result (list addr) string).
Context (connect_any : list addr -> result Tcp string) (show_addrs : list addr -> string).
Context (default_client_config : Cfg) (with_custom_certificate_verifier : server_cert_verifier -> Cfg).
Context (server_name : string -> option Name).
Context (client_session : Cfg -> Name -> result Session string) (tls_handshake : Tcp -> Session -> result Tls string).
Context (upgrade_tcp : Tcp -> string -> string -> list string -> list (string * string) -> bytes -> result (K * option string) string).
Context (upgrade_tls : Tls -> string -> string -> list string -> list (string * string) -> bytes -> result (K * option string) string).

(** ** [WsTarget] *)

Record ws_target := WsTarget {
  t_secure : bool;
  t_host : string;
  t_host_header : string;
  t_path : string;
  t_addrs : list addr;
}.

Definition is_secure (t : ws_target) : bool := t_secure t.

Definition target_resolve (s : string) : result ws_target string :=
  let* u := map_err (fun err => "invalid WebSocket URL " +:+ s +:+ ": " +:+ err) (url_parse s) in
  if negb tls && u_secure u then
    Err "wss:// needs the `ws-client-tls` feature; this build speaks plain ws:// only (the fleet terminates TLS at the edge)"
  else
    let* addrs := map_err (fun err => "DNS resolution failed for " +:+ u_host u +:+ ": " +:+ err) (resolve (u_host u) (u_port u)) in
    Ok (WsTarget (u_secure u) (u_host u) (host_header u) (u_path u) addrs).

(** ** [WsClientBuilder] *)

Inductive ws_version_mode := Http1Only | Http2Only | Auto.

Record builder := Builder {
  b_tls_config : option Cfg;
  b_protocol_header : string;
  b_headers : list (string * string);
  b_danger : bool;
}.

Definition builder_new : builder := Builder None "" [] false.
Definition builder_default : builder := builder_new.

(** [mode] changes nothing; the warning, if it is logged. *)
Definition builder_mode (b : builder) (mode : ws_version_mode) : builder * option string :=
  (b, match mode with
      | Http1Only => None
      | _ => Some "HTTP/2 extended CONNECT was removed from this client; connecting over HTTP/1.1"
      end).
Definition builder_protocol_header (b : builder) (protocol : string) : builder :=
  Builder (b_tls_config b) protocol (b_headers b) (b_danger b).
Definition builder_header (b : builder) (key value : string) : builder :=
  Builder (b_tls_config b) (b_protocol_header b) (b_headers b ++ [(key, value)]) (b_danger b).
Definition builder_headers (b : builder) (headers : list (string * string)) : builder :=
  Builder (b_tls_config b) (b_protocol_header b) (b_headers b ++ headers) (b_danger b).
Definition builder_danger (b : builder) : builder := Builder (b_tls_config b) (b_protocol_header b) (b_headers b) true.
Definition builder_tls_config (b : builder) (config : Cfg) : builder :=
  Builder (Some config) (b_protocol_header b) (b_headers b) (b_danger b).

Record ws_connect_response := WsConnectResponse {
  cr_status : Z;
  cr_headers : list (string * string);
  cr_protocol : option string;
}.

Definition connect_response (protocol : option string) : ws_connect_response :=
  WsConnectResponse 101 (match protocol with Some p => [("sec-websocket-protocol", p)] | None => [] end) protocol.

(** [ClientConfig::builder().dangerous()], with no client authentication. *)
Definition make_dangerous_tls_config : Cfg := with_custom_certificate_verifier AcceptAllVerifier.

(** The configuration [connect_secure] uses. *)
Definition client_config (danger : bool) (tls_config : option Cfg) : Cfg :=
  match tls_config with
  | Some config => config
  | None => if danger then make_dangerous_tls_config else default_client_config
  end.

Definition connected := (@ws_client K M * ws_connect_response)%type.

Definition connect_secure (target : ws_target) (protocols : list string) (headers : list (string * string))
    (danger_accept_invalid_certs : bool) (tls_config : option Cfg) (entropy : bytes) : result connected string :=
  if danger_accept_invalid_certs && bool_decide (is_Some tls_config) then
    Err "explicit TLS policy cannot accept invalid certificates"
  else
    let* socket := map_err (fun err => "TCP connect failed for " +:+ show_addrs (t_addrs target) +:+ ": " +:+ err) (connect_any (t_addrs target)) in
    let* name := ok_or (server_name (t_host target)) ("invalid TLS server name: " +:+ t_host target) in
    let* session := map_err (fun err => "TLS session setup failed: " +:+ err)
                      (client_session (client_config danger_accept_invalid_certs tls_config) name) in
    let* secured := map_err (fun err => "TLS handshake failed: " +:+ err) (tls_handshake socket session) in
    let* r := map_err (fun err => "WebSocket upgrade failed: " +:+ err)
                (upgrade_tls secured (t_path target) (t_host_header target) protocols headers entropy) in
    Ok (WsClient (Secure r.1) 0, connect_response r.2).

(** The protocol header goes out as one value. *)
Definition protocols_of (b : builder) : list string :=
  if is_empty_str (b_protocol_header b) then [] else [b_protocol_header b].

Definition connect (b : builder) (target : ws_target) (entropy : bytes) : result connected string :=
  if t_secure target then
    if tls then connect_secure target (protocols_of b) (b_headers b) (b_danger b) (b_tls_config b) entropy
    else Err "wss:// needs the `ws-client-tls` feature"
  else
    let* socket := map_err (fun err => "TCP connect failed for " +:+ show_addrs (t_addrs target) +:+ ": " +:+ err) (connect_any (t_addrs target)) in
    let* r := map_err (fun err => "WebSocket upgrade failed: " +:+ err)
                (upgrade_tcp socket (t_path target) (t_host_header target) (protocols_of b) (b_headers b) entropy) in
    Ok (WsClient (Plain r.1) 0, connect_response r.2).

Definition build (b : builder) (connect_addr : string) (entropy : bytes) : result connected string :=
  let* target := target_resolve connect_addr in connect b target entropy.

(** [WsClient::new]. *)
Definition client_new (connect_addr protocol_header : string) (headers : option (list (string * string)))
    (entropy : bytes) : result connected string :=
  let b := builder_protocol_header builder_new protocol_header in
  build (match headers with Some hs => builder_headers b hs | None => b end) connect_addr entropy.

Lemma rbind_ok {A B} (r : result A string) (k : A -> result B string) b :
  (let* x := r in k x) = Ok b -> exists a, r = Ok a /\ k a = Ok b.
Proof. destruct r as [a|e]; [|done]. simpl. eauto. Qed.

Lemma map_err_ok {A} (f : string -> string) (r : result A string) a : map_err f r = Ok a -> r = Ok a.
Proof. by destruct r; intros [= ->]. Qed.

(** C33: a [wss] URL is never served in the clear, nor with the certificate
    check off by accident.  If connecting succeeds and the URL is secure, then the build
    has TLS, the session was made for the host of the URL, under the caller's
    configuration if there is one, else under the default one unless
    [danger_accept_invalid_certs] was asked for, and the connection is the one upgraded
    over the finished TLS handshake; the two options together are refused. *)
Theorem secure_stays_secure b addr_ entropy client response u :
  build b addr_ entropy = Ok (client, response) -> url_parse addr_ = Ok u -> u_secure u = true ->
  tls = true
  /\ ~ (b_danger b = true /\ is_Some (b_tls_config b))
  /\ exists name config socket session secured k p,
       server_name (u_host u) = Some name /\ client_session config name = Ok session
       /\ config = match b_tls_config b with
                   | Some c => c
                   | None => if b_danger b then make_dangerous_tls_config else default_client_config
                   end
       /\ tls_handshake socket session = Ok secured
       /\ upgrade_tls secured (u_path u) (host_header u) (protocols_of b) (b_headers b) entropy = Ok (k, p)
       /\ client = WsClient (Secure k) 0 /\ response = connect_response p.
Proof.
  unfold build, target_resolve. intros Hb Hu Hs. rewrite Hu in Hb. simpl in Hb. rewrite Hs in Hb.
  destruct tls eqn:Htls in Hb |- *; [|done]. simpl in Hb. split; [done|].
  apply rbind_ok in Hb as (target & Ht & Hc). apply rbind_ok in Ht as (addrs & _ & [= <-]).
  unfold connect, connect_secure in Hc. rewrite Htls in Hc. simpl in Hc.
  destruct (b_danger b && bool_decide (is_Some (b_tls_config b))) eqn:Hd in Hc; [done|].
  apply rbind_ok in Hc as (socket & _ & Hc). apply rbind_ok in Hc as (name & Hn & Hc).
  apply rbind_ok in Hc as (session & Hse%map_err_ok & Hc). apply rbind_ok in Hc as (secured & Hse2%map_err_ok & Hc).
  apply rbind_ok in Hc as ([k p] & Hup%map_err_ok & [= <- <-]). split.
  - intros [E1 E2]. rewrite E1, (bool_decide_eq_true_2 _ E2) in Hd. done.
  - exists name, (client_config (b_danger b) (b_tls_config b)), socket, session, secured, k, p.
    split_and!; try done. by destruct (server_name (u_host u)); simpl in Hn; simplify_eq.
Qed.
End connect.

(** *** Witnesses *)

Lemma entropy_distinct_witness : (7 mod u64_modulus = 7 mod u64_modulus)%Z.
Proof. apply (entropy_distinct 9 9 140737 7 7). reflexivity. Defined.

Definition w_url : url := Url true "api.example.org" 443 "/".
Definition w_build (b : builder) : result (@connected string unit) string :=
  build (fun u => u_host u) true (fun _ => Ok w_url) (fun _ _ => Ok [AddrV4 [1; 2; 3; 4]%Z 443]) (fun _ => Ok tt)
    (fun _ => "[V4]") "webpki" (fun _ => "accept all") Some (fun (c n : string) => Ok (c +:+ " for " +:+ n)) (fun _ s => Ok s)
    (fun _ _ _ _ _ _ => Err "in the clear") (fun (t : string) _ _ _ _ _ => Ok (t, None)) b "wss://api.example.org" [].

Lemma secure_stays_secure_witness :
  exists c r, w_build builder_new = Ok (@WsClient string unit c 0, r) /\ c = Secure "webpki for api.example.org".
Proof.
  exists (Secure "webpki for api.example.org"), (connect_response None). split; [reflexivity|].
  destruct (secure_stays_secure (M := unit) (fun u => u_host u) true (fun _ => Ok w_url) (fun _ _ => Ok [AddrV4 [1; 2; 3; 4]%Z 443])
    (fun _ => Ok tt) (fun _ => "[V4]") "webpki" (fun _ => "accept all") Some (fun (c n : string) => Ok (c +:+ " for " +:+ n)) (fun _ s => Ok s)
    (fun _ _ _ _ _ _ => Err "in the clear") (fun (t : string) _ _ _ _ _ => Ok (t, None)) builder_new "wss://api.example.org" []
    (WsClient (Secure "webpki for api.example.org") 0) (connect_response None) w_url eq_refl eq_refl eq_refl)
    as (_ & _ & name & config & socket & session & secured & k & p & _ & _ & _ & _ & _ & Hc & _).
  injection Hc as ->. reflexivity.
Defined.
