(* ===== verification/Builder.v ===== *)
(** * Building a server: [WebsocketServer::new] and its setters, in
    [src/libs/ws/server.rs]

    What an application does before it serves: registers handlers and hooks, enables
    MCP.  The server these calls build satisfies what the session relies on. *)

From S2P Require Import Prelude BMap Json ModelTypes JsonSchema ErrorCode Peer Message Outbound ServerConfig Limits Basics Toolbox Mcp Handler Headers Request Session.

(** Names in the order of [String]'s [Ord], as [sorted] puts them. *)
Definition str_leb (a b : string) : bool := match String.compare a b with Gt => false | _ => true end.

Fixpoint insert_name (x : string) (l : list string) : list string :=
  match l with
  | [] => [x]
  | y :: l => if str_leb x y then x :: y :: l else y :: insert_name x l
  end.
Definition sort_names (l : list string) : list string := foldr insert_name [] l.

Section builder.
Context {V Req HS BS AS : Type}.
Abbreviation handler := (@handler V Req HS).
Abbreviation server := (@server V Req HS BS AS).

(** [type_names]: [std::any::type_name] of a handler and of its request; [from_str] is
    serde_json's parser of a schema. *)
Context (from_str : string -> result endpoint_schema string).

Definition server_new (config : ws_server_config) : server :=
  Server simple_auth_controller config ∅ toolbox_new None hooks_default.

Definition with_hooks (s : server) (h : @hooks V BS AS) : server :=
  Server (sv_auth_controller s) (sv_config s) (sv_handlers s) (sv_toolbox s) (sv_mcp s) h.
Definition with_handlers (s : server) (h : gmap Z (ws_endpoint handler)) : server :=
  Server (sv_auth_controller s) (sv_config s) h (sv_toolbox s) (sv_mcp s) (sv_hooks s).

Definition add_before_hook (h : before_hook) (s : server) : server :=
  let k := sv_hooks s in with_hooks s (Hooks (before k ++ [h]) (after k) (on_connect k) (on_disconnect k)).
Definition add_after_hook (h : after_hook) (s : server) : server :=
  let k := sv_hooks s in with_hooks s (Hooks (before k) (after k ++ [h]) (on_connect k) (on_disconnect k)).
Definition add_on_connect_hook (h : on_connect_hook) (s : server) : server :=
  let k := sv_hooks s in with_hooks s (Hooks (before k) (after k) (on_connect k ++ [h]) (on_disconnect k)).
Definition add_on_disconnect_hook (h : on_disconnect_hook) (s : server) : server :=
  let k := sv_hooks s in with_hooks s (Hooks (before k) (after k) (on_connect k) (on_disconnect k ++ [h])).

Definition set_auth_controller (a : auth_controller) (s : server) : server :=
  Server a (sv_config s) (sv_handlers s) (sv_toolbox s) (sv_mcp s) (sv_hooks s).

(** [Err] is a panic. *)
Definition add_handler_erased (schema : endpoint_schema) (roles : list Z) (h : handler) (s : server) : result server string :=
  match sv_handlers s !! ep_code schema with
  | Some old =>
      Err ("Overwriting handler for endpoint " +:+ pretty (ep_code (we_schema old)) +:+ " " +:+ ep_name (we_schema old))
  | None => Ok (with_handlers s (<[ep_code schema := WsEndpoint schema h (list_to_set roles)]> (sv_handlers s)))
  end.

Definition add_handler (SCHEMA : string) (ROLES : list Z) (handler_name request_name : string) (h : handler) (s : server)
    : result server string :=
  let* schema := map_err (fun err => "Invalid schema: " +:+ err) (from_str SCHEMA) in
  let* _ := map_err (fun err => "Invalid handler: " +:+ err) (check_handler (ep_name schema) handler_name request_name) in
  add_handler_erased schema ROLES h s.

(** [None] is "out of fuel" of the schema conversion. *)
Definition enable_mcp (cc : casing) (fuel : nat) (registry : registry) (info : server_info) (s : server)
    : option (result unit string * server) :=
  match mcp_build cc fuel registry (sv_handlers s) info with
  | None => None
  | Some (Err err) => Some (Err err, s)
  | Some (Ok state) =>
      Some (Ok tt, Server (sv_auth_controller s) (sv_config s) (sv_handlers s) (sv_toolbox s) (Some state) (sv_hooks s))
  end.

(** [dump_schemas]: the file, and what is written to it. *)
Definition dump_schemas (s : server) : string * list string :=
  ("docs/" +:+ cfg_name (sv_config s) +:+ "_alive_endpoints.json",
   sort_names (map (fun e => ep_name (we_schema e.2)) (map_to_list (sv_handlers s)))).

(** [prepare]: the toolbox reaches the connections from here on. *)
Definition prepare (s : server) : server :=
  Server (sv_auth_controller s) (sv_config s) (sv_handlers s)
    (set_ws_states (sv_toolbox s) (header_only (sv_config s)) (drop_conn_on_buffer_full (sv_config s)))
    (sv_mcp s) (sv_hooks s).

(** ** Sequences of calls *)

Inductive build_op :=
  | OpBefore (h : @before_hook V BS)
  | OpAfter (h : @after_hook V AS)
  | OpOnConnect (h : @on_connect_hook V)
  | OpOnDisconnect (h : @on_disconnect_hook V)
  | OpAuth (a : @auth_controller V)
  | OpHandler (SCHEMA : string) (ROLES : list Z) (handler_name request_name : string) (h : handler)
  | OpErased (schema : endpoint_schema) (roles : list Z) (h : handler)
  | OpMcp (cc : casing) (fuel : nat) (registry : registry) (info : server_info).

(** [None] is a panic, or out of fuel; an error of [enable_mcp] leaves the server as
    it was. *)
Definition build_step (op : build_op) (s : server) : option server :=
  match op with
  | OpBefore h => Some (add_before_hook h s)
  | OpAfter h => Some (add_after_hook h s)
  | OpOnConnect h => Some (add_on_connect_hook h s)
  | OpOnDisconnect h => Some (add_on_disconnect_hook h s)
  | OpAuth a => Some (set_auth_controller a s)
  | OpHandler SCHEMA ROLES hn rn h => match add_handler SCHEMA ROLES hn rn h s with Ok s => Some s | Err _ => None end
  | OpErased schema roles h => match add_handler_erased schema roles h s with Ok s => Some s | Err _ => None end
  | OpMcp cc fuel registry info => option_map snd (enable_mcp cc fuel registry info s)
  end.

Fixpoint build_run (ops : list build_op) (s : server) : option server :=
  match ops with
  | [] => Some s
  | op :: ops => match build_step op s with Some s => build_run ops s | None => None end
  end.

(** The endpoint an operation registers. *)
Definition registers (op : build_op) : option (ws_endpoint handler) :=
  match op with
  | OpHandler SCHEMA ROLES _ _ h =>
      match from_str SCHEMA with Ok schema => Some (WsEndpoint schema h (list_to_set ROLES)) | Err _ => None end
  | OpErased schema roles h => Some (WsEndpoint schema h (list_to_set roles))
  | _ => None
  end.
Definition hook_of {A} (f : build_op -> option A) (ops : list build_op) : list A := omap f ops.

Lemma add_handler_erased_inv schema roles h s s' :
  add_handler_erased schema roles h s = Ok s' ->
  sv_handlers s !! ep_code schema = None
  /\ s' = with_handlers s (<[ep_code schema := WsEndpoint schema h (list_to_set roles)]> (sv_handlers s)).
Proof. unfold add_handler_erased. destruct (sv_handlers s !! ep_code schema); [done|]. by intros [= <-]. Qed.

(** What a call does to the handlers and to the MCP state. *)
Lemma build_step_cases op s s' :
  build_step op s = Some s' ->
  (exists e, registers op = Some e /\ sv_handlers s !! ep_code (we_schema e) = None
     /\ sv_handlers s' = <[ep_code (we_schema e) := e]> (sv_handlers s) /\ sv_mcp s' = sv_mcp s)
  \/ (registers op = None /\ sv_handlers s' = sv_handlers s
      /\ (sv_mcp s' = sv_mcp s \/ exists cc state, sv_mcp s' = Some state /\ mcp_state_of cc (sv_handlers s) state)).
Proof.
  destruct op as [h|h|h|h|a|SCHEMA ROLES hn rn h|schema roles h|cc fuel reg info]; simpl;
    try (intros [= <-]; right; by auto).
  - unfold add_handler. destruct (from_str SCHEMA) as [schema|]; simpl; [|done].
    destruct (check_handler _ hn rn) as [u|]; simpl; [|done].
    destruct (add_handler_erased schema ROLES h s) as [s1|] eqn:E; [|done]. intros [= <-].
    apply add_handler_erased_inv in E as [Hn ->]. left. by eexists.
  - destruct (add_handler_erased schema roles h s) as [s1|] eqn:E; [|done]. intros [= <-].
    apply add_handler_erased_inv in E as [Hn ->]. left. by eexists.
  - unfold enable_mcp. destruct (mcp_build _ _ _ _ _) as [[state|]|] eqn:E; simpl; intros [= <-]; right; auto.
    apply mcp_build_state_of in E. split_and!; try done. right. eauto.
Qed.

Lemma build_step_consistent op s s' : build_step op s = Some s' -> mcp_consistent s -> mcp_consistent s'.
Proof.
  intros [(e & _ & Hn & Hh & Hm)|(_ & Hh & Hm)]%build_step_cases [Hk Hs].
  - split; rewrite Hh.
    + intros c e'. rewrite lookup_insert_Some. intros [[<- <-]|[_ He]]; [done|by apply Hk].
    + rewrite Hm. intros st (cc & snap & Hsub & Hst)%Hs. exists cc, snap. split; [|done].
      etransitivity; [done|by apply insert_subseteq].
  - split; rewrite Hh; [done|]. intros st Hst. destruct Hm as [Hm|(cc & state & Hm & Hof)]; rewrite Hm in Hst.
    + by apply Hs.
    + injection Hst as <-. by exists cc, (sv_handlers s).
Qed.

(** The handlers after a run: those before it and those it registers. *)
Lemma build_run_handlers ops : forall s s', build_run ops s = Some s' ->
  NoDup (map (fun e => ep_code (we_schema e)) (hook_of registers ops))
  /\ (forall e, e ∈ hook_of registers ops -> sv_handlers s !! ep_code (we_schema e) = None)
  /\ (forall c e, sv_handlers s' !! c = Some e <->
        sv_handlers s !! c = Some e \/ (e ∈ hook_of registers ops /\ ep_code (we_schema e) = c)).
Proof.
  induction ops as [|op ops IH]; intros s s'; simpl.
  - intros [= <-]. split_and!; [constructor|set_solver|set_solver].
  - destruct (build_step op s) as [s1|] eqn:E; [|done]. intros (Hnd & Hnew & Hlook)%IH.
    apply build_step_cases in E as [(e & Hr & Hn & Hh & _)|(Hr & Hh & _)]; unfold hook_of in *; simpl; rewrite Hr.
    + rewrite Hh in Hnew, Hlook. assert (Hne : forall e', e' ∈ omap registers ops -> ep_code (we_schema e') <> ep_code (we_schema e)).
      { intros e' He' Heq. specialize (Hnew e' He'). by rewrite Heq, lookup_insert_eq in Hnew. }
      split_and!.
      * simpl. constructor; [|done]. intros (e' & Heq & He')%list_elem_of_fmap. by apply (Hne e').
      * intros e' [->|He']%elem_of_cons; [done|]. specialize (Hnew e' He'). rewrite lookup_insert_ne in Hnew; [done|].
        intros Heq. by apply (Hne e').
      * intros c e'. rewrite Hlook, lookup_insert_Some, elem_of_cons. split.
        -- intros [[[<- <-]|[_ He]]|[He Hc]]; auto.
        -- intros [He|[[->|He] Hc]]; [|by auto..]. left. right. split; [|done]. intros <-. by rewrite Hn in He.
    + by rewrite Hh in Hnew, Hlook.
Qed.

Lemma build_run_consistent ops : forall s s', build_run ops s = Some s' -> mcp_consistent s -> mcp_consistent s'.
Proof.
  induction ops as [|op ops IH]; intros s s'; simpl; [by intros [= <-]|].
  destruct (build_step op s) as [s1|] eqn:E; [|done]. intros Hr Hc. eapply IH; [done|]. by eapply build_step_consistent.
Qed.

(** C24: every server an application can build is well formed.  However
    the calls are ordered, if none of them panics: the registered endpoints have
    distinct codes, the handlers are exactly those endpoints, each under its own code,
    with the roles it was registered with; and the MCP tools, if enabled, were built
    from endpoints that are still registered, so that routing a tool always finds its
    handler. *)
Theorem built_server_wf config ops s :
  build_run ops (server_new config) = Some s ->
  mcp_consistent s
  /\ NoDup (map (fun e => ep_code (we_schema e)) (hook_of registers ops))
  /\ (forall c e, sv_handlers s !! c = Some e <-> e ∈ hook_of registers ops /\ ep_code (we_schema e) = c)
  /\ (forall state t, sv_mcp s = Some state -> t ∈ tools state ->
        exists e, sv_handlers s !! t_method_code t = Some e /\ t_allowed_roles t = we_allowed_roles e).
Proof.
  intros Hr. pose proof (build_run_handlers _ _ _ Hr) as (Hnd & _ & Hl).
  assert (Hc : mcp_consistent s).
  { eapply build_run_consistent; [done|]. split; [|done]. intros c e He. simpl in He. by rewrite lookup_empty in He. }
  split_and!; [done|done| |].
  - intros c e. rewrite Hl. simpl. rewrite lookup_empty. naive_solver.
  - intros state t Hs Ht. destruct Hc as [Hk Hm]. destruct (Hm state Hs) as (cc & snap & Hsub & Hof).
    destruct (tool_handler cc snap state t) as (e & He & Hroles & _); [|done..|].
    + intros c e He. apply Hk. by eapply lookup_weaken.
    + exists e. split; [by eapply lookup_weaken|done].
Qed.
End builder.

(** *** Witness: a handler, then MCP, then the same code again, which panics *)

Definition w_ops : list (@build_op unit json (bool * json) (request_context unit) unit) :=
  [OpErased w_schema [1]%Z w_echo_handler; OpBefore w_grant].

Lemma built_server_wf_witness :
  match build_run (fun _ => Err "no schema") w_ops (server_new config_default) with
  | Some s => mcp_consistent s /\ is_Some (sv_handlers s !! 20%Z)
  | None => False
  end
  /\ build_run (fun _ => Err "no schema") (w_ops ++ w_ops) (server_new config_default) = None.
Proof.
  split; [|reflexivity].
  destruct (build_run (fun _ => Err "no schema") w_ops (server_new config_default)) as [s|] eqn:E; [|discriminate].
  destruct (built_server_wf (fun _ => Err "no schema") config_default w_ops s E) as (Hc & _ & Hl & _).
  split; [exact Hc|]. exists (WsEndpoint w_schema w_echo_handler (list_to_set [1%Z])). apply Hl. split; [left|reflexivity].
Defined.
