(* ===== verification/McpWire.v ===== *)
(** * JSON-RPC for local protocols: [src/libs/ws/mcp_wire.rs]

    The wire types of JSON-RPC 2.0 and [parse].  Their [Serialize] and [Deserialize]
    are derived: the definitions follow the declarations and their attributes.
    [from_str] is serde_json's parser of a [Value]; the text of serde's own errors is
    a parameter. *)

From S2P Require Import Prelude BMap Json.

Definition JSONRPC_VERSION : string := "2.0".
Definition WIRE_PROTOCOL_VERSION : string := "2025-06-18".
Definition WIRE_PARSE_ERROR : Z := -32700.
Definition WIRE_INVALID_REQUEST : Z := -32600.
Definition WIRE_METHOD_NOT_FOUND : Z := -32601.
Definition WIRE_INVALID_PARAMS : Z := -32602.
Definition WIRE_INTERNAL_ERROR : Z := -32603.

(** ** The types *)

Inductive json_rpc_id := Number (n : Z) (* i64 *) | IdString (s : string).

Record json_rpc_request := JsonRpcRequest {
  jr_jsonrpc : string;
  jr_id : option json_rpc_id;
  jr_method : string;
  jr_params : option json;
}.

Definition call (id : json_rpc_id) (method : string) (params : json) : json_rpc_request :=
  JsonRpcRequest JSONRPC_VERSION (Some id) method (Some params).
Definition notification (method : string) (params : json) : json_rpc_request :=
  JsonRpcRequest JSONRPC_VERSION None method (Some params).
Definition wire_is_notification (r : json_rpc_request) : bool := match jr_id r with None => true | Some _ => false end.

Record json_rpc_error := JsonRpcError { je_code : Z (* i64 *); je_message : string; je_data : option json }.

Definition wire_error_new (code : Z) (message : string) : json_rpc_error := JsonRpcError code message None.
Definition wire_with_data (e : json_rpc_error) (data : json) : json_rpc_error :=
  JsonRpcError (je_code e) (je_message e) (Some data).

Record json_rpc_response := JsonRpcResponse {
  jp_jsonrpc : string;
  jp_id : option json_rpc_id;
  jp_result : option json;
  jp_error : option json_rpc_error;
}.

Definition response_result (id : option json_rpc_id) (res : json) : json_rpc_response :=
  JsonRpcResponse JSONRPC_VERSION id (Some res) None.
Definition response_error (id : option json_rpc_id) (error : json_rpc_error) : json_rpc_response :=
  JsonRpcResponse JSONRPC_VERSION id None (Some error).

Inductive json_rpc_message := MRequest (r : json_rpc_request) | MResponse (r : json_rpc_response).

(** ** [Serialize] *)

Definition ser_id (id : json_rpc_id) : json := match id with Number n => JInt n | IdString s => JStr s end.

(** A member with [skip_serializing_if = "Option::is_none"]. *)
Definition ser_opt (key : string) (v : option json) : list (string * json) :=
  match v with Some v => [(key, v)] | None => [] end.

Definition ser_request (r : json_rpc_request) : json :=
  jobj ([("jsonrpc", JStr (jr_jsonrpc r))] ++ ser_opt "id" (option_map ser_id (jr_id r))
        ++ [("method", JStr (jr_method r))] ++ ser_opt "params" (jr_params r)).

Definition ser_error (e : json_rpc_error) : json :=
  jobj ([("code", JInt (je_code e)); ("message", JStr (je_message e))] ++ ser_opt "data" (je_data e)).

(** The [id] of a response is always written. *)
Definition ser_response (r : json_rpc_response) : json :=
  jobj ([("jsonrpc", JStr (jp_jsonrpc r)); ("id", match jp_id r with Some id => ser_id id | None => JNull end)]
        ++ ser_opt "result" (jp_result r) ++ ser_opt "error" (option_map ser_error (jp_error r))).

(** [#[serde(untagged)]]: the variant's own form. *)
Definition ser_message (m : json_rpc_message) : json :=
  match m with MRequest r => ser_request r | MResponse r => ser_response r end.

(** ** [Deserialize] *)

Definition wire_i64 (n : Z) : bool := ((i64_min <=? n) && (n <=? i64_max))%Z.

(** Untagged: the first variant that fits. *)
Definition de_id (v : json) : option json_rpc_id :=
  match v with
  | JInt n => if wire_i64 n then Some (Number n) else None
  | JStr s => Some (IdString s)
  | _ => None
  end.

(** A member of type [Option<T>]: [None] when absent or null; the outer [None] is an
    error. *)
Definition de_opt {T} (de : json -> option T) (v : option json) : option (option T) :=
  match v with
  | None | Some JNull => Some None
  | Some v => option_map Some (de v)
  end.

Definition de_i64 (v : json) : option Z := match v with JInt n => if wire_i64 n then Some n else None | _ => None end.

Definition de_request (v : json) : option json_rpc_request :=
  match v with
  | JObj _ =>
      version ← jget "jsonrpc" v ≫= as_str; id ← de_opt de_id (jget "id" v);
      method ← jget "method" v ≫= as_str; params ← de_opt Some (jget "params" v);
      Some (JsonRpcRequest version id method params)
  | _ => None
  end.

(** A derived struct is also read from a sequence of its fields. *)
Definition de_error (v : json) : option json_rpc_error :=
  match v with
  | JObj _ =>
      code ← jget "code" v ≫= de_i64; message ← jget "message" v ≫= as_str;
      data ← de_opt Some (jget "data" v); Some (JsonRpcError code message data)
  | JArr [code; message] => code ← de_i64 code; message ← as_str message; Some (JsonRpcError code message None)
  | JArr [code; message; data] =>
      code ← de_i64 code; message ← as_str message; data ← de_opt Some (Some data); Some (JsonRpcError code message data)
  | _ => None
  end.

Definition de_response (v : json) : option json_rpc_response :=
  match v with
  | JObj _ =>
      version ← jget "jsonrpc" v ≫= as_str; id ← de_opt de_id (jget "id" v);
      res ← de_opt Some (jget "result" v); error ← de_opt de_error (jget "error" v);
      Some (JsonRpcResponse version id res error)
  | _ => None
  end.

(** [from_value] on an object; [Request] is tried first. *)
Definition de_message (v : json) : option json_rpc_message :=
  match de_request v with
  | Some r => Some (MRequest r)
  | None => option_map MResponse (de_response v)
  end.

(** ** [parse] *)

Section parse.
Context (mismatch : string).

Definition parse_value (value : json) : result json_rpc_message json_rpc_error :=
  if bool_decide (jget "jsonrpc" value ≫= as_str = Some JSONRPC_VERSION) then
    match de_message value with
    | Some m => Ok m
    | None => Err (wire_error_new WIRE_INVALID_REQUEST ("Invalid Request: " +:+ mismatch))
    end
  else Err (wire_error_new WIRE_INVALID_REQUEST "Invalid Request").

Definition parse (from_str : string -> result json string) (payload : string) : result json_rpc_message json_rpc_error :=
  match from_str payload with
  | Err error => Err (wire_error_new WIRE_PARSE_ERROR ("Parse error: " +:+ error))
  | Ok value => parse_value value
  end.

(** ** What the wire can carry *)

Definition id_wf (id : option json_rpc_id) : bool :=
  match id with Some (Number n) => wire_i64 n | _ => true end.
Definition error_wf (e : option json_rpc_error) : bool :=
  match e with Some e => wire_i64 (je_code e) | None => true end.

(** The version is 2.0, and numbers have their width. *)
Definition message_wf (m : json_rpc_message) : bool :=
  match m with
  | MRequest r => bool_decide (jr_jsonrpc r = JSONRPC_VERSION) && id_wf (jr_id r)
  | MResponse r => bool_decide (jp_jsonrpc r = JSONRPC_VERSION) && id_wf (jp_id r) && error_wf (jp_error r)
  end.

(** A null payload and an absent one are the same to the reader. *)
Definition drop_null (v : option json) : option json := match v with Some JNull => None | v => v end.
Definition norm_error (e : json_rpc_error) : json_rpc_error :=
  JsonRpcError (je_code e) (je_message e) (drop_null (je_data e)).
Definition norm (m : json_rpc_message) : json_rpc_message :=
  match m with
  | MRequest r => MRequest (JsonRpcRequest (jr_jsonrpc r) (jr_id r) (jr_method r) (drop_null (jr_params r)))
  | MResponse r =>
      MResponse (JsonRpcResponse (jp_jsonrpc r) (jp_id r) (drop_null (jp_result r)) (norm_error <$> jp_error r))
  end.

Lemma de_ser_id id : id_wf (Some id) = true -> de_id (ser_id id) = Some id.
Proof. destruct id as [n|s]; [|done]. simpl. by intros ->. Qed.

Lemma de_opt_id v id : de_opt de_id v = Some id -> id_wf id = true.
Proof.
  destruct v as [[]|]; simpl; intros H; simplify_eq; try done.
  - destruct (wire_i64 n) eqn:E; by simplify_eq/=.
Qed.

Lemma de_opt_some v r : de_opt Some v = Some r -> r = drop_null v.
Proof. destruct v as [[]|]; simpl; intros; by simplify_eq. Qed.

Lemma de_opt_total v : de_opt Some v = Some (drop_null v).
Proof. by destruct v as [[]|]. Qed.

Lemma drop_null_idem v : drop_null (drop_null v) = drop_null v.
Proof. by destruct v as [[]|]. Qed.

Lemma de_i64_range v n : de_i64 v = Some n -> wire_i64 n = true.
Proof. destruct v; simpl; try done. destruct (wire_i64 n0) eqn:E; intros; by simplify_eq. Qed.

Lemma de_error_wf v e : de_error v = Some e -> error_wf (Some e) = true /\ norm_error e = e.
Proof.
  destruct v as [| | | | |l|m]; try done; unfold de_error; intros H.
  1: destruct l as [|? [|? [|? []]]]; try done.
  all: repeat (apply bind_Some in H as (? & ? & H)); simplify_eq;
    repeat match goal with H : de_opt Some _ = Some _ |- _ => apply de_opt_some in H as -> end;
    unfold norm_error; cbn [error_wf je_code je_message je_data]; rewrite ?drop_null_idem.
  all: split; [|done]; match goal with
    | H : de_i64 _ = Some _ |- _ => by apply de_i64_range in H
    | H : (jget _ _ ≫= de_i64) = Some _ |- _ => apply bind_Some in H as (? & _ & H); by apply de_i64_range in H
    end.
Qed.

Lemma de_opt_error v e : de_opt de_error v = Some e -> error_wf e = true /\ norm_error <$> e = e.
Proof.
  destruct v as [v|]; [|by intros [= <-]]. intros H.
  assert (v = JNull /\ e = None \/ option_map Some (de_error v) = Some e) as [[-> ->]|H'] by (destruct v; naive_solver).
  { done. }
  destruct (de_error v) eqn:E; simplify_eq/=. apply de_error_wf in E as [? Hn]. by rewrite Hn.
Qed.

(** Both forms are read off the members of one object. *)
Lemma de_message_members v :
  jget "jsonrpc" v ≫= as_str = Some JSONRPC_VERSION ->
  de_message v
  = (id ← de_opt de_id (jget "id" v);
     match jget "method" v ≫= as_str with
     | Some method => Some (MRequest (JsonRpcRequest JSONRPC_VERSION id method (drop_null (jget "params" v))))
     | None =>
         error ← de_opt de_error (jget "error" v);
         Some (MResponse (JsonRpcResponse JSONRPC_VERSION id (drop_null (jget "result" v)) error))
     end).
Proof.
  intros Hv. destruct v as [| | | | | |m]; try done.
  unfold de_message, de_request, de_response. rewrite Hv, !de_opt_total. cbn [mbind option_bind].
  destruct (de_opt de_id _) as [id|]; [|done]. cbn [mbind option_bind].
  destruct (jget "method" _ ≫= as_str) as [me|]; [done|]. cbn [mbind option_bind].
  by destruct (de_opt de_error _).
Qed.

Lemma parse_value_ok v msg :
  parse_value v = Ok msg <-> jget "jsonrpc" v ≫= as_str = Some JSONRPC_VERSION /\ de_message v = Some msg.
Proof.
  unfold parse_value. case_bool_decide as Hv; [|naive_solver]. destruct (de_message v); naive_solver.
Qed.

Lemma parse_value_wf v msg : parse_value v = Ok msg -> message_wf msg = true /\ norm msg = msg.
Proof.
  intros [Hv H]%parse_value_ok. rewrite de_message_members in H by done.
  apply bind_Some in H as (id & Hid%de_opt_id & H).
  destruct (jget "method" _ ≫= as_str) as [me|]; simplify_eq/=.
  { by rewrite Hid, drop_null_idem. }
  apply bind_Some in H as (e & [He Hn]%de_opt_error & H). simplify_eq/=. by rewrite Hid, He, Hn, drop_null_idem.
Qed.

(** What was written under each key. *)
Lemma jget_ser_request r k :
  jget k (ser_request r)
  = if decide (k = "jsonrpc") then Some (JStr (jr_jsonrpc r)) else if decide (k = "id") then ser_id <$> jr_id r
    else if decide (k = "method") then Some (JStr (jr_method r)) else if decide (k = "params") then jr_params r else None.
Proof.
  unfold ser_request, jobj, bm_of_list.
  destruct r as [v [id|] me [p|]]; cbn [app ser_opt option_map jr_jsonrpc jr_id jr_method jr_params fold_left fst snd];
    rewrite ?jget_jobj_insert; repeat case_decide; simplify_eq; done.
Qed.

Lemma jget_ser_response r k :
  jget k (ser_response r)
  = if decide (k = "jsonrpc") then Some (JStr (jp_jsonrpc r))
    else if decide (k = "id") then Some (match jp_id r with Some id => ser_id id | None => JNull end)
    else if decide (k = "result") then jp_result r else if decide (k = "error") then ser_error <$> jp_error r else None.
Proof.
  unfold ser_response, jobj, bm_of_list.
  destruct r as [v id [res|] [e|]]; cbn [app ser_opt option_map jp_jsonrpc jp_id jp_result jp_error fold_left fst snd];
    rewrite ?jget_jobj_insert; repeat case_decide; simplify_eq; done.
Qed.

Lemma jget_ser_error e k :
  jget k (ser_error e)
  = if decide (k = "code") then Some (JInt (je_code e)) else if decide (k = "message") then Some (JStr (je_message e))
    else if decide (k = "data") then je_data e else None.
Proof.
  unfold ser_error, jobj, bm_of_list.
  destruct e as [c m [d|]]; cbn [app ser_opt je_code je_message je_data fold_left fst snd];
    rewrite ?jget_jobj_insert; repeat case_decide; simplify_eq; done.
Qed.

Lemma de_ser_error e : error_wf e = true -> de_opt de_error (ser_error <$> e) = Some (norm_error <$> e).
Proof.
  destruct e as [e|]; [|done]. simpl. intros Hc.
  assert (de_error (ser_error e) = Some (norm_error e)) as E.
  { unfold de_error. change (ser_error e) with (JObj (bm_of_list ([("code", JInt (je_code e)); ("message", JStr (je_message e))] ++ ser_opt "data" (je_data e)))).
    cbv iota. change (JObj (bm_of_list _)) with (ser_error e). rewrite !jget_ser_error, de_opt_total. simpl. by rewrite Hc. }
  by apply (f_equal (option_map Some)) in E.
Qed.

Lemma de_ser_opt_id id : id_wf id = true -> de_opt de_id (ser_id <$> id) = Some id.
Proof. destruct id as [[n|s]|]; [|done..]. simpl. by intros ->. Qed.

Lemma parse_ser_message m : message_wf m = true -> parse_value (ser_message m) = Ok (norm m).
Proof.
  intros Hm. apply parse_value_ok. destruct m as [r|r]; simpl in Hm.
  - apply andb_true_iff in Hm as [Hv%bool_decide_eq_true Hid].
    unfold ser_message. rewrite de_message_members; rewrite !jget_ser_request; simpl; rewrite Hv; [|done].
    by rewrite de_ser_opt_id.
  - apply andb_true_iff in Hm as [[Hv%bool_decide_eq_true Hid]%andb_true_iff He].
    unfold ser_message. rewrite de_message_members; rewrite !jget_ser_response; simpl; rewrite Hv; [|done].
    destruct (jp_id r) as [[n|s]|]; simpl in *; rewrite ?Hid; simpl; by rewrite de_ser_error.
Qed.

(** C37: What is sent is read back.  Every request, notification and response
    with the protocol's version and numbers of their width is parsed to itself, but
    for a null payload ([params], [result] or [data]), which is read back as absent:
    a message is parsed to itself exactly when it holds none.  And these are all the
    messages: [parse] returns only such ones. *)
Theorem wire_roundtrip (m : json_rpc_message) :
  (message_wf m = true -> parse_value (ser_message m) = Ok (norm m))
  /\ (parse_value (ser_message m) = Ok m <-> message_wf m = true /\ norm m = m)
  /\ (message_wf m = true /\ norm m = m <-> exists v, parse_value v = Ok m).
Proof.
  split; [apply parse_ser_message|]. split.
  - split; [apply parse_value_wf|]. intros [Hw Hn]. by rewrite parse_ser_message, Hn.
  - split; [|intros [v Hv]; by eapply parse_value_wf].
    intros [Hw Hn]. exists (ser_message m). by rewrite parse_ser_message, Hn.
Qed.

(** A frame that is neither: an object with the version and a readable id, whose
    [method] is not a string. *)
Definition neither (id : option json_rpc_id) : json_rpc_message :=
  MResponse (JsonRpcResponse JSONRPC_VERSION id None None).

(** What [parse] accepts.  A frame is read as a request exactly when it
    is an object with the version, an id that is absent, null, a string or an [i64],
    and a method that is a string; as a response exactly when it has the version and
    such an id, no string as its method, and an error that is absent, null or well
    formed.  Every other frame is refused, with [PARSE_ERROR] when it is not JSON and
    [INVALID_REQUEST] otherwise.  So a frame with a version and nothing else, or whose
    method is a number, is accepted as a response with neither result nor error. *)
Theorem parse_accepts (from_str : string -> result json string) (payload : string) :
  match from_str payload with
  | Err e => parse from_str payload = Err (wire_error_new WIRE_PARSE_ERROR ("Parse error: " +:+ e))
  | Ok v =>
      match parse from_str payload with
      | Ok (MRequest r) =>
          jget "jsonrpc" v ≫= as_str = Some JSONRPC_VERSION /\ de_opt de_id (jget "id" v) = Some (jr_id r)
          /\ jget "method" v = Some (JStr (jr_method r)) /\ jr_params r = drop_null (jget "params" v)
      | Ok (MResponse r) =>
          jget "jsonrpc" v ≫= as_str = Some JSONRPC_VERSION /\ de_opt de_id (jget "id" v) = Some (jp_id r)
          /\ jget "method" v ≫= as_str = None /\ jp_result r = drop_null (jget "result" v)
          /\ de_opt de_error (jget "error" v) = Some (jp_error r)
      | Err e =>
          je_code e = WIRE_INVALID_REQUEST
          /\ (jget "jsonrpc" v ≫= as_str <> Some JSONRPC_VERSION \/ de_opt de_id (jget "id" v) = None
              \/ jget "method" v ≫= as_str = None /\ de_opt de_error (jget "error" v) = None)
      end
  end
  /\ (forall id, id_wf id = true ->
      parse_value (jobj [("jsonrpc", JStr "2.0"); ("id", match id with Some id => ser_id id | None => JNull end);
                         ("method", JInt 5)]) = Ok (neither id)).
Proof.
  split.
  - unfold parse. destruct (from_str payload) as [v|e]; [|done]. unfold parse_value.
    case_bool_decide as Hv; [|by split; [|left]]. rewrite de_message_members by done.
    destruct (de_opt de_id (jget "id" v)) as [id|] eqn:Hid; cbn [mbind option_bind]; [|by split; [|right; left]].
    destruct (jget "method" v ≫= as_str) as [me|] eqn:Hme.
    + split_and!; try done. destruct (jget "method" v) as [[]|]; by simplify_eq/=.
    + destruct (de_opt de_error (jget "error" v)); cbn [mbind option_bind]; [done|].
      split; [done|]. by right; right.
  - intros [[n|s]|] H; cbn in H |- *; try done. unfold parse_value, de_message. simpl. by rewrite H.
Qed.
End parse.

Definition ex_call : json_rpc_message :=
  MRequest (call (Number 7) "tools/call" (jobj [("name", JStr "agent_click")])).
Lemma wire_roundtrip_witness : message_wf ex_call = true /\ parse_value "" (ser_message ex_call) = Ok ex_call.
Proof. split; [reflexivity|]. apply (proj2 (proj1 (proj2 (wire_roundtrip "" ex_call))) (conj eq_refl eq_refl)). Defined.

Example ex_parse :
  parse "" (fun _ => Ok (jobj [("jsonrpc", JStr "2.0")])) "{}" = Ok (neither None).
Proof. reflexivity. Qed.

Example ex_null_result :
  parse_value "" (ser_message (MResponse (response_result (Some (Number 7)) JNull))) = Ok (neither (Some (Number 7))).
Proof. reflexivity. Qed.
