(* ===== verification/McpInterop.v ===== *)
(** * The two JSON-RPC implementations agree

    The server speaks JSON-RPC with the types of [src/libs/ws/mcp.rs] ([Mcp]), a local
    client with those of [src/libs/ws/mcp_wire.rs] ([McpWire]); neither uses the
    other's code.  Here each is checked against the other: what one writes the other
    reads, and both take the same values for requests. *)

From S2P Require Import Prelude BMap Json ModelTypes JsonSchema ErrorCode Mcp McpWire.

(** The same value in the types of the other side. *)
Definition server_id (id : json_rpc_id) : rpc_id := match id with Number n => Num n | IdString s => Str s end.
Definition client_id (id : rpc_id) : json_rpc_id := match id with Num n => Number n | Str s => IdString s end.
Definition server_request (r : json_rpc_request) : rpc_request :=
  RpcRequest (jr_jsonrpc r) (server_id <$> jr_id r) (jr_method r) (jr_params r).
Definition client_error (e : rpc_error) : json_rpc_error := JsonRpcError (err_code e) (err_message e) (err_data e).

Definition client_request (r : rpc_request) : json_rpc_request :=
  JsonRpcRequest (jsonrpc r) (client_id <$> rpc_rid r) (rpc_method r) (rpc_params r).

Lemma client_server_request r : client_request (server_request r) = r.
Proof. by destruct r as [v [[n|s]|] m p]. Qed.

(** ** The writers *)

Lemma jsonrpc_result_wire id res : jsonrpc_result id res = ser_response (response_result (client_id <$> id) res).
Proof. by destruct id as [[n|s]|]. Qed.

Lemma jsonrpc_error_wire id e : jsonrpc_error id e = ser_response (response_error (client_id <$> id) (client_error e)).
Proof. by destruct id as [[n|s]|], e as [c m [d|]]. Qed.

(** ** The readers *)

Lemma de_request_members v r :
  jget "jsonrpc" v ≫= as_str = Some JSONRPC_VERSION ->
  de_message v = Some (MRequest r) <->
  exists id method, de_opt de_id (jget "id" v) = Some id /\ jget "method" v ≫= as_str = Some method
    /\ r = JsonRpcRequest JSONRPC_VERSION id method (drop_null (jget "params" v)).
Proof.
  intros Hv. rewrite de_message_members by done.
  destruct (de_opt de_id (jget "id" v)) as [id|]; simpl; [|naive_solver].
  destruct (jget "method" v ≫= as_str) as [me|]; simpl; [naive_solver|].
  destruct (de_opt de_error _); simpl; naive_solver.
Qed.

Section readers.
Context (serde_error : json -> string) (mismatch : string).

Lemma ids_agree v : id_from_value v = server_id <$> de_id v.
Proof. destruct v as [| |n| | | |]; try done. simpl. change (in_i64 n) with (wire_i64 n). by destruct (wire_i64 n). Qed.

(** The server's reader, in the terms of the client's. *)
Lemma request_from_value_eq v :
  jget "jsonrpc" v ≫= as_str = Some JSONRPC_VERSION ->
  request_from_value serde_error v
  = match de_opt de_id (jget "id" v), jget "method" v ≫= as_str with
    | Some id, Some method => Ok (RpcRequest JSONRPC_VERSION (server_id <$> id) method (drop_null (jget "params" v)))
    | _, _ => Err (serde_error v)
    end.
Proof.
  unfold request_from_value. destruct (jget "jsonrpc" v) as [[]|]; try done. intros [= ->].
  destruct (jget "method" v) as [[]|]; try (by destruct (de_opt de_id _)). simpl.
  assert (match jget "params" v with Some JNull => None | o => o end = drop_null (jget "params" v)) as -> by (by destruct (jget "params" v) as [[]|]).
  destruct (jget "id" v) as [x|]; [|done]. destruct x as [| |n| | | |]; try done.
  simpl. change (in_i64 n) with (wire_i64 n). by destruct (wire_i64 n).
Qed.

(** C11: The server's JSON-RPC and the client's are one protocol.  A value is
    read by the client's types as a request exactly when the server's reader takes it
    for a call, and then as the same one.  What the client writes as a request the
    server therefore reads with the same id, method and parameters (a null parameter as
    an absent one).  Every result and every error the server writes is what the client
    would have written, and is read by the client as the response to the same id, with
    the same result, or error code, message and data. *)
Theorem jsonrpc_interop :
  (forall v r, parse_value mismatch v = Ok (MRequest r) <->
     jget "jsonrpc" v ≫= as_str = Some "2.0" /\ request_from_value serde_error v = Ok (server_request r))
  /\ (forall r, message_wf (MRequest r) = true ->
        request_from_value serde_error (ser_request r)
        = Ok (server_request (JsonRpcRequest (jr_jsonrpc r) (jr_id r) (jr_method r) (drop_null (jr_params r)))))
  /\ (forall id res, id_wf (client_id <$> id) = true ->
        parse_value mismatch (jsonrpc_result id res)
        = Ok (MResponse (JsonRpcResponse "2.0" (client_id <$> id) (drop_null (Some res)) None)))
  /\ (forall id e, id_wf (client_id <$> id) = true -> wire_i64 (err_code e) = true ->
        parse_value mismatch (jsonrpc_error id e)
        = Ok (MResponse (JsonRpcResponse "2.0" (client_id <$> id) None (Some (norm_error (client_error e)))))).
Proof.
  assert (forall v r, parse_value mismatch v = Ok (MRequest r) <->
     jget "jsonrpc" v ≫= as_str = Some "2.0" /\ request_from_value serde_error v = Ok (server_request r)) as Hreq.
  { intros v r. rewrite parse_value_ok. change "2.0" with JSONRPC_VERSION. split.
    - intros [Hv Hd]. split; [done|]. rewrite request_from_value_eq by done.
      apply de_request_members in Hd as (id & me & -> & -> & ->); done.
    - intros [Hv Hr]. split; [done|]. rewrite request_from_value_eq in Hr by done.
      destruct (de_opt de_id _) as [id|] eqn:Hid; [|done]. destruct (jget "method" v ≫= as_str) as [me|] eqn:Hme; [|done].
      apply de_request_members; [done|]. exists id, me. split_and!; try done.
      injection Hr as Hr. rewrite <- (client_server_request r). unfold client_request, server_request in *. simpl.
      destruct r as [v' id' m' p']. simpl in *. simplify_eq. f_equal.
      destruct id as [[]|], id' as [[]|]; by simplify_eq/=. }
  split_and!; [done| | |].
  - intros r Hr. apply (Hreq (ser_request r)). apply (parse_ser_message mismatch (MRequest r) Hr).
  - intros id res Hid. rewrite jsonrpc_result_wire.
    change (ser_response ?r) with (ser_message (MResponse r)). rewrite parse_ser_message; [done|].
    unfold message_wf. simpl. by rewrite Hid.
  - intros id e Hid He. rewrite jsonrpc_error_wire.
    change (ser_response ?r) with (ser_message (MResponse r)). rewrite parse_ser_message; [done|].
    unfold message_wf. simpl. by rewrite Hid, He.
Qed.
End readers.

Lemma jsonrpc_interop_witness :
  id_wf (client_id <$> Some (Num 7)) = true
  /\ parse_value "" (jsonrpc_error (Some (Num 7)) (error_code_to_jsonrpc BAD_REQUEST JNull))
     = Ok (MResponse (JsonRpcResponse "2.0" (Some (Number 7)) None
             (Some (JsonRpcError INVALID_PARAMS "Invalid params"
                      (Some (jobj [("appCode", JInt (to_u32 BAD_REQUEST)); ("kind", JStr (kind BAD_REQUEST))])))))).
Proof.
  split; [reflexivity|].
  apply (proj2 (proj2 (proj2 (jsonrpc_interop (fun _ => "") ""))) (Some (Num 7)) (error_code_to_jsonrpc BAD_REQUEST JNull));
    reflexivity.
Defined.
