(* ===== verification/Types.v ===== *)
(** * Scalars on the wire: [src/libs/types.rs]

    [Address], [H256] and [U256] as this crate defines them without the [blockchain]
    feature, their text form, and the two newtypes that check the length before they
    parse.  The [hex] crate is an interface: two functions and their laws. *)

From S2P Require Import Prelude Json.

(** [hex::encode] writes two lower-case digits per byte; [hex::decode] reads digits of
    either case, two per byte. *)
Class Hex := {
  hex_encode : bytes -> string;
  hex_decode : string -> result bytes string;
}.
Class HexLaws `{!Hex} := {
  hex_encode_length b : String.length (hex_encode b) = 2 * length b;
  hex_decode_encode b : hex_decode (hex_encode b) = Ok b;
  hex_encode_decode s b : hex_decode s = Ok b -> hex_encode b = to_ascii_lowercase s;
}.

Definition OX : string := "0x".

(** [&value[2..]]; the slice is in bounds and on a boundary when the prefix is there. *)
Fixpoint slice_from (n : nat) (s : string) : string :=
  match n, s with S n, String _ s => slice_from n s | _, _ => s end.

Section types.
Context {HX : Hex}.

Definition bad_scalar (digits : nat) : string :=
  "expected 0x followed by exactly " +:+ pretty digits +:+ " hexadecimal digits".

Definition decode_scalar (value : string) (digits : nat) : result bytes string :=
  if negb (Nat.eqb (String.length value) (digits * 2 + 2)) || negb (starts_with OX value)
  then Err (bad_scalar (digits * 2))
  else hex_decode (slice_from 2 value).

(** ** [byte_scalar!]: [Address] (20 bytes) and [H256] (32 bytes) *)

Definition scalar_to_string (v : bytes) : string := OX +:+ hex_encode v.

(** [copy_from_slice] panics on a slice of another length: [None]. *)
Definition copy_from_slice (len : nat) (b : bytes) : option bytes :=
  if Nat.eqb (length b) len then Some b else None.

Definition scalar_from_str (len : nat) (value : string) : option (result bytes string) :=
  match decode_scalar value len with
  | Err e => Some (Err e)
  | Ok b => option_map Ok (copy_from_slice len b)
  end.

Definition scalar_serialize (v : bytes) : json := JStr (scalar_to_string v).

(** [String::deserialize], then [parse]; [not_string] is serde's error. *)
Definition scalar_deserialize (not_string : string) (len : nat) (v : json) : option (result bytes string) :=
  match as_str v with
  | None => Some (Err not_string)
  | Some value => scalar_from_str len value
  end.

(** ** [U256]: four words, the most significant first as parsed *)

(** The bytes of a word in memory on this machine. *)
Definition ne_bytes (little : bool) (w : Z) : bytes := if little then le_bytes 8 w else rev (le_bytes 8 w).
Definition from_be_bytes (b : bytes) : Z := of_le (rev b).

(** [Deref]: the array, viewed as bytes. *)
Definition u256_deref (little : bool) (words : list Z) : bytes := concat (map (ne_bytes little) words).
Definition u256_to_string (little : bool) (words : list Z) : string := OX +:+ hex_encode (u256_deref little words).

Fixpoint chunks_exact (fuel n : nat) (b : bytes) : list bytes :=
  match fuel with
  | O => []
  | S fuel => if Nat.ltb (length b) n then [] else take n b :: chunks_exact fuel n (drop n b)
  end.

(** [words[index] = ...], with [index] from [enumerate]: a fifth chunk would panic. *)
Fixpoint set_words (chunks : list bytes) (index : nat) (words : list Z) : option (list Z) :=
  match chunks with
  | [] => Some words
  | c :: chunks =>
      if Nat.ltb index (length words) then set_words chunks (S index) (<[index := from_be_bytes c]> words) else None
  end.

Definition u256_from_str (value : string) : option (result (list Z) string) :=
  match decode_scalar value 32 with
  | Err e => Some (Err e)
  | Ok b => option_map Ok (set_words (chunks_exact (length b) 8 b) 0 [0; 0; 0; 0]%Z)
  end.

(** Its JSON: the text, both ways. *)
Definition u256_serialize (little : bool) (words : list Z) : json := JStr (u256_to_string little words).
Definition u256_deserialize (not_string : string) (v : json) : option (result (list Z) string) :=
  match as_str v with
  | None => Some (Err not_string)
  | Some value => u256_from_str value
  end.

(** ** The checked newtypes: [BlockchainAddress] (40 digits), [BlockchainTransactionHash] (64) *)

Definition parse_blockchain_scalar {T} (from_str : string -> option (result T string)) (value : string) (digits : nat)
    : option (result T string) :=
  if negb (Nat.eqb (String.length value) (digits + 2)) || negb (starts_with OX value)
  then Some (Err (bad_scalar digits))
  else from_str value.

Definition blockchain_deserialize (not_string : string) (len : nat) (v : json) : option (result bytes string) :=
  match as_str v with
  | None => Some (Err not_string)
  | Some value => parse_blockchain_scalar (scalar_from_str len) value (2 * len)
  end.
Definition blockchain_serialize (v : bytes) : json := JStr (scalar_to_string v).

(** [BlockchainAddress] and [WithBlockchainAddress]; [BlockchainTransactionHash] and
    [WithBlockchainTransactionHash]. *)
Definition address_deserialize (not_string : string) : json -> option (result bytes string) :=
  blockchain_deserialize not_string 20.
Definition transaction_hash_deserialize (not_string : string) : json -> option (result bytes string) :=
  blockchain_deserialize not_string 32.
Definition address_serialize : bytes -> json := blockchain_serialize.
Definition transaction_hash_serialize : bytes -> json := blockchain_serialize.

(** ** Lemmas *)

Context {HL : HexLaws}.

Lemma slice_OX s : slice_from 2 (OX +:+ s) = s.
Proof. done. Qed.

Lemma starts_OX s : starts_with OX s = true -> s = OX +:+ slice_from 2 s.
Proof. rewrite starts_with_strip. intros [r Hr]%bool_decide_eq_true. by apply strip_prefix_Some in Hr as ->. Qed.

Lemma starts_OX_app s : starts_with OX (OX +:+ s) = true.
Proof. rewrite starts_with_strip, strip_prefix_append. done. Qed.

Lemma length_OX s : String.length (OX +:+ s) = 2 + String.length s.
Proof. done. Qed.

Lemma lower_length s : String.length (to_ascii_lowercase s) = String.length s.
Proof. unfold to_ascii_lowercase. induction s; simpl; auto. Qed.

Lemma hex_decode_length s b : hex_decode s = Ok b -> String.length s = 2 * length b.
Proof. intros H%hex_encode_decode. by rewrite <- hex_encode_length, H, lower_length. Qed.

Lemma decode_scalar_ok s n b :
  decode_scalar s n = Ok b <->
  length b = n /\ starts_with OX s = true /\ hex_decode (slice_from 2 s) = Ok b.
Proof.
  unfold decode_scalar. destruct (starts_with OX s) eqn:Hp; [|rewrite orb_true_r; naive_solver].
  assert (String.length s = 2 + String.length (slice_from 2 s)) as Hs.
  { rewrite <- length_OX. f_equal. by apply starts_OX. }
  destruct (Nat.eqb_spec (String.length s) (n * 2 + 2)) as [Hl|Hl]; simpl negb; cbv [orb].
  - split; [|naive_solver]. intros Hd. split_and!; try done. apply hex_decode_length in Hd. lia.
  - split; [done|]. intros (Hn & _ & Hd%hex_decode_length). lia.
Qed.

Lemma decode_own_text b : decode_scalar (OX +:+ hex_encode b) (length b) = Ok b.
Proof. apply decode_scalar_ok. split_and!; [done|apply starts_OX_app|]. rewrite slice_OX. apply hex_decode_encode. Qed.

(** Parsing never panics. *)
Lemma scalar_from_str_eq len s : scalar_from_str len s = Some (decode_scalar s len).
Proof.
  unfold scalar_from_str. destruct (decode_scalar s len) as [b|e] eqn:E; [|done].
  apply decode_scalar_ok in E as [Hl _]. unfold copy_from_slice. by rewrite Hl, Nat.eqb_refl.
Qed.

Lemma blockchain_eq e len s :
  blockchain_deserialize e len (JStr s) = Some (decode_scalar s len).
Proof.
  unfold blockchain_deserialize, parse_blockchain_scalar. simpl. rewrite scalar_from_str_eq.
  unfold decode_scalar. rewrite (Nat.mul_comm len 2).
  by destruct (negb _ || negb _).
Qed.

(** The text form of the byte scalars.  Parsing never panics; it accepts
    exactly [0x] and two digits of either case per byte, and gives the bytes whose own
    text is the lower case of what was read.  What is written is always read back, by
    the plain types and by the two checked newtypes alike, which read the same texts. *)
Theorem scalar_roundtrip e len :
  (forall s b, scalar_from_str len s = Some (Ok b) <->
     length b = len /\ starts_with OX s = true /\ hex_decode (slice_from 2 s) = Ok b)
  /\ (forall s, is_Some (scalar_from_str len s))
  /\ (forall s b, scalar_from_str len s = Some (Ok b) -> scalar_to_string b = to_ascii_lowercase s)
  /\ (forall b, length b = len ->
        scalar_deserialize e len (scalar_serialize b) = Some (Ok b)
        /\ blockchain_deserialize e len (blockchain_serialize b) = Some (Ok b))
  /\ (forall v, blockchain_deserialize e len v = scalar_deserialize e len v).
Proof.
  split_and!.
  - intros s b. rewrite scalar_from_str_eq, <- decode_scalar_ok. split; [by intros [= ->]|by intros ->].
  - intros s. by rewrite scalar_from_str_eq.
  - intros s b. rewrite scalar_from_str_eq. intros [= (_ & Hp & Hd)%decode_scalar_ok].
    apply hex_encode_decode in Hd. unfold scalar_to_string. rewrite Hd, (f_equal to_ascii_lowercase (starts_OX s Hp)). done.
  - intros b <-. unfold scalar_deserialize, scalar_serialize, blockchain_serialize. simpl.
    rewrite blockchain_eq, scalar_from_str_eq. unfold scalar_to_string. by rewrite decode_own_text.
  - intros []; try done. rewrite blockchain_eq. unfold scalar_deserialize. simpl. by rewrite scalar_from_str_eq.
Qed.

(** ** [U256] *)

Definition word_ok (w : Z) : bool := ((0 <=? w) && (w <? 256 ^ 8))%Z.
(** Four words of 64 bits. *)
Definition u256_ok (words : list Z) : Prop := length words = 4 /\ Forall (fun w => word_ok w = true) words.

(** [u64::swap_bytes]. *)
Definition swap_bytes (w : Z) : Z := from_be_bytes (le_bytes 8 w).

Lemma from_be_ne w : word_ok w = true -> forall little,
  from_be_bytes (ne_bytes little w) = if little then swap_bytes w else w.
Proof.
  intros [? ?]%andb_true_iff []; [done|]. unfold from_be_bytes, ne_bytes. rewrite rev_involutive, of_le_le_bytes.
  apply Z.mod_small. lia.
Qed.

Lemma length_ne little w : length (ne_bytes little w) = 8.
Proof. unfold ne_bytes. destruct little; rewrite ?length_rev; apply length_le_bytes. Qed.

Lemma chunks_concat {A} (f : A -> bytes) (l : list A) fuel :
  (forall x, length (f x) = 8) -> length l < fuel -> chunks_exact fuel 8 (concat (map f l)) = map f l.
Proof.
  intros Hf. revert fuel. induction l as [|x l IH]; intros [|fuel] Hl; try (simpl in *; lia); [done|].
  cbn [map concat chunks_exact]. rewrite length_app, Hf.
  destruct (Nat.ltb_spec (8 + length (concat (map f l))) 8); [lia|].
  rewrite take_app_length', drop_app_length', IH by (simpl in *; auto; lia). done.
Qed.

Lemma set_words_4 c1 c2 c3 c4 :
  set_words [c1; c2; c3; c4] 0 [0; 0; 0; 0]%Z
  = Some [from_be_bytes c1; from_be_bytes c2; from_be_bytes c3; from_be_bytes c4].
Proof. reflexivity. Qed.

Lemma length_deref little words : length (u256_deref little words) = 8 * length words.
Proof.
  unfold u256_deref. induction words as [|w words IH]; [done|]. cbn [map concat length]. rewrite length_app, IH, length_ne. lia.
Qed.

Lemma u256_reparse little words : u256_ok words ->
  u256_from_str (u256_to_string little words) = Some (Ok (if little then map swap_bytes words else words)).
Proof.
  intros [Hl Hw]. unfold u256_from_str, u256_to_string.
  assert (length (u256_deref little words) = 32) as Hd by (rewrite length_deref; lia).
  rewrite <- Hd, decode_own_text, Hd. unfold u256_deref. rewrite chunks_concat; [|apply length_ne|lia].
  destruct words as [|w1 [|w2 [|w3 [|w4 []]]]]; try done. cbn [map]. rewrite set_words_4. cbn [option_map].
  rewrite !Forall_cons in Hw. destruct Hw as (? & ? & ? & ? & _). rewrite !from_be_ne by done. by destruct little.
Qed.

Lemma from_be_range b : length b = 8 -> word_ok (from_be_bytes b) = true.
Proof.
  intros Hb. unfold word_ok, from_be_bytes. pose proof (of_le_range (rev b)) as Hr. rewrite length_rev, Hb in Hr.
  apply andb_true_iff. split; [apply Z.leb_le|apply Z.ltb_lt]; lia.
Qed.

Lemma swap_ok w : word_ok (swap_bytes w) = true.
Proof. apply from_be_range, length_le_bytes. Qed.

Lemma swap_swap w : word_ok w = true -> swap_bytes (swap_bytes w) = w.
Proof.
  intros [? ?]%andb_true_iff. unfold swap_bytes at 1. unfold swap_bytes, from_be_bytes.
  pose proof (le_bytes_of_le (rev (le_bytes 8 w))) as E. rewrite length_rev, length_le_bytes in E. rewrite E, rev_involutive.
  rewrite of_le_le_bytes. apply Z.mod_small. lia.
Qed.

Lemma u256_from_str_ok s : exists r, u256_from_str s = Some r
  /\ match r with Ok words => u256_ok words | Err _ => True end.
Proof.
  unfold u256_from_str. destruct (decode_scalar s 32) as [b|e] eqn:E; [|by eexists].
  apply decode_scalar_ok in E as (Hl & _). rewrite Hl.
  do 32 (destruct b as [|? b]; [done|]). destruct b; [|done].
  eexists. split; [reflexivity|]. split; [done|]. repeat constructor; by apply from_be_range.
Qed.

(** The text of a [U256] is not the text that is read as it.  Parsing never
    panics and gives four 64-bit words.  On a machine whose memory is big-endian the
    text written is read back as the same value; on a little-endian one the bytes of
    each word come back reversed: the value survives exactly when every word is its own
    reverse, and writing and reading twice restores it. *)
Theorem u256_text (words : list Z) (little : bool) :
  (forall s, exists r, u256_from_str s = Some r /\ match r with Ok words => u256_ok words | Err _ => True end)
  /\ (u256_ok words ->
      u256_from_str (u256_to_string false words) = Some (Ok words)
      /\ u256_from_str (u256_to_string true words) = Some (Ok (map swap_bytes words))
      /\ (u256_from_str (u256_to_string true words) = Some (Ok words) <-> Forall (fun w => swap_bytes w = w) words)
      /\ u256_from_str (u256_to_string true (map swap_bytes words)) = Some (Ok words)).
Proof.
  split; [apply u256_from_str_ok|]. intros Hok.
  rewrite (u256_reparse false), (u256_reparse true) by done.
  assert (map swap_bytes (map swap_bytes words) = words) as Hss.
  { destruct Hok as [_ Hw]. rewrite map_map. induction Hw; simpl; [done|]. by rewrite swap_swap, IHHw. }
  split_and!; try done.
  - destruct Hok as [_ Hw]. clear. split.
    + intros [= Heq]. induction words as [|w words IH]; constructor; injection Heq; auto.
    + intros Hf. do 2 f_equal. induction Hf; simpl; by f_equal.
  - rewrite u256_reparse, Hss; [done|]. destruct Hok as [Hl _]. split; [by rewrite length_map|].
    apply Forall_forall. intros x (w & -> & _)%list_elem_of_fmap. apply swap_ok.
Qed.

(** In JSON: the two newtypes read back what they write, and refuse the text of the
    other; a [U256] behaves as its text does. *)
Lemma newtypes_json e b :
  (length b = 20 -> address_deserialize e (address_serialize b) = Some (Ok b)
                    /\ transaction_hash_deserialize e (address_serialize b) = Some (Err (bad_scalar 64)))
  /\ (length b = 32 -> transaction_hash_deserialize e (transaction_hash_serialize b) = Some (Ok b)
                       /\ address_deserialize e (transaction_hash_serialize b) = Some (Err (bad_scalar 40))).
Proof.
  assert (Hread : blockchain_deserialize e (length b) (blockchain_serialize b) = Some (Ok b)).
  { unfold blockchain_serialize, scalar_to_string. by rewrite blockchain_eq, decode_own_text. }
  assert (Hrefuse : forall n, n <> length b -> blockchain_deserialize e n (blockchain_serialize b) = Some (Err (bad_scalar (2 * n)))).
  { intros n Hn. unfold blockchain_deserialize, blockchain_serialize, parse_blockchain_scalar. simpl as_str. cbv iota.
    unfold scalar_to_string. rewrite length_OX, hex_encode_length.
    replace (Nat.eqb _ _) with false; [done|]. symmetry. apply Nat.eqb_neq. lia. }
  split; intros Hl; rewrite Hl in *; split; first [exact Hread|apply (Hrefuse 32); lia|apply (Hrefuse 20); lia].
Qed.
End types.

(** ** A hex codec, as a witness of the interface *)

Definition hex_digit (n : Z) : ascii := byte_of (if (n <? 10)%Z then n + 48 else n + 87).
Definition hex_value (a : ascii) : option Z :=
  if is_digit a then Some (byte_val a - 48)%Z
  else if in_range 97 102 a then Some (byte_val a - 87)%Z
  else if in_range 65 70 a then Some (byte_val a - 55)%Z else None.

Fixpoint w_encode (b : bytes) : string :=
  match b with
  | [] => EmptyString
  | a :: b => String (hex_digit (byte_val a / 16)) (String (hex_digit (byte_val a mod 16)) (w_encode b))
  end.
Fixpoint w_decode (s : string) : result bytes string :=
  match s with
  | EmptyString => Ok []
  | String x (String y s) =>
      match hex_value x, hex_value y with
      | Some h, Some l => rmap (cons (byte_of (16 * h + l))) (w_decode s)
      | _, _ => Err "Invalid character"
      end
  | String _ EmptyString => Err "Odd number of digits"
  end.

#[export] Instance w_hex : Hex := { hex_encode := w_encode; hex_decode := w_decode }.

Lemma hex_value_digit a :
  hex_value (hex_digit (byte_val a / 16)) = Some (byte_val a / 16)%Z
  /\ hex_value (hex_digit (byte_val a mod 16)) = Some (byte_val a mod 16)%Z.
Proof. by destruct a as [[] [] [] [] [] [] [] []]. Qed.

Lemma hex_digit_value x h : hex_value x = Some h -> hex_digit h = to_lower x /\ (0 <= h < 16)%Z.
Proof.
  destruct x as [[] [] [] [] [] [] [] []]; vm_compute; intros [= <-]; repeat split; try done; lia.
Qed.

Lemma w_encode_decode_ind (P : string -> Prop) :
  P EmptyString -> (forall x, P (String x EmptyString)) -> (forall x y s, P s -> P (String x (String y s))) -> forall s, P s.
Proof.
  intros H0 H1 H2. fix go 1. intros [|x [|y s]]; [apply H0|apply H1|apply H2, go].
Qed.

#[export] Instance w_hex_laws : HexLaws.
Proof.
  split; unfold hex_encode, hex_decode; simpl.
  - intros b. induction b as [|a b IH]; cbn [w_encode String.length length]; [done|]. rewrite IH. lia.
  - intros b. induction b as [|a b IH]; [done|]. cbn [w_encode w_decode].
    destruct (hex_value_digit a) as [-> ->]. rewrite IH. simpl. do 2 f_equal.
    rewrite <- Z.div_mod by done. apply byte_of_val.
  - intros s. induction s as [| |x y s IH] using w_encode_decode_ind; intros b; [by intros [= <-]|done|].
    cbn [w_decode]. destruct (hex_value x) as [h|] eqn:Hx; [|done]. destruct (hex_value y) as [l|] eqn:Hy; [|done].
    destruct (w_decode s) as [b'|]; [|done]. intros [= <-].
    apply hex_digit_value in Hx as [Hx ?], Hy as [Hy ?]. unfold to_ascii_lowercase. cbn [w_encode string_map].
    rewrite (IH b') by done. rewrite byte_val_of, (Z.mod_small (16 * h + l)) by lia.
    replace ((16 * h + l) / 16)%Z with h; [|symmetry; rewrite Z.mul_comm, Z.div_add_l by lia; rewrite Z.div_small by lia; lia].
    replace ((16 * h + l) mod 16)%Z with l; [|symmetry; rewrite Z.add_comm, Z.mul_comm, Z_mod_plus_full; apply Z.mod_small; lia].
    by rewrite Hx, Hy.
Qed.

Definition w_one : list Z := [0; 0; 0; 1]%Z.

Example ex_u256_text :
  u256_from_str "0x0000000000000000000000000000000000000000000000000000000000000001" = Some (Ok w_one)
  /\ u256_to_string true w_one = "0x0000000000000000000000000000000000000000000000000100000000000000".
Proof. split; reflexivity. Qed.

Lemma scalar_roundtrip_witness :
  scalar_deserialize "" 2 (scalar_serialize ["001"%char; "255"%char]) = Some (Ok ["001"%char; "255"%char]).
Proof. apply (scalar_roundtrip "" 2). reflexivity. Defined.

Lemma u256_text_witness : u256_ok w_one /\ u256_from_str (u256_to_string true w_one) <> Some (Ok w_one).
Proof.
  assert (u256_ok w_one) as H by (split; [reflexivity|repeat constructor]). split; [exact H|]. intros Heq.
  pose proof (proj1 (proj1 (proj2 (proj2 (proj2 (u256_text w_one true) H)))) Heq) as Hf.
  unfold w_one in Hf. rewrite !Forall_cons in Hf. destruct Hf as (_ & _ & _ & Hf & _). discriminate Hf.
Defined.
