(* ===== verification/LogReader.v ===== *)
(** * Reading a log back: [src/libs/log_reader.rs]

    [LogEntry::from_str] and [get_log_entries].  The removal of terminal control
    sequences (a regular expression), the parsers of a date and of a level, and the
    walk of a file from its end are code of other crates, hence parameters. *)

From S2P Require Import Prelude.

Definition u64_max : Z := 18446744073709551615.

(** ** [str::split_whitespace] *)

(** The length of the white space character [s] starts with, or zero. *)
Definition space_len (s : string) : nat :=
  match strip_space s with Some r => String.length s - String.length r | None => 0 end.

(** [skip]: bytes of a separator still to pass; [cur]: the word being read. *)
Fixpoint words_aux (skip : nat) (cur : string) (s : string) : list string :=
  match s with
  | EmptyString => if is_empty_str cur then [] else [cur]
  | String a r =>
      match skip with
      | S skip => words_aux skip cur r
      | O =>
          match space_len s with
          | O => words_aux 0 (cur +:+ String a EmptyString) r
          | S k => (if is_empty_str cur then [] else [cur]) ++ words_aux k EmptyString r
          end
      end
  end.
Definition split_whitespace (s : string) : list string := words_aux 0 EmptyString s.

(** [x[..x.len() - 1]]: a panic, [None], when [x] is empty or ends inside a character
    of several bytes. *)
Fixpoint drop_last (x : string) : option string :=
  match x with
  | EmptyString => None
  | String a EmptyString => if in_range 128 191 a then None else Some EmptyString
  | String a x => option_map (String a) (drop_last x)
  end.

(** ** Words *)

(** No white space character starts anywhere in [s]. *)
Fixpoint no_space (s : string) : bool :=
  match s with
  | EmptyString => true
  | String a r => Nat.eqb (space_len s) 0 && no_space r
  end.
Definition word (s : string) : bool := negb (is_empty_str s) && no_space s.

Fixpoint spaces (n : nat) : string := match n with O => EmptyString | S n => String " " (spaces n) end.

(** A line: words, each after one space or more. *)
Definition spread (l : list (nat * string)) : string :=
  foldr (fun p s => spaces (S p.1) +:+ p.2 +:+ s) EmptyString l.

(** No separator has a space after its first byte. *)
Lemma white_space_tail : Forall (fun w => match w with
  | EmptyString => False | String _ w => string_forallb (fun a => negb (bool_decide (a = " "%char))) w = true end) white_space.
Proof. repeat constructor. Qed.

Lemma strip_prefix_mid p t r :
  string_forallb (fun a => negb (bool_decide (a = " "%char))) p = true ->
  is_Some (strip_prefix p (t +:+ String " " r)) -> is_Some (strip_prefix p t).
Proof.
  revert t. induction p as [|a p IH]; intros [|b t] Hp H; simpl in *; try done.
  - apply andb_true_iff in Hp as [Ha _]. apply negb_true_iff, bool_decide_eq_false in Ha.
    destruct (ascii_dec a " "); [done|by destruct H].
  - apply andb_true_iff in Hp as [_ Hp]. destruct (ascii_dec a b); eauto.
Qed.

Lemma strip_space_none s : strip_space s = None <-> Forall (fun w => strip_prefix w s = None) white_space.
Proof.
  unfold strip_space. induction white_space as [|w l IH]; simpl; [by split|]. rewrite Forall_cons, <- IH.
  destruct (strip_prefix w s); naive_solver.
Qed.

Lemma space_len_zero s : space_len s = 0 <-> strip_space s = None.
Proof.
  unfold space_len. destruct (strip_space s) as [r|] eqn:E; [|done]. split; [|done].
  unfold strip_space in E. pose proof white_space_tail as Hw. revert E Hw.
  induction white_space as [|w l IH]; simpl; [done|]. rewrite Forall_cons. intros E [Hw1 Hw].
  destruct (strip_prefix w s) as [r'|] eqn:Ep; [|by apply IH]. injection E as ->.
  apply strip_prefix_Some in Ep as ->. destruct w as [|a w]; [done|]. intros Hz. exfalso.
  rewrite append_length in Hz. simpl in Hz. lia.
Qed.

Lemma space_len_mid a t r : space_len (String a t) = 0 -> space_len (String a t +:+ String " " r) = 0.
Proof.
  rewrite !space_len_zero, !strip_space_none. intros H. pose proof white_space_tail as Hw.
  revert H Hw. rewrite !Forall_forall. intros H Hw w Hin. specialize (H w Hin). specialize (Hw w Hin).
  destruct w as [|b w]; [done|]. simpl in *. destruct (ascii_dec b a); [|done].
  apply eq_None_not_Some. intros Hs. apply strip_prefix_mid in Hs; [|done]. rewrite H in Hs. by destruct Hs.
Qed.

Lemma words_aux_word t r : forall cur, no_space t = true ->
  words_aux 0 cur (t +:+ String " " r) = words_aux 0 (cur +:+ t) (String " " r).
Proof.
  induction t as [|a t IH]; intros cur Ht.
  { by rewrite append_nil_r. }
  cbn [no_space] in Ht. apply andb_true_iff in Ht as [Ha%Nat.eqb_eq Ht]. rewrite append_cons. cbn [words_aux].
  rewrite <- append_cons, space_len_mid, IH, append_assoc' by done. done.
Qed.

Lemma words_aux_end t : forall cur, no_space t = true ->
  words_aux 0 cur t = (if is_empty_str (cur +:+ t) then [] else [cur +:+ t]).
Proof.
  induction t as [|a t IH]; intros cur Ht; [cbn; by rewrite append_nil_r|].
  cbn [no_space] in Ht. apply andb_true_iff in Ht as [Ha%Nat.eqb_eq Ht]. cbn [words_aux]. rewrite Ha, IH by done.
  by rewrite append_assoc'.
Qed.

Lemma space_len_space r : space_len (String " " r) = 1.
Proof.
  unfold space_len. assert (strip_space (String " " r) = Some r) as ->; [|cbn [String.length]; lia].
  unfold strip_space, white_space. cbn. reflexivity.
Qed.

Lemma words_aux_spaces n r : words_aux 0 EmptyString (spaces n +:+ r) = words_aux 0 EmptyString r.
Proof. induction n as [|n IH]; [done|]. cbn [spaces]. rewrite append_cons. cbn [words_aux]. by rewrite space_len_space. Qed.

Lemma words_aux_sep cur n r : is_empty_str cur = false ->
  words_aux 0 cur (spaces (S n) +:+ r) = cur :: words_aux 0 EmptyString r.
Proof. intros Hc. cbn [spaces]. rewrite append_cons. cbn [words_aux]. rewrite space_len_space, Hc. cbn [app]. by rewrite words_aux_spaces. Qed.

Lemma words_spread l : forall t, word t = true -> forallb word l.*2 = true ->
  split_whitespace (t +:+ spread l) = t :: l.*2.
Proof.
  unfold split_whitespace. induction l as [|[n x] l IH]; intros t [Hne%negb_true_iff Ht]%andb_true_iff Hl.
  - cbn [spread foldr]. rewrite append_nil_r, words_aux_end by done. rewrite (eq_refl : EmptyString +:+ t = t). by rewrite Hne.
  - cbn [fmap list_fmap snd forallb] in Hl. apply andb_true_iff in Hl as [Hx Hl]. cbn [spread foldr fst snd].
    fold (spread l). cbn [spaces]. rewrite append_cons, words_aux_word by done.
    change (EmptyString +:+ t) with t.
    change (String " " (spaces n +:+ x +:+ spread l)) with (spaces (S n) +:+ (x +:+ spread l)).
    rewrite words_aux_sep by done. by rewrite IH.
Qed.

Record log_entry := LogEntry {
  datetime : Z;
  level : string;
  thread : string;
  path : string;
  line_number : Z;
  message : string;
}.

(** The entry for a text that is not a log line. *)
Definition raw_entry (message : string) : log_entry := LogEntry 0 "" "" "" 0 message.

Section log_reader.
(** [timestamp]: [parse_from_rfc3339] and [timestamp_millis]; [level_of]: a
    [tracing::Level] parsed, and displayed. *)
Context (strip_controls : string -> string) (timestamp : string -> option Z) (level_of : string -> option string).

(** [LogEntry::from_str]; the outer [None] is a panic. *)
Definition from_str (s : string) : option (result log_entry string) :=
  let split := split_whitespace (strip_controls s) in
  match head split ≫= timestamp with
  | None => Some (Err "no datetime")
  | Some datetime =>
      match split !! 1 ≫= level_of with
      | None => Some (Err "no level")
      | Some level =>
          match split !! 2 with
          | None => Some (Err "no thread")
          | Some thread =>
              match split !! 3 with
              | None => Some (Err "no path")
              | Some x =>
                  match drop_last x with
                  | None => None
                  | Some path =>
                      let entry line_number :=
                        Some (Ok (LogEntry datetime level thread path line_number (join " " (drop 5 split)))) in
                      match split !! 4 with
                      | None => entry 0%Z
                      | Some y =>
                          match drop_last y with
                          | None => None
                          | Some num => entry (default 0%Z (parse_unsigned u64_max num))
                          end
                      end
                  end
              end
          end
      end
  end.

(** The loop of the reader thread, over the lines from the last one: [None] when the
    thread panics. *)
Fixpoint read_entries (limit : nat) (lines : list (result string string)) (entries : list log_entry) : option (list log_entry) :=
  match lines with
  | [] => Some entries
  | line :: lines =>
      if Nat.leb limit (length entries) then Some entries
      else
        match line with
        | Err error => Some (entries ++ [raw_entry error])
        | Ok line =>
            match from_str line with
            | None => None
            | Some (Ok entry) => read_entries limit lines (entries ++ [entry])
            | Some (Err _) => read_entries limit lines (entries ++ [raw_entry line])
            end
        end
  end.

(** [get_log_entries]: [file] is the opened file's lines from the end; [display] its
    path. *)
Definition get_log_entries (file : result (list (result string string)) string) (display : string) (limit : nat)
    : result (list log_entry) string :=
  let* lines := file in
  match read_entries limit lines [] with
  | None => Err "log reader thread died before sending its result"
  | Some [] => Ok [raw_entry ("No entries found in " +:+ display)]
  | Some entries => Ok entries
  end.

(** ** What a query gives *)

(** The lines it looks at: the first [limit], up to one that cannot be read. *)
Fixpoint examined (limit : nat) (lines : list (result string string)) : list (result string string) :=
  match limit, lines with
  | S limit, Ok l :: lines => Ok l :: examined limit lines
  | S _, Err e :: _ => [Err e]
  | _, _ => []
  end.

(** The entry of a line: the text itself when it is not a log line. *)
Definition line_entry (line : result string string) : option log_entry :=
  match line with
  | Err e => Some (raw_entry e)
  | Ok l => match from_str l with None => None | Some (Ok e) => Some e | Some (Err _) => Some (raw_entry l) end
  end.

Lemma read_entries_spec lines : forall limit entries,
  read_entries (length entries + limit) lines entries
  = option_map (app entries) (mapM line_entry (examined limit lines)).
Proof.
  induction lines as [|line lines IH]; intros limit entries.
  { destruct limit; simpl; by rewrite app_nil_r. }
  cbn [read_entries]. destruct (Nat.leb_spec (length entries + limit) (length entries)).
  { assert (limit = 0) as -> by lia. simpl. by rewrite app_nil_r. }
  destruct limit as [|limit]; [lia|]. destruct line as [l|e]; [|done]. cbn [examined].
  assert (forall e, read_entries (length entries + S limit) lines (entries ++ [e])
                    = option_map (app entries) (option_map (cons e) (mapM line_entry (examined limit lines)))) as Hgo.
  { intros e. replace (length entries + S limit) with (length (entries ++ [e]) + limit) by (rewrite length_app; simpl; lia).
    rewrite IH. destruct (mapM _ _); simpl; [|done]. by rewrite <- app_assoc. }
  cbn [mapM]. unfold line_entry at 2. destruct (from_str l) as [[e|e]|]; [| |done]; rewrite Hgo; by destruct (mapM _ _).
Qed.

Lemma examined_length limit lines : length (examined limit lines) <= limit.
Proof. revert limit. induction lines as [|[l|e] lines IH]; intros [|limit]; simpl; try lia. specialize (IH limit). lia. Qed.

Lemma mapM_none {A B} (f : A -> option B) l : mapM f l = None <-> Exists (fun x => f x = None) l.
Proof.
  induction l as [|x l IH]; simpl; [split; [done|inversion 1]|]. rewrite Exists_cons, <- IH.
  destruct (f x); simpl; [|naive_solver]. destruct (mapM f l); naive_solver.
Qed.

(** What a query of a log gives.  It looks at the last [limit] lines, newest
    first, up to one that cannot be read, and answers one entry for each, in that
    order: the parsed line, or its text when it is not a log line.  It never answers
    nothing: with no line to show (an empty file, or a limit of zero) it answers one
    entry that says so, so the answer has at most [max limit 1] entries.  But it fails
    as a whole when one of those lines makes the parser panic. *)
Theorem log_query (file : result (list (result string string)) string) display limit :
  match get_log_entries file display limit with
  | Ok entries =>
      exists lines, file = Ok lines /\ 0 < length entries <= Nat.max limit 1
      /\ (mapM line_entry (examined limit lines) = Some entries
          \/ examined limit lines = [] /\ entries = [raw_entry ("No entries found in " +:+ display)])
  | Err err =>
      file = Err err
      \/ exists lines, file = Ok lines /\ Exists (fun line => line_entry line = None) (examined limit lines)
  end.
Proof.
  destruct file as [lines|err]; simpl; [|by left].
  pose proof (read_entries_spec lines limit []) as E. simpl in E. rewrite E. clear E.
  pose proof (examined_length limit lines) as Hlen.
  destruct (mapM line_entry (examined limit lines)) as [entries|] eqn:Hm; simpl.
  - pose proof (length_mapM _ _ _ Hm) as Hl. destruct entries as [|e entries]; exists lines; (split; [done|]).
    + split; [simpl; lia|]. right. split; [|done]. by destruct (examined limit lines).
    + split; [|by left]. simpl in *. lia.
  - right. exists lines. split; [done|]. by apply mapM_none.
Qed.

Lemma drop_last_snoc p c :
  drop_last (p +:+ String c EmptyString) = if in_range 128 191 c then None else Some p.
Proof.
  induction p as [|a p IH]; [done|]. rewrite append_cons. destruct p as [|b p].
  - change (EmptyString +:+ String c EmptyString) with (String c EmptyString). cbn [drop_last].
    by destruct (in_range 128 191 c).
  - rewrite append_cons in IH |- *. cbn [drop_last] in IH |- *. rewrite IH. by destruct (in_range 128 191 c).
Qed.

(** A line of the log is read back.  However the words of a line are
    spaced, its entry has the time, level, thread, the target without its last
    character, the line number without its last character (0 when it is no number),
    and the rest of the words joined by single spaces; but the parser panics when the
    target or the line number ends in a character of several bytes. *)
Theorem log_line_read s ts lv th p c q d msg t lvl (l : list (nat * string)) :
  strip_controls s = ts +:+ spread l ->
  l.*2 = lv :: th :: (p +:+ String c EmptyString) :: (q +:+ String d EmptyString) :: msg ->
  word ts = true -> forallb word l.*2 = true ->
  timestamp ts = Some t -> level_of lv = Some lvl ->
  from_str s = if in_range 128 191 c || in_range 128 191 d then None
               else Some (Ok (LogEntry t lvl th p (default 0%Z (parse_unsigned u64_max q)) (join " " msg))).
Proof.
  intros Hs Hl Hts Hw Ht Hlv. unfold from_str. rewrite Hs, words_spread, Hl by done.
  cbn [mbind option_bind head lookup list_lookup]. rewrite Ht, Hlv.
  rewrite (drop_last_snoc p c), (drop_last_snoc q d). by destruct (in_range 128 191 c), (in_range 128 191 d).
Qed.
End log_reader.

(** ** Witnesses *)

Definition w_timestamp (s : string) : option Z :=
  if String.eqb s "2024-05-18T14:26:36.709390Z" then Some 1716042396709%Z else None.
Definition w_level (s : string) : option string :=
  if String.eqb s "WARN" || String.eqb s "INFO" then Some s else None.
Definition w_from_str := from_str id w_timestamp w_level.

Definition w_line : string :=
  "2024-05-18T14:26:36.709390Z  WARN                 main trading_be: 290: terminated diff  initially".

Lemma log_line_read_witness :
  w_from_str w_line
  = Some (Ok (LogEntry 1716042396709 "WARN" "main" "trading_be" 290 "terminated diff initially")).
Proof.
  apply (log_line_read id w_timestamp w_level w_line "2024-05-18T14:26:36.709390Z" "WARN" "main" "trading_be" ":" "290" ":"
           ["terminated"; "diff"; "initially"] 1716042396709 "WARN"
           [(1, "WARN"); (16, "main"); (0, "trading_be:"); (0, "290:"); (0, "terminated"); (0, "diff"); (1, "initially")]);
    vm_compute; reflexivity.
Defined.

(** A message without a line number, whose first word ends in an accented letter: the
    whole query fails. *)
Definition w_cafe : string :=
  "2024-05-18T14:26:36.709390Z INFO main orders: caf" +:+ str_of_codes [195; 169]%Z +:+ " ouvert".
Example ex_query_dies :
  get_log_entries id w_timestamp w_level (Ok [Ok w_line; Ok w_cafe; Ok w_line]) "app.log" 10
  = Err "log reader thread died before sending its result".
Proof. vm_compute. reflexivity. Qed.

Example ex_limit_zero :
  get_log_entries id w_timestamp w_level (Ok [Ok w_line]) "app.log" 0 = Ok [raw_entry "No entries found in app.log"].
Proof. vm_compute. reflexivity. Qed.
