(* ===== verification/Transport.v ===== *)
(** * The seams between bytes and sessions: [src/libs/ws/transport.rs],
    [transport/nagoya.rs], [traits.rs]

    The adapters ([TransportStream], [NagoyaStream], [RawStream] and [BoxedStream]) and
    the channel they build: a framed sink on one side of a byte stream and a framed
    stream on the other.  The sockets, and [SinkExt]/[StreamExt] of the futures crate,
    are interfaces. *)

From S2P Require Import Prelude Message Session Framed Client.

(** ** [TransportStream] *)

(** [Transport<WireMessage, WireMessage>] as [SinkExt::send] and [StreamExt::next] drive
    it, awaited to their end; [E] is [TransportError]. *)
Class Transport (T E : Type) := {
  sink_send : wire_message -> T -> result unit E * T;
  stream_next : T -> option (result wire_message E) * T;
  show_error : E -> string;
}.

Section transport_stream.
Context {T E : Type} `{Transport T E}.

Definition ts_error (err : E) : stream_error := SOther (show_error err).

Definition ts_send (msg : wire_message) (t : T) : result unit stream_error * T :=
  let '(r, t) := sink_send msg t in (map_err ts_error r, t).
Definition ts_recv (t : T) : option (result wire_message stream_error) * T :=
  let '(r, t) := stream_next t in (option_map (map_err ts_error) r, t).
End transport_stream.

(** [Display] of [StreamError]. *)
Definition stream_error_fmt (e : stream_error) : string :=
  match e with
  | SClosed => "connection closed"
  | SWriteBufferFull => "write buffer full"
  | SProtocol s => "protocol error: " +:+ s
  | SOther e => e
  end.

(** ** [RawStream] and [BoxedStream] *)

(** [nagoya::io::Stream], its two futures awaited to their end: what was read, or the
    error's number. *)
Class NagoyaStreamOps (S : Type) := {
  ns_read : nat -> S -> result bytes Z * S;
  ns_write_all : bytes -> S -> result unit Z * S;
}.

(** [StreamError::source]: the report of an [Other]. *)
Definition stream_error_source (e : stream_error) : option string := match e with SOther what => Some what | _ => None end.

Definition EIO : Z := 5.

Section raw_stream.
Context {S : Type} `{NagoyaStreamOps S} (show_errno : Z -> string).

(** The blanket implementation of [RawStream]. *)
Definition raw_read (buffer : nat) (s : S) : result bytes stream_error * S :=
  let '(r, s) := ns_read buffer s in (map_err (fun err => SOther (show_errno err)) r, s).
Definition raw_write_all (buffer : bytes) (s : S) : result unit stream_error * S :=
  let '(r, s) := ns_write_all buffer s in (map_err (fun err => SOther (show_errno err)) r, s).

(** [nagoya::io::Stream] for [BoxedStream], over that. *)
Definition boxed_read (buffer : nat) (s : S) : result bytes Z * S :=
  let '(r, s) := raw_read buffer s in (map_err (fun _ => EIO) r, s).
Definition boxed_write_all (buffer : bytes) (s : S) : result unit Z * S :=
  let '(r, s) := raw_write_all buffer s in (map_err (fun _ => EIO) r, s).
End raw_stream.

(** ** [NagoyaStream] *)

(** The poll functions of nagoya's [TcpStream]. *)
Class NagoyaTcp (S : Type) := {
  tcp_poll_read : nat -> S -> poll (result bytes Z) * S;
  tcp_poll_write : bytes -> S -> poll (result nat Z) * S;
  tcp_poll_flush : S -> poll (result unit Z) * S;
}.

Definition poll_map_err {A E F} (f : E -> F) (p : poll (result A E)) : poll (result A F) :=
  match p with Ready r => Ready (map_err f r) | Pending => Pending end.

(** [NagoyaStream]: the socket, in and out. *)
Record nagoya_stream (S : Type) := NagoyaStream { ns_inner : S }.
Arguments NagoyaStream {S} _.
Arguments ns_inner {S} _.
Definition nagoya_new {S} (stream : S) : nagoya_stream S := NagoyaStream stream.
Definition nagoya_from {S} (stream : S) : nagoya_stream S := nagoya_new stream.
Definition nagoya_into_inner {S} (s : nagoya_stream S) : S := ns_inner s.
Definition nagoya_get_ref {S} (s : nagoya_stream S) : S := ns_inner s.
(** [get_mut]: what the caller does with the reference. *)
Definition nagoya_get_mut {S A} (f : S -> A * S) (s : nagoya_stream S) : A * nagoya_stream S :=
  let '(a, inner) := f (ns_inner s) in (a, NagoyaStream inner).

Section nagoya_stream.
(** [from_raw_os_error] of the standard library. *)
Context {S : Type} `{NagoyaTcp S} (from_raw_os_error : Z -> io_error).

Definition nagoya_poll_read (buffer : nat) (s : S) : poll (result bytes io_error) * S :=
  let '(p, s) := tcp_poll_read buffer s in (poll_map_err from_raw_os_error p, s).
Definition nagoya_poll_write (buffer : bytes) (s : S) : poll (result nat io_error) * S :=
  let '(p, s) := tcp_poll_write buffer s in (poll_map_err from_raw_os_error p, s).
Definition nagoya_poll_flush (s : S) : poll (result unit io_error) * S :=
  let '(p, s) := tcp_poll_flush s in (poll_map_err from_raw_os_error p, s).
Definition nagoya_poll_close (s : S) : poll (result unit io_error) * S := nagoya_poll_flush s.

(** The close events of a framed sink on such a socket are its flush events: what
    [poll_close] of the framing asks last is a second flush. *)
Lemma nagoya_close_flushes s : nagoya_poll_close s = nagoya_poll_flush s.
Proof. reflexivity. Qed.
End nagoya_stream.

(** ** [NagoWsStream] of [src/libs/ws/tungstenite/upgrader.rs] *)

(** [ConnError]: the cases the source names, and any other with its text. *)
Inductive conn_error :=
  | UnexpectedEof
  | FrameError (e : string)
  | ProtocolError (e : string)
  | MaskingViolation
  | OtherConnError (e : string).

(** [Connection<BoxedStream>]; the text is [Display] of the error. *)
Class NagoServerConnection (K : Type) := {
  nk_read : K -> result (option (@n_message Z)) conn_error * K;
  nk_write : @n_message Z -> K -> result unit conn_error * K;
  show_conn_error : conn_error -> string;
}.

Section nago_ws_stream.
Context {K : Type} `{NagoServerConnection K}.

Definition conn_map_err (error : conn_error) : stream_error :=
  match error with
  | UnexpectedEof => SClosed
  | FrameError _ | ProtocolError _ | MaskingViolation => SProtocol (show_conn_error error)
  | OtherConnError _ => SOther (show_conn_error error)
  end.

Definition nws_send (msg : wire_message) (k : K) : result unit stream_error * K :=
  let '(r, k) := nk_write (into_nago msg) k in (map_err conn_map_err r, k).

Definition nws_recv (k : K) : option (result wire_message stream_error) * K :=
  match nk_read k with
  | (Ok (Some message), k) => (Some (Ok (from_nago message)), k)
  | (Ok None, k) => (None, k)
  | (Err error, k) => (Some (Err (conn_map_err error)), k)
  end.

(** What the session sends is the message of the backend, which reads back as what was
    sent; only a lost peer is reported as closed. *)
Lemma nws_send_message msg k :
  (nws_send msg k).2 = (nk_write (into_nago msg) k).2 /\ from_nago (into_nago msg) = msg.
Proof.
  split; [unfold nws_send; by destruct (nk_write _ _)|]. by apply backend_round_trip.
Qed.

Lemma nws_recv_closed k : (nws_recv k).1 = Some (Err SClosed) <-> (nk_read k).1 = Err UnexpectedEof.
Proof.
  unfold nws_recv. destruct (nk_read k) as [[[m|]|e] k']; simpl; [done..|].
  split; [|by intros [= ->]]. destruct e; simpl; by intros [=].
Qed.
End nago_ws_stream.

(** ** The channel: a framed sink, a byte stream, a framed stream *)

(** A byte prefix of a sequence of frames is some of the frames and part of the next. *)
Lemma wire_prefix max ms : Forall (sendable max) ms -> forall p, p `prefix_of` wire ms ->
  exists ms1 ms2 tail, ms = ms1 ++ ms2 /\ p = wire ms1 ++ tail /\ partial max tail /\ (ms2 = [] -> tail = []).
Proof.
  induction 1 as [|m ms Hm Hms IH]; intros p Hp.
  { apply prefix_nil_inv in Hp as ->. exists [], [], []. split_and!; try done. by left. }
  change (wire (m :: ms)) with (frame_bytes m ++ wire ms) in Hp. destruct Hp as [rest Hp].
  symmetry in Hp. apply app_eq_inv in Hp as [(k & -> & Hk)|(k & Hk & ->)].
  - destruct (IH k) as (ms1 & ms2 & tail & -> & -> & Ht & Hnil); [by exists rest|].
    exists (m :: ms1), ms2, tail. split_and!; [done| |done|done]. unfold wire. simpl. by rewrite <- app_assoc.
  - destruct k as [|a k].
    + rewrite app_nil_r in Hk. subst p. exists [m], ms, []. split_and!; [done| |by left|done].
      unfold wire. simpl. by rewrite !app_nil_r.
    + exists [], (m :: ms), p. split_and!; [done|done| |done]. right. exists m, (a :: k). done.
Qed.

Lemma sendable_mono max max' m : max <= max' -> sendable max m -> sendable max' m.
Proof. intros Hm (Hv & Hl & Hu). split_and!; [done|lia|done]. Qed.

(** Reading the frames of sendable messages, and whatever part of a frame follows. *)
Lemma drain_wire max s n ms tail : Forall delivers s -> Forall (sendable max) ms -> partial max tail ->
  data s = wire ms ++ tail -> length s + length ms < n ->
  drain n (framed_new max) (s ++ [ReadOk []]) = Some (ms, if bool_decide (tail = []) then None else Some truncated).
Proof.
  intros Hs Hms Ht Hd Hl. apply (drain_reading max tail Ht n (framed_new max) s ms); [|lia]. split_and!; done.
Qed.

(** A sink that was drained, all of whose bytes arrived. *)
Lemma channel_drained max max' io ops st io' sent s n :
  accepted io = [] -> Forall op_valid ops -> sink_run max io ops = (st, io', sent) -> max <= max' ->
  Forall delivers s -> length s + length sent < n -> write_buf st = [] -> data s = accepted io' ->
  drain n (framed_new max') (s ++ [ReadOk []]) = Some (sent, None).
Proof.
  intros Hio Hops Hrun Hmax Hs Hn Hw Hd. pose proof (sink_run_inv max io ops Hio Hops) as Hi. rewrite Hrun in Hi.
  destruct Hi as (_ & Hc & Hsend). apply (drain_wire max' s n sent []); try done.
  - eapply Forall_impl; [done|]. intros m. by apply sendable_mono.
  - by left.
  - rewrite Hd, <- Hc, Hw. by rewrite !app_nil_r.
Qed.

(** C14: What goes into a channel comes out.  Let a framed sink be driven in
    any order, over a socket that accepts any part of each write and fails at any time,
    and let the other side read, in pieces of any size and with any waits, some of the
    bytes that were accepted before its stream ends.  With a maximum at least the
    sender's it gets the first of the messages sent, in order and unchanged, each once,
    and then the end of the stream or, when it ended inside a frame, an error that says
    so.  It gets all of them when the sink's buffer was drained and every byte arrived. *)
Theorem channel_delivers max max' io ops st io' sent s n :
  accepted io = [] -> Forall op_valid ops -> sink_run max io ops = (st, io', sent) -> max <= max' ->
  Forall delivers s -> data s `prefix_of` accepted io' -> length s + length sent < n ->
  (exists got rest final, sent = got ++ rest /\ (final = None \/ final = Some truncated)
     /\ drain n (framed_new max') (s ++ [ReadOk []]) = Some (got, final))
  /\ (write_buf st = [] -> data s = accepted io' ->
      drain n (framed_new max') (s ++ [ReadOk []]) = Some (sent, None)).
Proof.
  intros Hio Hops Hrun Hmax Hs Hp Hn. split; [|by apply (channel_drained max max' io ops st io')].
  pose proof (sink_run_inv max io ops Hio Hops) as Hi. rewrite Hrun in Hi. destruct Hi as (_ & Hc & Hsend).
  assert (Forall (sendable max') sent) as Hsend' by (eapply Forall_impl; [done|]; intros m; by apply sendable_mono).
  destruct (wire_prefix max' sent Hsend' (data s)) as (got & rest & tail & Hsplit & Hd & Ht & _).
  { rewrite <- Hc. destruct Hp as [k ->]. exists (k ++ write_buf st). by rewrite app_assoc. }
  exists got, rest, (if bool_decide (tail = []) then None else Some truncated). split_and!; [done| |].
  - case_bool_decide; auto.
  - rewrite Hsplit in Hsend'. apply Forall_app in Hsend' as [Hg _]. apply drain_wire; try done.
    rewrite Hsplit, length_app in Hn. lia.
Qed.

(** Both sides of the messages of [w_ops], in two pieces. *)
Definition w_channel_sink : byte_sink := ByteSink [] [WriteOk 3; WritePending; WriteOk 100; WriteOk 100] [DoneOk; DoneOk] [].
Definition w_channel_ops : list sink_op :=
  [OpReady; OpSend (Ping []); OpFlush; OpSend (Text (bytes_of_string "hi")); OpFlush].

Lemma channel_delivers_witness :
  let '(st, io, sent) := sink_run 16 w_channel_sink w_channel_ops in
  sent = [Ping []; Text (bytes_of_string "hi")]
  /\ drain 10 (framed_new 32) ([ReadOk (take 2 (accepted io)); ReadPending; ReadOk (drop 2 (accepted io))] ++ [ReadOk []])
     = Some (sent, None).
Proof.
  destruct (sink_run 16 w_channel_sink w_channel_ops) as [[st io] sent] eqn:Hrun.
  pose proof Hrun as Hv. vm_compute in Hv. injection Hv as Hst Hio Hsent. split; [by rewrite <- Hsent|].
  apply (channel_delivers 16 32 w_channel_sink w_channel_ops st io sent
           [ReadOk (take 2 (accepted io)); ReadPending; ReadOk (drop 2 (accepted io))] 10).
  - reflexivity.
  - repeat constructor.
  - exact Hrun.
  - lia.
  - rewrite <- Hio. repeat constructor; vm_compute; intros Heq; discriminate Heq.
  - rewrite <- Hio. vm_compute. exists []. reflexivity.
  - rewrite <- Hsent. simpl. lia.
  - by rewrite <- Hst.
  - rewrite <- Hio. vm_compute. reflexivity.
Defined.
