(* ===== verification/Config.v ===== *)
(** * Configuration: [src/libs/config.rs]

    [load_config]: the section of a service laid over the whole file.  The command
    line, the file, JSON text and the final [from_value] are parameters. *)

From S2P Require Import Prelude BMap Json.

(** [CliArgument], parsed; the path's default and variable are clap's. *)
Record cli_argument := CliArgument { cli_config : string; cli_config_entry : option string }.

(** The entries of a section, inserted over those of the file. *)
Definition lay_over (section root : list (string * json)) : list (string * json) :=
  fold_left (fun root p => bm_insert p.1 p.2 root) section root.

(** From the parsed file to the value handed to [from_value]: [None] is a panic. *)
Definition merge_config (config : json) (service_name : string) : option (result json string) :=
  match jget service_name config with
  | None => Some (Err ("Service " +:+ service_name +:+ " not found in config"))
  | Some service_config =>
      match config, service_config with
      | JObj root, JObj section =>
          Some (Ok (JObj (bm_insert "name" (JStr service_name) (bm_remove service_name (lay_over section root)))))
      | _, _ => None
      end
  end.

Section load.
Context {C : Type} (read_to_string : string -> result string string) (parse : string -> result json string)
  (from_value : json -> result C string).

Definition load_config (args : cli_argument) (service_name : string) : option (result C string) :=
  match read_to_string (cli_config args) with
  | Err e => Some (Err e)
  | Ok text =>
      match parse text with
      | Err e => Some (Err e)
      | Ok config =>
          let service_name := default service_name (cli_config_entry args) in
          match merge_config config service_name with
          | None => None
          | Some (Err e) => Some (Err e)
          | Some (Ok merged) => Some (from_value merged)
          end
      end
  end.
End load.

Lemma bm_keys_remove {V} k k' (m : list (string * V)) : k' ∈ bm_keys (bm_remove k m) -> k' ∈ bm_keys m.
Proof.
  unfold bm_keys. induction m as [|[k1 v] m IH]; simpl; [done|].
  destruct (decide (k = k1)); simpl; rewrite ?elem_of_cons; [by right|]. intros [->|?]; [by left|right; auto].
Qed.

Lemma bm_remove_wf {V} k (m : list (string * V)) : bm_wf m -> bm_wf (bm_remove k m).
Proof.
  induction 1 as [|k' v m Hlt Hwf IH]; simpl; [constructor|]. destruct (decide (k = k')); [done|].
  constructor; [|done]. intros k2 Hk. apply Hlt. by eapply bm_keys_remove.
Qed.

Lemma bm_get_remove {V} k k' (m : list (string * V)) : bm_wf m ->
  bm_get k (bm_remove k' m) = if decide (k = k') then None else bm_get k m.
Proof.
  induction 1 as [|k1 v m Hlt Hwf IH]; simpl; [by destruct (decide _)|].
  destruct (decide (k' = k1)) as [->|Hne]; simpl.
  - destruct (decide (k = k1)) as [->|]; [|done]. destruct (bm_get k1 m) eqn:E; [|done].
    apply bm_get_Some_keys, Hlt in E. by apply str_lt_irrefl in E.
  - rewrite IH. destruct (decide (k = k')) as [->|]; [|done]. by rewrite decide_False.
Qed.

Lemma lay_over_wf section root : bm_wf root -> bm_wf (lay_over section root).
Proof. unfold lay_over. intros. apply (Forall_fold_left bm_wf); eauto with ep. Qed.

(** What a service is configured with.  When the file is an object whose
    entry for the service is an object, the value that is decoded has as [name] the
    name of the service, whatever the file says; no entry under the service's own name;
    and every other entry from the section if it has it, from the file otherwise.  A
    file without the entry is an error; an entry that is no object is a panic. *)
Theorem merge_config_spec config service_name :
  (forall root, config = JObj root -> bm_wf root) ->
  (forall section, jget service_name config = Some (JObj section) -> bm_wf section) ->
  match jget service_name config with
  | None => exists e, merge_config config service_name = Some (Err e)
  | Some (JObj section) =>
      exists m, merge_config config service_name = Some (Ok (JObj m)) /\ bm_wf m
      /\ forall k, bm_get k m =
           if decide (k = "name") then Some (JStr service_name)
           else if decide (k = service_name) then None
           else match bm_get k section with Some v => Some v | None => jget k config end
  | Some _ => merge_config config service_name = None
  end.
Proof.
  intros Hroot Hsec. unfold merge_config. destruct (jget service_name config) as [sc|] eqn:Hg; [|by eexists].
  apply jget_bm_elem in Hg as (root & -> & _). specialize (Hroot root eq_refl).
  destruct sc as [| | | | | |section]; try done. specialize (Hsec section eq_refl).
  pose proof (lay_over_wf section root Hroot) as Hwf.
  eexists. split; [reflexivity|]. split; [by apply bm_insert_wf, bm_remove_wf|].
  intros k. rewrite bm_get_insert, bm_get_remove by done. repeat case_decide; try done.
  unfold lay_over. by rewrite fold_insert_get.
Qed.

Definition w_file : json :=
  jobj [("db", jobj [("host", JStr "a")]); ("log", JStr "info"); ("name", JStr "all");
        ("user", jobj [("log", JStr "debug"); ("port", JInt 8080)])].

Lemma merge_config_spec_witness :
  merge_config w_file "user"
  = Some (Ok (jobj [("db", jobj [("host", JStr "a")]); ("log", JStr "debug"); ("name", JStr "user"); ("port", JInt 8080)]))
  /\ exists m, merge_config w_file "user" = Some (Ok (JObj m)) /\ bm_get "log" m = Some (JStr "debug").
Proof.
  split; [reflexivity|]. destruct (merge_config_spec w_file "user") as (m & Hm & _ & Hget).
  - intros root [= <-]. apply (bm_of_list_wf [("db", jobj [("host", JStr "a")]); ("log", JStr "info"); ("name", JStr "all");
        ("user", jobj [("log", JStr "debug"); ("port", JInt 8080)])]).
  - intros section [= <-]. apply (bm_of_list_wf [("log", JStr "debug"); ("port", JInt 8080)]).
  - exists m. split; [exact Hm|]. rewrite Hget. reflexivity.
Defined.
