(* ===== verification/Small.v ===== *)
(** * Small utilities: [src/libs/warn.rs], [datatable.rs], [utils.rs], [log/legacy.rs]

    The counters of repeated warnings, the wrapper of the rows of a query, and the
    helpers on text. *)

From S2P Require Import Prelude.

(** ** [WarnManager] *)

(** The counts ([u64]); what [warn] logs is its second result. *)
Abbreviation warns := (gmap string Z).
Definition warn_manager_new : warns := ∅.

Definition warn_manager_warn (s : string) (w : warns) : warns * list string :=
  match w !! s with
  | Some warn_count => (<[s := (warn_count + 1)%Z]> w, [])
  | None => (<[s := 1%Z]> w, ["First warning: " +:+ s])
  end.

(** [dump_stats]: [now] is the clock's text, [iter] the order of the hash map. *)
Definition dump_stats (iter : warns -> list (string * Z)) (now : string) (w : warns) : list string :=
  ("Warnings at " +:+ now +:+ ":")
  :: map (fun p => "count=" +:+ pretty p.2 +:+ " warn=" +:+ p.1) (iter w).

Definition warn_all (l : list string) : warns * list string :=
  fold_left (fun st s => let '(w, logged) := warn_manager_warn s st.1 in (w, st.2 ++ logged)) l (warn_manager_new, []).

(** ** [RDataTable] *)

Record rdata_table (T : Type) := RDataTable { rows : list T }.
Arguments RDataTable {T} _.
Arguments rows {T} _.

Section table.
Context {T : Type}.
Definition rt_with_capacity : rdata_table T := RDataTable [].
Definition rt_first {R} (f : T -> R) (t : rdata_table T) : option R := option_map f (head (rows t)).
Definition rt_len (t : rdata_table T) : nat := length (rows t).
Definition rt_is_empty (t : rdata_table T) : bool := Nat.eqb (length (rows t)) 0.
Definition rt_into_result (t : rdata_table T) : option T := head (rows t).
Definition rt_rows (t : rdata_table T) : list T := rows t.
Definition rt_into_rows (t : rdata_table T) : list T := rows t.
Definition rt_iter (t : rdata_table T) : list T := rows t.
Definition rt_into_iter (t : rdata_table T) : list T := rows t.
Definition rt_push (row : T) (t : rdata_table T) : rdata_table T := RDataTable (rows t ++ [row]).
Definition rt_map {R} (f : T -> R) (t : rdata_table T) : list R := map f (rows t).

(** [map_async]: the futures one after the other, each with its effect on [S]; an error
    stops it. *)
Fixpoint map_rows {R S} (f : T -> S -> result R string * S) (l : list T) (s : S) : result (list R) string * S :=
  match l with
  | [] => (Ok [], s)
  | x :: l =>
      match f x s with
      | (Err e, s) => (Err e, s)
      | (Ok r, s) => let '(rs, s) := map_rows f l s in (rmap (cons r) rs, s)
      end
  end.
Definition rt_map_async {R S} (f : T -> S -> result R string * S) (t : rdata_table T) (s : S) := map_rows f (rows t) s.
End table.

(** ** Helpers *)

(** [hex_decode]: [decode] is the hex crate's. *)
Definition hex_decode (decode : bytes -> result bytes string) (s : bytes) : result bytes string :=
  match s with
  | "0"%char :: "x"%char :: rest => decode rest
  | _ => decode s
  end.

(** [count_dp], on the text the number is displayed as: [len - index - 1] for the first
    point. *)
Fixpoint find_char (c : ascii) (s : string) : option nat :=
  match s with
  | EmptyString => None
  | String a s => if ascii_dec a c then Some 0 else option_map S (find_char c s)
  end.
Definition count_dp (num_str : string) : nat :=
  match find_char "." num_str with
  | Some decimal_index => String.length num_str - decimal_index - 1
  | None => 0
  end.

(** [align_precision]: the number [a] displayed with as many decimals as [b], and parsed;
    [None] is a panic.  The precision goes through a text of its own. *)
Definition align_precision {F} (display : F -> string) (fmt_prec : nat -> F -> string) (parse : string -> option F)
    (a b : F) : option F :=
  let precision_a : string := pretty (count_dp (display b)) in
  match parse_unsigned 18446744073709551615 precision_a with
  | Some p => parse (fmt_prec (Z.to_nat p) a)
  | None => None
  end.

(** [get_log_id]: microseconds ([i64]) cast to [u64]. *)
Definition get_log_id (timestamp_micros : Z) : Z := timestamp_micros mod 2 ^ 64.

(** [LoggingGuard::get_file]. *)
Inductive logging_guard := NonBlocking (path : string) | StdoutWithPath (path : option string).
Definition get_file (g : logging_guard) : option string :=
  match g with NonBlocking path => Some path | StdoutWithPath path => path end.

(** [DynLogger]: a closure with its effect on [S]. *)
Definition dyn_logger (S : Type) : Type := string -> S -> S.
Definition dyn_logger_empty {S} : dyn_logger S := fun _ s => s.
Definition dyn_log {S} (logger : dyn_logger S) (msg : string) (s : S) : S := logger msg s.

(** [can_create_file_in_directory], over a file system: the answer, and what is printed
    when the probe file cannot be removed. *)
Class FileSystem (F : Type) := {
  create_file : string -> F -> result unit string * F;
  remove_file : string -> F -> result unit string * F;
}.
Definition can_create_file_in_directory `{FileSystem F} (directory : string) (fs : F) : bool * F * option string :=
  let test_file_path := directory +:+ "/test_file.txt" in
  match create_file test_file_path fs with
  | (Ok _, fs) =>
      match remove_file test_file_path fs with
      | (Err err, fs) => (true, fs, Some ("Error deleting test file: " +:+ err))
      | (Ok _, fs) => (true, fs, None)
      end
  | (Err _, fs) => (false, fs, None)
  end.

(** The paging defaults of [src/libs.rs]. *)
Definition DEFAULT_LIMIT : Z := 20.
Definition DEFAULT_OFFSET : Z := 0.

(** ** Properties *)

(** A file system as the contents of its paths: [create] truncates, [remove] needs the
    file.  [writable] says where files can be made. *)
Definition model_fs (writable : string -> bool) : FileSystem (gmap string string) := {|
  create_file p fs := if writable p then (Ok tt, <[p := ""]> fs) else (Err "permission denied", fs);
  remove_file p fs := match fs !! p with Some _ => (Ok tt, delete p fs) | None => (Err "not found", fs) end;
|}.

(** On such a file system the probe answers exactly whether a file can be made there,
    touches no other path, and leaves no probe file: one that was there is lost. *)
Lemma can_create_file_probe writable directory (fs : gmap string string) :
  let path := directory +:+ "/test_file.txt" in
  can_create_file_in_directory (H := model_fs writable) directory fs
  = (writable path, if writable path then delete path fs else fs, None).
Proof.
  unfold can_create_file_in_directory. simpl. destruct (writable _) eqn:Hw; [|done].
  rewrite lookup_insert_eq. by rewrite delete_insert_eq.
Qed.

Lemma warn_all_app l s :
  warn_all (l ++ [s]) = let '(w, logged) := warn_manager_warn s (warn_all l).1 in (w, (warn_all l).2 ++ logged).
Proof. unfold warn_all. by rewrite fold_left_app. Qed.

Definition occurrences (s : string) (l : list string) : nat := length (filter (fun x => x = s) l).

Lemma occurrences_app s l x : occurrences s (l ++ [x]) = occurrences s l + if decide (x = s) then 1 else 0.
Proof. unfold occurrences. rewrite filter_app, length_app, filter_cons, filter_nil. by destruct (decide (x = s)). Qed.

(** The warnings in the order in which they first came. *)
Definition firsts (l : list string) : list string :=
  fold_left (fun acc x => if decide (x ∈ acc) then acc else acc ++ [x]) l [].

Lemma firsts_app l x : firsts (l ++ [x]) = if decide (x ∈ firsts l) then firsts l else firsts l ++ [x].
Proof. unfold firsts. by rewrite fold_left_app. Qed.

(** However warnings come, the manager counts each exactly, and logs each distinct one
    once, in the order in which they first came. *)
Theorem warn_all_spec l :
  (forall s, (warn_all l).1 !! s = if decide (occurrences s l = 0) then None else Some (Z.of_nat (occurrences s l)))
  /\ (warn_all l).2 = map (fun s => "First warning: " +:+ s) (firsts l)
  /\ NoDup (firsts l) /\ forall s, s ∈ firsts l <-> occurrences s l <> 0.
Proof.
  induction l as [|x l (Hc & Hl & Hnd & Hin)] using rev_ind.
  { split_and!; [done|done|constructor|]. intros s. unfold occurrences. simpl. set_solver. }
  rewrite warn_all_app. unfold warn_manager_warn. rewrite (Hc x), firsts_app.
  destruct (decide (occurrences x l = 0)) as [Hz|Hz].
  - rewrite decide_False by (rewrite Hin; lia). cbn [fst snd]. split_and!.
    + intros s. rewrite occurrences_app, lookup_insert, Hc. repeat case_decide; subst; simpl; try lia; try done.
      all: f_equal; lia.
    + by rewrite Hl, map_app.
    + apply NoDup_app. split_and!; [done| |apply NoDup_singleton]. intros s Hs ->%list_elem_of_singleton. by apply Hin in Hs.
    + intros s. rewrite elem_of_app, list_elem_of_singleton, Hin, occurrences_app.
      destruct (decide (x = s)) as [->|]; [|rewrite Nat.add_0_r]; naive_solver lia.
  - rewrite decide_True by (by apply Hin). cbn [fst snd]. split_and!; [|by rewrite app_nil_r|done|].
    + intros s. rewrite occurrences_app, lookup_insert, Hc. repeat case_decide; subst; simpl; try lia; try done.
      all: f_equal; lia.
    + intros s. rewrite Hin, occurrences_app. destruct (decide (x = s)) as [->|]; [|by rewrite Nat.add_0_r]. lia.
Qed.

Lemma map_rows_ok {T R S} (f : T -> S -> result R string * S) l s rs s' :
  map_rows f l s = (Ok rs, s') -> length rs = length l.
Proof.
  revert s rs. induction l as [|x l IH]; intros s rs; simpl; [by intros [= <- _]|].
  destruct (f x s) as [[r|e] s1]; [|done]. destruct (map_rows f l s1) as [[rs1|e] s2] eqn:E; [|done].
  simpl. intros [= <- <-]. simpl. f_equal. by eapply IH.
Qed.
