(* ===== verification/Deserializer.v ===== *)
(** * The deserializer wrapper: [src/libs/deserializer_wrapper.rs]

    [Deserializer] borrows a JSON value and forwards serde's methods to it, so that
    [serde_path_to_error] can be driven from a [Value] more than once.  serde's trait is
    a class here; its implementation for [&Value] is serde_json's, a parameter. *)

From S2P Require Import Prelude Json.

(** The methods of [de::Deserializer]: what each is told besides the visitor.  Those of
    scalars and those of compounds are two records only for length.  The two methods on
    128-bit integers are the ones the trait has a default for. *)
Section methods.
Context (visitor value error : Type).

Record scalar_methods := ScalarMethods {
  deserialize_any : visitor -> result value error;
  deserialize_bool : visitor -> result value error;
  deserialize_i8 : visitor -> result value error;
  deserialize_i16 : visitor -> result value error;
  deserialize_i32 : visitor -> result value error;
  deserialize_i64 : visitor -> result value error;
  deserialize_u8 : visitor -> result value error;
  deserialize_u16 : visitor -> result value error;
  deserialize_u32 : visitor -> result value error;
  deserialize_u64 : visitor -> result value error;
  deserialize_f32 : visitor -> result value error;
  deserialize_f64 : visitor -> result value error;
  deserialize_char : visitor -> result value error;
  deserialize_str : visitor -> result value error;
  deserialize_string : visitor -> result value error;
  deserialize_bytes : visitor -> result value error;
  deserialize_byte_buf : visitor -> result value error;
}.

Record compound_methods := CompoundMethods {
  deserialize_option : visitor -> result value error;
  deserialize_unit : visitor -> result value error;
  deserialize_unit_struct : string -> visitor -> result value error;
  deserialize_newtype_struct : string -> visitor -> result value error;
  deserialize_seq : visitor -> result value error;
  deserialize_tuple : nat -> visitor -> result value error;
  deserialize_tuple_struct : string -> nat -> visitor -> result value error;
  deserialize_map : visitor -> result value error;
  deserialize_struct : string -> list string -> visitor -> result value error;
  deserialize_enum : string -> list string -> visitor -> result value error;
  deserialize_identifier : visitor -> result value error;
  deserialize_ignored_any : visitor -> result value error;
}.

Class DeserializerOps (D : Type) := {
  scalars : D -> scalar_methods;
  compounds : D -> compound_methods;
  deserialize_i128 : D -> visitor -> result value error;
  deserialize_u128 : D -> visitor -> result value error;
}.
End methods.
Arguments scalars {visitor value error D _} _.
Arguments compounds {visitor value error D _} _.
Arguments deserialize_i128 {visitor value error D _} _ _.
Arguments deserialize_u128 {visitor value error D _} _ _.

Section wrapper.
Context {visitor value error : Type} `{DeserializerOps visitor value error json}.
(** serde's defaults for the 128-bit methods. *)
Context (i128_default u128_default : visitor -> result value error).

Record deserializer := Deserializer { input : json }.
Definition from_value (input : json) : deserializer := Deserializer input.

Definition wrapper_scalars (self : deserializer) : scalar_methods visitor value error :=
  let i := scalars (input self) in {|
    deserialize_any visitor := deserialize_any _ _ _ i visitor;
    deserialize_bool visitor := deserialize_bool _ _ _ i visitor;
    deserialize_i8 visitor := deserialize_i8 _ _ _ i visitor;
    deserialize_i16 visitor := deserialize_i16 _ _ _ i visitor;
    deserialize_i32 visitor := deserialize_i32 _ _ _ i visitor;
    deserialize_i64 visitor := deserialize_i64 _ _ _ i visitor;
    deserialize_u8 visitor := deserialize_u8 _ _ _ i visitor;
    deserialize_u16 visitor := deserialize_u16 _ _ _ i visitor;
    deserialize_u32 visitor := deserialize_u32 _ _ _ i visitor;
    deserialize_u64 visitor := deserialize_u64 _ _ _ i visitor;
    deserialize_f32 visitor := deserialize_f32 _ _ _ i visitor;
    deserialize_f64 visitor := deserialize_f64 _ _ _ i visitor;
    deserialize_char visitor := deserialize_char _ _ _ i visitor;
    deserialize_str visitor := deserialize_str _ _ _ i visitor;
    deserialize_string visitor := deserialize_string _ _ _ i visitor;
    deserialize_bytes visitor := deserialize_bytes _ _ _ i visitor;
    deserialize_byte_buf visitor := deserialize_byte_buf _ _ _ i visitor;
  |}.

Definition wrapper_compounds (self : deserializer) : compound_methods visitor value error :=
  let i := compounds (input self) in {|
    deserialize_option visitor := deserialize_option _ _ _ i visitor;
    deserialize_unit visitor := deserialize_unit _ _ _ i visitor;
    deserialize_unit_struct name visitor := deserialize_unit_struct _ _ _ i name visitor;
    deserialize_newtype_struct name visitor := deserialize_newtype_struct _ _ _ i name visitor;
    deserialize_seq visitor := deserialize_seq _ _ _ i visitor;
    deserialize_tuple len visitor := deserialize_tuple _ _ _ i len visitor;
    deserialize_tuple_struct name len visitor := deserialize_tuple_struct _ _ _ i name len visitor;
    deserialize_map visitor := deserialize_map _ _ _ i visitor;
    deserialize_struct name fields visitor := deserialize_struct _ _ _ i name fields visitor;
    deserialize_enum name variants visitor := deserialize_enum _ _ _ i name variants visitor;
    deserialize_identifier visitor := deserialize_identifier _ _ _ i visitor;
    deserialize_ignored_any visitor := deserialize_ignored_any _ _ _ i visitor;
  |}.

#[export] Instance wrapper_deserializer : DeserializerOps visitor value error deserializer := {|
  scalars := wrapper_scalars;
  compounds := wrapper_compounds;
  deserialize_i128 _ visitor := i128_default visitor;
  deserialize_u128 _ visitor := u128_default visitor;
|}.

(** Whatever drives a deserializer through these methods sees the value itself. *)
Lemma wrapper_transparent {A} (drive : scalar_methods visitor value error -> compound_methods visitor value error -> A) v :
  drive (scalars (from_value v)) (compounds (from_value v)) = drive (scalars v) (compounds v).
Proof.
  change (drive (wrapper_scalars (from_value v)) (wrapper_compounds (from_value v)) = drive (scalars v) (compounds v)).
  unfold wrapper_scalars, wrapper_compounds, from_value, input. destruct (scalars v), (compounds v). reflexivity.
Qed.
End wrapper.
