(* ===== verification/LogSetup.v ===== *)
(** * Setting up the logs: [src/libs/log.rs]

    Which layers a [LoggingConfig] asks for, how they are installed, and the handle that
    changes the level.
    The layers themselves belong to the tracing crates: a subscriber is here the
    parts it is built from, with what each was given. *)

From S2P Require Import Prelude LogLevel Aggregation.

Record otel_config := OtelConfig {
  ot_enabled : bool;
  ot_service_name : option string;
  ot_endpoint : option string;
  ot_headers : gmap string string;
}.
Definition otel_default : otel_config := OtelConfig false None None ∅.

Inductive log_rotation := MINUTELY | HOURLY | DAILY | WEEKLY | NEVER.

Record file_logging_config := FileLoggingConfig {
  fl_path : string;
  fl_prefix : option string;
  fl_rotation : option log_rotation;
}.

(** Durations are nanoseconds. *)
Record log_throttling_config := LogThrottlingConfig {
  lt_summary : option Z;
  lt_metrics : option Z;
  lt_excluded_fields : option (list string);
  lt_exemptions : option (list string);
}.
Definition throttling_default : log_throttling_config := LogThrottlingConfig None None None None.

Record logging_config := LoggingConfig {
  lc_level : log_level;
  lc_file : option file_logging_config;
  lc_otel : otel_config;
  lc_aggregation : aggregation_config;
  lc_throttling : option log_throttling_config;
}.

(** [RollingFileAppender::builder], as it is built. *)
Record appender := Appender { ap_rotation : log_rotation; ap_prefix : string; ap_suffix : string; ap_path : string }.

(** [TracingRateLimitLayer::builder], as it is built. *)
Record rate_limit := RateLimit {
  rl_excluded_fields : list string;
  rl_exempt_targets : list string;
  rl_active_emission : bool;
  rl_summary_interval : Z;
}.

(** [LoggingSubscriberParts]; the stdout layer is always there. *)
Record subscriber_parts := SubscriberParts {
  sp_filter : list directive;            (* the reloadable global filter *)
  sp_file : option (appender * option rate_limit);   (* the file layer, and its filter *)
  sp_errors : option aggregation_config; (* the error layer *)
  sp_throttle : option rate_limit;       (* log_throttling_handle *)
  sp_warnings : list string;             (* logged while building *)
}.

Definition SELF_TARGET : string := "tracing_throttle::infrastructure::layer".
Definition five_minutes : Z := 5 * 60 * 1000000000.

Section setup.
(** The features of the build; [now]: the clock as RFC 3339; [can_build] and
    [throttle_ok]: the results of the two builders. *)
Context (error_aggregation log_throttling : bool) (now : string).
Context (can_build : appender -> result unit string) (throttle_ok : rate_limit -> bool).

Definition rate_limit_of (t : log_throttling_config) : rate_limit :=
  RateLimit (default [] (lt_excluded_fields t)) (SELF_TARGET :: default [] (lt_exemptions t))
    (bool_decide (is_Some (lt_summary t))) (default five_minutes (lt_summary t)).

Definition appender_of (f : file_logging_config) : appender :=
  Appender (default NEVER (fl_rotation f)) (default now (fl_prefix f)) "log" (fl_path f).

Definition otel_warnings (o : otel_config) : list string :=
  if ot_enabled o
  then ["otel_config.enabled is true but OTLP export has been removed from endpoint-libs - no traces or logs will be forwarded to a collector (endpoint = "
        +:+ default "unset" (ot_endpoint o) +:+ ")"]
  else [].

(** [build_logging_subscriber], with the period of the metrics task it spawned, which
    runs on when the appender then fails; [None] is the panic of the rate limiter's
    [expect]. *)
Definition build_logging_subscriber (config : logging_config) : option (result subscriber_parts string * option Z) :=
  let filter := build_env_filter (lc_level config) in
  let t := default throttling_default (lc_throttling config) in
  let limit := rate_limit_of t in
  if log_throttling && negb (throttle_ok limit) then None
  else
    let throttle := if log_throttling then Some limit else None in
    let metrics := if log_throttling then lt_metrics t else None in
    let parts file :=
      SubscriberParts filter file (if error_aggregation then Some (lc_aggregation config) else None)
        throttle (otel_warnings (lc_otel config)) in
    match lc_file config with
    | None => Some (Ok (parts None), metrics)
    | Some f =>
        let a := appender_of f in
        Some (match can_build a with Err e => Err e | Ok _ => Ok (parts (Some (a, throttle))) end, metrics)
    end.

(** [LogReloadHandle::set_log_level]: [modify] is the reload handle's, which fails when
    the subscriber is gone. *)
Definition set_log_level (modify : result unit string) (level : log_level) (parts : subscriber_parts)
    : result unit string * subscriber_parts :=
  match modify with
  | Ok _ =>
      (Ok tt, SubscriberParts (build_env_filter level) (sp_file parts) (sp_errors parts) (sp_throttle parts) (sp_warnings parts))
  | Err error => (Err ("Error setting new global log filter: " +:+ error +:+ ". Ignoring reload attempt"), parts)
  end.

(** *** [setup_logging]

    The subscriber of the process, and the library's own warnings that reached one.
    [enabled]: whether a subscriber lets the warning through.  The thread has no
    subscriber of its own. *)
Record process_log := ProcessLog { pl_global : option subscriber_parts; pl_seen : list string }.
Context (enabled : subscriber_parts -> string -> bool).

(** [tracing::warn!] to the global subscriber; without one it goes nowhere. *)
Definition warn (p : process_log) (message : string) : process_log :=
  match pl_global p with
  | Some s => if enabled s message then ProcessLog (Some s) (pl_seen p ++ [message]) else p
  | None => p
  end.

(** [SubscriberInitExt::init]: [None] is its panic, when there is a global subscriber. *)
Definition init (parts : subscriber_parts) (p : process_log) : option process_log :=
  match pl_global p with Some _ => None | None => Some (ProcessLog (Some parts) (pl_seen p)) end.

(** [None] is a panic.  The warnings are given while the subscriber is built. *)
Definition setup_logging (config : logging_config) (p : process_log) : option (result subscriber_parts string) * process_log :=
  match build_logging_subscriber config with
  | None => (None, p)
  | Some (Err e, _) => (Some (Err e), p)
  | Some (Ok parts, _) =>
      let p := fold_left warn (sp_warnings parts) p in
      match init parts p with
      | Some p => (Some (Ok parts), p)
      | None => (None, p)
      end
  end.

(** *** [CustomEyreHandler] *)

Record eyre_handler (H L : Type) := EyreHandler { eh_default : H; eh_location : option L }.
Arguments EyreHandler {H L} _ _.
Arguments eh_default {H L} _.
Arguments eh_location {H L} _.
Definition default_with_location_saving {H L} (default_handler : H) : eyre_handler H L := EyreHandler default_handler None.
Definition get_location {H L} (h : eyre_handler H L) : option L := eh_location h.
(** [display] and [debug] are the default handler's. *)
Definition eyre_display {H L E F} (default_display : H -> E -> F -> F) (h : eyre_handler H L) (error : E) (f : F) : F :=
  default_display (eh_default h) error f.
Definition eyre_debug {H L E F} (default_debug : H -> E -> F -> F) (h : eyre_handler H L) (error : E) (f : F) : F :=
  default_debug (eh_default h) error f.
Definition track_caller {H L} (track : L -> H -> H) (location : L) (h : eyre_handler H L) : eyre_handler H L :=
  EyreHandler (track location (eh_default h)) (Some location).

(** ** What the configuration decides *)

(** [otel_config] is inert: it changes nothing but the warning. *)
Lemma otel_inert config o parts metrics :
  build_logging_subscriber config = Some (Ok parts, metrics) ->
  build_logging_subscriber (LoggingConfig (lc_level config) (lc_file config) o (lc_aggregation config) (lc_throttling config))
  = Some (Ok (SubscriberParts (sp_filter parts) (sp_file parts) (sp_errors parts) (sp_throttle parts) (otel_warnings o)), metrics).
Proof.
  unfold build_logging_subscriber. simpl. destruct (log_throttling && _); [done|].
  destruct (lc_file config) as [f|]; simpl; [|by intros [= <- <-]]. destruct (can_build _); [|done]. by intros [= <- <-].
Qed.

(** The handle replaces the whole filter: setting the level a subscriber was built with
    gives back the filter it was built with. *)
Lemma reload_same config parts metrics :
  build_logging_subscriber config = Some (Ok parts, metrics) ->
  forall level, (set_log_level (Ok tt) (lc_level config) (set_log_level (Ok tt) level parts).2).2 = parts.
Proof.
  unfold build_logging_subscriber. destruct (log_throttling && _); [done|].
  destruct (lc_file config) as [f|]; simpl; [|by intros [= <- _]]. destruct (can_build _); [|done]. by intros [= <- _].
Qed.
Lemma warn_global p m : pl_global (warn p m) = pl_global p.
Proof. unfold warn. destruct (pl_global p) eqn:E; [|done]. by destruct (enabled _ _). Qed.

Lemma warn_silent ms p : pl_global p = None -> fold_left warn ms p = p.
Proof.
  intros Hp. induction ms as [|m ms IH]; simpl; [done|].
  assert (warn p m = p) as -> by (unfold warn; by rewrite Hp). done.
Qed.

(** The warning about [otel_config] is given before there is a subscriber: whenever
    [setup_logging] succeeds, it installs the subscriber it built, and nobody has seen
    the warning. *)
Lemma setup_warning_lost config p parts p' :
  setup_logging config p = (Some (Ok parts), p') ->
  pl_global p' = Some parts /\ pl_seen p' = pl_seen p /\ sp_warnings parts = otel_warnings (lc_otel config).
Proof.
  unfold setup_logging. destruct (build_logging_subscriber config) as [[[q|e] m]|] eqn:Hb; try done.
  assert (pl_global (fold_left warn (sp_warnings q) p) = pl_global p) as Hg.
  { clear Hb. generalize (sp_warnings q). intros ms. revert p.
    induction ms as [|x ms IH]; intros p; simpl; [done|]. by rewrite IH, warn_global. }
  unfold init. rewrite Hg. destruct (pl_global p) eqn:Hp; [done|]. rewrite warn_silent by done. intros [= <- <-].
  split; [done|]. split; [done|].
  unfold build_logging_subscriber in Hb. destruct (log_throttling && _); [done|].
  destruct (lc_file config) as [f|]; simpl in Hb; [|by injection Hb as <- _]. destruct (can_build _); [|done]. by injection Hb as <- _.
Qed.
End setup.
