(* ===== verification/EndToEnd.v ===== *)
(** * A JSON-RPC call from end to end

    The client's types ([McpWire]), the server's routing ([Mcp], [Session]) and the
    future of the request ([Request]) together: what a client that sends a call can
    read back. *)

From S2P Require Import Prelude BMap Json ErrorCode ServerConfig Limits Mcp McpWire McpInterop Basics Toolbox Handler Request Session.

Section end_to_end.
Context {V Req HS BS AS : Type} (to_string : ws_response -> result string string) (render : json -> string).
Context (server : @server V Req HS BS AS) (conn_info : ws_connection V).
Context (serde_error : json -> string) (mismatch : string).

(** The client reads [frame] as a response with the id of its call, which holds a
    result or an error, and not both. *)
Definition reads (id : json_rpc_id) (frame : json) : Prop :=
  exists resp, parse_value mismatch frame = Ok (MResponse resp) /\ jp_id resp = Some id
    /\ (is_Some (jp_result resp) <-> jp_error resp = None).

Lemma client_server_id id : client_id (server_id id) = id.
Proof. by destruct id. Qed.

Lemma reads_result id res : id_wf (Some id) = true -> res <> JNull -> reads id (jsonrpc_result (Some (server_id id)) res).
Proof.
  intros Hid Hres. rewrite jsonrpc_result_wire. simpl. rewrite client_server_id.
  eexists. split; [|split]; [apply (parse_ser_message mismatch (MResponse (response_result (Some id) res)))|done|].
  - unfold message_wf. simpl jp_id. by rewrite Hid.
  - simpl. destruct res; try done; by split; eauto.
Qed.

Lemma reads_error id e : id_wf (Some id) = true -> wire_i64 (err_code e) = true -> reads id (jsonrpc_error (Some (server_id id)) e).
Proof.
  intros Hid He. rewrite jsonrpc_error_wire. simpl. rewrite client_server_id.
  eexists. split; [|split]; [apply (parse_ser_message mismatch (MResponse (response_error (Some id) (client_error e))))|done|].
  - unfold message_wf. simpl jp_id. rewrite Hid. simpl. by rewrite He.
  - simpl. split; [by intros []|done].
Qed.

Lemma reads_internal id data : id_wf (Some id) = true ->
  reads id (jsonrpc_error (Some (server_id id)) (error_code_to_jsonrpc INTERNAL_ERROR data)).
Proof. intros Hid. apply reads_error; [exact Hid|reflexivity]. Qed.

(** What [route] answers at once. *)
Lemma route_reads mcp req roles id frame :
  id_wf (Some id) = true -> rpc_rid req = Some (server_id id) -> route mcp req roles = Respond frame -> reads id frame.
Proof.
  intros Hid Hr. unfold route, route_tool_call, is_notification. rewrite Hr.
  repeat case_match; intros Heq; first [discriminate Heq | injection Heq as <-];
    match goal with
    | |- reads _ (jsonrpc_error _ _) => apply reads_error; [exact Hid|reflexivity]
    | |- reads _ (jsonrpc_result _ _) => apply reads_result; [exact Hid|intros Hn; discriminate Hn]
    end.
Qed.

(** What the future of a call sends. *)
Lemma answer_reads (e : @task_env V Req HS BS AS) id sent :
  id_wf (Some id) = true -> te_envelope e = Handler.Mcp (Some (server_id id)) -> answer render e sent ->
  Forall (fun x => exists c frame, x = ORaw c frame /\ reads id frame) sent.
Proof.
  intros Hid He. destruct 1 as [ctx custom|ctx message|ctx resp|Ha|Ha]; unfold reject, bad_params, reply, timed_out; rewrite ?He.
  - constructor; [|constructor]. do 2 eexists. split; [done|]. apply reads_result; [exact Hid|intros Hn; discriminate Hn].
  - constructor; [|constructor]. do 2 eexists. split; [done|]. apply reads_error; [exact Hid|reflexivity].
  - assert (Hone : forall frame, reads id frame ->
      Forall (fun x => exists c frame, x = ORaw c frame /\ reads id frame) [ORaw (x_connection_id ctx) frame]).
    { intros frame Hf. constructor; [|constructor]. by eexists _, frame. }
    unfold mcp_frame. destruct resp as [[value|err]|[err|err|]]; cbn [option_map]; [| | | |constructor]; apply Hone.
    + apply reads_result; [exact Hid|intros Hn; discriminate Hn].
    + apply reads_internal; exact Hid.
    + apply reads_result; [exact Hid|intros Hn; discriminate Hn].
    + apply reads_internal; exact Hid.
  - constructor; [|constructor]. do 2 eexists. split; [done|]. apply reads_error; [exact Hid|reflexivity].
  - constructor.
Qed.

Lemma run_answers config t (e : @task_env V Req HS BS AS) id w evs tk w' sent :
  id_wf (Some id) = true -> te_envelope e = Handler.Mcp (Some (server_id id)) ->
  task_run to_string render config t e (task_start e) w evs = (tk, w', sent) ->
  length sent <= 1 /\ Forall (fun x => exists c frame, x = ORaw c frame /\ reads id frame) sent.
Proof.
  intros Hid He Hr. assert (Hi : task_inv render e tk ([] ++ sent)) by (eapply task_run_post; [|exact Hr]; done).
  simpl in Hi. assert (Ha : sent = [] \/ answer render e sent).
  { destruct tk as [[]|]; simpl in Hi; naive_solver. }
  destruct Ha as [->|Ha]; [split; [simpl; lia|constructor]|].
  split; [by eapply answer_length|by eapply answer_reads].
Qed.

Lemma emit_frame frame context (w : world V) task (w' : world V) o :
  (do! _ <- emit to_string render (sv_toolbox server) (ORaw (x_connection_id context) frame) in ret (@None (@task_env V Req HS BS AS))) w
  = (task, w', o) ->
  task = None /\ o = [ORaw (x_connection_id (V := V) context) frame].
Proof.
  intros (u & w1 & o1 & o2 & He & Hk & ->)%bind_inv. apply (emit_inv _ _ server) in He as ->. by injection Hk as <- <- <-.
Qed.

(** C2: Every call is answered, to its own id, in a form the client reads.  A call
    that a client writes is parsed by the server; then either it becomes a task, which
    however it is run sends at most one frame, or it is answered at once, with exactly
    one frame, unless its method is a notification's.  And every frame sent in answer,
    whatever the routing, the roles, the limits, the hooks, the handler and the timeout
    do, is read by the client as the response to that call, with either a result or an
    error. *)
Theorem rpc_call_answered r id from_str text mcp context w task w' o :
  jr_id r = Some id -> message_wf (MRequest r) = true -> from_str text = Some (ser_request r) ->
  exists req, try_parse_jsonrpc from_str serde_error text = Some (Ok req)
  /\ (handle_mcp_frame to_string render server conn_info mcp (Ok req) context w = (task, w', o) ->
      match task with
      | None =>
          starts_with "notifications/" (jr_method r) = true /\ o = []
          \/ exists frame, o = [ORaw (x_connection_id context) frame] /\ reads id frame
      | Some e =>
          o = [] /\ forall config t w1 evs tk w2 sent,
            task_run to_string render config t e (task_start e) w1 evs = (tk, w2, sent) ->
            length sent <= 1 /\ Forall (fun x => exists c frame, x = ORaw c frame /\ reads id frame) sent
      end).
Proof.
  intros Hid Hwf Htext.
  assert (Hidw : id_wf (Some id) = true) by (unfold message_wf in Hwf; rewrite Hid in Hwf; by apply andb_true_iff in Hwf as [_ ?]).
  pose proof (parse_ser_message mismatch (MRequest r) Hwf) as Hp. apply parse_value_ok in Hp as [Hv Hd].
  simpl norm in Hd. apply (de_request_members _ _ Hv) in Hd as (id' & me & Hi & Hme & Heq).
  injection Heq as _ Hid' Hme' Hpar. rewrite Hid in Hid'. subst id' me.
  exists (RpcRequest JSONRPC_VERSION (Some (server_id id)) (jr_method r) (drop_null (jget "params" (ser_request r)))). split.
  { unfold try_parse_jsonrpc. rewrite Htext.
    change (ser_message (MRequest r)) with (ser_request r) in *. rewrite Hv.
    pose proof (request_from_value_eq serde_error (ser_request r) Hv) as Hq. rewrite Hi, Hme in Hq.
    change (server_id <$> Some id) with (Some (server_id id)) in Hq. cbn -[request_from_value]. rewrite Hq. done. }
  unfold handle_mcp_frame, is_notification. cbn [rpc_rid]. destruct (route mcp _ _) as [frame|rid code args|] eqn:Hroute.
  - intros [-> ->]%emit_frame. right. exists frame. split; [done|].
    eapply route_reads; [exact Hidw| |exact Hroute]. reflexivity.
  - assert (rid = Some (server_id id)) as ->.
    { unfold route, route_tool_call in Hroute. repeat case_match; by simplify_eq/=. }
    destruct (sv_handlers server !! code) as [ep|].
    + intros (ok & w1 & o1 & o2 & Ha & Hk & ->)%bind_inv.
      assert (o1 = []) as -> by (unfold acquire_slot in Ha; destruct (acquire_request _ _) as [[slot l] ev]; by injection Ha).
      destruct ok; cbn [negb] in Hk.
      * injection Hk as <- <- <-. split; [done|]. intros config t w2 evs tk w3 sent. by apply run_answers.
      * unfold busy_rpc, emit_opt in Hk. apply emit_frame in Hk as [-> ->]. right. eexists. split; [done|]. apply reads_error; [exact Hidw|reflexivity].
    + intros [-> ->]%emit_frame. right. eexists. split; [done|]. apply reads_error; [exact Hidw|reflexivity].
  - intros [= <- <- <-]. left. split; [|done]. revert Hroute. unfold route, route_tool_call, is_notification. cbn [rpc_rid rpc_method].
    repeat case_match; try done.
Qed.
End end_to_end.

(** *** Witness: a tool call becomes a task, whose frame the client reads *)

Definition w_tools : mcp_state :=
  McpState [McpTool "echo" "" (jobj []) None 20 {[1]}%Z false] {["echo" := 0]} (McpServerInfo "srv" "1") MCP_PROTOCOL_VERSION.
Definition w_client_call : json_rpc_request :=
  McpWire.call (Number 7) "tools/call" (jobj [("name", JStr "echo"); ("arguments", jobj [])]).
Definition w_from_str : string -> option json := fun _ => Some (ser_request w_client_call).
Definition w_dispatched :=
  match try_parse_jsonrpc w_from_str w_serde_error "" with
  | Some frame => handle_mcp_frame w_text w_json w_server w_conn w_tools frame (w_granted) w_live
  | None => (None, w_live, [])
  end.

Lemma rpc_call_answered_witness :
  match w_dispatched with
  | (Some e, _, o) =>
      o = [] /\ let '(_, _, sent) := task_run w_text w_json config_default w_tb e (task_start e) w_live w_late in
                length sent = 1 /\ Forall (fun x => exists c frame, x = ORaw c frame /\ reads "" (Number 7) frame) sent
  | _ => False
  end.
Proof.
  unfold w_dispatched. destruct (try_parse_jsonrpc w_from_str w_serde_error "") as [frame|] eqn:Hf;
    [|vm_compute in Hf; discriminate Hf].
  destruct (handle_mcp_frame w_text w_json w_server w_conn w_tools frame w_granted w_live) as [[task w'] o] eqn:Hh.
  destruct (rpc_call_answered w_text w_json w_server w_conn w_serde_error "" w_client_call (Number 7) w_from_str ""
              w_tools w_granted w_live task w' o eq_refl eq_refl eq_refl) as (req & Hreq & Hall).
  rewrite Hf in Hreq. injection Hreq as ->. specialize (Hall Hh). destruct task as [e|].
  - destruct Hall as [-> Hrun]. split; [reflexivity|].
    destruct (task_run w_text w_json config_default w_tb e (task_start e) w_live w_late) as [[tk w2] sent] eqn:Hr.
    destruct (Hrun _ _ _ _ _ _ _ Hr) as [_ Hs]. split; [|exact Hs].
    vm_compute in Hf. injection Hf as <-. vm_compute in Hh. injection Hh as <- _. vm_compute in Hr. by injection Hr as _ _ <-.
  - vm_compute in Hf. injection Hf as <-. vm_compute in Hh. discriminate Hh.
Defined.
