(* ===== verification/Echo.v ===== *)
(** * A service on the library: [examples/ws-echo/main.rs]

    The whole of one application: its configuration, its two endpoints, its allow-all
    authentication.  The server is built by the calls of [main] ([Builder]); what it
    does to a client is then computed, from the first frame to the clean-up
    ([Connection], [Session], [Request]), and compared with [echo_answer], which says
    in a few lines what this service is for. *)

From S2P Require Import Prelude BMap Json ModelTypes SchemaJson TestKit ErrorCode Peer Message Outbound LogLevel ServerConfig Limits Basics Toolbox Mcp Handler Headers Request Session Keeps Slots Connection Aggregation LogSetup Builder.

(** ** The endpoints *)

Definition ECHO_METHOD_ID : Z := 1.
Definition ECHO_ROLES : list Z := [1]%Z.
Definition ECHO_SCHEMA : string := json_text "{
        'name':       'Echo',
        'code':       1,
        'parameters': [{'name': 'message', 'ty': 'String'}],
        'returns':    [{'name': 'message', 'ty': 'String'}],
        'roles':      []
    }".

Definition USER_INFO_METHOD_ID : Z := 211.
Definition USER_INFO_ROLES : list Z := [1]%Z.
Definition USER_INFO_SCHEMA : string := json_text "{
  'name': 'ReceiveUserInfo',
  'code': 211,
  'parameters': [
    {'name': 'userPubId', 'ty': 'UUID'},
    {'name': 'username', 'ty': 'String'},
    {'name': 'appPubId', 'ty': {'Optional': 'UUID'}},
    {'name': 'token', 'ty': {'Optional': 'String'}}
  ],
  'returns': [],
  'stream_response': null,
  'description': 'Test endpoint mirroring ReceiveUserInfo (code 211)',
  'json_schema': null,
  'roles': []
}".

(** What the two texts say: what serde makes of them. *)
Definition echo_schema : endpoint_schema :=
  endpoint_new "Echo" 1 [field_new "message" TString] [field_new "message" TString].
Definition user_info_schema : endpoint_schema :=
  with_description
    (endpoint_new "ReceiveUserInfo" 211
       [field_new "userPubId" UUID; field_new "username" TString;
        field_new "appPubId" (Optional UUID); field_new "token" (Optional TString)] [])
    "Test endpoint mirroring ReceiveUserInfo (code 211)".

Lemma schemas_load :
  (read_json ECHO_SCHEMA ≫= endpoint_from_json) = Some echo_schema
  /\ (read_json USER_INFO_SCHEMA ≫= endpoint_from_json) = Some user_info_schema.
Proof. split; vm_compute; reflexivity. Qed.

(** The ids a client calls by are the codes the server registers. *)
Lemma method_ids : ep_code echo_schema = ECHO_METHOD_ID /\ ep_code user_info_schema = USER_INFO_METHOD_ID.
Proof. done. Qed.

Lemma echo_names : check_handler "Echo" "ws_echo::MethodEcho" "ws_echo::EchoRequest" = Ok tt.
Proof. reflexivity. Qed.
Lemma user_info_names :
  check_handler "ReceiveUserInfo" "ws_echo::MethodReceiveUserInfo" "ws_echo::HoneyReceiveUserInfoRequest" = Ok tt.
Proof. reflexivity. Qed.

Section echo.
Context {V Uuid : Type} (parse_uuid : string -> option Uuid).
(** serde's account of a value that is not a request. *)
Context (de_error : json -> string) (de_path : json -> option string).

Record echo_request := EchoRequest { er_message : string }.
Record echo_response := EchoResponse { es_message : string }.
Record user_info_request := UserInfoRequest {
  ui_user_pub_id : Uuid;
  ui_username : string;
  ui_app_pub_id : option Uuid;
  ui_token : option string;
}.

Definition uuid_of (v : json) : option Uuid := as_str v ≫= parse_uuid.
(** [#[serde(default)]] on an [Option]. *)
Definition optional_member {A} (f : json -> option A) (v : option json) : option (option A) :=
  match v with
  | None | Some JNull => Some None
  | Some v => Some <$> f v
  end.

Definition echo_from_value (v : json) : result echo_request string :=
  match (if struct_of 1 v then member 0 "message" v ≫= as_str else None) with
  | Some message => Ok (EchoRequest message)
  | None => Err (de_error v)
  end.

Definition user_info_from_value (v : json) : result user_info_request string :=
  let fields :=
    if struct_of 4 v then
      user ← member 0 "userPubId" v ≫= uuid_of;
      name ← member 1 "username" v ≫= as_str;
      app ← optional_member uuid_of (member 2 "appPubId" v);
      token ← optional_member as_str (member 3 "token" v);
      Some (UserInfoRequest user name app token)
    else None in
  match fields with
  | Some req => Ok req
  | None => Err (de_error v)
  end.

(** ** The handlers *)

Definition echo_handle (req : echo_request) : result echo_response custom_error :=
  Ok (EchoResponse ("echo: " +:+ er_message req)).

Inductive user_info_error := Rejected.
Definition user_info_error_fmt (e : user_info_error) : string :=
  match e with Rejected => "ReceiveUserInfo is not processed by this test server" end.
Definition user_info_error_custom (err : user_info_error) : custom_error :=
  match err with
  | Rejected => with_kind (with_message (custom_error_new BAD_REQUEST) (user_info_error_fmt err)) "Rejected"
  end.
Definition user_info_handle (req : user_info_request) : result json user_info_error := Err Rejected.

(** A request of the service, and the state of a handler's future before its first
    poll, at which it is ready. *)
Inductive service_request := REcho (r : echo_request) | RUserInfo (r : user_info_request).

Definition service_poll (r : service_request) : handler_response :=
  match r with
  | REcho r =>
      match echo_handle r with
      | Ok resp => Ok (Ok (jobj [("message", JStr (es_message resp))]))
      | Err e => Err (Public e)
      end
  | RUserInfo r =>
      match user_info_handle r with
      | Ok resp => Ok (Ok resp)
      | Err e => Err (Public (user_info_error_custom e))
      end
  end.

Definition method_echo : @handler V service_request service_request :=
  Handler (fun v => let* r := echo_from_value v in Ok (REcho r)) de_path (fun _ r => r)
    (fun r w => (SReady (service_poll r), w)).
Definition method_receive_user_info : @handler V service_request service_request :=
  Handler (fun v => let* r := user_info_from_value v in Ok (RUserInfo r)) de_path (fun _ r => r)
    (fun r w => (SReady (service_poll r), w)).

(** [AllowAllAuthController]: role 1 for everyone. *)
Definition allow_all : auth_controller (V := V) := fun _ _ conn w =>
  let c := default conn (conns w !! c_connection_id conn) in
  (Ok tt, World (states w) (<[c_connection_id conn := set_roles c [1]%Z]> (conns w)) (lim w) (limit_events w), []).

(** ** [main] *)

Definition echo_logging : logging_config :=
  LoggingConfig Debug None otel_default (AggregationConfig 100 true) None.

Definition echo_config : ws_server_config :=
  let d := config_default in
  WsServerConfig "ws-echo" "0.0.0.0:8443" (pub_certs d) (priv_key d) (insecure d) (debug d)
    (message_buffer_size d) (drop_conn_on_buffer_full d) (header_only d) (allow_cors_urls d) (server_name d) (mcp_only d)
    (max_connections d) (max_message_bytes d) (max_inflight_requests d) (request_timeout d) (handshake_timeout d)
    (idle_timeout d) (warn_connections d) (warn_message_bytes d) (warn_inflight_requests d) (warn_request_time d) (on_limit d).

Abbreviation server := (@server V service_request service_request unit unit).

(** The server [main] listens with; [Err] is a panic. *)
Definition echo_build (from_str : string -> result endpoint_schema string) : result server string :=
  let s := set_auth_controller allow_all (server_new echo_config) in
  let* s := add_handler from_str ECHO_SCHEMA ECHO_ROLES "ws_echo::MethodEcho" "ws_echo::EchoRequest" method_echo s in
  add_handler from_str USER_INFO_SCHEMA USER_INFO_ROLES
    "ws_echo::MethodReceiveUserInfo" "ws_echo::HoneyReceiveUserInfoRequest" method_receive_user_info s.

(** What [listen] serves. *)
Definition echo_server : server :=
  Server allow_all echo_config
    (<[211%Z := WsEndpoint user_info_schema method_receive_user_info (list_to_set [1]%Z)]>
       (<[1%Z := WsEndpoint echo_schema method_echo (list_to_set [1]%Z)]> ∅))
    (set_ws_states toolbox_new false false) None hooks_default.

Lemma echo_builds from_str :
  from_str ECHO_SCHEMA = Ok echo_schema -> from_str USER_INFO_SCHEMA = Ok user_info_schema ->
  rmap prepare (echo_build from_str) = Ok echo_server.
Proof.
  intros He Hu. unfold echo_build, add_handler. rewrite He. cbn [map_err rbind].
  change (ep_name echo_schema) with "Echo". change (ep_name user_info_schema) with "ReceiveUserInfo".
  rewrite echo_names. cbn [map_err rbind]. unfold add_handler_erased at 1. simpl sv_handlers.
  rewrite lookup_empty. cbn [rbind]. rewrite Hu. cbn [map_err rbind].
  change (ep_name user_info_schema) with "ReceiveUserInfo". rewrite user_info_names. reflexivity.
Qed.

(** ** What the service answers *)

Section serving.
Context (to_string : ws_response -> result string string) (render : json -> string).
Context (parse_json : bytes -> option json) (serde_error : json -> string).
Context (parse_request : bytes -> result ws_request string).

Section answers.
Context (log_id : Z).

Definition error_answer (method seq : Z) (code : error_code) (kind message : string) : ws_response :=
  RError (WsResponseError method (to_u32 code) seq (pretty log_id) (jobj [("kind", JStr kind); ("message", JStr message)])).

Definition described (v : json) : string :=
  match de_path v with Some path => path +:+ ": " +:+ de_error v | None => de_error v end.

(** The answer to a request, or to a frame that is none. *)
Definition echo_answer (r : result ws_request string) : ws_response :=
  match r with
  | Err err => error_answer 0 0 BAD_REQUEST "BadRequest" err
  | Ok (WsRequest method seq params) =>
      if decide (method = 1%Z) then
        match echo_from_value params with
        | Ok req => Immediate 1 seq (jobj [("message", JStr ("echo: " +:+ er_message req))])
        | Err _ => error_answer 1 seq BAD_REQUEST "BadRequest" (described params)
        end
      else if decide (method = 211%Z) then
        match user_info_from_value params with
        | Ok _ => error_answer 211 seq BAD_REQUEST "Rejected" "ReceiveUserInfo is not processed by this test server"
        | Err _ => error_answer 211 seq BAD_REQUEST "BadRequest" (described params)
        end
      else error_answer method seq NOT_IMPLEMENTED "NotImplemented" "Method not implemented"
  end.

(** The frames a message is answered with: none if it is a control frame, or if the
    answer cannot be written as JSON. *)
Definition frames_of (resp : ws_response) : list wire_message :=
  match to_string resp with Ok text => [Text (bytes_of_string text)] | Err _ => [] end.
Definition echo_frames (m : wire_message) : list wire_message :=
  match m with Text b | Binary b => frames_of (echo_answer (parse_request b)) | _ => [] end.
End answers.

(** *** What a client and the rest of the process do *)

Section client.
Context (connection_id : Z).

(** The rest of the process leaves the connection alone, and never takes the last
    slot. *)
Definition polite (f : world V -> world V) : Prop := forall w,
  states (f w) !! connection_id = states w !! connection_id /\ conns (f w) !! connection_id = conns w !! connection_id
  /\ (slots (f w) < 32 \/ slots (f w) <= slots w).

(** A frame arrives at [rd_now], and the loop has the time to answer it before the
    next; [rd_env] is what the rest of the process does meanwhile. *)
Record round := Round {
  rd_message : wire_message;
  rd_now : Z;
  rd_poll : poll_event;
  rd_env : nat -> world V -> world V;
}.
Definition round_events (r : round) : list (tick * (world V -> world V)) :=
  let quiet := Tick (rd_now r) (Ok tt) [] None in
  [(Tick (rd_now r) (Ok tt) [] (Some (Some (Ok (rd_message r)))), rd_env r 0);
   (quiet, rd_env r 1); (quiet, rd_env r 2);
   (Tick (rd_now r) (Ok tt) [(0, rd_poll r)] None, rd_env r 3);
   (quiet, rd_env r 4); (quiet, rd_env r 5); (quiet, rd_env r 6)].

Definition round_ok (last : Z) (r : round) : Prop :=
  (forall f, rd_message r <> Close f) /\ (forall i, polite (rd_env r i)) /\ pe_polled (rd_poll r) = true
  /\ (last <= rd_now r < last + secs 120)%Z.

Fixpoint rounds_ok (last : Z) (rs : list round) : Prop :=
  match rs with [] => True | r :: rs => round_ok last r /\ rounds_ok (rd_now r) rs end.
Definition last_now (now : Z) (rs : list round) : Z := fold_left (fun _ r => rd_now r) rs now.

(** A conversation: the loop starts, the client sends its frames and closes. *)
Definition conversation (now : Z) (env : nat -> world V -> world V) (rs : list round) (f : option close_frame)
    : list (tick * (world V -> world V)) :=
  [(Tick now (Ok tt) [] None, env 0); (Tick now (Ok tt) [] None, env 1)]
  ++ concat (map round_events rs)
  ++ [(Tick (last_now now rs) (Ok tt) [] (Some (Some (Ok (Close f)))), env 2)].

End client.

(** *** A connection between two frames *)

Section connected.
Context (cn : ws_connection V) (Hroles : c_roles cn = [1]%Z) (Huser : c_user_id cn = 0%Z).
Abbreviation id := (c_connection_id cn).
Abbreviation emit := (Handler.emit to_string render (sv_toolbox echo_server)).
Abbreviation polite := (polite id).
Abbreviation round_ok := (round_ok id).
Abbreviation rounds_ok := (rounds_ok id).
Abbreviation frames_of_conn := (echo_frames (c_log_id cn)).

(** Its queue holds [q], its roles are granted, and [k] of the running requests are
    its own, the others leaving it a slot. *)
Definition ready (q : list wire_message) (k : nat) (w : world V) : Prop :=
  (exists wk, states w !! id = Some (WsStreamState (Inner q 256 1 true wk) false))
  /\ conns w !! id = Some cn /\ slots w <= 31 + k.

Lemma polite_ready f q k w : polite f -> ready q k w -> ready q k (f w).
Proof.
  intros Hf (Hq & Hc & Hs). destruct (Hf w) as (Hf1 & Hf2 & Hf3). split_and!; [by rewrite Hf1|by rewrite Hf2|lia].
Qed.

Lemma ready_limits q k k' w l ev : ready q k w -> inflight l <= 31 + k' -> ready q k' (set_limits w l ev).
Proof. intros (Hq & Hc & _) Hl. by split_and!. Qed.

Lemma emit_ready resp k w : ready [] k w ->
  exists w', emit (OResp id resp) w = (tt, w', [OResp id resp]) /\ ready (frames_of resp) k w'.
Proof.
  intros ([wk Hq] & Hc & Hs). unfold Handler.emit, send, send_closure, frames_of. simpl. rewrite Hq.
  destruct (to_string resp) as [text|]; simpl; eexists; (split; [done|]); [|by split_and!; eauto].
  split_and!; [|done|done]. exists None. simpl. by rewrite lookup_insert_eq.
Qed.

(** *** One request *)

Abbreviation handler := (@handler V service_request service_request).
Abbreviation task_env := (@task_env V service_request service_request unit unit).

(** The context of a request, and the task it becomes. *)
Definition context_of (rq : ws_request) : request_context V := for_request (from_conn cn) (rq_seq rq) (rq_method rq) 0 [1]%Z.
Definition task_of (ep : ws_endpoint handler) (rq : ws_request) : task_env :=
  TaskEnv (we_handler ep) hooks_default (we_schema ep) Legacy (rq_params rq) (context_of rq).

(** What a handler that is ready at once sends. *)
Definition own_answer (h : handler) (ctx : request_context V) (params : json) : option out :=
  match h_from_value h params with
  | Ok r => reply render Legacy ctx (service_poll r)
  | Err err => Some (bad_params Legacy ctx (params_message h params err))
  end.
Definition immediate (h : handler) : Prop :=
  (forall ctx r, h_start h ctx r = r) /\ (forall r w, h_poll h r w = (SReady (service_poll r), w)).

Lemma handle_poll_once h ctx params resp k w :
  immediate h -> own_answer h ctx params = Some (OResp id resp) -> ready [] k w ->
  exists r w', handle_poll to_string render h (sv_toolbox echo_server) Legacy ctx (HStart params) w
      = (SReady r, w', [OResp id resp])
    /\ ready (frames_of resp) k w'.
Proof.
  intros [Hst Hpoll] Ho Hw. destruct (emit_ready resp k w Hw) as (w' & He & Hr). unfold own_answer in Ho.
  cbn [handle_poll]. destruct (h_from_value h params) as [r|err].
  - unfold poll_running, user, bind. rewrite Hst, Hpoll, Ho. cbn [emit_opt]. rewrite He. by eexists _, w'.
  - apply (inj Some) in Ho. unfold bind. rewrite Ho, He. by eexists _, w'.
Qed.

Lemma echo_from_value_err v err : echo_from_value v = Err err -> err = de_error v.
Proof. unfold echo_from_value. case_match; by intros [=]. Qed.
Lemma user_info_from_value_err v err : user_info_from_value v = Err err -> err = de_error v.
Proof. unfold user_info_from_value. case_match; by intros [=]. Qed.

(** The registered handlers are such, and their answers are those of the service. *)
Lemma registered_answers ep rq :
  sv_handlers echo_server !! rq_method rq = Some ep ->
  immediate (we_handler ep) /\ we_allowed_roles ep = {[1%Z]}
  /\ own_answer (we_handler ep) (context_of rq) (rq_params rq) = Some (OResp id (echo_answer (c_log_id cn) (Ok rq))).
Proof.
  destruct rq as [method seq params]. cbn [rq_method echo_server sv_handlers]. unfold own_answer, echo_answer, error_answer, described, params_message.
  intros [[<- <-]|[Hne [[<- <-]|[_ []%lookup_empty_Some]]%lookup_insert_Some]]%lookup_insert_Some; (split; [by split|]; split; [set_solver|]); simpl.
  - destruct (user_info_from_value params) as [[]|err] eqn:Hp; [done|]. apply user_info_from_value_err in Hp as ->. done.
  - destruct (echo_from_value params) as [[]|err] eqn:Hp; [done|]. apply echo_from_value_err in Hp as ->. done.
Qed.

(** One poll of the task answers, and gives the slot back. *)
Lemma task_poll_once ep rq elapsed fired w :
  sv_handlers echo_server !! rq_method rq = Some ep -> ready [] 1 w ->
  exists w' o, task_poll to_string render echo_config (sv_toolbox echo_server) (task_of ep rq)
      (task_start (task_of ep rq)) (PollEvent true fired elapsed) w = (Finished, w', o)
    /\ ready (frames_of (echo_answer (c_log_id cn) (Ok rq))) 0 w'.
Proof.
  intros (Hi & _ & Ho)%registered_answers Hw. destruct (handle_poll_once _ _ _ _ _ _ Hi Ho Hw) as (r & w1 & Hp & Hr).
  do 2 eexists. split.
  - cbn -[handle_poll emit]. unfold poll_before, poll_handler, bind. cbn -[handle_poll emit]. 
    change (set_ws_states toolbox_new false false) with (sv_toolbox echo_server). rewrite Hp. cbn -[emit]. reflexivity.
  - pose proof Hr as (_ & _ & Hs). unfold slots in Hs.
    apply (ready_limits _ 1); [apply (ready_limits _ 1); [exact Hr|simpl; lia]|]. change (inflight (lim w1) - 1 <= 31). lia.
Qed.

(** *** One frame *)

Context (conn_info : ws_connection V) (Hinfo : c_connection_id conn_info = id).
Abbreviation handle_message := (handle_message to_string render parse_json serde_error parse_request echo_server conn_info).

Lemma acquire_ready w : ready [] 0 w ->
  exists w', acquire_slot echo_server w = (true, w', []) /\ ready [] 1 w'.
Proof.
  intros Hw. pose proof Hw as (_ & _ & Hs). unfold slots in Hs. unfold acquire_slot, acquire_request.
  pose proof (acquire_sequential echo_config "inflight_requests" (lim w)) as Ha.
  change (sv_config echo_server) with echo_config.
  destruct (acquire echo_config "inflight_requests" (lim w)) as [[ok l] ev]. cbn [slot_of] in Ha. simpl in Ha.
  destruct Ha as (Hr & Hc & _). destruct ok.
  - eexists. split; [done|]. apply (ready_limits _ 0); [done|]. simpl. lia.
  - destruct (proj1 Hr eq_refl) as (c & [= <-] & Hle). lia.
Qed.

Lemma emit_keep resp k w : ready [] k w ->
  exists w' o, (do! _ <- emit (OResp id resp) in ret (@DKeep V service_request service_request unit unit)) w = (DKeep, w', o)
  /\ ready (frames_of resp) k w'.
Proof.
  intros (w' & He & Hr)%(emit_ready resp). exists w', [OResp id resp]. split; [|done]. unfold bind. by rewrite He.
Qed.

(** A frame is answered at once, or becomes the task of a registered handler; [frames]
    is what it is, or is to be, answered with. *)
Definition dispatched (frames : list wire_message) (d : dispatch) (w : world V) : Prop :=
  match d with
  | DClose => False
  | DKeep => ready frames 0 w
  | DTask e => exists ep rq, e = task_of ep rq /\ sv_handlers echo_server !! rq_method rq = Some ep
      /\ frames = frames_of (echo_answer (c_log_id cn) (Ok rq)) /\ ready [] 1 w
  end.

Lemma conn_ready q k w : ready q k w -> conn conn_info w = cn.
Proof. intros (_ & Hc & _). unfold conn. by rewrite Hinfo, Hc. Qed.

Lemma handle_request_echo rq w : ready [] 0 w ->
  exists d w' o, handle_request to_string render echo_server conn_info (from_conn cn) rq w = (d, w', o)
  /\ dispatched (frames_of (echo_answer (c_log_id cn) (Ok rq))) d w'.
Proof.
  intros Hw. unfold handle_request. rewrite (conn_ready _ _ _ Hw), Hroles, Huser. change (for_request _ _ _ _ _) with (context_of rq).
  destruct (sv_handlers echo_server !! rq_method rq) as [ep|] eqn:Hep.
  - destruct (registered_answers ep rq Hep) as (_ & Hal & _). rewrite Hal. simpl negb. cbn iota.
    destruct (acquire_ready w Hw) as (w1 & Ha & Hr). unfold bind. rewrite Ha. simpl. do 3 eexists. split; [done|].
    by exists ep, rq.
  - destruct rq as [method seq params]. cbn [rq_method echo_server sv_handlers] in Hep.
    apply lookup_insert_None in Hep as [Hep Hne]. apply lookup_insert_None in Hep as [_ Hne'].
    unfold echo_answer. rewrite !decide_False by done.
    destruct (emit_keep (request_error (context_of (WsRequest method seq params)) NOT_IMPLEMENTED "Method not implemented") 0 w Hw)
      as (w' & o & He & Hr).
    do 3 eexists. split; [exact He|]. exact Hr.
Qed.

Lemma handle_frame m w :
  (forall f, m <> Close f) -> ready [] 0 w ->
  exists d w' o, handle_message m w = (d, w', o) /\ dispatched (echo_frames (c_log_id cn) m) d w'.
Proof.
  intros Hm Hw. unfold handle_message. unfold bind at 1, observe_bytes, observe_message. cbn [sv_config echo_server warn_message_bytes echo_config config_default].
  assert (Hw1 : ready [] 0 (set_limits w (lim w) [])).
  { apply (ready_limits _ 0); [done|]. apply Hw. }
  set (w1 := set_limits w (lim w) []) in *. simpl mcp_only. cbn iota. rewrite (conn_ready _ _ _ Hw1). simpl sv_mcp. cbn iota.
  assert (Hl : exists d w' o, handle_legacy to_string render parse_request echo_server conn_info (from_conn cn) m w1 = (d, w', o)
    /\ dispatched (echo_frames (c_log_id cn) m) d w').
  { destruct m as [b|b|b|b|f]; simpl; try (by do 3 eexists); [| |by destruct (Hm f)];
      (destruct (parse_request b) as [rq|err]; [by apply handle_request_echo|]);
      destruct (emit_keep (request_error (from_conn cn) BAD_REQUEST err) 0 w1 Hw1) as (w' & o & He & Hr);
      do 3 eexists; (split; [exact He|exact Hr]). }
  destruct Hl as (d & w' & o & -> & Hd). by exists d, w', o.
Qed.

(** *** The session *)

Abbreviation session_step := (session_step to_string render parse_json serde_error parse_request echo_server conn_info).
Abbreviation session_run := (session_run to_string render parse_json serde_error parse_request echo_server conn_info).

(** Steps and runs of the loop from a ready connection to a ready connection, with the
    frames they write. *)
Definition step_to waker tk s q k s' frames q' k' : Prop := forall w, ready q k w ->
  exists w' o, session_step waker tk s w = ((s', frames), w', o) /\ ready q' k' w'.
Definition run_to waker evs s q k s' frames q' k' : Prop := forall w, ready q k w ->
  exists w' o, session_run waker evs s w = ((s', frames), w', o) /\ ready q' k' w'.

Section step.
Context (waker : nat).

Lemma not_idle now s send polls inb : (s_last_received s <= now < s_last_received s + secs 120)%Z ->
  idle echo_server (Tick now send polls inb) s = false.
Proof. intros H. unfold idle. simpl. apply Z.leb_gt. unfold secs in *. lia. Qed.

Lemma step_head now tasks last q k : (last <= now < last + secs 120)%Z ->
  step_to waker (Tick now (Ok tt) [] None) (Sess PHead tasks last) q k (Sess PDrain tasks last) [] q k.
Proof. intros H w Hw. exists w, []. unfold session_step. cbn [s_phase]. by rewrite not_idle. Qed.

Lemma step_drain now polls tasks last k q : (last <= now < last + secs 120)%Z ->
  step_to waker (Tick now (Ok tt) polls None) (Sess PDrain tasks last) q k
    (Sess (match q with [] => PSelect | _ => PDrain end) tasks last) (firstn 1 q) (tail q) k.
Proof.
  intros H w ([wk Hq] & Hc & Hs). unfold session_step. cbn [s_phase]. unfold rx_try_recv, my_state. rewrite Hinfo, Hq. cbn [message_queue].
  destruct q as [|m q].
  - simpl. unfold my_end, my_state. simpl. rewrite Hinfo, lookup_insert_eq. simpl. do 2 eexists. split; [done|].
    split_and!; [|done|done]. exists wk. simpl. by rewrite Hinfo, lookup_insert_eq.
  - simpl. rewrite not_idle by done. unfold after_send. simpl. do 2 eexists. split; [done|].
    split_and!; [|done|done]. exists wk. simpl. by rewrite Hinfo, lookup_insert_eq.
Qed.

Lemma poll_no_tasks polls w : poll_tasks to_string render echo_server [] polls w = ((false, []), w, []).
Proof. induction polls as [|[i ev] polls IH]; [done|]. cbn [poll_tasks]. by rewrite lookup_nil. Qed.

Lemma rx_ready w k : ready [] k w ->
  exists w', rx_recv conn_info waker w = (None, w') /\ ready [] k w' /\ my_end conn_info w' = false.
Proof.
  intros ([wk Hq] & Hc & Hs). unfold rx_recv, my_state. rewrite Hinfo, Hq. simpl. rewrite park_eq. eexists. split; [done|].
  unfold my_end, my_state, put_queue. simpl. rewrite !Hinfo, lookup_insert_eq. split; [|done]. split_and!; [|done|done].
  eexists. simpl. by rewrite lookup_insert_eq.
Qed.

Lemma step_quiet now polls last : (last <= now < last + secs 120)%Z ->
  step_to waker (Tick now (Ok tt) polls None) (Sess PSelect [] last) [] 0 (Sess PSelect [] last) [] [] 0.
Proof.
  intros H w Hw. unfold session_step. cbn [s_phase]. rewrite not_idle by done. unfold poll_select. cbn [s_tasks tk_polls]. unfold bind. rewrite poll_no_tasks.
  destruct (rx_ready _ _ Hw) as (w' & Hrx & Hr & He). rewrite Hrx, He. simpl. by exists w', [].
Qed.

Lemma step_inbound now m last w : (last <= now < last + secs 120)%Z -> (forall f, m <> Close f) -> ready [] 0 w ->
  exists d w' o, session_step waker (Tick now (Ok tt) [] (Some (Some (Ok m)))) (Sess PSelect [] last) w
    = ((Sess PHead match d with DTask e => [(e, task_start e)] | _ => [] end now, []), w', o)
  /\ dispatched (echo_frames (c_log_id cn) m) d w'.
Proof.
  intros H Hm Hw. unfold session_step. cbn [s_phase]. rewrite not_idle by done. unfold poll_select. cbn [s_tasks tk_polls]. unfold bind at 1. rewrite poll_no_tasks.
  destruct (rx_ready _ _ Hw) as (w1 & Hrx & Hr & He). rewrite Hrx, He. simpl.
  destruct (handle_frame m w1 Hm Hr) as (d & w2 & o & Hh & Hd). unfold bind. rewrite Hh. exists d, w2, (o ++ []).
  split; [|done]. by destruct d.
Qed.

Lemma step_task now ev last ep rq : (last <= now < last + secs 120)%Z -> pe_polled ev = true ->
  sv_handlers echo_server !! rq_method rq = Some ep ->
  step_to waker (Tick now (Ok tt) [(0, ev)] None) (Sess PSelect [(task_of ep rq, task_start (task_of ep rq))] last) [] 1
    (Sess PHead [] last) [] (frames_of (echo_answer (c_log_id cn) (Ok rq))) 0.
Proof.
  intros H Hp Hep w Hw. destruct ev as [polled fired elapsed]. simpl in Hp. subst polled.
  destruct (task_poll_once ep rq elapsed fired w Hep Hw) as (w' & o & Ht & Hr).
  unfold session_step. cbn [s_phase]. rewrite not_idle by done. unfold poll_select. cbn [s_tasks tk_polls poll_tasks lookup list_lookup].
  unfold bind. change (sv_config echo_server) with echo_config. rewrite Ht. simpl. exists w'. eexists. split; [done|done].
Qed.
End step.

Lemma frames_of_short resp : length (frames_of resp) <= 1.
Proof. unfold frames_of. destruct (to_string resp); simpl; lia. Qed.
Lemma echo_frames_short log_id m : length (echo_frames log_id m) <= 1.
Proof. destruct m; simpl; [apply frames_of_short..| | |]; lia. Qed.

Lemma run_nil waker s q k : run_to waker [] s q k s [] q k.
Proof. intros w Hw. by exists w, []. Qed.

Lemma session_run_cons waker tk env evs s w s1 f1 w1 o1 s2 f2 w2 o2 :
  session_step waker tk s w = ((s1, f1), w1, o1) -> session_run waker evs s1 (env w1) = ((s2, f2), w2, o2) ->
  session_run waker ((tk, env) :: evs) s w = ((s2, f1 ++ f2), w2, o1 ++ o2 ++ []).
Proof. intros H1 H2. cbn [Session.session_run]. unfold bind. rewrite H1. simpl. by rewrite H2. Qed.

Lemma run_cons waker tk env evs s q k s1 f1 q1 k1 s2 f2 q2 k2 frames :
  step_to waker tk s q k s1 f1 q1 k1 -> polite env -> run_to waker evs s1 q1 k1 s2 f2 q2 k2 -> frames = f1 ++ f2 ->
  run_to waker ((tk, env) :: evs) s q k s2 frames q2 k2.
Proof.
  intros Hs He Hr -> w (w1 & o1 & H1 & Hw1)%Hs. destruct (Hr (env w1)) as (w2 & o2 & H2 & Hw2); [by apply polite_ready|].
  exists w2. eexists. split; [|done]. by eapply session_run_cons.
Qed.

Lemma run_app waker evs1 evs2 s q k s1 f1 q1 k1 s2 f2 q2 k2 :
  run_to waker evs1 s q k s1 f1 q1 k1 -> run_to waker evs2 s1 q1 k1 s2 f2 q2 k2 ->
  run_to waker (evs1 ++ evs2) s q k s2 (f1 ++ f2) q2 k2.
Proof.
  intros H1 H2 w (w1 & o1 & Hr1 & (w2 & o2 & Hr2 & Hw2)%H2)%H1. exists w2, (o1 ++ o2). split; [|done]. clear -Hr1 Hr2.
  revert s w f1 o1 Hr1. induction evs1 as [|[tk env] evs1 IH]; intros s w f1 o1 Hr1.
  - by injection Hr1 as <- <- <- <-.
  - cbn [Session.session_run app] in *. apply bind_inv in Hr1 as ([sa fa] & wa & oa & ob & Ha & Hr1 & ->).
    apply bind_inv in Hr1 as ([sb fb] & wb & oc & od & Hb & Hr1 & ->). injection Hr1 as <- <- <- <-. simpl in *.
    unfold bind. rewrite Ha. simpl. rewrite (IH _ _ _ _ Hb). simpl. by rewrite !app_nil_r, !app_assoc.
Qed.

(** From the queue of one answer back to the wait. *)
Lemma drains waker now env env' last q :
  (last <= now < last + secs 120)%Z -> polite env -> polite env' -> length q <= 1 ->
  run_to waker [(Tick now (Ok tt) [] None, env); (Tick now (Ok tt) [] None, env')] (Sess PDrain [] last) q 0 (Sess PSelect [] last) q [] 0.
Proof.
  intros H He He' Hq. destruct q as [|m [|? ?]]; [| |simpl in Hq; lia].
  - eapply run_cons; [by apply step_drain|done| |done]. by eapply run_cons; [apply step_quiet|done|apply run_nil|].
  - eapply run_cons; [by apply step_drain|done| |done]. by eapply run_cons; [apply (step_drain waker now [] [] last 0 [])|done|apply run_nil|].
Qed.

(** After a frame: its answer is queued, or its task is to be run. *)
Section after_frame.
Context (waker : nat) (now : Z) (ev : poll_event) (env : nat -> world V -> world V) (Henv : forall i, polite (env i)).
Let quiet : tick := Tick now (Ok tt) [] None.
Let after_events : list (tick * (world V -> world V)) :=
  [(quiet, env 1); (quiet, env 2); (Tick now (Ok tt) [(0, ev)] None, env 3); (quiet, env 4); (quiet, env 5); (quiet, env 6)].

Lemma in_time : (now <= now < now + secs 120)%Z.
Proof. unfold secs. lia. Qed.

Lemma after_answer q : length q <= 1 ->
  run_to waker after_events (Sess PHead [] now) q 0 (Sess PSelect [] now) q [] 0.
Proof.
  intros Hq. pose proof in_time. eapply run_cons; [by apply step_head|done| |done]. destruct q as [|m [|? ?]]; [| |simpl in Hq; lia].
  - eapply run_cons; [by apply step_drain|done| |done].
    by do 4 (eapply run_cons; [by apply step_quiet|done| |done]); apply run_nil.
  - eapply run_cons; [by apply step_drain|done| |done]. eapply run_cons; [by apply step_drain|done| |done].
    by do 3 (eapply run_cons; [by apply step_quiet|done| |done]); apply run_nil.
Qed.

Lemma after_dispatch ep rq : pe_polled ev = true -> sv_handlers echo_server !! rq_method rq = Some ep ->
  run_to waker after_events (Sess PHead [(task_of ep rq, task_start (task_of ep rq))] now) [] 1
    (Sess PSelect [] now) (frames_of (echo_answer (c_log_id cn) (Ok rq))) [] 0.
Proof.
  intros Hp Hep. pose proof in_time. do 2 (eapply run_cons; [first [by apply step_head|by apply step_drain]|done| |done]).
  eapply run_cons; [by apply step_task|done| |done]. eapply run_cons; [by apply step_head|done| |done].
  apply drains; [done..|]. apply frames_of_short.
Qed.
End after_frame.

(** A round: whatever the message, it is answered, and the loop waits for the next. *)
Lemma round_to waker last r : round_ok last r ->
  run_to waker (round_events r) (Sess PSelect [] last) [] 0
    (Sess PSelect [] (rd_now r)) (echo_frames (c_log_id cn) (rd_message r)) [] 0.
Proof.
  intros (Hm & He & Hp & Ht) w Hw. destruct r as [m now ev env]. simpl in Hm, He, Hp, Ht.
  destruct (step_inbound waker now m last w Ht Hm Hw) as (d & w1 & o1 & H1 & Hd).
  assert (Hrest : exists w2 o2, session_run waker (tail (round_events (Round m now ev env)))
      (Sess PHead match d with DTask e => [(e, task_start e)] | _ => [] end now) (env 0 w1)
    = ((Sess PSelect [] now, echo_frames (c_log_id cn) m), w2, o2) /\ ready [] 0 w2).
  { destruct d as [| |e]; simpl in Hd; [done| |].
    - apply after_answer; [done|apply echo_frames_short|by apply polite_ready].
    - destruct Hd as (ep & rq & -> & Hep & -> & Hr). apply after_dispatch; [done..|by apply polite_ready]. }
  destruct Hrest as (w2 & o2 & H2 & Hw2). exists w2. eexists. split; [|done]. exact (session_run_cons _ _ _ _ _ _ _ _ _ _ _ _ _ _ H1 H2).
Qed.

Lemma rounds_to waker rs : forall last, rounds_ok last rs ->
  run_to waker (concat (map round_events rs)) (Sess PSelect [] last) [] 0
    (Sess PSelect [] (last_now last rs)) (concat (map (fun r => echo_frames (c_log_id cn) (rd_message r)) rs)) [] 0.
Proof.
  induction rs as [|r rs IH]; intros last; [intros _; apply run_nil|]. intros [Hr Hrs].
  cbn [map concat]. eapply run_app; [by apply round_to|]. by apply IH.
Qed.

Lemma step_close waker now f :
  step_to waker (Tick now (Ok tt) [] (Some (Some (Ok (Close f))))) (Sess PSelect [] now) [] 0 (Sess (PExit XClosed) [] now) [] [] 0.
Proof.
  intros w Hw. unfold Session.session_step. cbn [s_phase]. rewrite not_idle by (simpl; apply in_time).
  unfold poll_select. cbn [s_tasks tk_polls]. unfold bind at 1. rewrite poll_no_tasks.
  destruct (rx_ready waker _ _ Hw) as (w1 & Hrx & Hr & He). rewrite Hrx, He. simpl.
  do 2 eexists. split; [reflexivity|]. apply (ready_limits _ 0); [done|]. apply Hr.
Qed.

Lemma conversation_to waker now env rs f : (forall i, polite (env i)) -> rounds_ok now rs ->
  run_to waker (conversation now env rs f) (Sess PHead [] now) [] 0
    (Sess (PExit XClosed) [] (last_now now rs)) (concat (map (fun r => echo_frames (c_log_id cn) (rd_message r)) rs)) [] 0.
Proof.
  intros He Hrs. pose proof (in_time now). unfold conversation.
  eapply run_cons; [by apply step_head|done| |done]. eapply run_cons; [by apply step_drain|done| |done].
  rewrite <- (app_nil_r (concat (map (fun r => echo_frames _ _) rs))). eapply run_app; [by apply rounds_to|].
  by eapply run_cons; [apply step_close|done|apply run_nil|].
Qed.
End connected.

(** ** Properties *)

(** The connection of a client, before and after its authentication. *)
Definition fresh (peer : peer_identity) (sc : @schedule V) : ws_connection V :=
  WsConnection (sc_connection_id sc) 0 [] peer ext_new (sc_log_id sc).

(** Every peer is registered, and given role 1. *)
Lemma authenticated peer auth_protocol sc w :
  sc_auth sc = AuthDone -> polite (sc_connection_id sc) (sc_before_auth sc) -> slots w <= 31 ->
  exists w1 w2, open_connection echo_server peer (sc_connection_id sc) (sc_log_id sc) w = (Ok (fresh peer sc), w1)
  /\ authenticate echo_server (fresh peer sc) auth_protocol (sc_auth sc) (sc_before_auth sc w1) = (Some (Ok tt), w2, [])
  /\ ready (set_roles (fresh peer sc) [1]%Z) [] 0 w2.
Proof.
  intros -> Hp Hw. do 2 eexists. split; [reflexivity|]. lazymatch goal with |- context [sc_before_auth sc ?w0] => set (w1 := w0) end. destruct (Hp w1) as (H1 & H2 & H3).
  split; [reflexivity|]. split_and!.
  - exists None. change (states (sc_before_auth sc w1) !! sc_connection_id sc = Some (WsStreamState (channel 256) false)).
    rewrite H1. simpl. by rewrite lookup_insert_eq.
  - assert (conns (sc_before_auth sc w1) !! sc_connection_id sc = Some (fresh peer sc)) as Hc.
    { rewrite H2. simpl. by rewrite lookup_insert_eq. }
    change (<[sc_connection_id sc := set_roles (default (fresh peer sc) (conns (sc_before_auth sc w1) !! sc_connection_id sc)) [1]%Z]>
              (conns (sc_before_auth sc w1)) !! sc_connection_id sc = Some (set_roles (fresh peer sc) [1]%Z)).
    by rewrite Hc, lookup_insert_eq.
  - change (slots (sc_before_auth sc w1) <= 31 + 0). change (slots w1) with (slots w) in H3. lia.
Qed.

(** One connection to the server, whatever the client says on it. *)
Lemma serve_conversation peer auth_protocol sc env rs f w :
  sc_auth sc = AuthDone -> sc_events sc = conversation (sc_now sc) env rs f ->
  rounds_ok (sc_connection_id sc) (sc_now sc) rs -> (forall i, polite (sc_connection_id sc) (env i)) ->
  polite (sc_connection_id sc) (sc_before_auth sc) -> polite (sc_connection_id sc) (sc_before_session sc) -> slots w <= 31 ->
  exists w' o,
    serve_connection to_string render parse_json serde_error parse_request echo_server peer auth_protocol sc w
      = ((SServed (Ok tt) (PExit XClosed) (concat (map (fun r => echo_frames (sc_log_id sc) (rd_message r)) rs)), []), w', o)
    /\ states w' !! sc_connection_id sc = None /\ slots w' <= 31.
Proof.
  intros Ha Hev Hrs He Hb1 Hb2 Hw. unfold serve_connection.
  destruct (authenticated peer auth_protocol sc w Ha Hb1 Hw) as (w1 & w2 & -> & Hau & Hr).
  unfold bind at 1. rewrite Hau. apply (polite_ready (set_roles (fresh peer sc) [1]%Z) (sc_before_session sc)) in Hr; [|exact Hb2].
  destruct (conversation_to (set_roles (fresh peer sc) [1]%Z) eq_refl eq_refl (fresh peer sc) eq_refl (sc_waker sc) (sc_now sc) env rs f He Hrs _ Hr)
    as (w3 & o & Hrun & Hq & Hc & Hs).
  unfold after_auth, report_auth, run_session_connection, Session.run, bind. simpl ret. rewrite Hev.
  unfold ret at 1. cbn iota beta. rewrite Hrun. simpl. do 2 eexists. split; [reflexivity|]. split; [simpl; by rewrite lookup_delete_eq|].
  simpl in Hq. destruct Hq as [wk Hq]. unfold drop_rx, my_state. simpl. rewrite Hq. change (slots w3 <= 31). lia.
Qed.

(** C3: the example service does what it is for, from the first frame to the
    clean-up.  The server that [main] builds is served to a client: the client, whoever it is and whatever credentials it shows, connects, sends
    any frames that are not a close, each within the idle timeout and with time to be
    answered, and closes.  What is written to it is, frame for frame and in order, what
    [echo_answer] says: the echo of every well-formed echo request, a description of the
    error for every other, nothing for a ping; then the session ends because the client
    closed, and the connection is out of the table.  The rest of the process may do
    anything meanwhile that leaves the connection alone and a slot free.  (Of the JSON
    parser it is asked that it reads the two schema texts as [read_json] does.) *)
Theorem echo_serves from_str schema_error peer auth_protocol sc env rs f w :
  from_str ECHO_SCHEMA = read_json ECHO_SCHEMA -> from_str USER_INFO_SCHEMA = read_json USER_INFO_SCHEMA ->
  sc_auth sc = AuthDone -> sc_events sc = conversation (sc_now sc) env rs f ->
  rounds_ok (sc_connection_id sc) (sc_now sc) rs -> (forall i, polite (sc_connection_id sc) (env i)) ->
  polite (sc_connection_id sc) (sc_before_auth sc) -> polite (sc_connection_id sc) (sc_before_session sc) -> slots w <= 31 ->
  exists server w' o,
    rmap prepare (echo_build (schema_from_str from_str schema_error)) = Ok server
    /\ serve_connection to_string render parse_json serde_error parse_request server peer auth_protocol sc w
      = ((SServed (Ok tt) (PExit XClosed) (concat (map (fun r => echo_frames (sc_log_id sc) (rd_message r)) rs)), []), w', o)
    /\ states w' !! sc_connection_id sc = None /\ slots w' <= 31.
Proof.
  intros Hf1 Hf2 Ha Hev Hrs He Hb1 Hb2 Hw. exists echo_server.
  destruct (serve_conversation peer auth_protocol sc env rs f w) as (w' & o & Hserve & Hrest); try done.
  exists w', o. split; [|done]. unfold schema_from_str. destruct schemas_load as [L1 L2].
  apply echo_builds; [by rewrite Hf1, L1|by rewrite Hf2, L2].
Qed.

(** The service respects the shared books, whatever it is asked: [Server]'s invariant
    holds of it. *)
Lemma echo_keeps : all_keep (BS := unit) (AS := unit) echo_server same_books.
Proof.
  split; [split|split].
  - split; constructor.
  - do 2 (apply map_Forall_insert_2; [by intros st w|]). apply map_Forall_empty.
  - constructor.
  - intros t header conn w a w' o [= <- <- <-]. by split.
Qed.
End serving.
End echo.

(** *** Witness: an echo, a call of an unknown method, a ping, a refused call *)

Definition w_uuid (s : string) : option string := Some s.
Definition w_error (v : json) : string := "not a request".
Definition w_write (resp : ws_response) : result string string :=
  match resp with
  | Immediate _ _ v => Ok (default "" (jget "message" v ≫= as_str))
  | RError e => Ok (default "" (jget "kind" (re_params e) ≫= as_str))
  | _ => Err "not written"
  end.
Definition w_read (b : bytes) : result ws_request string :=
  match string_of_bytes b with
  | "a" => Ok (WsRequest 1 5 (jobj [("message", JStr "hello")]))
  | "b" => Ok (WsRequest 9 6 JNull)
  | "c" => Ok (WsRequest 211 7 (JArr [JStr "u"; JStr "name"; JNull]))
  | _ => Err "bad"
  end.
Definition w_round (m : wire_message) (now : Z) : @round unit := Round m now (PollEvent true false 0) (fun _ w => w).
Definition w_rounds : list (@round unit) :=
  [w_round (Text (bytes_of_string "a")) 1; w_round (Binary (bytes_of_string "b")) 1; w_round (Ping []) 2; w_round (Text (bytes_of_string "c")) 3; w_round (Text []) 4].
Definition w_schedule : @schedule unit :=
  Schedule 7 9 (fun w => w) AuthDone (fun w => w) 0 1 (conversation 0 (fun _ w => w) w_rounds None).

Lemma echo_serves_witness :
  exists server w' o,
    rmap prepare (echo_build w_uuid w_error (fun _ => None) (schema_from_str read_json (fun _ => "invalid"))) = Ok server
    /\ serve_connection w_write (fun _ => "") (fun _ => None) w_error w_read server
      Unknown (Some "any") w_schedule (World ∅ ∅ limit_default [])
    = ((SServed (Ok tt) (PExit XClosed)
          (map (fun s => Text (bytes_of_string s)) ["echo: hello"; "NotImplemented"; "Rejected"; "BadRequest"]), []), w', o)
    /\ states w' !! 7%Z = None /\ slots w' <= 31.
Proof.
  assert (Hp : polite 7 (fun w : world unit => w)) by (intros w; split_and!; [done..|by right]).
  apply (echo_serves w_uuid w_error (fun _ => None) w_write (fun _ => "") (fun _ => None) w_error w_read read_json (fun _ => "invalid")
           Unknown (Some "any") w_schedule (fun _ w => w) w_rounds None (World ∅ ∅ limit_default [])); try done.
  apply Nat.le_0_l.
Defined.
