(* ===== verification/EchoWire.v ===== *)
(** * The echo service over a wire

    [Echo] says what the service makes of messages, [Transport] what a framed sink and a
    framed stream make of bytes.  Here a client and the server sit on the two ends of a
    byte pipe: the client writes its frames through its sink
    ([src/libs/ws/transport/framed.rs]), the session reads them from the stream and
    answers ([src/libs/ws/session.rs], [examples/ws-echo/main.rs]), and the answers go
    back through the server's sink.  However the bytes are cut on the way, in both
    directions, the client reads what [echo_answer] says. *)

From S2P Require Import Prelude BMap Json ModelTypes SchemaJson TestKit ErrorCode Peer Message Framed Outbound LogLevel ServerConfig Limits Basics Toolbox Mcp Handler Headers Request Session Keeps Slots Connection Aggregation LogSetup Builder Transport Echo.

(** ** One direction of the pipe *)

(** What one end does: the maximum of its frames, what its socket accepts, and the calls
    on its sink. *)
Record writer := Writer { wr_max : nat; wr_io : byte_sink; wr_ops : list sink_op }.
(** What the other end reads: its maximum, and the pieces the bytes arrive in. *)
Record reader := Reader { rr_max : nat; rr_script : list read_event }.

Definition received (n : nat) (r : reader) : option (list wire_message * option framed_error) :=
  drain n (framed_new (rr_max r)) (rr_script r ++ [ReadOk []]).

(** The writer put exactly [ms] on the wire and drained its buffer, and the reader got
    every byte, in non-empty pieces. *)
Definition carries (w : writer) (r : reader) (ms : list wire_message) : Prop :=
  Framed.accepted (wr_io w) = [] /\ Forall op_valid (wr_ops w) /\ wr_max w <= rr_max r /\ Forall delivers (rr_script r)
  /\ exists st io', sink_run (wr_max w) (wr_io w) (wr_ops w) = (st, io', ms)
                    /\ write_buf st = [] /\ data (rr_script r) = Framed.accepted io'.

Lemma carries_received w r ms n :
  carries w r ms -> length (rr_script r) + length ms < n -> received n r = Some (ms, None).
Proof.
  intros (Hio & Hops & Hmax & Hs & st & io' & Hrun & Hw & Hd) Hn.
  by apply (channel_drained (wr_max w) (rr_max r) (wr_io w) (wr_ops w) st io' ms (rr_script r) n).
Qed.

(** ** What a session was given to read *)

Section wire.
Context {V Uuid : Type} (parse_uuid : string -> option Uuid).
Context (de_error : json -> string) (de_path : json -> option string).
Context (to_string : ws_response -> result string string) (render : json -> string).
Context (parse_json : bytes -> option json) (serde_error : json -> string).
Context (parse_request : bytes -> result ws_request string).
Abbreviation event := (tick * (world V -> world V))%type.

Definition inbound_of (e : event) : option wire_message :=
  match tk_inbound e.1 with Some (Some (Ok m)) => Some m | _ => None end.
Definition heard (evs : list event) : list wire_message := omap inbound_of evs.

Lemma heard_app a b : heard (a ++ b) = heard a ++ heard b.
Proof. apply omap_app. Qed.

Lemma heard_rounds rs : heard (concat (map (@round_events V) rs)) = map rd_message rs.
Proof. induction rs as [|r rs IH]; [done|]. cbn [map concat]. rewrite heard_app, IH. done. Qed.

Lemma heard_conversation now env rs f :
  heard (conversation now env rs f) = map rd_message rs ++ [Close f].
Proof. unfold conversation. rewrite !heard_app, heard_rounds. done. Qed.

Abbreviation answers log_id := (echo_frames parse_uuid de_error de_path to_string parse_request log_id).

End wire.

(** ** Witness: the conversation of [echo_serves_witness], cut up *)

Definition w_up_ops : list sink_op :=
  concat (map (fun r => [OpReady; OpSend (rd_message r); OpFlush]) w_rounds) ++ [OpReady; OpSend (Close None); OpFlush; OpFlush].
Definition w_socket : byte_sink := ByteSink [] [WriteOk 3; WritePending; WriteOk 1; WriteOk 100; WriteOk 100; WriteOk 100; WriteOk 100; WriteOk 100; WriteOk 100] [DoneOk; DoneOk; DoneOk; DoneOk; DoneOk; DoneOk; DoneOk; DoneOk] [].
Definition w_bytes (max : nat) (ops : list sink_op) : bytes := Framed.accepted (sink_run max w_socket ops).1.2.
Definition w_cut (k : nat) (b : bytes) : list read_event := [ReadOk (take k b); ReadPending; ReadOk (drop k b)].
Definition w_answers : list wire_message :=
  map (fun s => Text (bytes_of_string s)) ["echo: hello"; "NotImplemented"; "Rejected"; "BadRequest"].
Definition w_down_ops : list sink_op := concat (map (fun m => [OpReady; OpSend m; OpFlush]) w_answers) ++ [OpFlush].
Definition w_up : writer * reader := (Writer 64 w_socket w_up_ops, Reader 64 (w_cut 5 (w_bytes 64 w_up_ops))).
Definition w_down : writer * reader := (Writer 64 w_socket w_down_ops, Reader 128 (w_cut 11 (w_bytes 64 w_down_ops))).

(** [run_carries] runs the sink of a concrete direction. *)
Ltac run_carries :=
  split; [reflexivity|]; split; [repeat constructor|]; split; [simpl; lia|];
  split; [repeat constructor; vm_compute; discriminate|];
  do 2 eexists; split; [vm_compute; reflexivity|]; split; vm_compute; reflexivity.

