(* ===== verification/ModelTests.v ===== *)
(** * The tests of the endpoint model, run on its definitions

    The unit tests of [src/model/json_schema.rs], [src/model/api_document.rs] and
    [src/model/endpoint.rs], and the
    conformance tests of [tests/w33_schema_conformance.rs]. *)

From S2P Require Import Prelude BMap Json ModelTypes Refs JsonSchema SchemaJson ApiDocument TestKit.

(** Enough for every type below. *)
Definition test_fuel : nat := 50.

(** ** [json_schema.rs] *)

Section json_schema_tests.
Abbreviation to_json_schema := (to_json_schema convert_case test_fuel).

Definition schema_of (ty : type) : json :=
  match to_json_schema registry_new ty [] with
  | Some (Ok (schema, defs)) => attach_defs schema defs
  | _ => JNull
  end.

Definition primitives : Prop :=
  schema_of UInt32 = js "{ 'type': 'integer', 'minimum': 0, 'maximum': 4294967295 }"
  /\ schema_of Int32 = js "{ 'type': 'integer', 'minimum': -2147483648, 'maximum': 2147483647 }"
  /\ schema_of Int64 = js "{ 'type': 'integer' }"
  /\ schema_of Float64 = js "{ 'type': 'number' }"
  /\ schema_of Boolean = js "{ 'type': 'boolean' }"
  /\ schema_of TString = js "{ 'type': 'string' }"
  /\ schema_of TObject = js "{ 'type': 'object' }"
  /\ schema_of TUnit = js "{ 'type': 'null' }".
Example primitives_pass : primitives.
Proof. run_test. Qed.

Definition string_formats : Prop :=
  schema_of Bytea = js "{ 'type': 'string', 'contentEncoding': 'base64' }"
  /\ schema_of UUID = js "{ 'type': 'string', 'format': 'uuid' }"
  /\ schema_of (NanoId 21) = js "{ 'type': 'string', 'minLength': 21, 'maxLength': 21, 'pattern': '^[0-9A-Za-z]+$' }"
  /\ schema_of BlockchainAddress = js "{ 'type': 'string', 'pattern': '^0x[0-9a-fA-F]{40}$' }"
  /\ schema_of BlockchainTransactionHash = js "{ 'type': 'string', 'pattern': '^0x[0-9a-fA-F]{64}$' }".
Example string_formats_pass : string_formats.
Proof. run_test. Qed.

Definition containers : Prop :=
  schema_of (TVec TString) = js "{ 'type': 'array', 'items': { 'type': 'string' } }"
  /\ schema_of (Optional Int64) = js "{ 'anyOf': [{ 'type': 'integer' }, { 'type': 'null' }] }".
Example containers_pass : containers.
Proof. run_test. Qed.

Definition inline_struct_goes_to_defs : Prop :=
  let ty := Struct "UserInfo" [field_new "user_id" Int64; field_new "email" (Optional TString)] in
  let schema := schema_of ty in
  let def := schema./"$defs"./"UserInfo" in
  schema./"$ref" = JStr "#/$defs/UserInfo"
  /\ def./"type" = JStr "object"
  /\ def./"properties"./"userId"./"type" = JStr "integer"
  /\ def./"properties"./"email"./"type" = JStr "string"
  /\ def./"required" = js "['userId']"
  /\ def./"additionalProperties" = JBool false.
Example inline_struct_goes_to_defs_pass : inline_struct_goes_to_defs.
Proof. run_test. Qed.

Definition enum_schema : Prop :=
  let ty := Enum "role" [variant_new_with_description "Admin" "administrator" 1; variant_new "User" 2] in
  let schema := schema_of ty in
  let def := schema./"$defs"./"Role" in
  schema./"$ref" = JStr "#/$defs/Role"
  /\ def./"type" = JStr "integer"
  /\ def./"oneOf".#0./"const" = JInt 1
  /\ def./"oneOf".#0./"title" = JStr "Admin"
  /\ def./"oneOf".#0./"description" = JStr "administrator"
  /\ def./"oneOf".#1 = js "{ 'const': 2, 'title': 'User' }".
Example enum_schema_pass : enum_schema.
Proof. run_test. Qed.

(** The result of a conversion that succeeds. *)
Definition converted {A} (o : outcome A) (P : A -> defs -> Prop) : Prop :=
  match o with Some (Ok (a, d)) => P a d | _ => False end.
Definition is_err {A} (o : outcome A) : bool := match o with Some (Err _) => true | _ => false end.

Definition struct_ref_resolves_through_registry : Prop :=
  let user_info := Struct "UserInfo" [field_new "user_id" Int64] in
  let registry := registry_add user_info registry_new in
  converted (to_json_schema registry (StructRef "UserInfo") []) (fun schema defs =>
    schema = js "{ '$ref': '#/$defs/UserInfo' }" /\ bm_contains "UserInfo" defs = true).
Example struct_ref_resolves_through_registry_pass : struct_ref_resolves_through_registry.
Proof. run_test. Qed.

Definition struct_table_resolves_to_array : Prop :=
  let row := Struct "Row" [field_new "id" Int64] in
  let registry := registry_add row registry_new in
  converted (to_json_schema registry (StructTable "Row") []) (fun schema _ =>
    schema = js "{ 'type': 'array', 'items': { '$ref': '#/$defs/Row' } }").
Example struct_table_resolves_to_array_pass : struct_table_resolves_to_array.
Proof. run_test. Qed.

Definition unresolved_refs_error : Prop :=
  is_err (to_json_schema registry_new (StructRef "Missing") []) = true
  /\ is_err (to_json_schema registry_new (EnumRef "Missing" true) []) = true
  /\ is_err (to_json_schema registry_new (StructTable "Missing") []) = true.
Example unresolved_refs_error_pass : unresolved_refs_error.
Proof. run_test. Qed.

Definition enum_ref_prefixed_naming : Prop :=
  let role := Enum "role" [variant_new "Admin" 1] in
  let registry := registry_add role registry_new in
  converted (to_json_schema registry (EnumRef "role" true) []) (fun schema defs =>
    schema = js "{ '$ref': '#/$defs/EnumRole' }" /\ bm_contains "EnumRole" defs = true).
Example enum_ref_prefixed_naming_pass : enum_ref_prefixed_naming.
Proof. run_test. Qed.

Definition shared_defs_emitted_once : Prop :=
  let user_info := Struct "UserInfo" [field_new "user_id" Int64] in
  let schema := schema_of (Struct "Outer" [field_new "a" user_info; field_new "b" user_info]) in
  let def := schema./"$defs"./"Outer" in
  def./"properties"./"a" = js "{ '$ref': '#/$defs/UserInfo' }"
  /\ def./"properties"./"b" = js "{ '$ref': '#/$defs/UserInfo' }"
  /\ is_object schema./"$defs"./"UserInfo" = true.
Example shared_defs_emitted_once_pass : shared_defs_emitted_once.
Proof. run_test. Qed.

Definition tool_name_is_snake_case : Prop :=
  tool_name convert_case (endpoint_new "UserListSymbols" 10020 [] []) = "user_list_symbols".
Example tool_name_is_snake_case_pass : tool_name_is_snake_case.
Proof. run_test. Qed.

Definition endpoint_input_schema_golden : Prop :=
  let endpoint := endpoint_new "UserGetProfile" 10010
    [field_new "user_id" Int64; field_new_with_description "nickname" "Optional display name" (Optional TString)]
    [field_new "profile" (StructRef "UserProfile")] in
  let profile := Struct "UserProfile" [field_new "user_id" Int64; field_new "role" (EnumRef "role" true)] in
  let role := Enum "role" [variant_new "Admin" 1] in
  let registry := registry_add role (registry_add profile registry_new) in
  some! input <- to_mcp_input_schema convert_case test_fuel endpoint registry in
  some! output <- to_mcp_output_schema convert_case test_fuel endpoint registry in
  unwrap! input <- input in
  unwrap! output <- output in
  input = js "{ 'type': 'object',
      'properties': { 'userId': { 'type': 'integer' },
                      'nickname': { 'type': 'string', 'description': 'Optional display name' } },
      'required': ['userId'], 'additionalProperties': false }"
  /\ output./"properties"./"profile" = js "{ '$ref': '#/$defs/UserProfile' }"
  /\ output./"required" = js "['profile']"
  /\ output./"$defs"./"UserProfile"./"properties"./"role" = js "{ '$ref': '#/$defs/EnumRole' }"
  /\ is_object output./"$defs"./"EnumRole" = true.
Example endpoint_input_schema_golden_pass : endpoint_input_schema_golden.
Proof. run_test. Qed.
End json_schema_tests.

(** ** [api_document.rs] *)

Section api_document_tests.
Abbreviation collect := (collect convert_case test_fuel).

Definition registry_with (types : list type) : registry := registry_add_all types registry_new.
Definition user_struct : type := Struct "User" [field_new "id" Int64; field_new "name" TString].
(** A struct that contains itself. *)
Definition recursive_node : type :=
  Struct "Node" [field_new "value" TString; field_new "children" (TVec (StructRef "Node"))].

Definition relocate_refs_rewrites_nested_and_array_positions : Prop :=
  let value := js "{ 'type': 'object', 'properties': { 'items': { 'type': 'array',
      'items': { 'anyOf': [ { '$ref': '#/$defs/User' }, { 'type': 'null' } ] } } } }" in
  let value := relocate_refs COMPONENTS_SCHEMAS_PREFIX value in
  value./"properties"./"items"./"items"./"anyOf".#0./"$ref" = JStr "#/components/schemas/User".
Example relocate_refs_rewrites_nested_and_array_positions_pass : relocate_refs_rewrites_nested_and_array_positions.
Proof. run_test. Qed.

Definition relocate_refs_leaves_non_defs_refs_and_is_idempotent : Prop :=
  let value := js "{ 'a': { '$ref': '#/components/schemas/Already' },
      'b': { '$ref': 'https://example.com/schema.json' }, 'c': { '$ref': '#/$defs/Moves' } }" in
  let once := relocate_refs COMPONENTS_SCHEMAS_PREFIX value in
  let value := relocate_refs COMPONENTS_SCHEMAS_PREFIX once in
  value = once
  /\ value./"a"./"$ref" = JStr "#/components/schemas/Already"
  /\ value./"b"./"$ref" = JStr "https://example.com/schema.json"
  /\ value./"c"./"$ref" = JStr "#/components/schemas/Moves".
Example relocate_refs_leaves_non_defs_refs_and_is_idempotent_pass : relocate_refs_leaves_non_defs_refs_and_is_idempotent.
Proof. run_test. Qed.

Definition relocate_refs_ignores_ref_like_strings_outside_ref_keys : Prop :=
  let value := relocate_refs COMPONENTS_SCHEMAS_PREFIX (js "{ 'description': 'see #/$defs/User for details' }") in
  value./"description" = JStr "see #/$defs/User for details".
Example relocate_refs_ignores_ref_like_strings_outside_ref_keys_pass : relocate_refs_ignores_ref_like_strings_outside_ref_keys.
Proof. run_test. Qed.

Definition collect_shares_definitions_across_endpoints : Prop :=
  let registry := registry_with [user_struct] in
  let endpoints :=
    [endpoint_new "GetUser" 1 [field_new "id" Int64] [field_new "user" (StructRef "User")];
     endpoint_new "ListUsers" 2 [] [field_new "users" (TVec (StructRef "User"))]] in
  some! components <- collect registry endpoints in
  unwrap! schemas <- components in
  bm_keys schemas = ["User"].
Example collect_shares_definitions_across_endpoints_pass : collect_shares_definitions_across_endpoints.
Proof. run_test. Qed.

Definition tree_endpoint : endpoint_schema := endpoint_new "GetTree" 1 [] [field_new "root" (StructRef "Node")].

Definition collect_relocates_refs_inside_components : Prop :=
  some! components <- collect (registry_with [recursive_node]) [tree_endpoint] in
  unwrap! schemas <- components in
  let refs := concat (map (fun p => collect_refs p.2) schemas) in
  refs <> [] /\ forallb (starts_with COMPONENTS_SCHEMAS_PREFIX) refs = true.
Example collect_relocates_refs_inside_components_pass : collect_relocates_refs_inside_components.
Proof. run_test. Qed.

Definition collect_terminates_on_recursive_structs : Prop :=
  some! components <- collect (registry_with [recursive_node]) [tree_endpoint] in
  unwrap! schemas <- components in
  bm_contains "Node" schemas = true.
Example collect_terminates_on_recursive_structs_pass : collect_terminates_on_recursive_structs.
Proof. run_test. Qed.

Definition collect_resolves_enum_refs : Prop :=
  let role := Enum "UserRole" [variant_new_with_description "Admin" "Platform admin" 0;
                               variant_new_with_description "User" "Regular user" 1] in
  some! components <- collect (registry_with [role]) [endpoint_new "GetRole" 1 [] [field_new "role" (EnumRef "UserRole" false)]] in
  unwrap! schemas <- components in
  bm_contains "UserRole" schemas = true.
Example collect_resolves_enum_refs_pass : collect_resolves_enum_refs.
Proof. run_test. Qed.

Definition collect_reports_the_endpoint_for_a_dangling_ref : Prop :=
  some! components <- collect registry_new [endpoint_new "GetGhost" 1 [] [field_new "ghost" (StructRef "Missing")]] in
  unwrap_err! err <- components in
  contains_str "GetGhost" err = true /\ contains_str "Missing" err = true.
Example collect_reports_the_endpoint_for_a_dangling_ref_pass : collect_reports_the_endpoint_for_a_dangling_ref.
Proof. run_test. Qed.

(** A schema of an endpoint whose components are collected. *)
Abbreviation request_schema := (request_schema convert_case test_fuel).
Abbreviation response_schema := (response_schema convert_case test_fuel).
Definition after_collect (registry : registry) (endpoint : endpoint_schema) (schema : option (result json string))
    (P : result json string -> Prop) : Prop :=
  some! components <- collect registry [endpoint] in
  unwrap! _ <- components in
  some! schema <- schema in
  P schema.

Definition request_and_response_schemas_reference_shared_components : Prop :=
  let registry := registry_with [user_struct] in
  let endpoint := endpoint_new "GetUser" 1 [field_new "id" Int64] [field_new "user" (StructRef "User")] in
  after_collect registry endpoint (response_schema registry endpoint) (fun response =>
    unwrap! response <- response in collect_refs response = ["#/components/schemas/User"])
  /\ after_collect registry endpoint (request_schema registry endpoint) (fun request =>
    unwrap! request <- request in request./"required" = js "['id']").
Example request_and_response_schemas_reference_shared_components_pass :
  request_and_response_schemas_reference_shared_components.
Proof. run_test. Qed.

Definition optional_fields_are_not_required : Prop :=
  let endpoint := endpoint_new "Search" 1 [field_new "query" TString; field_new "cursor" (Optional TString)] [] in
  after_collect registry_new endpoint (request_schema registry_new endpoint) (fun request =>
    unwrap! request <- request in
    request./"required" = js "['query']" /\ is_object request./"properties"./"cursor" = true).
Example optional_fields_are_not_required_pass : optional_fields_are_not_required.
Proof. run_test. Qed.

Definition apply_meta_copies_extensions_and_recognised_keys : Prop :=
  let target := js "{ 'type': 'string' }" in
  let meta := meta_insert [] "x-internal-id" (JInt 42) in
  let meta := meta_insert meta "example" (JStr "hello") in
  let meta := meta_insert meta "deprecated" (JBool true) in
  unwrap! target <- apply_meta target meta "Endpoint Foo" in
  target./"x-internal-id" = JInt 42 /\ target./"example" = JStr "hello"
  /\ target./"deprecated" = JBool true /\ target./"type" = JStr "string".
Example apply_meta_copies_extensions_and_recognised_keys_pass : apply_meta_copies_extensions_and_recognised_keys.
Proof. run_test. Qed.

Definition apply_meta_rejects_unrecognised_keys_with_context : Prop :=
  let meta := meta_insert [] "exmaple" (JStr "hello") in
  unwrap_err! err <- apply_meta (js "{ 'type': 'string' }") meta "endpoint GetUser field id" in
  contains_str "endpoint GetUser field id" err = true /\ contains_str "exmaple" err = true /\ contains_str "x-" err = true.
Example apply_meta_rejects_unrecognised_keys_with_context_pass : apply_meta_rejects_unrecognised_keys_with_context.
Proof. run_test. Qed.

Definition field_meta_lands_on_the_property : Prop :=
  let meta := meta_insert (meta_insert [] "example" (JStr "abc123")) "x-opaque" (JBool true) in
  let endpoint := endpoint_new "Search" 1 [field_with_meta (field_new "cursor" TString) meta] [] in
  after_collect registry_new endpoint (request_schema registry_new endpoint) (fun request =>
    unwrap! request <- request in
    request./"properties"./"cursor"./"example" = JStr "abc123"
    /\ request./"properties"./"cursor"./"x-opaque" = JBool true).
Example field_meta_lands_on_the_property_pass : field_meta_lands_on_the_property.
Proof. run_test. Qed.

Definition field_meta_on_a_bare_ref_is_rejected : Prop :=
  let registry := registry_with [user_struct] in
  let field := field_with_meta (field_new "user" (StructRef "User")) (meta_insert [] "example" (js "{ 'id': 1 }")) in
  let endpoint := endpoint_new "GetUser" 1 [] [field] in
  after_collect registry endpoint (response_schema registry endpoint) (fun response =>
    unwrap_err! err <- response in
    contains_str "GetUser" err = true /\ contains_str "user" err = true /\ contains_str "$ref" err = true).
Example field_meta_on_a_bare_ref_is_rejected_pass : field_meta_on_a_bare_ref_is_rejected.
Proof. run_test. Qed.

Definition apply_meta_is_a_noop_when_empty : Prop :=
  let before := js "{ 'type': 'string' }" in
  unwrap! target <- apply_meta before [] "ctx" in
  target = before.
Example apply_meta_is_a_noop_when_empty_pass : apply_meta_is_a_noop_when_empty.
Proof. run_test. Qed.

Definition mcp_schemas_stay_self_contained : Prop :=
  let registry := registry_with [user_struct] in
  let endpoint := endpoint_new "GetUser" 1 [] [field_new "user" (StructRef "User")] in
  some! mcp <- to_mcp_output_schema convert_case test_fuel endpoint registry in
  unwrap! mcp <- mcp in
  (exists defs, jget "$defs" mcp = Some defs) /\ forallb (starts_with "#/$defs/") (collect_refs mcp) = true.
Example mcp_schemas_stay_self_contained_pass : mcp_schemas_stay_self_contained.
Proof. split; [eexists|]; run_test. Qed.
End api_document_tests.

(** ** [tests/w33_schema_conformance.rs] *)

Section conformance_tests.
(** The two members of [fixtures/w33_schema_conformance.json] that the tests read. *)
Definition fixture : json := js "{
  'schema_expectations': {
    '/properties/receipt': {'$ref': '#/$defs/PaymentJobReceipt'},
    '/properties/merchant': {'$ref': '#/$defs/MerchantSummary'},
    '/properties/actions/items': {'$ref': '#/$defs/AdminAuditAction'},
    '/properties/samples': {'type': 'array', 'items': {'$ref': '#/$defs/HealthSample'}},
    '/properties/amount': {'type': 'string', 'description': 'Decimal number as string'},
    '/properties/unsignedCount': {'type': 'integer', 'minimum': 0, 'maximum': 4294967295},
    '/properties/signedDelta': {'type': 'integer', 'minimum': -2147483648, 'maximum': 2147483647},
    '/properties/optionalCursor': {'type': 'integer'},
    '/required': ['receipt', 'merchant', 'actions', 'samples', 'amount', 'unsignedCount', 'signedDelta'],
    '/$defs/PaymentJobReceipt/properties/amountBaseUnits/type': 'string',
    '/$defs/MerchantSummary/properties/appCount/minimum': -2147483648,
    '/$defs/HealthSample/required': ['sampledAtUnixMs']
  },
  'stream_schema': {'root': {'$ref': '#/$defs/HealthSample'}}
}".

Definition public_shapes : endpoint_schema * registry :=
  let receipt := Struct "PaymentJobReceipt"
    [field_new "outcome" TString; field_new "amount_base_units" TString; field_new "asset" TString;
     field_new "recipient" TString; field_new "transaction_signature" TString; field_new "recorded_at_unix" Int64] in
  let merchant := Struct "MerchantSummary"
    [field_new "merchant_public_id" TString; field_new "username" TString; field_new "status" TString;
     field_new "app_count" Int32; field_new "key_count" Int32; field_new "revision" TString] in
  let health_sample := Struct "HealthSample"
    [field_new "sampled_at_unix_ms" Int64; field_new "latest_slot" (Optional Int64)] in
  let action := Enum "AdminAuditAction" [variant_new "GetAdminState" 1; variant_new "SetWalletProvider" 2] in
  let endpoint := with_stream_response_type
    (endpoint_new "SchemaVector" 1 []
      [field_new "receipt" (StructRef "PaymentJobReceipt");
       field_new "merchant" (StructRef "MerchantSummary");
       field_new "actions" (TVec (EnumRef "AdminAuditAction" false));
       field_new "samples" (StructTable "HealthSample");
       field_new "amount" BlockchainDecimal;
       field_new "unsigned_count" UInt32;
       field_new "signed_delta" Int32;
       field_new "optional_cursor" (Optional Int64)])
    (StructRef "HealthSample") in
  (endpoint, registry_with [receipt; merchant; health_sample; action]).

(** [Value::pointer], for paths of member names. *)
Definition pointer (v : json) (path : string) : json := fold_left at_key (tail (split_on "/" path)) v.

Definition public_dto_shapes_resolve_and_match_schema_fixture : Prop :=
  let expected := fixture in
  let '(endpoint, registry) := public_shapes in
  some! schema <- to_mcp_output_schema convert_case test_fuel endpoint registry in
  unwrap! schema <- schema in
  match expected./"schema_expectations" with
  | JObj expectations =>
      length expectations = 12
      /\ foldr (fun e rest => pointer schema e.1 = e.2 /\ rest) True expectations
  | _ => False
  end
  /\ (some! ty <- ep_stream_response endpoint in
      some! stream <- to_json_schema convert_case test_fuel registry ty [] in
      unwrap! '(stream_schema, stream_defs) <- stream in
      stream_schema = expected./"stream_schema"./"root"
      /\ (some! sample <- bm_get "HealthSample" stream_defs in
          sample./"properties"./"latestSlot"./"type" = JStr "integer"
          /\ match sample./"required" with
             | JArr required => existsb (fun v => bool_decide (as_str v = Some "latestSlot")) required = false
             | _ => False
             end)).
Example public_dto_shapes_resolve_and_match_schema_fixture_pass : public_dto_shapes_resolve_and_match_schema_fixture.
Proof. run_test. Qed.

Definition unresolved_nested_references_fail_schema_conversion : Prop :=
  forallb (fun ty => match to_json_schema convert_case test_fuel registry_new ty [] with Some (Err _) => true | _ => false end)
    [StructRef "MissingShape"; EnumRef "MissingAction" false; StructTable "MissingRow"] = true.
Example unresolved_nested_references_fail_schema_conversion_pass : unresolved_nested_references_fail_schema_conversion.
Proof. run_test. Qed.
End conformance_tests.

(** ** [endpoint.rs]: forward compatibility of stored schemas *)

Section forward_compat_tests.
Abbreviation from_str := (schema_from_str read_json (fun _ => "invalid schema")).

Definition unknown_future_fields_are_ignored : Prop :=
  let text := json_text "{
            'name': 'UserListSymbols',
            'code': 10020,
            'parameters': [],
            'returns': [],
            'roles': ['Admin'],
            'x_future_openapi_binding': {'path': '/rpc/UserListSymbols'},
            'some_field_from_2_5': 42
        }" in
  unwrap! schema <- from_str text in
  ep_name schema = "UserListSymbols" /\ ep_code schema = 10020%Z /\ meta_is_empty (ep_meta schema) = true.
Example unknown_future_fields_are_ignored_pass : unknown_future_fields_are_ignored.
Proof. run_test. Qed.

Definition absent_meta_defaults_empty : Prop :=
  let text := json_text "{'name':'A','code':1,'parameters':[],'returns':[],'roles':[]}" in
  unwrap! schema <- from_str text in meta_is_empty (ep_meta schema) = true.
Example absent_meta_defaults_empty_pass : absent_meta_defaults_empty.
Proof. run_test. Qed.

Definition meta_round_trips_including_unknown_keys : Prop :=
  let meta := meta_insert [] "example" (js "{'symbol': 'BTC'}") in
  let meta := meta_insert meta "x-openapi-tags" (js "['trading']") in
  let meta := meta_insert meta "deprecated" (JBool true) in
  let schema := endpoint_with_meta (endpoint_new "A" 1 [] []) meta in
  let text := write_json (endpoint_to_json schema) in
  unwrap! back <- from_str text in
  ep_meta back = meta /\ meta_get (ep_meta back) "x-openapi-tags" = Some (js "['trading']").
Example meta_round_trips_including_unknown_keys_pass : meta_round_trips_including_unknown_keys.
Proof. run_test. Qed.

Definition empty_meta_is_not_serialized : Prop :=
  let schema := endpoint_new "A" 1 [] [] in
  let text := write_json (endpoint_to_json schema) in
  contains_str "meta" text = false
  /\ (let field := field_new "x" TString in
      let text := write_json (field_to_json field) in
      contains_str "meta" text = false).
Example empty_meta_is_not_serialized_pass : empty_meta_is_not_serialized.
Proof. run_test. Qed.

(** The set holds the field because [MetaMap::cmp] finds it equal to itself. *)
Definition field_meta_round_trips_and_preserves_derives : Prop :=
  let meta := meta_insert [] "minimum" (JInt 0) in
  let field := field_with_meta (field_new "amount" Int64) meta in
  (some! value <- read_json (write_json (field_to_json field)) in
   some! back <- field_from_json value in
   meta_get (f_meta back) "minimum" = Some (JInt 0))
  /\ meta_cmp write_json (f_meta field) (f_meta field) = Eq
  /\ field <> field_new "amount" Int64.
Example field_meta_round_trips_and_preserves_derives_pass : field_meta_round_trips_and_preserves_derives.
Proof. split; [vm_compute; reflexivity|]. split; [vm_compute; reflexivity|discriminate]. Qed.
End forward_compat_tests.
