(* ===== verification/WireTests.v ===== *)
(** * The tests of the transports, run on the model

    The unit tests of [src/libs/ws/transport/framed.rs], [outbound.rs], [message.rs],
    [tungstenite/message.rs] and [tungstenite/upgrader.rs].  Tests that compare the
    addresses of buffers are left out: a value has none here. *)

From S2P Require Import Prelude BMap Message Framed Outbound ServerConfig Upgrade TestKit.

Definition b (l : list Z) : bytes := map byte_of l.
Abbreviation text s := (Text (bytes_of_string s)).

(** ** [framed.rs] *)

(** The in-memory pipe of the tests: what was written and not read, and whether the
    writer is gone. *)
Record pipe := Pipe { p_bytes : bytes; p_writer_gone : bool }.
Definition pipe_new : pipe := Pipe [] false.
Definition pipe_write (buffer : bytes) (p : pipe) : pipe := Pipe (p_bytes p ++ buffer) (p_writer_gone p).
Definition hang_up (p : pipe) : pipe := Pipe (p_bytes p) true.

(** Its answers to reads, while nobody writes; the tests write less than a chunk. *)
Definition pipe_reads (p : pipe) : list read_event :=
  (match p_bytes p with [] => [] | bytes => [ReadOk bytes] end) ++ (if p_writer_gone p then [ReadOk []] else [ReadPending]).
(** What is left of it after those that were not asked for. *)
Definition pipe_left (p : pipe) (script : list read_event) : pipe :=
  Pipe (concat (map (fun e => match e with ReadOk c => c | _ => [] end) script)) (p_writer_gone p).

Definition next (st : framed) (p : pipe) : poll (option (result wire_message framed_error)) * framed * pipe :=
  let '(r, st, script) := poll_next st (pipe_reads p) in (r, st, pipe_left p script).

(** [SinkExt::send]: ready, start, flush; the pipe takes every byte. *)
Definition send_message (st : framed) (m : wire_message) (p : pipe) : result unit framed_error * framed * pipe :=
  match start_send st m with
  | (Err e, st) => (Err e, st, p)
  | (Ok _, st) =>
      match poll_flush st (ByteSink [] [WriteOk (length (write_buf st))] [DoneOk] []) with
      | (Ready r, st, io) => (r, st, pipe_write (Framed.accepted io) p)
      | (Pending, st, io) => (Err EmptyFrame, st, p)
      end
  end.

(** The maximum of the tests that use the default one, 16 MiB, which is no number to
    count up to. *)
Definition framed_json_neutral : framed := framed_new (Z.to_nat 1024).
Definition framed_max (max : nat) : framed := framed_new max.

Definition every_variant_round_trips_through_the_codec : Prop :=
  let cases :=
    [text "hello"; text ""; Binary (b [0; 1; 2; 255]%Z); Binary []; Ping (b [9]%Z); Pong []; Close None;
     Close (Some (CloseFrame 1001 (bytes_of_string "going away"))); Close (Some (CloseFrame 1000 []))] in
  map (fun case => decode (encode case)) cases = map Ok cases.
Example every_variant_round_trips_through_the_codec_pass : every_variant_round_trips_through_the_codec.
Proof. run_test. Qed.

Definition frame_layout_is_what_the_docs_promise : Prop :=
  encode (text "hi") = byte_of KIND_TEXT :: bytes_of_string "hi"
  /\ encode (Close (Some (CloseFrame 1000 []))) = b [KIND_CLOSE; 3; 232]%Z.
Example frame_layout_is_what_the_docs_promise_pass : frame_layout_is_what_the_docs_promise.
Proof. run_test. Qed.

Definition malformed_frames_are_errors_not_panics : Prop :=
  decode [] = Err EmptyFrame
  /\ decode (b [99]%Z) = Err (UnknownKind 99)
  /\ decode (b [KIND_TEXT; 255; 254]%Z) = Err InvalidUtf8
  /\ decode (b [KIND_CLOSE; 1]%Z) = Err MalformedClose.
Example malformed_frames_are_errors_not_panics_pass : malformed_frames_are_errors_not_panics.
Proof. run_test. Qed.

Definition the_sink_writes_the_length_prefix_the_docs_promise : Prop :=
  let '(r, _, p) := send_message framed_json_neutral (text "hi") pipe_new in
  r = Ok tt /\ p_bytes p = b [0; 0; 0; 3; KIND_TEXT]%Z ++ bytes_of_string "hi".
Example the_sink_writes_the_length_prefix_the_docs_promise_pass : the_sink_writes_the_length_prefix_the_docs_promise.
Proof. run_test. Qed.

Definition a_duplex_pipe_carries_messages_both_ways : Prop :=
  let sent := text "ping" in
  let back := Binary (b [7; 7; 7]%Z) in
  let '(r1, client, left_to_right) := send_message framed_json_neutral sent pipe_new in
  let '(got, server, _) := next framed_json_neutral left_to_right in
  let '(r2, server, right_to_left) := send_message server back pipe_new in
  let '(answer, _, _) := next client right_to_left in
  r1 = Ok tt /\ got = Ready (Some (Ok sent)) /\ r2 = Ok tt /\ answer = Ready (Some (Ok back)).
Example a_duplex_pipe_carries_messages_both_ways_pass : a_duplex_pipe_carries_messages_both_ways.
Proof. run_test. Qed.

Definition is_io {A} (r : result A framed_error) : bool := match r with Err (Io _) => true | _ => false end.

Definition oversized_outbound_frames_are_refused_by_the_encoder : Prop :=
  let '(r, _, p) := send_message (framed_max 64) (Binary (replicate 4096 (byte_of 0))) pipe_new in
  is_io r = true.
Example oversized_outbound_frames_are_refused_by_the_encoder_pass : oversized_outbound_frames_are_refused_by_the_encoder.
Proof. run_test. Qed.

Definition an_oversized_length_prefix_is_rejected_rather_than_buffered : Prop :=
  let p := pipe_write (be32 u32_max) pipe_new in
  match next (framed_max 64) p with
  | (Ready (Some r), _, _) => is_io r = true
  | _ => False
  end.

(** The claimed length is compared without counting up to it. *)
Lemma take_frame_too_long max buf :
  length buf = LENGTH_PREFIX_BYTES -> (Z.of_nat max < of_be buf)%Z -> take_frame max buf = Err (too_long (Z.to_nat (of_be buf)) max).
Proof.
  intros Hb Hm. unfold take_frame. rewrite Hb. simpl. rewrite take_ge by (rewrite Hb; done).
  destruct (Nat.ltb_spec max (Z.to_nat (of_be buf))); [done|lia].
Qed.
Example an_oversized_length_prefix_is_rejected_rather_than_buffered_pass :
  an_oversized_length_prefix_is_rejected_rather_than_buffered.
Proof.
  pose proof (take_frame_too_long 64 (be32 u32_max) eq_refl eq_refl) as Ht.
  cbv beta delta [an_oversized_length_prefix_is_rejected_rather_than_buffered next pipe_write pipe_new p_bytes p_writer_gone pipe_reads] zeta iota.
  cbn [app be32 poll_next].
  assert (Hh : poll_head (framed_max 64) = None) by reflexivity. rewrite Hh.
  unfold poll_head. cbn [with_read read_buf max_frame_bytes framed_max framed_new read_eof app].
  change (byte_of (Z.shiftr u32_max 24) :: _) with (be32 u32_max). rewrite Ht. reflexivity.
Qed.

Definition a_truncated_frame_is_reported : Prop :=
  let p := pipe_write (be32 10) pipe_new in
  let p := pipe_write (byte_of KIND_TEXT :: bytes_of_string "hi") p in
  match next framed_json_neutral (hang_up p) with
  | (Ready (Some (Err (Io e))), _, _) => io_k e = UnexpectedEof
  | _ => False
  end.
Example a_truncated_frame_is_reported_pass : a_truncated_frame_is_reported.
Proof. run_test. Qed.

Definition a_stream_ending_on_a_frame_boundary_ends_cleanly : Prop :=
  let '(r, sender, p) := send_message framed_json_neutral (text "only") pipe_new in
  let '(got, st, p) := next framed_json_neutral (hang_up p) in
  let '(end_, _, _) := next st p in
  r = Ok tt /\ got = Ready (Some (Ok (text "only"))) /\ end_ = Ready None.
Example a_stream_ending_on_a_frame_boundary_ends_cleanly_pass : a_stream_ending_on_a_frame_boundary_ends_cleanly.
Proof. run_test. Qed.

(** ** [outbound.rs] *)

Section outbound_tests.
(** A waker is its identity; a flag is raised when an operation wakes it. *)
Definition flag_waker : nat := 7.
Definition woke (w : option nat) : bool := bool_decide (w = Some flag_waker).

(** A sequence of sends and receives on one channel. *)
Definition try_send_all (l : list nat) (q : @inner nat) : list (result unit (@try_send_error nat)) * @inner nat :=
  fold_left (fun acc v => let '(r, q, _) := try_send acc.2 v in (acc.1 ++ [r], q)) l ([], q).
Fixpoint try_recv_n (n : nat) (q : @inner nat) : list (result nat try_recv_error) * @inner nat :=
  match n with
  | O => ([], q)
  | S n => let '(r, q) := try_recv q in let '(rs, q) := try_recv_n n q in (r :: rs, q)
  end.

Definition sends_leave_in_arrival_order : Prop :=
  let rx := sender_clone (channel 4) in
  let '(sent, rx) := try_send_all [1; 2; 3] rx in
  let '(got, _) := try_recv_n 4 rx in
  sent = [Ok tt; Ok tt; Ok tt] /\ got = [Ok 1; Ok 2; Ok 3; Err Empty].
Example sends_leave_in_arrival_order_pass : sends_leave_in_arrival_order.
Proof. run_test. Qed.

Definition cloned_senders_do_not_add_capacity : Prop :=
  let q := sender_clone (sender_clone (channel 1)) in
  (try_send_all [1; 2; 3] q).1 = [Ok tt; Err (Full 2); Err (Full 3)].
Example cloned_senders_do_not_add_capacity_pass : cloned_senders_do_not_add_capacity.
Proof. run_test. Qed.

Definition a_dropped_receiver_is_closed_even_when_full : Prop :=
  let '(sent, q) := try_send_all [1] (channel 1) in
  let q := receiver_drop q in
  sent = [Ok tt] /\ (try_send q 2).1.1 = Err (Closed 2)
  /\ (unwrap_err! e <- (try_send q 3).1.1 in into_inner e = 3).
Example a_dropped_receiver_is_closed_even_when_full_pass : a_dropped_receiver_is_closed_even_when_full.
Proof. run_test. Qed.

Definition a_dropped_receiver_is_closed_while_there_is_room : Prop :=
  (try_send (receiver_drop (channel 4)) 1).1.1 = Err (Closed 1).
Example a_dropped_receiver_is_closed_while_there_is_room_pass : a_dropped_receiver_is_closed_while_there_is_room.
Proof. run_test. Qed.

Definition zero_capacity_rejects_while_the_receiver_lives : Prop :=
  let q := channel 0 in
  (try_send q 1).1.1 = Err (Full 1) /\ (try_send (receiver_drop q) 1).1.1 = Err (Closed 1).
Example zero_capacity_rejects_while_the_receiver_lives_pass : zero_capacity_rejects_while_the_receiver_lives.
Proof. run_test. Qed.

Definition empty_while_a_sender_lives_and_disconnected_after_the_last_drop : Prop :=
  let q := sender_clone (channel (T := nat) 1) in
  let '(first, q) := try_recv q in
  let '(second, q) := try_recv (sender_drop q).1 in
  let '(third, _) := try_recv (sender_drop q).1 in
  first = Err Empty /\ second = Err Empty /\ third = Err Disconnected.
Example empty_while_a_sender_lives_and_disconnected_after_the_last_drop_pass :
  empty_while_a_sender_lives_and_disconnected_after_the_last_drop.
Proof. run_test. Qed.

Definition queued_messages_are_read_before_close : Prop :=
  let '(sent, q) := try_send_all [1; 2] (channel 2) in
  let '(got, q) := try_recv_n 3 (sender_drop q).1 in
  sent = [Ok tt; Ok tt] /\ got = [Ok 1; Ok 2; Err Disconnected] /\ (recv_poll q flag_waker).1 = Some None.
Example queued_messages_are_read_before_close_pass : queued_messages_are_read_before_close.
Proof. run_test. Qed.

Definition a_message_sent_before_recv_is_ready_without_parking : Prop :=
  let '(_, q) := try_send_all [9] (channel 1) in
  (recv_poll q flag_waker).1 = Some (Some 9).
Example a_message_sent_before_recv_is_ready_without_parking_pass : a_message_sent_before_recv_is_ready_without_parking.
Proof. run_test. Qed.

Definition a_parked_recv_wakes_when_a_message_arrives : Prop :=
  let '(first, q) := recv_poll (channel 1) flag_waker in
  let '(sent, q, w) := try_send q 7 in
  first = None /\ sent = Ok tt /\ woke w = true /\ (recv_poll q flag_waker).1 = Some (Some 7).
Example a_parked_recv_wakes_when_a_message_arrives_pass : a_parked_recv_wakes_when_a_message_arrives.
Proof. run_test. Qed.

Definition the_receiver_parks_again_after_taking_a_message : Prop :=
  let '(first, q) := recv_poll (channel 2) flag_waker in
  let '(_, q, _) := try_send q 1 in
  let '(second, q) := recv_poll q flag_waker in
  let '(third, q) := recv_poll q flag_waker in
  let '(_, q, w) := try_send q 2 in
  first = None /\ second = Some (Some 1) /\ third = None /\ woke w = true
  /\ (recv_poll q flag_waker).1 = Some (Some 2).
Example the_receiver_parks_again_after_taking_a_message_pass : the_receiver_parks_again_after_taking_a_message.
Proof. run_test. Qed.

Definition a_parked_recv_completes_when_the_last_sender_drops : Prop :=
  let q := (sender_drop (sender_clone (channel (T := nat) 1))).1 in
  let '(first, q) := recv_poll q flag_waker in
  let '(q, w) := sender_drop q in
  first = None /\ woke w = true /\ (recv_poll q flag_waker).1 = Some None.
Example a_parked_recv_completes_when_the_last_sender_drops_pass : a_parked_recv_completes_when_the_last_sender_drops.
Proof. run_test. Qed.

Definition dropping_one_sender_does_not_close : Prop :=
  let q := (sender_drop (sender_clone (channel 1))).1 in
  let '(sent, q) := try_send_all [4] q in
  sent = [Ok tt] /\ (try_recv_n 2 q).1 = [Ok 4; Err Empty].
Example dropping_one_sender_does_not_close_pass : dropping_one_sender_does_not_close.
Proof. run_test. Qed.
End outbound_tests.

(** ** [message.rs] and [tungstenite/message.rs] *)

Definition bytes_are_validated_before_becoming_text : Prop :=
  utf8_try_from (bytes_of_string "valid text") <> None
  /\ utf8_try_from (bytes_of_string "invalid " ++ b [255]%Z) = None.
Example bytes_are_validated_before_becoming_text_pass : bytes_are_validated_before_becoming_text.
Proof. run_test. Qed.

(** nago-wss's [CloseCode] wraps a [u16]. *)
Inductive close_code := CloseCode (c : Z).
Definition code_u16 (c : close_code) : Z := let 'CloseCode c := c in c.

Definition round_trips_every_variant : Prop :=
  let cases := [text "hello"; Binary (b [1; 2; 3]%Z); Ping (b [4]%Z); Pong (b [5]%Z); Close None;
                Close (Some (CloseFrame 1000 (bytes_of_string "bye")))] in
  map (fun case => from_backend code_u16 (to_backend CloseCode case)) cases = cases.
Example round_trips_every_variant_pass : round_trips_every_variant.
Proof. run_test. Qed.

Definition the_close_code_survives_the_newtype : Prop :=
  to_backend CloseCode (Close (Some (CloseFrame 1011 (bytes_of_string "internal"))))
    = NClose (Some (CloseCode 1011, bytes_of_string "internal"))
  /\ from_backend code_u16 (NClose (Some (CloseCode 1011, bytes_of_string "internal")))
    = Close (Some (CloseFrame 1011 (bytes_of_string "internal"))).
Example the_close_code_survives_the_newtype_pass : the_close_code_survives_the_newtype.
Proof. run_test. Qed.

(** ** [upgrader.rs] *)

Section upgrader_tests.
Abbreviation from_request := (headers_from_request None "2.0").

Definition request (headers : list (string * string)) : http_request := HttpRequest Get "/" [] [] headers.
Definition with_cors (allow : option (list string)) : ws_server_config :=
  let d := config_default in
  WsServerConfig (cfg_name d) (address d) (pub_certs d) (priv_key d) (insecure d) (debug d)
    (message_buffer_size d) (drop_conn_on_buffer_full d) (header_only d) allow (server_name d) (mcp_only d)
    (max_connections d) (max_message_bytes d) (max_inflight_requests d) (request_timeout d) (handshake_timeout d)
    (idle_timeout d) (warn_connections d) (warn_message_bytes d) (warn_inflight_requests d) (warn_request_time d) (on_limit d).
Definition value (extra : list (string * string)) (name : string) : option string :=
  option_map snd (List.find (fun h => eq_ignore_ascii_case h.1 name) extra).
Definition listed : ws_server_config := with_cors (Some ["https://app.example.com"]).

Definition no_allowlist_means_wildcard_and_no_credentials : Prop :=
  let extra := ok_extra (from_request (with_cors None) (request [])) in
  value extra "access-control-allow-origin" = Some "*"
  /\ value extra "timing-allow-origin" = Some "*"
  /\ value extra "access-control-allow-credentials" = None
  /\ value extra "access-control-allow-methods" = Some ALLOWED_METHODS.
Example no_allowlist_means_wildcard_and_no_credentials_pass : no_allowlist_means_wildcard_and_no_credentials.
Proof. run_test. Qed.

Definition an_allowlisted_origin_is_echoed_and_varied_on : Prop :=
  let extra := ok_extra (from_request listed (request [("Origin", "https://app.example.com")])) in
  value extra "access-control-allow-origin" = Some "https://app.example.com"
  /\ value extra "vary" = Some "Origin"
  /\ value extra "access-control-allow-credentials" = Some "true".
Example an_allowlisted_origin_is_echoed_and_varied_on_pass : an_allowlisted_origin_is_echoed_and_varied_on.
Proof. run_test. Qed.

Definition an_origin_off_the_allowlist_gets_no_cors_headers : Prop :=
  Forall (fun headers =>
    let extra := ok_extra (from_request listed (request headers)) in
    value extra "access-control-allow-origin" = None /\ value extra "server" <> None)
    [[]; [("Origin", "https://evil.example.com")]].
Example an_origin_off_the_allowlist_gets_no_cors_headers_pass : an_origin_off_the_allowlist_gets_no_cors_headers.
Proof. repeat constructor; run_test. Qed.

Definition a_preflight_gets_the_headers_it_asked_for : Prop :=
  let asked := "authorization, x-trace" in
  value (ok_extra (from_request (with_cors None) (request [("Access-Control-Request-Headers", asked)])))
    "access-control-allow-headers" = Some asked
  /\ value (ok_extra (from_request (with_cors None) (request []))) "access-control-allow-headers" = Some DEFAULT_ALLOW_HEADERS.
Example a_preflight_gets_the_headers_it_asked_for_pass : a_preflight_gets_the_headers_it_asked_for.
Proof. run_test. Qed.

Definition a_header_value_with_control_bytes_is_not_echoed : Prop :=
  let asked := "authorization" +:+ String (byte_of 127) EmptyString in
  value (ok_extra (from_request (with_cors None) (request [("Access-Control-Request-Headers", asked)])))
    "access-control-allow-headers" = Some DEFAULT_ALLOW_HEADERS.
Example a_header_value_with_control_bytes_is_not_echoed_pass : a_header_value_with_control_bytes_is_not_echoed.
Proof. run_test. Qed.

Definition only_a_failure_is_marked_uncacheable : Prop :=
  let headers := from_request (with_cors None) (request []) in
  value (ok_extra headers) "cache-control" = None /\ value (error_extra headers) "cache-control" = Some "no-store".
Example only_a_failure_is_marked_uncacheable_pass : only_a_failure_is_marked_uncacheable.
Proof. run_test. Qed.

Definition the_first_of_two_origins_decides : Prop :=
  let extra := ok_extra (from_request listed
    (request [("Origin", "https://evil.example.com"); ("Origin", "https://app.example.com")])) in
  value extra "access-control-allow-origin" = None.
Example the_first_of_two_origins_decides_pass : the_first_of_two_origins_decides.
Proof. run_test. Qed.

Definition ends_with (suffix s : string) : bool := 
  let rev s := string_of_bytes (rev (bytes_of_string s)) in starts_with (rev suffix) (rev s).
Fixpoint matches (pattern s : string) : nat :=
  match s with
  | EmptyString => 0
  | String _ r => (if starts_with pattern s then 1 else 0) + matches pattern r
  end.

Definition a_plain_response_ends_the_head_exactly_once : Prop :=
  let text := plain_response "200 OK" [("Server", "test")] in
  starts_with ("HTTP/1.1 200 OK" +:+ CRLF) text = true
  /\ contains_str (CRLF +:+ "Server: test" +:+ CRLF) text = true
  /\ ends_with (CRLF +:+ CRLF) text = true
  /\ matches (CRLF +:+ CRLF) text = 1
  /\ contains_str (CRLF +:+ "Content-Length: 0" +:+ CRLF) text = true.
Example a_plain_response_ends_the_head_exactly_once_pass : a_plain_response_ends_the_head_exactly_once.
Proof. run_test. Qed.
End upgrader_tests.
