(* ===== verification/ServerTests.v ===== *)
(** * The tests of the server, run on the model

    The unit tests of [src/libs/ws/mcp.rs], [server.rs], [toolbox.rs], [session.rs],
    [headers.rs] and [src/libs/peer.rs]. *)

From S2P Require Import Prelude BMap Json ModelTypes JsonSchema ErrorCode Peer Message Outbound ServerConfig Limits Basics Toolbox Mcp Handler Headers Request Session Builder TestKit.

(** ** [mcp.rs] *)

Section mcp_tests.
(** [NoopHandler]: nothing is called. *)
Definition endpoint (name : string) (code : Z) (roles : list Z) : ws_endpoint unit :=
  let schema := with_description (endpoint_new name code [field_new "user_id" Int64] [field_new "ok" Boolean])
                  (name +:+ " endpoint") in
  WsEndpoint schema tt (list_to_set roles).

Definition build_mcp (handlers : gmap Z (ws_endpoint unit)) (info : server_info) : result mcp_state string :=
  default (Err "out of fuel") (mcp_build convert_case 20 registry_new handlers info).
Definition test_state : mcp_state :=
  match build_mcp (<[10030%Z := endpoint "AdminBanUser" 10030 [9]%Z]> (<[10020%Z := endpoint "UserListSymbols" 10020 [1; 2]%Z]> ∅))
          (McpServerInfo "test-server" "1.0.0") with
  | Ok s => s
  | Err _ => McpState [] ∅ (McpServerInfo "" "") ""
  end.

Abbreviation try_parse payload := (try_parse_jsonrpc read_json (fun _ => "") (json_text payload)).
(** [try_parse_jsonrpc(payload).unwrap().unwrap()]. *)
Definition parsed (payload : string) (P : rpc_request -> Prop) : Prop :=
  some! r <- try_parse payload in unwrap! req <- r in P req.
(** The response to a request. *)
Definition responded (payload : string) (roles : list Z) (P : json -> Prop) : Prop :=
  parsed payload (fun req => match route test_state req roles with Respond resp => P resp | _ => False end).

Definition detection_ignores_legacy_and_non_json : Prop :=
  try_parse "{'method':10020,'seq':1,'params':{}}" = None
  /\ try_parse "not json" = None
  /\ try_parse "{'jsonrpc':'1.0','method':'x'}" = None
  /\ (some! _ <- try_parse "{'jsonrpc':'2.0','method':'ping','id':1}" in True).
Example detection_ignores_legacy_and_non_json_pass : detection_ignores_legacy_and_non_json.
Proof. run_test. Qed.

Definition malformed_jsonrpc_yields_error_frame : Prop :=
  some! r <- try_parse "{'jsonrpc':'2.0','id':1}" in
  unwrap_err! err <- r in
  err./"error"./"code" = JInt INVALID_REQUEST /\ err./"id" = JNull.
Example malformed_jsonrpc_yields_error_frame_pass : malformed_jsonrpc_yields_error_frame.
Proof. run_test. Qed.

Definition id_round_trip : Prop :=
  parsed "{'jsonrpc':'2.0','id':'abc','method':'ping'}" (fun req => rpc_rid req = Some (Str "abc"))
  /\ parsed "{'jsonrpc':'2.0','id':7,'method':'ping'}" (fun req => rpc_rid req = Some (Num 7))
  /\ parsed "{'jsonrpc':'2.0','method':'ping'}" (fun req => is_notification req = true)
  /\ parsed "{'jsonrpc':'2.0','id':null,'method':'ping'}" (fun req => is_notification req = true).
Example id_round_trip_pass : id_round_trip.
Proof. run_test. Qed.

Definition error_code_mapping : Prop :=
  err_code (error_code_to_jsonrpc BAD_REQUEST (js "{}")) = INVALID_PARAMS
  /\ err_code (error_code_to_jsonrpc NOT_IMPLEMENTED (js "{}")) = METHOD_NOT_FOUND
  /\ err_code (error_code_to_jsonrpc INTERNAL_ERROR (js "{}")) = RPC_INTERNAL_ERROR
  /\ let err := error_code_to_jsonrpc FORBIDDEN (js "{ 'message': 'no' }") in
     err_code err = 100403%Z
     /\ (some! data <- err_data err in
         data./"kind" = JStr "Forbidden" /\ data./"appCode" = JInt 100403 /\ data./"message" = JStr "no").
Example error_code_mapping_pass : error_code_mapping.
Proof. run_test. Qed.

Definition initialize_golden : Prop :=
  responded "{'jsonrpc':'2.0','id':0,'method':'initialize','params':{}}" [] (fun resp =>
    resp = js "{ 'jsonrpc': '2.0', 'id': 0, 'result': {
        'protocolVersion': '2025-06-18', 'capabilities': { 'tools': {} },
        'serverInfo': { 'name': 'test-server', 'version': '1.0.0' } } }").
Example initialize_golden_pass : initialize_golden.
Proof. run_test. Qed.

Definition tools_list_filters_by_role : Prop :=
  responded "{'jsonrpc':'2.0','id':1,'method':'tools/list'}" [1]%Z (fun resp =>
    let tools := resp./"result"./"tools" in
    match tools with JArr l => length l = 1 | _ => False end
    /\ tools.#0./"name" = JStr "user_list_symbols"
    /\ tools.#0./"description" = JStr "UserListSymbols endpoint"
    /\ tools.#0./"inputSchema"./"required" = js "['userId']"
    /\ is_object tools.#0./"outputSchema" = true)
  /\ responded "{'jsonrpc':'2.0','id':2,'method':'tools/list'}" [] (fun resp => resp./"result"./"tools" = js "[]").
Example tools_list_filters_by_role_pass : tools_list_filters_by_role.
Proof. run_test. Qed.

Definition tools_call_routes_to_handler : Prop :=
  parsed "{'jsonrpc':'2.0','id':5,'method':'tools/call',
           'params':{'name':'user_list_symbols','arguments':{'userId':1}}}" (fun req =>
    route test_state req [1]%Z = ToolCall (Some (Num 5)) 10020 (js "{ 'userId': 1 }")).
Example tools_call_routes_to_handler_pass : tools_call_routes_to_handler.
Proof. run_test. Qed.

Definition tools_call_unknown_and_forbidden_are_uniform : Prop :=
  responded "{'jsonrpc':'2.0','id':1,'method':'tools/call','params':{'name':'nope'}}" [1]%Z (fun unknown =>
  responded "{'jsonrpc':'2.0','id':1,'method':'tools/call','params':{'name':'admin_ban_user'}}" [1]%Z (fun forbidden =>
    unknown./"error"./"code" = forbidden./"error"./"code"
    /\ unknown./"error"./"code" = JInt INVALID_PARAMS
    /\ (some! message <- as_str forbidden./"error"./"message" in starts_with "Unknown tool" message = true))).
Example tools_call_unknown_and_forbidden_are_uniform_pass : tools_call_unknown_and_forbidden_are_uniform.
Proof. run_test. Qed.

Definition notifications_are_ignored : Prop :=
  parsed "{'jsonrpc':'2.0','method':'notifications/initialized'}" (fun req => route test_state req [1]%Z = Ignore)
  /\ parsed "{'jsonrpc':'2.0','method':'bogus'}" (fun req => route test_state req [1]%Z = Ignore)
  /\ responded "{'jsonrpc':'2.0','id':1,'method':'bogus'}" [1]%Z (fun resp =>
       resp./"error"./"code" = JInt METHOD_NOT_FOUND).
Example notifications_are_ignored_pass : notifications_are_ignored.
Proof. run_test. Qed.

Definition tool_result_encoding : Prop :=
  let ok := encode_tool_result write_json (js "{ 'ok': true }") in
  let err := encode_tool_error CONFLICT (js "{ 'kind': 'UsernameTaken', 'message': 'username taken' }") in
  ok./"isError" = JBool false
  /\ ok./"structuredContent" = js "{ 'ok': true }"
  /\ ok./"content".#0./"type" = JStr "text"
  /\ err./"isError" = JBool true
  /\ err./"content".#0./"text" = JStr "username taken"
  /\ err./"structuredContent"./"error"./"kind" = JStr "Conflict".
Example tool_result_encoding_pass : tool_result_encoding.
Proof. run_test. Qed.

Definition duplicate_tool_names_rejected : Prop :=
  let handlers := <[2%Z := endpoint "UserGetInfo" 2 [1]%Z]> (<[1%Z := endpoint "UserGetInfo" 1 [1]%Z]> ∅) in
  unwrap_err! _ <- build_mcp handlers (McpServerInfo "x" "0") in True.
Example duplicate_tool_names_rejected_pass : duplicate_tool_names_rejected.
Proof. run_test. Qed.

Definition streaming_endpoints_are_annotated : Prop :=
  let ep := endpoint "PriceWatch" 1 [1]%Z in
  let ep := WsEndpoint (with_stream_response_type (we_schema ep) Float64) tt (we_allowed_roles ep) in
  unwrap! state <- build_mcp (<[1%Z := ep]> ∅) (McpServerInfo "x" "0") in
  some! tool <- head (tools state) in
  t_streaming tool = true /\ contains_str "not delivered over MCP" (t_description tool) = true.
Example streaming_endpoints_are_annotated_pass : streaming_endpoints_are_annotated.
Proof. run_test. Qed.
End mcp_tests.

(** ** [server.rs] *)

Section server_tests.
(** The configurations of the tests: the default one, with some fields changed. *)
Definition tune (mcp_only : bool) (max_connections warn_connections max_inflight warn_bytes : option nat)
    (warn_time : option Z) (on_limit : bool) : ws_server_config :=
  let d := config_default in
  WsServerConfig (cfg_name d) (address d) (pub_certs d) (priv_key d) (insecure d) (debug d)
    (message_buffer_size d) (drop_conn_on_buffer_full d) (header_only d) (allow_cors_urls d) (server_name d) mcp_only
    max_connections (max_message_bytes d) max_inflight (request_timeout d) (handshake_timeout d)
    (idle_timeout d) warn_connections warn_bytes (warn_inflight_requests d) warn_time on_limit.

Definition mcp_only_requires_the_mcp_router : Prop :=
  let srv : @server unit unit unit unit unit := server_new (tune true (Some 1024) None (Some 32) None None false) in
  let validate (s : @server unit unit unit unit unit) :=
    is_ok (validate_protocol_mode (sv_config s) (bool_decide (is_Some (sv_mcp s)))) in
  validate srv = false
  /\ match enable_mcp convert_case 20 registry_new (McpServerInfo "test" "0") srv with
     | Some (Ok _, srv) => validate srv = true
     | _ => False
     end.
Example mcp_only_requires_the_mcp_router_pass : mcp_only_requires_the_mcp_router.
Proof. run_test. Qed.

Definition recording : ws_server_config :=
  tune false (Some 2) (Some 2) (Some 1) (Some 10) (Some 5000000%Z) true.

(** Acquisitions one after the other, with the events they raise. *)
Fixpoint acquire_n (config : ws_server_config) (limit : string) (n : nat) (s : limit_state)
    : list bool * limit_state * list limit_event :=
  match n with
  | O => ([], s, [])
  | S n =>
      let '(ok, s, e1) := acquire config limit s in
      let '(oks, s, e2) := acquire_n config limit n s in
      (ok :: oks, s, e1 ++ e2)
  end.

Definition connections_warn_then_refuse : Prop :=
  let '(oks, state, events) := acquire_n recording "connections" 3 limit_default in
  oks = [true; true; false]
  /\ map (fun e => (le_limit e, le_kind e)) events = [("connections", Warn); ("connections", Refuse)]
  /\ connections state = 2.
Example connections_warn_then_refuse_pass : connections_warn_then_refuse.
Proof. run_test. Qed.

Definition inflight_slot_is_released_on_drop : Prop :=
  let '(slot, state, _) := acquire_request recording limit_default in
  let '(busy, state, _) := acquire_request recording state in
  some! slot <- slot in
  let '(freed, _, _) := acquire_request recording (slot_drop slot state) in
  busy = None /\ bool_decide (is_Some freed) = true.
Example inflight_slot_is_released_on_drop_pass : inflight_slot_is_released_on_drop.
Proof. run_test. Qed.

Definition message_and_request_time_warn_once : Prop :=
  let '(s, e1) := observe_message recording 4 limit_default in
  let '(s, e2) := observe_message recording 12 s in
  let '(s, e3) := observe_message recording 20 s in
  let '(s, e4) := observe_request_time recording 9000000 s in
  let '(s, e5) := observe_request_time recording 9000000 s in
  map le_limit (e1 ++ e2 ++ e3 ++ e4 ++ e5) = ["message_bytes"; "request_time"].
Example message_and_request_time_warn_once_pass : message_and_request_time_warn_once.
Proof. run_test. Qed.

Definition no_limits_means_no_refusals : Prop :=
  forallb id (acquire_n config_default "connections" 1000 limit_default).1.1 = true.
Example no_limits_means_no_refusals_pass : no_limits_means_no_refusals.
Proof. run_test. Qed.
End server_tests.

(** ** [toolbox.rs] *)

Section toolbox_tests.
(** A connection registered as 7 with queue [q], and a toolbox with the two policies. *)
Definition registered (q : @inner wire_message) : world unit := states_insert 7 q (World ∅ ∅ limit_default []).
Definition tools_with (oneshot drop_on_full : bool) : toolbox := set_ws_states toolbox_new oneshot drop_on_full.
Definition queued (capacity : nat) (texts : list string) : @inner wire_message :=
  fold_left (fun q s => (try_send q (Text (bytes_of_string s))).1.2) texts (channel capacity).
(** [send_raw(7, "next")], and what is seen of connection 7 afterwards: the policy flag and
    the frames its session receives. *)
Definition after_send_raw (t : toolbox) (q : @inner wire_message) : option (bool * bool * list wire_message) :=
  let '(sent, w) := send_raw t (registered q) 7 "next" in
  option_map (fun s => (sent, end_flag s, queue (message_queue s))) (get_state 7 w).

Definition buffer_full_policy_cancels_without_a_free_slot : Prop :=
  after_send_raw (tools_with false true) (queued 1 ["queued"]) = Some (true, true, [Text (bytes_of_string "queued")]).
Example buffer_full_policy_cancels_without_a_free_slot_pass : buffer_full_policy_cancels_without_a_free_slot.
Proof. run_test. Qed.

Definition header_only_cancels_even_when_the_frame_fits : Prop :=
  after_send_raw (tools_with true false) (queued 4 []) = Some (true, true, [Text (bytes_of_string "next"); Close None]).
Example header_only_cancels_even_when_the_frame_fits_pass : header_only_cancels_even_when_the_frame_fits.
Proof. run_test. Qed.

Definition a_cloned_sender_does_not_move_the_full_depth : Prop :=
  after_send_raw (tools_with false true) (sender_clone (queued 1 ["queued"])) = Some (true, true, [Text (bytes_of_string "queued")]).
Example a_cloned_sender_does_not_move_the_full_depth_pass : a_cloned_sender_does_not_move_the_full_depth.
Proof. run_test. Qed.

Definition a_full_buffer_without_the_policy_does_not_cancel : Prop :=
  option_map (fun r => (r.1.1, r.1.2)) (after_send_raw (tools_with false false) (queued 1 ["queued"])) = Some (true, false).
Example a_full_buffer_without_the_policy_does_not_cancel_pass : a_full_buffer_without_the_policy_does_not_cancel.
Proof. run_test. Qed.

(** A read of [TOOLBOX] around and inside two polls of a scoped future; the slot is
    carried from each poll to the next. *)
Definition see : poll_tree := PTryWith PReturn PReturn.
Definition scope_sees_the_toolbox_on_every_poll_and_clears_it_after : Prop :=
  let outside := see in
  let poll := PScope 5 see PReturn in
  let '(slot, reads, p1) := run_poll outside None [] in
  let '(slot, reads, p2) := run_poll poll slot reads in
  let '(slot, reads, p3) := run_poll outside slot reads in
  let '(slot, reads, p4) := run_poll poll slot reads in
  let '(slot, reads, p5) := run_poll outside slot reads in
  reads = [None; Some 5%Z; None; Some 5%Z; None] /\ slot = None /\ [p1; p2; p3; p4; p5] = replicate 5 false.
Example scope_sees_the_toolbox_on_every_poll_and_clears_it_after_pass : scope_sees_the_toolbox_on_every_poll_and_clears_it_after.
Proof. run_test. Qed.

Definition dropping_a_pending_scope_leaves_the_slot_empty : Prop :=
  let '(slot, _, _) := run_poll (PScope 5 PReturn PReturn) None [] in
  run_poll see slot [] = (None, [None], false).
Example dropping_a_pending_scope_leaves_the_slot_empty_pass : dropping_a_pending_scope_leaves_the_slot_empty.
Proof. run_test. Qed.

Definition scope_is_the_same_toolbox_after_an_await : Prop :=
  let poll := PScope 5 see PReturn in
  let '(slot, reads, _) := run_poll poll None [] in
  let '(slot, reads, _) := run_poll poll slot reads in
  reads = [Some 5%Z; Some 5%Z] /\ run_poll see slot [] = (None, [None], false).
Example scope_is_the_same_toolbox_after_an_await_pass : scope_is_the_same_toolbox_after_an_await.
Proof. run_test. Qed.
End toolbox_tests.

(** ** [session.rs] *)

Section session_tests.
Definition check_roles_allowed : Prop :=
  let allowed_roles : gset Z := {[1; 2; 3]}%Z in
  check_roles [1]%Z allowed_roles = true /\ check_roles [2]%Z allowed_roles = true
  /\ check_roles [1; 2]%Z allowed_roles = true /\ check_roles [4; 2]%Z allowed_roles = true
  /\ check_roles [4]%Z allowed_roles = false.
Example check_roles_allowed_pass : check_roles_allowed.
Proof. run_test. Qed.

Definition check_roles_empty : Prop := check_roles [1]%Z ∅ = false.
Example check_roles_empty_pass : check_roles_empty.
Proof. run_test. Qed.

Definition closed_outbound_is_not_a_frame : Prop :=
  classify_outbound None = OutClosed
  /\ match classify_outbound (Some (Text (bytes_of_string "hi"))) with Frame _ => True | _ => False end.
Example closed_outbound_is_not_a_frame_pass : closed_outbound_is_not_a_frame.
Proof. run_test. Qed.

Definition a_ready_handler_beats_a_ready_inbound : Prop :=
  priority4 (O := unit) (Some "handler") None (Some "inbound") (Some tt) = Some (ArmHandler "handler").
Example a_ready_handler_beats_a_ready_inbound_pass : a_ready_handler_beats_a_ready_inbound.
Proof. run_test. Qed.

Definition an_absent_handler_does_not_take_the_arm : Prop :=
  priority4 (H := unit) (I := unit) (E := unit) None (Some "outbound") None None = Some (ArmOutbound "outbound").
Example an_absent_handler_does_not_take_the_arm_pass : an_absent_handler_does_not_take_the_arm.
Proof. run_test. Qed.

Definition outbound_beats_inbound_and_both_beat_the_flag : Prop :=
  priority4 (H := unit) None (Some "outbound") (Some "inbound") (Some tt) = Some (ArmOutbound "outbound")
  /\ priority4 (H := unit) (O := unit) None None (Some "inbound") (Some tt) = Some (ArmInbound "inbound").
Example outbound_beats_inbound_and_both_beat_the_flag_pass : outbound_beats_inbound_and_both_beat_the_flag.
Proof. run_test. Qed.

(** A stream that accepts frames and never has one ([PendingStream]), under a default server. *)
Definition pending_stream : tick := Tick 0 (Ok tt) [] None.
Definition test_conn : ws_connection unit := WsConnection 1 0 [] Unknown ext_new 0.
Definition default_server : @server unit unit unit unit unit := server_new config_default.
Definition run_session (w : world unit) (n : nat) (env : world unit -> world unit) : phase :=
  (act_value (run (fun _ => Err "") (fun _ => "") (fun _ => None) (fun _ => "") (fun _ => Err "")
     default_server test_conn 7 0 (replicate n (pending_stream, env)) w)).1.
Definition session_world (q : @inner wire_message) : world unit := states_insert 1 q (World ∅ ∅ limit_default []).

Definition dropping_the_outbound_sender_ends_the_session : Prop :=
  match run_session (session_world (sender_drop (channel 1)).1) 3 id with PExit _ => True | _ => False end.
Example dropping_the_outbound_sender_ends_the_session_pass : dropping_the_outbound_sender_ends_the_session.
Proof. run_test. Qed.

(** The flag is set once the session waits. *)
Definition flag (w : world unit) : world unit :=
  match get_state 1 w with Some s => put_state w 1 (WsStreamState (message_queue s) true) | None => w end.
Definition policy_flag_ends_a_session_blocked_on_recv : Prop :=
  run_session (session_world (channel 1)) 3 id = PSelect
  /\ match run_session (session_world (channel 1)) 4 flag with PExit _ => True | _ => False end.
Example policy_flag_ends_a_session_blocked_on_recv_pass : policy_flag_ends_a_session_blocked_on_recv.
Proof. run_test. Qed.
End session_tests.

(** ** [headers.rs] *)

Section headers_tests.
(** The map holds exactly these entries. *)
Definition parses (header : string) (entries : list (string * string)) : Prop :=
  bool_decide (parse_protocol_header header = list_to_map entries) = true.

Definition parse_empty_header : Prop := parses "" [].
Example parse_empty_header_pass : parse_empty_header.
Proof. run_test. Qed.
Definition parse_single_method : Prop := parses "0my_endpoint" [("0", "my_endpoint")].
Example parse_single_method_pass : parse_single_method.
Proof. run_test. Qed.
Definition parse_method_and_token : Prop := parses "0login,1abc123" [("0", "login"); ("1", "abc123")].
Example parse_method_and_token_pass : parse_method_and_token.
Proof. run_test. Qed.
Definition parse_multiple_params : Prop :=
  parses "0my_endpoint,1token_value,2user_123,3extra"
    [("0", "my_endpoint"); ("1", "token_value"); ("2", "user_123"); ("3", "extra")].
Example parse_multiple_params_pass : parse_multiple_params.
Proof. run_test. Qed.
Definition parse_whitespace_tolerance : Prop :=
  parses "0method, 1value , 2another" [("0", "method"); ("1", "value"); ("2", "another")].
Example parse_whitespace_tolerance_pass : parse_whitespace_tolerance.
Proof. run_test. Qed.
Definition parse_empty_segments_filtered : Prop := parses "0method,,1value" [("0", "method"); ("1", "value")].
Example parse_empty_segments_filtered_pass : parse_empty_segments_filtered.
Proof. run_test. Qed.
Definition parse_leading_trailing_commas : Prop := parses ",0method,1value," [("0", "method"); ("1", "value")].
Example parse_leading_trailing_commas_pass : parse_leading_trailing_commas.
Proof. run_test. Qed.
Definition parse_comma_in_value : Prop := parses "0method,1val,ue" [("0", "method"); ("1", "val")].
Example parse_comma_in_value_pass : parse_comma_in_value.
Proof. run_test. Qed.

(** The strings of the test, as their UTF-8 bytes. *)
Definition malformed_unicode_and_non_digit_discriminators_are_ignored : Prop :=
  Forall (fun header => parses header []) ["éx"; "🦀"; " , , "; "xvalue"; "０method"]
  /\ parses "éx,0first,1héllo world,0last" [("0", "last"); ("1", "héllo world")].
Example malformed_unicode_and_non_digit_discriminators_are_ignored_pass :
  malformed_unicode_and_non_digit_discriminators_are_ignored.
Proof. split; [repeat constructor|]; run_test. Qed.
End headers_tests.

(** ** [peer.rs] *)

Section peer_tests.
Definition test_addr : socket_addr := SocketAddr (V4 203 0 113 7) 9000.
(** [Display] of an IPv4 socket address. *)
Definition show_addr (a : socket_addr) : string :=
  match sa_ip a with
  | V4 a0 b c d => pretty a0 +:+ "." +:+ pretty b +:+ "." +:+ pretty c +:+ "." +:+ pretty d +:+ ":" +:+ pretty (sa_port a)
  | V6 _ => ""
  end.

Definition network_peer_reports_its_own_ip : Prop :=
  let peer := Network test_addr in
  peer_ip_addr peer = sa_ip test_addr /\ peer_socket_addr peer = test_addr
  /\ peer_display show_addr peer = "203.0.113.7:9000" /\ peer_attestation peer = None.
Example network_peer_reports_its_own_ip_pass : network_peer_reports_its_own_ip.
Proof. run_test. Qed.

Definition local_peer_reports_loopback_and_keeps_attestation : Prop :=
  let peer := Local (LocalPeer (Some 42%Z) (Some 501%Z) (Verified "xpc-codesign-requirement" "identifier agentone")) in
  peer_ip_addr peer = LOCALHOST
  /\ (some! a <- peer_attestation peer in is_verified a = true)
  /\ peer_display show_addr peer = "local(pid=42,xpc-codesign-requirement)".
Example local_peer_reports_loopback_and_keeps_attestation_pass : local_peer_reports_loopback_and_keeps_attestation.
Proof. run_test. Qed.

Definition unattested_local_peer_is_visible_as_such : Prop :=
  let peer := Local (LocalPeer None None AttestNone) in
  (some! a <- peer_attestation peer in is_verified a = false)
  /\ peer_display show_addr peer = "local(pid=?,unattested)".
Example unattested_local_peer_is_visible_as_such_pass : unattested_local_peer_is_visible_as_such.
Proof. run_test. Qed.

(** [Claims] has type 3. *)
Definition extensions_round_trip_by_type : Prop :=
  let ext := ext_new (V := string) in
  let '(ext1, first) := ext_insert 3 "mission-1" ext in
  let '(ext2, prev) := ext_insert 3 "mission-2" ext1 in
  let '(ext3, removed) := ext_remove 3 ext2 in
  ext_is_empty ext = true /\ ext_get 3 ext = None
  /\ first = None /\ ext_get 3 ext1 = Some "mission-1" /\ ext_contains 3 ext1 = true
  /\ prev = Some "mission-1" /\ ext_get 3 ext2 = Some "mission-2"
  /\ removed = Some "mission-2" /\ ext_is_empty ext3 = true.
Example extensions_round_trip_by_type_pass : extensions_round_trip_by_type.
Proof. run_test. Qed.
End peer_tests.
