(* ===== verification/LogTests.v ===== *)
(** * The tests of the logs and the small utilities, run on the model

    The unit tests of [src/libs/log/level_filter.rs], [src/libs/log.rs],
    [src/libs/log/error_aggregation.rs], [src/libs/log_reader.rs], [src/libs/signal.rs],
    [src/libs/ws/subs.rs], [src/libs/ws/mcp_wire.rs] and [src/libs/utils.rs], and the
    check of [examples/config-log-acceptance.rs].  The source calls the regex and
    tracing crates there; the concrete functions in their place come first. *)

From S2P Require Import Prelude BMap Json ModelTypes JsonSchema Peer Basics Toolbox Handler Push LogLevel Aggregation LogSetup LogReader Signal Subs McpWire Small Config TestKit.

(** ** Regular expressions

    A backtracking matcher for the syntax the source uses: classes, groups, [|], [?],
    [*], [+], counts and word boundaries; the leftmost match, alternatives in order,
    repetition greedy. *)

Section regex.
Inductive re := RSet (f : ascii -> bool) | RSeq (a b : re) | RAlt (a b : re) | RStar (a : re) | REps | RBound.

Definition word_char (c : ascii) : bool := is_alnum c || Ascii.eqb c "_".
Definition at_word (o : option ascii) : bool := match o with Some c => word_char c | None => false end.

(** [prev]: the character before; [k]: what must match next. *)
Fixpoint re_match (fuel : nat) (r : re) (prev : option ascii) (s : bytes) (k : option ascii -> bytes -> option bytes) : option bytes :=
  match fuel with
  | O => None
  | S fuel =>
      match r with
      | REps => k prev s
      | RBound => if xorb (at_word prev) (at_word (head s)) then k prev s else None
      | RSet f => match s with c :: s => if f c then k (Some c) s else None | [] => None end
      | RSeq a b => re_match fuel a prev s (fun prev s => re_match fuel b prev s k)
      | RAlt a b => match re_match fuel a prev s k with Some r => Some r | None => re_match fuel b prev s k end
      | RStar a =>
          match re_match fuel a prev s (fun prev s' => if Nat.ltb (length s') (length s) then re_match fuel r prev s' k else None) with
          | Some r => Some r
          | None => k prev s
          end
      end
  end.

Fixpoint re_count (n : nat) (r : re) : re := match n with O => REps | S n => RSeq r (re_count n r) end.
Fixpoint re_upto (n : nat) (r : re) : re := match n with O => REps | S n => RAlt (RSeq r (re_upto n r)) REps end.

Definition escape (c : ascii) : re :=
  if Ascii.eqb c "d" then RSet is_digit else if Ascii.eqb c "w" then RSet word_char
  else if Ascii.eqb c "s" then RSet is_space else if Ascii.eqb c "b" then RBound else RSet (Ascii.eqb c).
Definition accepts (r : re) (c : ascii) : bool := match r with RSet f => f c | _ => false end.

(** The items of a class, after the bracket. *)
Fixpoint read_class (fuel : nat) (s : bytes) (f : ascii -> bool) : option (re * bytes) :=
  match fuel, s with
  | S fuel, "]"%char :: s => Some (RSet f, s)
  | S fuel, "\"%char :: c :: s => read_class fuel s (fun x => f x || accepts (escape c) x)
  | S fuel, a :: "-"%char :: b :: s =>
      if Ascii.eqb b "]" then Some (RSet (fun x => f x || Ascii.eqb x a || Ascii.eqb x "-"), s)
      else read_class fuel s (fun x => f x || in_range (byte_val a) (byte_val b) x)
  | S fuel, a :: s => read_class fuel s (fun x => f x || Ascii.eqb x a)
  | _, _ => None
  end.

(** What follows an atom. *)
Definition read_postfix (r : re) (s : bytes) : re * bytes :=
  match s with
  | "?"%char :: s => (RAlt r REps, s)
  | "*"%char :: s => (RStar r, s)
  | "+"%char :: s => (RSeq r (RStar r), s)
  | "{"%char :: s =>
      match read_digits s 0 with
      | (n, ","%char :: s) => let '(m, s) := read_digits s 0 in (RSeq (re_count (Z.to_nat n) r) (re_upto (Z.to_nat (m - n)) r), tail s)
      | (n, s) => (re_count (Z.to_nat n) r, tail s)
      end
  | _ => (r, s)
  end.

Fixpoint read_re (fuel : nat) (s : bytes) : option (re * bytes) :=
  match fuel with
  | O => None
  | S fuel =>
      let atom := match s with
        | [] | ")"%char :: _ | "|"%char :: _ => None
        | "("%char :: "?"%char :: ":"%char :: s => match read_re fuel s with Some (r, _ :: s) => Some (r, s) | _ => None end
        | "["%char :: s => read_class (length s) s (fun _ => false)
        | "\"%char :: c :: s => Some (escape c, s)
        | c :: s => Some (RSet (Ascii.eqb c), s)
        end in
      match atom, s with
      | Some (r, s), _ =>
          let '(r, s) := read_postfix r s in
          match read_re fuel s with
          (* the atom belongs to the first alternative of what follows *)
          | Some (RAlt (RSeq REps a) b, s) => Some (RAlt (RSeq REps (RSeq r a)) b, s)
          | Some (a, s) => Some (RSeq r a, s)
          | None => None
          end
      | None, "|"%char :: s => match read_re fuel s with Some (b, s) => Some (RAlt (RSeq REps REps) b, s) | None => None end
      | None, _ => Some (REps, s)
      end
  end.

Fixpoint replace_matches (fuel : nat) (r : re) (prev : option ascii) (s replacement : bytes) : bytes :=
  match fuel, s with
  | S fuel, c :: s' =>
      match re_match (20 + 12 * length s) r prev s (fun _ rest => Some rest) with
      | Some rest =>
          if Nat.ltb (length rest) (length s)
          then replacement ++ replace_matches fuel r (last (take (length s - length rest) s)) rest replacement
          else c :: replace_matches fuel r (Some c) s' replacement
      | None => c :: replace_matches fuel r (Some c) s' replacement
      end
  | _, s => s
  end.

(** [Regex::replace_all]. *)
Definition replace_all (pattern text replacement : string) : string :=
  let p := bytes_of_string pattern in let s := bytes_of_string text in
  match read_re (S (length p)) p with
  | Some (r, []) => string_of_bytes (replace_matches (length s) r None s (bytes_of_string replacement))
  | _ => text
  end.
End regex.

(** ** [error_aggregation.rs] *)

Section aggregation_tests.
Abbreviation normalized := (normalize_message replace_all).

Definition test_message_normalization : Prop :=
  normalized "Failed to connect to 192.168.1.1" = "Failed to connect to <IP>"
  /\ normalized "User 550e8400-e29b-41d4-a716-446655440000 not found" = "User <UUID> not found"
  /\ normalized "Error on line 42" = "Error on line <NUM>"
  /\ normalized "Failed to read /var/log/app.log" = "Failed to read <PATH>"
  /\ normalized "Memory address 0xdeadbeef" = "Memory address <HEX>"
  /\ normalized "Connection to 10.0.0.1:8080 failed at /home/user/file.txt"
     = "Connection to <IP>:<NUM> failed at <PATH>".
Example test_message_normalization_pass : test_message_normalization.
Proof. run_test. Qed.

(** The container once the task has received what was sent. *)
Definition received (limit : nat) (normalize : bool) (entries : list error_entry) : container :=
  fold_left (container_step normalized map_to_list)
    (map OSend entries ++ repeat OTurn (length entries)) (container_new (AggregationConfig limit normalize)).
Definition entry (message target : string) (timestamp : Z) : error_entry := ErrorEntry message timestamp target 1.
(** [Error 0], [Error 1], .. *)
Definition errors_to (n : nat) : list error_entry :=
  map (fun i => entry ("Error " +:+ pretty i) "test" (Z.of_nat i)) (seq 0 n).
Definition messages (l : list error_entry) : list string := map ee_message l.

Definition test_raw_mode_eviction : Prop :=
  let c := received 3 false (errors_to 4) in
  let errors := get_all_errors map_to_list (ct_config c) (ct_storage c) in
  messages errors = ["Error 3"; "Error 2"; "Error 1"] /\ (ee_count <$> head errors) = Some 1.
Example test_raw_mode_eviction_pass : test_raw_mode_eviction.
Proof. run_test. Qed.

Definition test_normalized_mode_counting : Prop :=
  let c := received 10 true [entry "Connection failed to 192.168.1.1" "network" 1000;
                             entry "Connection failed to 10.0.0.1" "network" 2000] in
  error_count (ct_storage c) = 1
  /\ match get_stats map_to_list (ct_storage c) 10 0 with
     | [stats] => es_count stats = 2 /\ es_last_seen stats = 2000%Z /\ es_first_seen stats = 1000%Z
     | _ => False
     end.
Example test_normalized_mode_counting_pass : test_normalized_mode_counting.
Proof. run_test. Qed.

Definition test_pagination : Prop :=
  let c := received 100 false (errors_to 50) in
  let page1 := get_errors map_to_list (ct_storage c) 10 0 None in
  let page2 := get_errors map_to_list (ct_storage c) 10 10 None in
  length page1 = 10 /\ length page2 = 10
  /\ messages page1 !! 0 = Some "Error 49" /\ messages page1 !! 9 = Some "Error 40"
  /\ messages page2 !! 0 = Some "Error 39" /\ messages page2 !! 9 = Some "Error 30".
Example test_pagination_pass : test_pagination.
Proof. run_test. Qed.

Definition test_normalized_mode_eviction : Prop :=
  let c := received 2 true [entry "Error type A" "test" 1000; entry "Error type B" "test" 2000; entry "Error type C" "test" 3000] in
  let any p := existsb (fun s => contains_str p (es_message s)) (get_stats map_to_list (ct_storage c) 10 0) in
  error_count (ct_storage c) = 2 /\ any "type A" = false /\ any "type B" = true /\ any "type C" = true.
Example test_normalized_mode_eviction_pass : test_normalized_mode_eviction.
Proof. run_test. Qed.

Definition test_clear : Prop :=
  let c := received 10 false (errors_to 5) in
  error_count (ct_storage c) = 5 /\ error_count (ct_storage (container_clear c)) = 0.
Example test_clear_pass : test_clear.
Proof. run_test. Qed.

Definition test_get_latest : Prop :=
  let c := received 100 false (errors_to 20) in
  let latest := messages (get_latest map_to_list (ct_storage c) 10) in
  length latest = 10 /\ latest !! 0 = Some "Error 19" /\ latest !! 9 = Some "Error 10".
Example test_get_latest_pass : test_get_latest.
Proof. run_test. Qed.
End aggregation_tests.

(** ** [level_filter.rs] *)

Section filter_tests.
(** [EnvFilter]: a directive replaces the one for the same target, the longest target
    that a name starts with decides, and the filter displays from the longest target to
    the base level. *)
Definition level_name (l : tlevel) : string :=
  match l with TRACE => "trace" | DEBUG => "debug" | INFO => "info" | WARN => "warn" | ERROR => "error" end.
Definition target_of (d : directive) : string := default "" (d_target d).
Fixpoint add_directive (l : list directive) (d : directive) : list directive :=
  match l with
  | [] => [d]
  | e :: l =>
      if String.eqb (target_of e) (target_of d) then d :: l
      else if Nat.ltb (String.length (target_of e)) (String.length (target_of d)) then d :: e :: l
      else e :: add_directive l d
  end.
Definition env_filter (calls : list directive) : list directive := fold_left add_directive calls [].
Definition enabled (filter : list directive) (target : string) (level : tlevel) : bool :=
  match List.find (fun d => starts_with (target_of d) target) filter with
  | Some d => allows (LF (d_level d)) level
  | None => false
  end.
Definition directive_text (d : directive) : string :=
  match d_target d with Some t => t +:+ "=" +:+ level_name (d_level d) | None => level_name (d_level d) end.
Definition filter_text (level : log_level) : string :=
  String.concat "," (map directive_text (env_filter (build_env_filter level))).

Definition test_filter_string_format : Prop :=
  let debug_str := filter_text Debug in
  let info_str := filter_text Info in
  let error_str := filter_text Error in
  let trace_str := filter_text Trace in
  let detail_str := filter_text Detail in
  contains_str "h2=warn" debug_str = true
  /\ contains_str "tungstenite::protocol=debug" debug_str = false
  /\ contains_str "debug" debug_str = true
  /\ starts_with "info" info_str = true /\ contains_str "h2=" info_str = false
  /\ starts_with "error" error_str = true /\ contains_str "h2=" error_str = false
  /\ contains_str "tungstenite::protocol=debug" trace_str = true
  /\ contains_str "h2=warn" trace_str = true
  /\ contains_str "opentelemetry=warn" trace_str = true
  /\ contains_str "trace" trace_str = true
  /\ starts_with "trace" detail_str = true /\ contains_str "h2=" detail_str = false.
Example test_filter_string_format_pass : test_filter_string_format.
Proof. run_test. Qed.

Definition test_level_ordering : Prop :=
  is_more_restrictive ERROR WARN = true /\ is_more_restrictive WARN INFO = true
  /\ is_more_restrictive INFO DEBUG = true /\ is_more_restrictive DEBUG TRACE = true
  /\ is_more_restrictive TRACE DEBUG = false /\ is_more_restrictive DEBUG INFO = false
  /\ is_more_restrictive INFO WARN = false /\ is_more_restrictive WARN ERROR = false.
Example test_level_ordering_pass : test_level_ordering.
Proof. run_test. Qed.

(** What the events of a test come to: the target, the level and whether it appears. *)
Definition appears (level : log_level) (events : list (string * tlevel)) : list bool :=
  map (fun e => enabled (env_filter (build_env_filter level)) e.1 e.2) events.

(** The text of the last event, INFO from h2, says that it should appear; but the cap
    of the OTel crates has replaced the INFO directive of h2, as
    [test_filter_string_format] asserts. *)
Definition test_min_logic_filters_verbose_crates : Prop :=
  appears Debug [("endpoint_libs", DEBUG); ("endpoint_libs", INFO); ("endpoint_libs", WARN); ("endpoint_libs", ERROR);
                 ("tungstenite::protocol", DEBUG); ("tungstenite::protocol", INFO); ("h2", DEBUG); ("h2", INFO)]
  = [true; true; true; true; true; true; false; false].
Example test_min_logic_filters_verbose_crates_pass : test_min_logic_filters_verbose_crates.
Proof. run_test. Qed.

Definition test_no_directives_applied_at_info_level : Prop :=
  appears Info [("endpoint_libs", DEBUG); ("endpoint_libs", INFO); ("endpoint_libs", WARN); ("endpoint_libs", ERROR);
                ("tungstenite::protocol", DEBUG); ("tungstenite::protocol", INFO); ("h2", DEBUG); ("h2", INFO); ("h2", WARN)]
  = [false; true; true; true; false; true; false; true; true].
Example test_no_directives_applied_at_info_level_pass : test_no_directives_applied_at_info_level.
Proof. run_test. Qed.
End filter_tests.

(** ** [log.rs] *)

Section log_tests.
(** Both features on, and builders that accept. *)
Abbreviation setup_logging := (build_logging_subscriber true true "2024-05-18" (fun _ => Ok tt) (fun _ => true)).

Definition config (file_prefix : option string) (otel : otel_config) (throttling : option log_throttling_config) : logging_config :=
  LoggingConfig Info ((fun p => FileLoggingConfig "/tmp" (Some p) None) <$> file_prefix) otel (AggregationConfig 100 true) throttling.
Definition otel_to (endpoint : string) : otel_config := OtelConfig true None (Some endpoint) ∅.

(** A message of a test, with its level, goes to the file when there is one and the
    global filter lets it through. *)
Definition logged (parts : subscriber_parts) (m : tlevel * string) : list string :=
  match sp_file parts with
  | Some _ => if enabled (env_filter (sp_filter parts)) "endpoint_libs" m.1 then [m.2] else []
  | None => []
  end.
Definition file_after (parts : subscriber_parts) (before : list (tlevel * string)) (reload : log_level) (after : list (tlevel * string))
    : result unit string * list string :=
  let '(r, parts') := set_log_level (Ok tt) reload parts in
  (r, flat_map (logged parts) before ++ flat_map (logged parts') after).

Definition test_basic_logging_stdout : Prop :=
  some! '(r, _) <- setup_logging (config None otel_default (Some throttling_default)) in unwrap! _ <- r in True.
Example test_basic_logging_stdout_pass : test_basic_logging_stdout.
Proof. run_test. Qed.

Definition test_file_logging_comprehensive : Prop :=
  some! '(r, _) <- setup_logging (config (Some "test") otel_default (Some throttling_default)) in
  unwrap! log_setup <- r in
  file_after log_setup
    [(INFO, "info_message_before_reload"); (DEBUG, "debug_message_before_reload"); (ERROR, "error_message")] Debug
    [(INFO, "info_message_after_reload"); (DEBUG, "debug_message_after_reload")]
  = (Ok tt, ["info_message_before_reload"; "error_message"; "info_message_after_reload"; "debug_message_after_reload"]).
Example test_file_logging_comprehensive_pass : test_file_logging_comprehensive.
Proof. run_test. Qed.

(** It is warned about once. *)
Definition enabling_otel_is_accepted_and_changes_nothing : Prop :=
  some! '(r, _) <- setup_logging (config None (otel_to "http://nonexistent.invalid:4317") None) in
  unwrap! parts <- r in
  length (sp_warnings parts) = 1
  /\ (some! '(plain, _) <- setup_logging (config None otel_default None) in
      plain = Ok (SubscriberParts (sp_filter parts) (sp_file parts) (sp_errors parts) (sp_throttle parts) [])).
Example enabling_otel_is_accepted_and_changes_nothing_pass : enabling_otel_is_accepted_and_changes_nothing.
Proof. run_test. Qed.

Definition a_default_otel_config_sets_up_cleanly : Prop :=
  some! '(r, _) <- setup_logging (config None otel_default None) in unwrap! parts <- r in sp_warnings parts = [].
Example a_default_otel_config_sets_up_cleanly_pass : a_default_otel_config_sets_up_cleanly.
Proof. run_test. Qed.

Definition test_file_logging_with_otel_attempted : Prop :=
  some! '(r, _) <- setup_logging (config (Some "otel_test") (otel_to "http://localhost:4317") None) in
  unwrap! log_setup <- r in
  flat_map (logged log_setup) [(INFO, "file_log_with_otel_attempted"); (ERROR, "error_log_with_otel_attempted")]
  = ["file_log_with_otel_attempted"; "error_log_with_otel_attempted"].
Example test_file_logging_with_otel_attempted_pass : test_file_logging_with_otel_attempted.
Proof. run_test. Qed.

Definition test_log_level_reload_with_otel_enabled : Prop :=
  some! '(r, _) <- setup_logging (config (Some "reload_test") (otel_to "http://localhost:4317") None) in
  unwrap! log_setup <- r in
  file_after log_setup [(INFO, "info_before_reload"); (DEBUG, "debug_before_reload")] Debug
    [(INFO, "info_after_reload"); (DEBUG, "debug_after_reload")]
  = (Ok tt, ["info_before_reload"; "info_after_reload"; "debug_after_reload"]).
Example test_log_level_reload_with_otel_enabled_pass : test_log_level_reload_with_otel_enabled.
Proof. run_test. Qed.

Definition test_otel_config_fields : Prop :=
  let config := OtelConfig true (Some "test-service") (Some "http://collector:4317") (<["x-api-key" := "secret-key"]> ∅) in
  ot_enabled config = true /\ ot_service_name config = Some "test-service"
  /\ ot_endpoint config = Some "http://collector:4317" /\ ot_headers config !! "x-api-key" = Some "secret-key"
  /\ ot_enabled otel_default = false /\ ot_service_name otel_default = None
  /\ ot_endpoint otel_default = None /\ map_to_list (ot_headers otel_default) = [].
Example test_otel_config_fields_pass : test_otel_config_fields.
Proof. run_test. Qed.
End log_tests.

(** ** [log_reader.rs] *)

Section reader_tests.
(** The escape character of a control sequence is written as a caret. *)
Definition with_escapes (s : string) : string := string_map (fun c => if Ascii.eqb c "^" then byte_of 27 else c) s.
Definition strip_controls (s : string) : string := replace_all (with_escapes "^\[[0-9;]*m") s EmptyString.
(** Parsing a [tracing::Level], and displaying it. *)
Definition level_of (s : string) : option string :=
  List.find (fun name => bool_decide (to_ascii_lowercase s = to_ascii_lowercase name))
    ["ERROR"; "WARN"; "INFO"; "DEBUG"; "TRACE"].
(** The times of the tests; none of them looks at the result. *)
Definition timestamp (s : string) : option Z :=
  snd <$> List.find (fun p => String.eqb p.1 s)
    [("2024-05-18T14:26:36.709390Z", 1716042396709%Z); ("2024-06-07T12:25:06.735143Z", 1717763106735%Z);
     ("2025-03-19T12:34:56Z", 1742387696000%Z); ("2025-03-19T12:35:01Z", 1742387701000%Z)].

(** [LogEntry::from_str(line).unwrap()]. *)
Definition entry_of_line (line : string) (P : log_entry -> Prop) : Prop :=
  some! r <- LogReader.from_str strip_controls timestamp level_of line in unwrap! e <- r in P e.

Definition log_entry_from_line : Prop :=
  entry_of_line "2024-05-18T14:26:36.709390Z  WARN                 main trading_be: 290: terminated diff 0_table_limit_1 initially"
    (fun entry =>
       level entry = "WARN" /\ thread entry = "main" /\ path entry = "trading_be" /\ line_number entry = 290%Z
       /\ message entry = "terminated diff 0_table_limit_1 initially").
Example log_entry_from_line_pass : log_entry_from_line.
Proof. run_test. Qed.

Definition log_entry_from_line_control_sequence : Prop :=
  entry_of_line (with_escapes "^[2m2024-06-07T12:25:06.735143Z^[0m ^[32m INFO^[0m main ^[2mtrading_be::strategy::data_factory^[0m^[2m:^[0m ^[2m110:^[0m terminated diff 0_table_limit_1 initially")
    (fun entry =>
       level entry = "INFO" /\ thread entry = "main" /\ path entry = "trading_be::strategy::data_factory"
       /\ line_number entry = 110%Z /\ message entry = "terminated diff 0_table_limit_1 initially").
Example log_entry_from_line_control_sequence_pass : log_entry_from_line_control_sequence.
Proof. run_test. Qed.

(** The file is read from its last line. *)
Definition test_get_log_entries : Prop :=
  let file := ["2025-03-19T12:34:56Z INFO thread-1 src/main.rs:42 Application started";
               "2025-03-19T12:35:01Z ERROR thread-2 src/lib.rs:128 Failed to connect"] in
  unwrap! entries <- get_log_entries strip_controls timestamp level_of (Ok (map Ok (rev file))) "app.log" 10 in
  map level entries = ["ERROR"; "INFO"].
Example test_get_log_entries_pass : test_get_log_entries.
Proof. run_test. Qed.
End reader_tests.

(** ** [signal.rs] *)

Section signal_tests.
#[local] Existing Instance Signal.list_notify.
Abbreviation poll := (cancelled_poll 10).

Definition cancel_completes_a_waiter_that_already_parked : Prop :=
  let '(fut, s) := poll WStart (shutdown_new (N := list waiter_status)) in
  fut <> WDone /\ is_cancelled s = false
  /\ let s := cancel s in is_cancelled s = true /\ (poll fut s).1 = WDone.
Example cancel_completes_a_waiter_that_already_parked_pass : cancel_completes_a_waiter_that_already_parked.
Proof. run_test. Qed.

Definition a_waiter_that_starts_after_cancel_completes_immediately : Prop :=
  let s := cancel (shutdown_new (N := list waiter_status)) in
  is_cancelled s = true /\ (poll WStart s).1 = WDone.
Example a_waiter_that_starts_after_cancel_completes_immediately_pass : a_waiter_that_starts_after_cancel_completes_immediately.
Proof. run_test. Qed.
End signal_tests.

(** ** [mcp_wire.rs] *)

Section wire_tests.
Abbreviation parse_text :=
  (McpWire.parse "data did not match any variant" (fun t => from_option Ok (Err "expected value") (read_json t))).

Definition request_and_notification_round_trip : Prop :=
  let request := MRequest (McpWire.call (Number 7) "tools/call" (js "{'name': 'agent_click', 'arguments': {'nodeId': 42}}")) in
  let notification := MRequest (McpWire.notification "notifications/agent/treeChanged" (js "{'revision': 9}")) in
  parse_text (write_json (ser_message request)) = Ok request
  /\ parse_text (write_json (ser_message notification)) = Ok notification.
Example request_and_notification_round_trip_pass : request_and_notification_round_trip.
Proof. run_test. Qed.

Definition malformed_or_non_jsonrpc_frames_fail_explicitly : Prop :=
  (unwrap_err! e <- parse_text "not-json" in je_code e = WIRE_PARSE_ERROR)
  /\ (unwrap_err! e <- parse_text (json_text "{'method':'tools/list'}") in je_code e = WIRE_INVALID_REQUEST).
Example malformed_or_non_jsonrpc_frames_fail_explicitly_pass : malformed_or_non_jsonrpc_frames_fail_explicitly.
Proof. run_test. Qed.
End wire_tests.

(** ** [subs.rs] *)

Section subs_tests.
(** The manager of the test has no settings and one key. *)
Abbreviation publish_all := (publish_to_all w_text map_to_list).

Definition test_subscribe : Prop :=
  let manager := @subscriptions_new unit unit unit _ _ 0 in
  let ctx := from_conn (WsConnection 1 0 [] Unknown ext_new 0) in
  let manager := subscribe manager ctx tt (fun s => s) in
  size (subscribes manager) = 1 /\ size (mappings manager) = 0
  /\ let '(manager, w, o1) := publish_all toolbox_new manager (Ok JNull) w_state in
     let '(manager, w, o2) := publish_to_key w_text elements toolbox_new manager tt (Ok JNull) w in
     let '(manager, w, o3) := publish_to_keys w_text elements toolbox_new manager [] (Ok JNull) w in
     let manager := unsubscribe manager (x_connection_id ctx) in
     size (subscribes manager) = 0 /\ size (mappings manager) = 0.
Example test_subscribe_pass : test_subscribe.
Proof. run_test. Qed.
End subs_tests.

(** ** [utils.rs] *)

Section utils_tests.
(** A number with that many decimals, displayed in full; [{:.p$}] rounds to the nearest. *)
Definition pad (n : nat) (s : string) : string := String.concat "" (repeat "0" (n - String.length s)) +:+ s.
Definition display (x : Z * nat) : string :=
  match x with
  | (m, O) => pretty m
  | (m, e) => pretty (m / 10 ^ Z.of_nat e)%Z +:+ "." +:+ pad e (pretty (m mod 10 ^ Z.of_nat e)%Z)
  end.
Definition fmt_prec (p : nat) (x : Z * nat) : string :=
  let unit := (10 ^ Z.of_nat (x.2 - p))%Z in display (((2 * x.1 + unit) / (2 * unit))%Z, p).
Definition parse_decimal (s : string) : option (Z * nat) :=
  match split_on "." s with
  | [a; b] => (fun m => (m, String.length b)) <$> parse_unsigned u64_max (a +:+ b)
  | _ => (fun m => (m, 0)) <$> parse_unsigned u64_max s
  end.

Definition test_count_dp : Prop := count_dp (display (15%Z, 1)) = 1 /\ count_dp (display (11%Z, 1)) = 1.
Example test_count_dp_pass : test_count_dp.
Proof. run_test. Qed.

Definition test_align_precision : Prop :=
  align_precision display fmt_prec parse_decimal (123456789%Z, 6) (789%Z, 1) = Some (1235%Z, 1)
  /\ align_precision display fmt_prec parse_decimal (237%Z, 2) (6313%Z, 1) = Some (24%Z, 1).
Example test_align_precision_pass : test_align_precision.
Proof. run_test. Qed.
End utils_tests.

(** ** [examples/config-log-acceptance.rs] *)

Section config_tests.
Record fixture_config := Config { name : string; credential : string; inherited : string }.
Definition fixture_from_value (v : json) : result fixture_config string :=
  match as_str v./"name", as_str v./"credential", as_str v./"inherited" with
  | Some name, Some credential, Some inherited => Ok (Config name credential inherited)
  | _, _, _ => Err "missing field"
  end.

(** What the child checks, with the file and the command line that the parent gives it. *)
Definition config_log_acceptance : Prop :=
  let file := json_text "{'credential':'overridden','inherited':'root value','fixture':{'credential':'CONFIG_LOG_SENTINEL_6B'}}" in
  some! r <- load_config (fun path => if String.eqb path "config.json" then Ok file else Err "no such file")
               (fun text => from_option Ok (Err "not JSON") (read_json text)) fixture_from_value
               (CliArgument "config.json" (Some "fixture")) "unused" in
  unwrap! config <- r in
  name config = "fixture" /\ credential config = "CONFIG_LOG_SENTINEL_6B" /\ inherited config = "root value".
Example config_log_acceptance_pass : config_log_acceptance.
Proof. run_test. Qed.
End config_tests.
