(* ===== verification/SeamTests.v ===== *)
(** * The integration tests, run on the composed model

    [tests/transport_seam.rs]: a client ([Client]) and a server ([Server]) on the two
    ends of an in-memory pipe, with the framing of [Framed] on both; the whole of it is
    executed, from the bytes in the pipe to the handlers and back.
    [tests/ws_admission_acceptance.rs]: the admission rules, on the connections of
    [Connection], [Server] and [Accept]; [tests/ws_tls_policy.rs]: those of [Connect].
    Sockets and timers are schedules. *)

From S2P Require Import Prelude BMap Json ModelTypes JsonSchema ErrorCode Peer Message Outbound ServerConfig Limits Basics Toolbox Mcp Handler Headers Request Session Connection Server Builder Accept Listen Framed Client Connect Transport Upgrade Echo LogLevel TestKit.

(** ** The duplex pipe *)

Section duplex_pipe.
(** Wakers are numbers. *)
Record pipe := Pipe {
  p_data : bytes;
  p_capacity : Z;
  p_write_closed : bool;
  p_read_closed : bool;
  p_reader : option nat;
  p_writer : option nat;
}.
Definition pipe_new (capacity : Z) : pipe := Pipe [] capacity false false None None.

(** One endpoint; the other one has the two directions exchanged. *)
Record duplex_half := DuplexHalf { dh_inbound : pipe; dh_outbound : pipe }.
Definition duplex (capacity : Z) : duplex_half := DuplexHalf (pipe_new capacity) (pipe_new capacity).

(** Each operation also gives the waker it wakes. *)
Definition half_poll_read (cx : nat) (n : nat) (h : duplex_half) : poll (result bytes io_error) * duplex_half * option nat :=
  let pipe := dh_inbound h in
  match p_data pipe with
  | [] =>
      if p_write_closed pipe then (Ready (Ok []), h, None)
      else (Pending, DuplexHalf (Pipe [] (p_capacity pipe) (p_write_closed pipe) (p_read_closed pipe) (Some cx) (p_writer pipe)) (dh_outbound h), None)
  | data =>
      (Ready (Ok (take n data)),
       DuplexHalf (Pipe (drop n data) (p_capacity pipe) (p_write_closed pipe) (p_read_closed pipe) (p_reader pipe) None) (dh_outbound h),
       p_writer pipe)
  end.

Definition broken_pipe : io_error := IoError (OtherIo "BrokenPipe") "the reading half is gone".

Definition half_poll_write (cx : nat) (buf : bytes) (h : duplex_half) : poll (result nat io_error) * duplex_half * option nat :=
  let pipe := dh_outbound h in
  if p_read_closed pipe then (Ready (Err broken_pipe), h, None)
  else
    let free := (p_capacity pipe - Z.of_nat (length (p_data pipe)))%Z in
    if (free =? 0)%Z then
      (Pending, DuplexHalf (dh_inbound h) (Pipe (p_data pipe) (p_capacity pipe) (p_write_closed pipe) (p_read_closed pipe) (p_reader pipe) (Some cx)), None)
    else
      let written := Z.to_nat (Z.min free (Z.of_nat (length buf))) in
      (Ready (Ok written),
       DuplexHalf (dh_inbound h) (Pipe (p_data pipe ++ take written buf) (p_capacity pipe) (p_write_closed pipe) (p_read_closed pipe) None (p_writer pipe)),
       p_reader pipe).

Definition half_poll_flush : poll (result unit io_error) := Ready (Ok tt).

Definition half_poll_close (h : duplex_half) : poll (result unit io_error) * duplex_half * option nat :=
  let pipe := dh_outbound h in
  (Ready (Ok tt), DuplexHalf (dh_inbound h) (Pipe (p_data pipe) (p_capacity pipe) true (p_read_closed pipe) None (p_writer pipe)), p_reader pipe).

Definition half_drop (h : duplex_half) : duplex_half * list nat :=
  let i := dh_inbound h in let o := dh_outbound h in
  (DuplexHalf (Pipe (p_data i) (p_capacity i) (p_write_closed i) true (p_reader i) None)
              (Pipe (p_data o) (p_capacity o) true (p_read_closed o) None (p_writer o)),
   option_list (p_reader o) ++ option_list (p_writer i)).

Definition other_half (h : duplex_half) : duplex_half := DuplexHalf (dh_outbound h) (dh_inbound h).
End duplex_pipe.

(** *** [framed_json_neutral] on a half *)

(** [StreamExt::next], until it is ready or waits for the other end. *)
Fixpoint framed_next (fuel : nat) (st : framed) (h : duplex_half)
    : poll (option (result wire_message framed_error)) * framed * duplex_half :=
  match fuel, poll_next st [] with
  | S fuel, (Pending, st, _) =>
      match half_poll_read 0 READ_CHUNK_BYTES h with
      | (Pending, h, _) => (Pending, st, h)
      | (Ready (Err e), h, _) => (Ready (Some (Err (Io e))), st, h)
      | (Ready (Ok chunk), h, _) =>
          match poll_next st [ReadOk chunk] with
          | (Pending, st, _) => framed_next fuel st h
          | (r, st, _) => (r, st, h)
          end
      end
  | _, (r, st, _) => (r, st, h)
  end.

(** [SinkExt::send]; no frame of the tests reaches the capacity, so one write takes it
    all, and anything else is an error here. *)
Definition framed_send (m : wire_message) (st : framed) (h : duplex_half) : result unit framed_error * framed * duplex_half :=
  match start_send st m with
  | (Err e, st) => (Err e, st, h)
  | (Ok _, st) =>
      match half_poll_write 0 (write_buf st) h with
      | (Ready (Ok n), h, _) =>
          match poll_flush st (ByteSink [] [WriteOk n] [DoneOk] []) with
          | (Ready r, st, _) => (r, st, h)
          | (Pending, st, _) => (Err (Io broken_pipe), st, h)
          end
      | (Ready (Err e), h, _) => (Err (Io e), st, h)
      | (Pending, h, _) => (Err (Io broken_pipe), st, h)
      end
  end.

(** ** The JSON of the two envelopes: what serde derives *)

Definition member_u32 (key : string) (v : json) : option Z :=
  match jget key v with Some (JInt n) => if ((0 <=? n) && (n <=? u32_max))%Z then Some n else None | _ => None end.

Definition level_text (l : log_level) : string :=
  match l with
  | Off => "off" | LogLevel.Error => "error" | Warn => "warn" | Info => "info" | Debug => "debug" | Trace => "trace"
  | Detail => "detail"
  end.
Definition ws_response_json (r : ws_response) : json :=
  match r with
  | Immediate method seq params =>
      jobj [("type", JStr "Immediate"); ("method", JInt method); ("seq", JInt seq); ("params", params)]
  | Stream original_seq method stream_seq stream_code data =>
      jobj [("type", JStr "Stream"); ("original_seq", JInt original_seq); ("method", JInt method);
            ("stream_seq", JInt stream_seq); ("stream_code", JInt stream_code); ("data", data)]
  | RError e =>
      jobj [("type", JStr "Error"); ("method", JInt (re_method e)); ("code", JInt (re_code e)); ("seq", JInt (re_seq e));
            ("log_id", JStr (re_log_id e)); ("params", re_params e)]
  | Log seq log_id level message =>
      jobj [("type", JStr "Log"); ("seq", JInt seq); ("log_id", JInt log_id); ("level", JStr (level_text level)); ("message", JStr message)]
  | Forwarded method seq => jobj [("type", JStr "Forwarded"); ("method", JInt method); ("seq", JInt seq)]
  | RClose => jobj [("type", JStr "Close")]
  end.
Definition ws_response_text (r : ws_response) : result string string := Ok (write_json (ws_response_json r)).

Definition read_bytes (b : bytes) : option json := read_json (string_of_bytes b).
Definition ws_request_of (b : bytes) : result ws_request string :=
  match read_bytes b with
  | None => Err "expected value"
  | Some v =>
      match member_u32 "method" v, member_u32 "seq" v, jget "params" v with
      | Some method, Some seq, Some params => Ok (WsRequest method seq params)
      | _, _, _ => Err "missing field"
      end
  end.

(** What the client of the tests reads: responses whose value has a [message]. *)
Definition client_response (b : bytes) : result (response string) string :=
  match read_bytes b with
  | None => Err "expected value"
  | Some v =>
      match as_str v./"type", member_u32 "method" v, member_u32 "seq" v with
      | Some "Immediate", Some method, Some seq =>
          match as_str v./"params"./"message" with
          | Some message => Ok (GImmediate method seq message)
          | None => Err "missing field message"
          end
      | Some "Error", Some method, Some seq =>
          match member_u32 "code" v, as_str v./"log_id" with
          | Some code, Some log_id => Ok (GError method code seq log_id v./"params")
          | _, _ => Err "missing field"
          end
      | _, _, _ => Err "unknown variant"
      end
  end.
Definition client_request_text (method seq : Z) (message : string) : result string string :=
  Ok (write_json (jobj [("method", JInt method); ("seq", JInt seq); ("params", jobj [("message", JStr message)])])).

(** [EndpointSchema] as the tests write it: strings and booleans. *)
Definition field_of (v : json) : option field :=
  match as_str v./"name", as_str v./"ty" with
  | Some name, Some "String" => Some (field_new name TString)
  | Some name, Some "Boolean" => Some (field_new name Boolean)
  | _, _ => None
  end.
Definition fields_of (v : json) : option (list field) := match v with JArr l => mapM field_of l | _ => None end.
Definition schema_from_str (text : string) : result endpoint_schema string :=
  match read_json text with
  | None => Err "expected value"
  | Some v =>
      match as_str v./"name", member_u32 "code" v, fields_of v./"parameters", fields_of v./"returns" with
      | Some name, Some code, Some parameters, Some returns =>
          Ok (with_description (endpoint_new name code parameters returns) (default "" (as_str v./"description")))
      | _, _, _, _ => Err "missing field"
      end
  end.

(** ** [tests/transport_seam.rs] *)

Section seam.
(** What the tests keep in [Extensions]: the [Claims] of a hook.  The list a
    [RecordOutcomes] shares with the test is kept with them, under an id that no
    connection has. *)
Inductive data := Claims (s : string) | Outcomes (l : list string).
Definition claims_type : Z := 3.
Definition recorder_id : Z := -1.

Definition recorded (w : world data) : list string :=
  match conns w !! recorder_id ≫= (fun c => ext_get 0 (c_extensions c)) with Some (Outcomes l) => l | _ => [] end.
Definition record (label : string) (w : world data) : world data :=
  new_conn (WsConnection recorder_id 0 [] Unknown (ext_insert 0 (Outcomes (recorded w ++ [label])) ext_new).1 0) w.

(** *** The endpoints: both take a message and answer with one *)

Abbreviation ctx := (request_context data).
Abbreviation handler := (@handler data string (ctx * string)).
Abbreviation test_server := (@server data string (ctx * string) (ctx * json) (world data -> world data)).

Definition message_from_value (v : json) : result string string := rmap er_message (echo_from_value (fun _ => "missing field") v).
Definition message_handler (answer : ctx -> string -> string) : handler :=
  Handler message_from_value (fun _ => None) (fun ctx req => (ctx, req))
    (fun st w => (SReady (Ok (Ok (jobj [("message", JStr (answer st.1 st.2))]))), w)).

Definition EchoRequest_SCHEMA : string := json_text "{
        'name':        'Echo',
        'code':        1,
        'parameters':  [{'name': 'message', 'ty': 'String'}],
        'returns':     [{'name': 'message', 'ty': 'String'}],
        'description': 'Echoes the message back.',
        'roles':       []
    }".
Definition peer_label (peer : peer_identity) : string :=
  match peer with
  | Local local =>
      match lp_attestation local with
      | Verified mechanism _ => "local/" +:+ mechanism
      | AttestNone => "local/unattested"
      end
  | Network _ => "network"
  | Unknown => "unknown"
  end.
Definition MethodEcho : handler :=
  message_handler (fun ctx message => "echo[" +:+ peer_label (x_peer ctx) +:+ "]: " +:+ message).

Definition ClaimsRequest_SCHEMA : string := json_text "{
        'name':        'Claims',
        'code':        2,
        'parameters':  [{'name': 'message', 'ty': 'String'}],
        'returns':     [{'name': 'message', 'ty': 'String'}],
        'description': 'Reports claims attached by a BeforeRequest hook.',
        'roles':       []
    }".
Definition MethodClaims : handler :=
  message_handler (fun ctx _ => match ext_get claims_type (x_extensions ctx) with Some (Claims s) => s | _ => "<none>" end).

(** *** The hooks *)

Definition with_claims (c : ctx) (s : string) : ctx :=
  RequestContext (x_connection_id c) (x_user_id c) (x_seq c) (x_method c) (x_log_id c) (x_roles c) (x_ip_addr c) (x_peer c)
    (ext_insert claims_type (Claims s) (x_extensions c)).1.
Definition DenyByContent : @before_hook data (ctx * json) :=
  BeforeHook (fun ctx _ params => (ctx, params))
    (fun st w =>
       let text := default "" (jget "message" st.2 ≫= as_str) in
       (SReady (if contains_str "denied" text
                then (st.1, Err (with_kind (with_message (custom_error_new FORBIDDEN) "blocked by policy") "PolicyDenied"))
                else (with_claims st.1 ("seen:" +:+ text), Ok tt)), w)).
Definition RecordOutcomes : @after_hook data (world data -> world data) :=
  AfterHook
    (fun _ endpoint outcome =>
       let label := match outcome with
                    | OutcomeOk => "ok" | PublicErr code => "public:" +:+ pretty code | InternalErr => "internal" end in
       record (ep_name endpoint +:+ ":" +:+ label))
    (fun st w => (SReady tt, st w)).
Definition RefuseUnattested : @on_connect_hook data := fun peer ext w =>
  match peer_attestation peer with
  | Some a =>
      if is_verified a then (((ext_insert claims_type (Claims "attested") ext).1, Ok tt), w)
      else ((ext, Err (with_message (custom_error_new FORBIDDEN) "unattested peer")), w)
  | None => ((ext, Err (with_message (custom_error_new FORBIDDEN) "unattested peer")), w)
  end.

(** *** The servers *)

Definition with_mcp (name schema : string) (s : test_server) : result test_server string :=
  let* schema := schema_from_str schema in
  match enable_mcp convert_case 20 (registry_add_endpoint schema registry_new) (McpServerInfo name "0.0.0") s with
  | Some (Ok _, s) => Ok s
  | Some (Err err, _) => Err err
  | None => Err "out of fuel"
  end.
Definition build_server (mcp : bool) : result test_server string :=
  let s := set_auth_controller allow_all (server_new config_default) in
  let* s := add_handler schema_from_str EchoRequest_SCHEMA [1]%Z "transport_seam::MethodEcho" "transport_seam::EchoRequest" MethodEcho s in
  if mcp then with_mcp "seam-test" EchoRequest_SCHEMA s else Ok s.
Definition server_with_hooks (mcp : bool) : result test_server string :=
  let s := set_auth_controller allow_all (server_new config_default) in
  let* s := add_handler schema_from_str ClaimsRequest_SCHEMA [1]%Z "transport_seam::MethodClaims" "transport_seam::ClaimsRequest" MethodClaims s in
  let s := add_after_hook RecordOutcomes (add_before_hook DenyByContent s) in
  if mcp then with_mcp "hooks-test" ClaimsRequest_SCHEMA s else Ok s.

Definition attested_peer : peer_identity := Local (LocalPeer (Some 4242%Z) None (Verified "test-harness" "acceptance")).
End seam.

(** *** The two ends, connected *)

Section link.
Context (server : @server data string (request_context data * string) (request_context data * json) (world data -> world data)).

Abbreviation fleet_run := (Server.fleet_run ws_response_text write_json read_bytes (fun _ => "invalid request") ws_request_of server).

(** The server's connection, the framing at both ends, and the client's half of the pipe. *)
Record link := Link { l_fleet : @fleet data string (request_context data * string) (request_context data * json) (world data -> world data);
  l_server : framed; l_client : framed; l_half : duplex_half }.

(** The frames that the session of connection 0 has given to its stream. *)
Definition frames_given (lk : link) : list wire_message :=
  match f_lives (l_fleet lk) !! 0 with
  | Some (LSession _ _ _ _ frames) | Some (LOver (SServed _ _ frames) _) => frames
  | _ => []
  end.

Definition quiet (polls : list (nat * poll_event)) (inbound : option (option (result wire_message stream_error))) : @event data :=
  EMove 0 (MStep (Tick 0 (Ok tt) polls inbound)).

(** The frames go into the pipe, whose ends look at each other. *)
Fixpoint transmit (ms : list wire_message) (st : framed) (h : duplex_half) : framed * duplex_half :=
  match ms with
  | [] => (st, h)
  | m :: ms => let '(_, st, h) := framed_send m st h in transmit ms st h
  end.

(** The server's task runs until it waits: the stream's next frame, then steps in
    which the handlers are polled. *)
Definition server_turn (lk : link) : link :=
  let '(r, st, h) := framed_next 4 (l_server lk) (other_half (l_half lk)) in
  let inbound := match r with Ready m => Some (option_map (map_err (fun e => SOther (framed_error_fmt e))) m) | Pending => None end in
  let '(y, _) := fleet_run (quiet [] inbound :: repeat (quiet [(0, PollEvent true false 0)] None) 8) (l_fleet lk) in
  let lk' := Link y st (l_client lk) (other_half h) in
  let '(st, h) := transmit (drop (length (frames_given lk)) (frames_given lk')) st h in
  Link y st (l_client lk) (other_half h).

(** The client's [MessageStream]; a client that would wait for ever is told that the
    connection is closed. *)
Definition link_send (m : wire_message) (lk : link) : result unit string * link :=
  let '(r, st, h) := framed_send m (l_client lk) (l_half lk) in
  (map_err framed_error_fmt r, Link (l_fleet lk) (l_server lk) st h).
Fixpoint link_recv (turns : nat) (lk : link) : option (result wire_message string) * link :=
  match framed_next 4 (l_client lk) (l_half lk) with
  | (Ready m, st, h) => (option_map (map_err framed_error_fmt) m, Link (l_fleet lk) (l_server lk) st h)
  | (Pending, st, h) =>
      match turns with
      | O => (None, Link (l_fleet lk) (l_server lk) st h)
      | S turns => link_recv turns (server_turn (Link (l_fleet lk) (l_server lk) st h))
      end
  end.
#[local] Instance link_stream : Client.MessageStream link := { ms_send := link_send; ms_recv := link_recv 3 }.

(** No socket. *)
#[local] Instance no_socket : NagoConnection unit := {
  conn_read k := (Ok None, k); conn_write _ k := (Ok tt, k); conn_pong _ k := (Ok tt, k); conn_close k := (Ok tt, k);
}.

(** [serve] and [with_connected_client]: the connection is accepted and waits for its
    first frame. *)
Definition connected_client : @ws_client unit link :=
  let '(y, _) := fleet_run
    [EAccept attested_peer None; EMove 0 (MOpen 0); EMove 0 (MAuth AuthDone 0 1); quiet [] None; quiet [] None]
    (Fleet (World ∅ ∅ limit_default []) 1 []) in
  from_stream (Link y (framed_new READ_CHUNK_BYTES) (framed_new READ_CHUNK_BYTES) (duplex (256 * 1024))).

Definition request_message (method : Z) (message : string) (c : @ws_client unit link) : result string string * @ws_client unit link :=
  default (Err "out of fuel", c) (request client_request_text client_response write_json 10 method message c).
Definition send_request (method : Z) (message : string) (c : @ws_client unit link) : result unit string * @ws_client unit link :=
  send_req client_request_text method message c.
Definition raw (text : string) (c : @ws_client unit link) : result unit string * @ws_client unit link :=
  send_raw (bytes_of_string (json_text text)) c.
Definition answer (c : @ws_client unit link) : result json string * @ws_client unit link :=
  recv_raw (fun b => from_option Ok (Err "not JSON") (read_bytes b)) c.
(** What the recorder has seen. *)
Definition observed (c : @ws_client unit link) : list string :=
  match stream c with Channel lk => recorded (f_world (l_fleet lk)) | _ => [] end.
End link.

(** What [serve] does to the toolbox before it serves. *)
Definition served_by (s : result (@server data string (request_context data * string) (request_context data * json) (world data -> world data)) string)
    (P : _ -> Prop) : Prop :=
  unwrap! s <- s in
  P (Server (sv_auth_controller s) (sv_config s) (sv_handlers s) (set_ws_states (sv_toolbox s) false false) (sv_mcp s) (sv_hooks s)).

(** *** The tests *)

Definition legacy_request_round_trips_over_a_non_websocket_transport : Prop :=
  served_by (build_server false) (fun server =>
    (request_message server 1 "hello" (connected_client server)).1 = Ok "echo[local/test-harness]: hello").
Example legacy_request_round_trips_over_a_non_websocket_transport_pass :
  legacy_request_round_trips_over_a_non_websocket_transport.
Proof. run_test. Qed.

Definition mcp_initialize_and_tool_call_work_over_the_same_transport : Prop :=
  served_by (build_server true) (fun server =>
    let '(_, client) := raw server "{'jsonrpc': '2.0', 'id': 1, 'method': 'initialize',
        'params': {'protocolVersion': '2025-06-18', 'capabilities': {},
                   'clientInfo': {'name': 'seam-test', 'version': '0.0.0'}}}" (connected_client server) in
    let '(initialized, client) := answer server client in
    let '(_, client) := raw server "{'jsonrpc': '2.0', 'id': 2, 'method': 'tools/list', 'params': {}}" client in
    let '(listed, client) := answer server client in
    let '(_, client) := raw server "{'jsonrpc': '2.0', 'id': 3, 'method': 'tools/call',
        'params': {'name': 'echo', 'arguments': {'message': 'via-mcp'}}}" client in
    let '(called, client) := answer server client in
    (unwrap! resp <- initialized in
     resp./"id" = JInt 1 /\ resp./"result"./"serverInfo"./"name" = JStr "seam-test")
    /\ (unwrap! resp <- listed in
        match resp./"result"./"tools" with JArr tools => length tools = 1 | _ => False end
        /\ resp./"result"./"tools".#0./"name" = JStr "echo")
    /\ (unwrap! resp <- called in
        resp./"id" = JInt 3
        /\ resp./"result"./"structuredContent"./"message" = JStr "echo[local/test-harness]: via-mcp"
        /\ (some! text <- as_str resp./"result"./"content".#0./"text" in
            contains_str "echo[local/test-harness]: via-mcp" text = true))).
Example mcp_initialize_and_tool_call_work_over_the_same_transport_pass :
  mcp_initialize_and_tool_call_work_over_the_same_transport.
Proof. run_test. Qed.

Definition before_hook_gates_the_legacy_path_and_passes_claims : Prop :=
  served_by (server_with_hooks false) (fun server =>
    let '(allowed, client) := request_message server 2 "fine" (connected_client server) in
    let '(sent, client) := send_request server 2 "denied" client in
    let '(denied, client) := answer server client in
    allowed = Ok "seen:fine" /\ sent = Ok tt
    /\ (unwrap! raw <- denied in
        raw./"code" = JInt (to_u32 FORBIDDEN)
        /\ raw./"params"./"kind" = JStr "PolicyDenied"
        /\ raw./"params"./"message" = JStr "blocked by policy")
    /\ observed client = ["Claims:ok"; "Claims:public:" +:+ pretty (to_u32 FORBIDDEN)]).
Example before_hook_gates_the_legacy_path_and_passes_claims_pass : before_hook_gates_the_legacy_path_and_passes_claims.
Proof. run_test. Qed.

Definition before_hook_gates_the_mcp_path_with_a_tool_error : Prop :=
  served_by (server_with_hooks true) (fun server =>
    let '(_, client) := raw server "{'jsonrpc': '2.0', 'id': 1, 'method': 'initialize',
        'params': {'protocolVersion': '2025-06-18', 'capabilities': {},
                   'clientInfo': {'name': 'hooks-test', 'version': '0.0.0'}}}" (connected_client server) in
    let '(initialized, client) := answer server client in
    let '(_, client) := raw server "{'jsonrpc': '2.0', 'id': 7, 'method': 'tools/call',
        'params': {'name': 'claims', 'arguments': {'message': 'denied by policy'}}}" client in
    let '(called, client) := answer server client in
    is_ok initialized = true
    /\ (unwrap! resp <- called in
        resp./"id" = JInt 7 /\ resp./"result"./"isError" = JBool true
        /\ let text := default "" (as_str resp./"result"./"content".#0./"text") in
           contains_str "blocked by policy" text || contains_str "PolicyDenied" text = true)
    /\ observed client = ["Claims:public:" +:+ pretty (to_u32 FORBIDDEN)]).
Example before_hook_gates_the_mcp_path_with_a_tool_error_pass : before_hook_gates_the_mcp_path_with_a_tool_error.
Proof. run_test. Qed.

(** The peer of [connected_client] is attested. *)
Definition on_connect_hook_can_refuse_a_peer : Prop :=
  served_by (rmap (add_on_connect_hook RefuseUnattested) (build_server false)) (fun server =>
    (request_message server 1 "hi" (connected_client server)).1 = Ok "echo[local/test-harness]: hi").
Example on_connect_hook_can_refuse_a_peer_pass : on_connect_hook_can_refuse_a_peer.
Proof. run_test. Qed.

(** ** [tests/ws_admission_acceptance.rs] *)

Section admission.
(** [Auth]; one that is pending never decides, so only the end of the wait matters. *)
Record Auth := MkAuth { au_fail : bool; au_pending : bool }.
Definition auth (a : Auth) : auth_controller (V := unit) := fun t header conn =>
  if au_fail a then ret (Err "fixture rejection") else allow_all t header conn.
(** How the wait for it ends, when the test gives up on a pending one. *)
Definition auth_ends (a : Auth) : @auth_end unit := if au_pending a then AuthDropped id else AuthDone.

(** [MethodWait]. *)
Definition wait_handler : @handler unit bool bool :=
  Handler (fun v => match jget "pending" v with Some (JBool pending) => Ok pending | _ => Err "missing field pending" end)
    (fun _ => None) (fun _ pending => pending)
    (fun pending w => (if pending then SPending pending else SReady (Ok (Ok (js "{'done': true}"))), w)).
Definition WaitRequest_SCHEMA : string := json_text
  "{'name':'Wait','code':1,'parameters':[{'name':'pending','ty':'Boolean'}],'returns':[{'name':'done','ty':'Boolean'}],'roles':[]}".

(** The configuration of the tests: the default one, with other limits. *)
Definition limited (max_inflight : option nat) (request idle : option Z) : ws_server_config :=
  let d := config_default in
  WsServerConfig (cfg_name d) (address d) (pub_certs d) (priv_key d) (insecure d) (debug d)
    (message_buffer_size d) (drop_conn_on_buffer_full d) (header_only d) (allow_cors_urls d) (server_name d) (mcp_only d)
    (max_connections d) (max_message_bytes d) max_inflight request (handshake_timeout d)
    idle (warn_connections d) (warn_message_bytes d) (warn_inflight_requests d) (warn_request_time d) (on_limit d).
Definition millis (n : Z) : Z := n * 1000000.

Abbreviation wait_server := (@server unit bool bool unit unit).
Definition wait_tools : toolbox := set_ws_states toolbox_new false false.
Definition peer : peer_identity := Network (SocketAddr LOCALHOST 1).
Definition empty_world : world unit := World ∅ ∅ limit_default [].

(** One connection, served to its end: a schedule of steps on its stream, each with the
    time, the polls of the handlers and what the stream has. *)
Definition step_at (now : Z) (polls : list (nat * poll_event)) (inbound : option (option (result wire_message stream_error))) :
    tick * (world unit -> world unit) := (Tick now (Ok tt) polls inbound, id).
Definition serve_one (s : wait_server) (id : Z) (ends : auth_end) (steps : list (tick * (world unit -> world unit))) (w : world unit) :=
  Connection.serve_connection ws_response_text write_json read_bytes (fun _ => "invalid request") ws_request_of s peer None
    (Schedule id 0 (fun w => w) ends (fun w => w) 0 1 steps) w.
Definition sent_frames (res : served) : list json :=
  match res with
  | SServed _ _ frames => map (fun m => match m with Text t => default JNull (read_bytes t) | _ => JNull end) frames
  | _ => []
  end.
(** The steps between two frames: the handlers are polled, what is queued is sent. *)
Definition rest (polls : list (nat * poll_event)) : list (tick * (world unit -> world unit)) :=
  replicate 6 (step_at 0 polls None).
Definition frame (text : string) : list (tick * (world unit -> world unit)) :=
  [step_at 0 [] (Some (Some (Ok (Text (bytes_of_string (json_text text))))))].

(** [Disconnect], whose count is that of the tasks that run it. *)
Definition auth_server (a : Auth) : wait_server :=
  add_on_disconnect_hook (fun _ _ w => w)
    (Server (auth a) config_default ∅ wait_tools None hooks_default).

Definition auth_failure_and_cancellation_remove_registered_state_and_dispatch_once : Prop :=
  foldr (fun pending rest =>
    let a := MkAuth (negb pending) pending in
    let '((res, tasks), w, _) := serve_one (auth_server a) 1 (auth_ends a) (replicate 6 (step_at 0 [] None)) empty_world in
    match res with
    | SDropped => pending = true
    | SServed (Err _) (PExit _) frames => pending = false /\ Nat.leb 1 (length frames) = true
    | _ => False
    end
    /\ map_to_list (states w) = [] /\ length tasks = 1 /\ rest) True [false; true].
Example auth_failure_and_cancellation_remove_registered_state_and_dispatch_once_pass :
  auth_failure_and_cancellation_remove_registered_state_and_dispatch_once.
Proof. run_test. Qed.

Definition plain_server (config : ws_server_config) : wait_server :=
  Server (auth (MkAuth false false)) config ∅ wait_tools None hooks_default.

Definition mcp_busy_timeout_and_slot_reuse_keep_the_original_ids : Prop :=
  let call id pending := frame ("{'jsonrpc':'2.0'" +:+ id +:+ ",'method':'tools/call','params':{'name':'wait','arguments':{'pending':" +:+ pending +:+ "}}}") in
  let server :=
    let* schema := schema_from_str WaitRequest_SCHEMA in
    let* s := add_handler_erased schema [1]%Z wait_handler (plain_server (limited (Some 1) (Some (millis 20)) default_idle_timeout)) in
    match enable_mcp convert_case 20 (registry_add_endpoint (endpoint_new "Wait" 1 [] []) registry_new) (McpServerInfo "acceptance" "1") s with
    | Some (Ok _, s) => Ok s
    | _ => Err "enable_mcp"
    end in
  unwrap! server <- server in
  let waiting := PollEvent true false 0 in
  let expired := PollEvent true true (millis 20) in
  let steps :=
    rest [] ++ call ",'id':1" "true" ++ rest [(0, waiting)] ++ call ",'id':2" "false" ++ rest [(0, waiting)]
    ++ rest [(0, expired)] ++ call ",'id':3" "false" ++ rest [(0, waiting)] ++ call "" "false" ++ rest [(0, waiting)] in
  let '((res, _), _, _) := serve_one server 1 AuthDone steps empty_world in
  match sent_frames res with
  | [busy; timeout; success] =>
      busy./"id" = JInt 2 /\ busy./"error"./"code" = JInt (-32000)
      /\ timeout./"id" = JInt 1 /\ timeout./"error"./"code" = JInt (-32001)
      /\ success./"id" = JInt 3 /\ success./"result"./"structuredContent"./"done" = JBool true
  | _ => False
  end.
Example mcp_busy_timeout_and_slot_reuse_keep_the_original_ids_pass : mcp_busy_timeout_and_slot_reuse_keep_the_original_ids.
Proof. run_test. Qed.

(** The client has sent less than a head when the timer fires. *)
Definition real_loopback_partial_http_upgrade_expires : Prop :=
  fst (read_head 8192 w_head_end [] [HeadChunk (bytes_of_string ("GET / HTTP/1.1" +:+ CRLF))]) = None
  /\ is_ok (upgrade_stream config_default true (Ok None)) = false.
Example real_loopback_partial_http_upgrade_expires_pass : real_loopback_partial_http_upgrade_expires.
Proof. run_test. Qed.

Definition idle_session_expires_and_removes_state : Prop :=
  let server := plain_server (limited default_max_inflight_requests default_request_timeout (Some (millis 10))) in
  let steps := [step_at 0 [] None; step_at 0 [] None; step_at (millis 9) [] None; step_at (millis 10) [] None] in
  let '((res, _), w, _) := serve_one server 1 AuthDone steps empty_world in
  match res with SServed (Ok _) (PExit XIdle) [] => True | _ => False end /\ map_to_list (states w) = [].
Example idle_session_expires_and_removes_state_pass : idle_session_expires_and_removes_state.
Proof. run_test. Qed.

(** [FailingListener] answers every call at once; the loop is polled every millisecond,
    and [calls] counts the answers it takes. *)
Fixpoint accept_calls (times : list Z) (lp : @loop unit unit) : nat :=
  match times with
  | [] => 0
  | now :: times =>
      let slept := match lp_pc lp with PWait (ASleep until) => (until <=? now)%Z | _ => true end in
      let i := LoopIn now false slept (Some (Err "fixture accept failure")) [] in
      let '(lp', _, _) := serve_with_poll config_default i lp limit_default in
      match accept_result i lp with Some _ => 1 | None => 0 end + accept_calls times lp'
  end.
Definition accept_errors_back_off_and_cancellation_stays_prompt : Prop :=
  unwrap! lp <- serve_with_start config_default false in
  let calls := accept_calls (map (fun k => millis (Z.of_nat k)) (List.seq 0 100)) lp in
  Nat.leb 3 calls && Nat.leb calls 5 = true.
Example accept_errors_back_off_and_cancellation_stays_prompt_pass : accept_errors_back_off_and_cancellation_stays_prompt.
Proof. run_test. Qed.

(** [SlowBefore] never finishes. *)
Definition SlowBefore : @before_hook unit unit := BeforeHook (fun _ _ _ => tt) (fun st w => (SPending st, w)).
Definition legacy_before_hook_is_inside_the_request_deadline : Prop :=
  let server :=
    let* s := add_handler schema_from_str WaitRequest_SCHEMA [1]%Z "ws_admission_acceptance::MethodWait" "ws_admission_acceptance::WaitRequest" wait_handler
                (plain_server (limited default_max_inflight_requests (Some (millis 10)) default_idle_timeout)) in
    Ok (add_before_hook SlowBefore s) in
  unwrap! server <- server in
  let steps :=
    rest [] ++ frame "{'method':1,'seq':9,'params':{'pending':false}}" ++ rest [(0, PollEvent true false 0)]
    ++ rest [(0, PollEvent true true (millis 10))] in
  let '((res, _), _, _) := serve_one server 1 AuthDone steps empty_world in
  match sent_frames res with [reply] => reply./"code" = JInt 100408 | _ => False end.
Example legacy_before_hook_is_inside_the_request_deadline_pass : legacy_before_hook_is_inside_the_request_deadline.
Proof. run_test. Qed.

(** One after the other: the answers, the states that are left after each, and the
    tasks that run the hook. *)
Fixpoint refuse_n (n : nat) (id : Z) (w : world unit) : bool * nat * world unit :=
  match n with
  | O => (true, 0, w)
  | S n =>
      let a := MkAuth true false in
      let '((res, tasks), w, _) := serve_one (auth_server a) id (auth_ends a) (replicate 6 (step_at 0 [] None)) w in
      let clean := match states w !! id, sent_frames res with None, _ :: _ => true | _, _ => false end in
      let '(ok, k, w) := refuse_n n (id + 1) w in
      (clean && ok, length tasks + k, w)
  end.
Definition thousand_refused_auth_sessions_leave_no_registered_states : Prop :=
  let '(ok, count, w) := refuse_n 1000 1 empty_world in
  ok = true /\ count = 1000 /\ map_to_list (states w) = [].
Example thousand_refused_auth_sessions_leave_no_registered_states_pass :
  thousand_refused_auth_sessions_leave_no_registered_states.
Proof. run_test. Qed.
End admission.

(** ** [tests/ws_tls_policy.rs] *)

Section tls_policy.
(** A server on the loopback interface with a certificate for [localhost] of its own: a
    handshake needs that certificate among the roots of the configuration, and that
    name; the server then refuses the upgrade.  A configuration is here its roots. *)
Definition cert : string := "localhost".
Definition tls_handshake (_ : unit) (session : list string * string) : result unit string :=
  if bool_decide (cert ∈ session.1) && bool_decide (session.2 = cert) then Ok tt else Err "invalid peer certificate".
Definition build_to (host : string) (b : @builder (list string)) : result (@connected unit unit) string :=
  Connect.build u_host true (fun _ => Ok (Url true host 1 "/")) (fun _ _ => Ok [AddrV4 [127; 0; 0; 1]%Z 1]) (fun _ => Ok tt)
    (fun _ => "[127.0.0.1:1]") ["webpki"] (fun _ => [cert]) (@Some string) (fun (roots : list string) (name : string) => Ok (roots, name)) tls_handshake
    (fun _ _ _ _ _ _ => Err "status 400") (fun (_ : unit) _ _ _ _ _ => Err "status 400") b ("wss://" +:+ host +:+ "/") [].

Definition injected_wss_policy_validates_the_chain_and_host : Prop :=
  foldr (fun (case : string * bool) rest =>
    let '(host, approved) := case in
    (unwrap_err! error <- build_to host (builder_tls_config builder_new (if approved then [cert] else [])) in
     contains_str (if bool_decide (host = "localhost") && approved then "WebSocket upgrade failed" else "TLS handshake failed") error = true)
    /\ rest) True [("localhost", true); ("127.0.0.1", true); ("localhost", false)].
Example injected_wss_policy_validates_the_chain_and_host_pass : injected_wss_policy_validates_the_chain_and_host.
Proof. run_test. Qed.

Definition explicit_policy_cannot_be_bypassed : Prop :=
  unwrap_err! error <- build_to "localhost" (builder_tls_config (builder_danger builder_new) []) in
  contains_str "explicit TLS policy" error = true.
Example explicit_policy_cannot_be_bypassed_pass : explicit_policy_cannot_be_bypassed.
Proof. run_test. Qed.
End tls_policy.
